(* ===== verification/_CoqProject ===== *)
-Q . S2P
Prelude.v
Hashing.v
SyncChecksum.v
Decimal.v
Store.v
HashMap.v
PMap.v
PMapSpec.v
Chunk.v
Replicas.v
PMapProps.v
PMapIter.v
Traffic.v
PMapOpen.v
PMapLimits.v
TcpMessage.v
BuffConn.v
BuffWrite.v
UdpHeartbeat.v
TimeoutQueue.v
Broker.v
Core.v
CoreProps.v
Defrag.v
Locks.v
CoreFiles.v
CoreHistory.v
Defragmenter.v
Restart.v
Protection.v
ServerGroup.v
ServerGroupSpec.v
GroupString.v
Remote.v
Heartbeat.v
HeartbeatProps.v
HeartbeatTurn.v
Server.v
ServerProps.v
ComServer.v
Client.v
KVNet.v
ClientProps.v
ClientCAS.v
ClientDel.v
Service.v
Cluster.v
Repair.v
RepairAll.v
Transfer.v
Float64.v
Progress.v
Rebalance.v
RebalanceProps.v
Duplication.v
LoadRebalance.v
Queues.v
Boot.v
Duo.v
Connect.v
ClusterService.v
Join.v
Flags.v
NetUtils.v
Main.v
