(* ===== verification/Prelude.v ===== *)
(** * Treeless: a verification of the distributed key-value store

    Treeless stores pairs of a key and a timestamped value.  The keys are
    spread over chunks by their hash; a server holds some chunks, each a
    persistent dictionary ([pmap]) kept in a memory-mapped file; servers and
    clients talk through buffered TCP connections and tell each other which
    chunks they hold with UDP heartbeats.  A value starts with the 8 bytes of
    its timestamp and the last write wins, which is what lets replicas receive
    writes in any order.

    This file holds the vocabulary of the development: outcomes of Go calls
    (return, panic, out of fuel), machine integers as [Z] with their
    wrap-around written out, bytes, Go slices, little-endian integers, clock
    readings, and the tactics and lemmas shared by the components.

    ** The components and their files

    - [Hashing]: [FNV1a64], [GetChunkID] of src/hashing/hashing.go.
    - [SyncChecksum]: the checksum of src/core/pmap/syncchecksum.go, three sums
      over growing time windows.
    - [Store]: the log of records of src/core/pmap/store.go, at the level of the
      bytes of the file.  The mapping library gommap is not part of the
      repository: it is the class [Gommap], its documented behaviour is
      [GommapLaws], and [plainGommap] is an instance.
    - [HashMap]: the open-addressed index of src/core/pmap/hashmap.go.
    - [PMap]: every operation of src/core/pmap/pmap.go, composed from the three
      above.  The retry loops over the buckets are [probe]; [Iterate] and
      [BackwardsIterate] take the callback as a function on a state of its own.
    - [PMapSpec]: the abstract state of a chunk (the map, the log, the capacity
      and the drift of the checksum), the representation relation [pm_rep], and
      a simulation lemma for each operation.
    - [Chunk]: the interface a chunk offers to the rest of the program, as the
      classes [ChunkOps] and [ChunkLaws], with histories of operations and
      their simulation proved against the interface.
    - [Replicas]: [PMap] as an instance of the interface; last-write-wins
      delivery and convergence.
    - [Decimal]: printing and reading of numbers, which the names of files and
      the command line use.
    - [PMapProps], [PMapIter], [PMapOpen], [PMapLimits]: the properties of the
      primitives, of iteration, of reopening a file, and of three corners where
      the code does not do what it says.
    - [Traffic]: an iteration with the primitives that other goroutines run during
      its callbacks.
    - [TcpMessage]: src/com/protocol/tcpMessage.go.
    - [BuffConn] and [BuffWrite]: reading and writing of
      src/com/buffconn/buffconn.go.  The network is a list of segments for the
      reader and, for the writer, a growing list of bytes that may break off at
      any of them; the writer, the mutex, the channel, the flushing goroutine and
      [Close] are a step relation.
    - [UdpHeartbeat]: src/com/protocol/udpHeartbeat.go.
    - [TimeoutQueue]: the doubly linked queue of deadlines of
      src/com/comclient.go, its nodes in a heap with shared pointers.
    - [Broker]: the three goroutines of [broker] in src/com/comclient.go, each
      critical section a function, their interleavings a step relation.
    - [Core]: src/core/core.go and src/core/defrag.go; an operation is one
      critical section.  [CoreProps] relates a core to a list of abstract
      chunks; [Defrag] and [CoreFiles] treat the defragmenter and the files of
      the chunks, including two maps that share a file; [CoreHistory] treats
      histories with defragmentations and [Defragmenter] the goroutine that makes
      them; [Restart] closes a core and opens its files; [Locks] is the step
      relation of the two locks of a chunk; [Protection] is the step relation of
      protections, their goroutines and the clock.
    - [ServerGroup]: src/dist/servergroup (servergroup.go, virtualchunk.go, the
      state of virtualserver.go).  The servers live in a heap that the table of
      holders points into.  [ServerGroupSpec] relates it to a map from the known
      servers to their last announcement, and [GroupString] is its text.
    - [Remote]: the requests of src/com/comclient.go and of virtualserver.go,
      written against the class [Network], which says what dialling, sending,
      calling and pinging do to the rest of the world; the code threads a group
      and a world ([env], [comp]).
    - [Heartbeat]: src/dist/heartbeat/heartbeat.go; [HeartbeatProps] treats a
      request and the gossip it follows, [HeartbeatTurn] a whole turn.
    - [Server], [ServerProps]: src/server/server.go, its messages, transfers,
      creation, association and end.  The JSON encoding of a group is the class
      [Json].
    - [ComServer]: the start, the listening loops and the end of
      src/com/comserver.go, the loops as a step relation, and the UDP request of
      comclient.go.
    - [Client]: src/client/client.go.  [KVNet] is the interface that the
      theorems about clients are proved against: a class of networks whose
      servers answer the primitives as the specification says.  [ClientProps],
      [ClientCAS] and [ClientDel] are proved against it, and so is [Service],
      where many clients and the crashes of servers ([Faulty]) come together;
      [Cluster], a network made of the servers of [Server] and of the real
      encoding of messages, is an instance.
    - [Repair], [Transfer]: src/dist/repair/repair.go and the copying of a chunk,
      against [KVNet]; [RepairAll] treats any number of holders and the loop.
    - [Float64]: the 64-bit floating-point numbers of Go.
    - [Progress]: src/tlfmt/progress.go.
    - [Rebalance]: src/dist/rebalance/rebalance.go.  [RebalanceProps] treats the
      release of chunks, [Duplication] their duplication and [LoadRebalance] the
      loop that decides, all in a [Cluster]; [Queues] is the step relation of its
      goroutines and channels; [Boot] treats the start of servers; [Duo] holds a
      concrete network of two servers.
    - [Connect], [ClusterService] and [Join] compose the components: clients that
      connect to the servers of a [Cluster] and use it together, and servers that
      join it.
    - [Flags], [NetUtils], [Main]: src/treeless.go with its command line, and
      src/com/utils.go.  [Flags] writes out what the program uses of the package
      flag of the standard library.

    ** What the theorems show

    Each theorem states its conditions in its comment; the ones that recur are
    these.  A key is good when its 32-bit hash is neither of the two values that
    the index reserves: the others are stored and never found
    ([reserved_key_never_read]).  Two writes of a key at one time are two records
    that iteration and the defragmenter cannot tell apart, so the times of a key
    are different where those matter.  A store that fills up refuses records.

    - The dictionary refines a finite map where the last write wins, on every
      history in which only good keys are read and on every branch (C1); iteration
      visits the current pairs once each, in the order of the log (C29), and each
      untouched pair once when others use the chunk meanwhile (C30); replicas that
      are written to, without deletions, converge whatever the order and the
      repetitions of the writes (C3).
    - A new core is a list of such maps selected by the hash of the key, with an
      exact count of the chunks it holds (C4); for keys that are good and not empty
      and writes at different times, while no chunk fills up, defragmentations
      cannot be seen (C10), nor can the goroutine that makes them while no chunk is
      dropped (C22), and the data survive a restart (C9); a protected chunk stays
      protected for its period (C34).
    - Messages and heartbeats are read back as they were written (C31, C38);
      the stream is cut back into messages however the network delivers it, if none
      has from 636 to 2048 bytes (C32); the writer neither loses nor reorders while
      the connection holds, and sends a beginning of the messages if it does not
      (C33).
    - While no request on a connection has an earlier deadline than one before it,
      as with one timeout for all, every request is answered exactly once (C28) and
      in time (C27).
    - The server group refines a map (C6); gossip that reports only dead servers as
      dead discovers the live servers and ends (C26), and a turn of the heartbeater
      brings the group up to date (C25).
    - A server keeps its state well formed on every message except those that
      crash it, in the handler or in the goroutine of a transfer (C12); a request
      over the wire is a primitive on the core (C11); and stopping is clean under
      every interleaving in which neither a heartbeat nor a request crashes the
      server (C23).
    - A client reads the newest value of the holders it reaches (C16), writes
      (C15) and deletes what is not newer (C17) everywhere, and a CAS is decided by
      one master (C18) on whom the clients agree (C19).  Together, any number of
      clients whose calls do not overlap see one map where the last write wins,
      whatever servers crash, as long as the holders agree at the beginning, one of
      each key survives, the records fit and each CAS is later than what came
      before it (C2).
    - Composed: a client that connects learns the holders of every chunk (C14), and
      clients that connect to servers that know all the others are given that
      service (C13); a newcomer joins the group of a running server (C21).
    - Repair makes the holders of a chunk, at most eight and without deletions,
      agree (C5), from the eighth check in a row on at which they disagree (C24); a
      duplication from holders that can be reached ends with a copy of the chunk
      (C7); a release needs the protection of all the other holders at the moment
      of the drop, whatever the others do but give up protected copies (C8); the
      load rebalancer loses nothing, restores the redundancy and sleeps for at most
      3 seconds (C20).
    - The program that is interrupted and started again on its files has its data
      (C35), it shows the servers and holders of the group that it monitors (C36),
      and it serves with the settings of its flags and their defaults (C37).
    - C39 and C40 delimit the code: a race that loses a chunk and a heartbeat that
      panics, each with a concrete instance.

    Other theorems, not numbered, state the primitives one by one, the order of
    the queue of deadlines, the steps that the composed theorems are made of, what
    the program does with each of its operations and with a profile, and further
    corners where the code panics, deadlocks or loses data.  Among them
    [skewed_CAS_is_lost] shows why C2 asks for late times in a CAS,
    [deletes_diverge] why its calls must not overlap, and [stop_conditions_needed]
    what C23 needs; [queues_lose_nothing] treats the channels of the rebalancer.

    ** Bounds and fuel

    Chunks are at most 2^29 bytes ([maxChunkSize]), below the 2^32 that 32-bit
    store indices can address and small enough that the index never reaches its
    size limit.  Loops that are not structural take fuel: probing takes the
    number of buckets, and a free bucket is always met before; iteration and
    opening take the length of the log in bytes, more than its records; the
    queue takes its length; reading takes a fuel that the theorems bound by the
    bytes to come; a heartbeat request recurses at most four times more than
    there are live servers.  The theorems conclude that the result is returned,
    so the fuel is enough, except [Read_livelock] and [gossip_never_ends], which
    show that no fuel is.
    Groups are taken to have at most eight holders of a chunk where the code
    reads them into an array of eight; a ninth panics.

    ** Time and concurrency

    A message is processed as a whole, and the requests that a client sends to
    several servers take effect in the order in which they are sent; the
    interleavings inside a connection are those of [Broker] and [BuffWrite].
    The clock of a network does not move while one operation runs; between the
    calls of C2, each of which ends before the next begins, it may go anywhere,
    back as well.  A connection that the remote
    end has closed is noticed as a request that times out.  The steps of the
    releasers of two servers are interleaved explicitly in C39, and the steps of
    one with any change of the other servers that keeps protected copies in C8; so
    are the actions of [Stop], the listeners and the clients in C23, the primitives
    that run during an iteration in C30, the turns of the defragmenter in C22, and
    the goroutines of the rebalancer in [Queues].  The goroutine of a transfer runs
    to its end without other messages in C12.

    ** Not modelled

    Log messages, the file system beyond the contents of the files found, the
    sockets of the operating system and name resolution, of which only the result
    of opening and dialling is an argument, the bytes of JSON, the pauses of the
    loops other than those of the rebalancer, memory exhaustion.  The web server
    of the Go profiler, the free disk space of rebalance.go, which no code reads,
    the text of a chunk in virtualchunk.go, which is built and dropped, the status
    channel of the defragmenter, which no caller sets, and the drivers of the tests
    (src/testing), which start processes and machines, are left out. *)
From Stdlib Require Export ZArith Lia Strings.Byte.
From stdpp Require Export base numbers option strings gmap list.

Open Scope Z_scope.

(** ** Outcomes

    A Go call returns, panics (index or slice bounds, nil dereference, an
    explicit [panic]) or, for a loop that is modelled with fuel, has not
    finished within that fuel.  Errors that the code returns as values are
    ordinary results. *)
Inductive outcome (A : Type) : Type :=
  | Ret (a : A)
  | Panic
  | OutOfFuel.
Arguments Ret {A} a.
Arguments Panic {A}.
Arguments OutOfFuel {A}.

#[export] Instance outcome_ret : MRet outcome := @Ret.
#[export] Instance outcome_bind : MBind outcome := λ A B f m,
  match m with Ret a => f a | Panic => Panic | OutOfFuel => OutOfFuel end.
#[export] Instance outcome_fmap : FMap outcome := λ A B f m,
  match m with Ret a => Ret (f a) | Panic => Panic | OutOfFuel => OutOfFuel end.
#[export] Instance outcome_eq_dec `{EqDecision A} : EqDecision (outcome A).
Proof. solve_decision. Defined.

(** [b] must hold for the run-time check to pass. *)
Definition check (b : bool) : outcome unit := if b then Ret tt else Panic.

Definition is_panic {A} (m : outcome A) : bool :=
  match m with Panic => true | _ => false end.

Lemma bind_Ret_inv {A B} (m : outcome A) (f : A → outcome B) b :
  (m ≫= f) = Ret b ↔ ∃ a, m = Ret a ∧ f a = Ret b.
Proof. destruct m; simpl; naive_solver. Qed.

Lemma check_Ret_inv b u : check b = Ret u ↔ b = true.
Proof. destruct b, u; simpl; naive_solver. Qed.

Lemma check_true b : b = true → check b = Ret tt.
Proof. by intros ->. Qed.

(** ** Machine integers: a [w]-bit value is a [Z] in [0, 2^w) *)

Definition u8 (z : Z) : Z := z mod 2 ^ 8.
Definition u16 (z : Z) : Z := z mod 2 ^ 16.
Definition u32 (z : Z) : Z := z mod 2 ^ 32.
Definition u64 (z : Z) : Z := z mod 2 ^ 64.
(** The conversion [int64(x)] of an unsigned 64-bit value. *)
Definition s64 (z : Z) : Z :=
  let r := u64 z in if r <? 2 ^ 63 then r else r - 2 ^ 64.
(** The conversion [int32(x)]. *)
Definition s32 (z : Z) : Z :=
  let r := u32 z in if r <? 2 ^ 31 then r else r - 2 ^ 32.

Lemma u8_range z : 0 ≤ u8 z < 2 ^ 8. Proof. by apply Z.mod_pos_bound. Qed.
Lemma u16_range z : 0 ≤ u16 z < 2 ^ 16. Proof. by apply Z.mod_pos_bound. Qed.
Lemma u32_range z : 0 ≤ u32 z < 2 ^ 32. Proof. by apply Z.mod_pos_bound. Qed.
Lemma u64_range z : 0 ≤ u64 z < 2 ^ 64. Proof. by apply Z.mod_pos_bound. Qed.
Lemma u8_small z : 0 ≤ z < 2 ^ 8 → u8 z = z. Proof. apply Z.mod_small. Qed.
Lemma u16_small z : 0 ≤ z < 2 ^ 16 → u16 z = z. Proof. apply Z.mod_small. Qed.
Lemma u32_small z : 0 ≤ z < 2 ^ 32 → u32 z = z. Proof. apply Z.mod_small. Qed.
Lemma u64_small z : 0 ≤ z < 2 ^ 64 → u64 z = z. Proof. apply Z.mod_small. Qed.

Lemma s32_small z : 0 ≤ z < 2 ^ 31 → s32 z = z.
Proof. intros. unfold s32. rewrite u32_small by lia. rewrite (proj2 (Z.ltb_lt z (2 ^ 31))); lia. Qed.

Lemma s64_range z : - 2 ^ 63 ≤ s64 z < 2 ^ 63.
Proof.
  unfold s64. pose proof (u64_range z).
  destruct (Z.ltb_spec (u64 z) (2 ^ 63)); lia.
Qed.

Lemma s64_small z : 0 ≤ z < 2 ^ 63 → s64 z = z.
Proof.
  intros Hz. unfold s64. rewrite u64_small by lia.
  destruct (Z.ltb_spec z (2 ^ 63)); lia.
Qed.

Lemma u64_s64 z : u64 (s64 z) = u64 z.
Proof.
  unfold s64. pose proof (u64_range z) as Hr.
  destruct (Z.ltb_spec (u64 z) (2 ^ 63)).
  - by apply u64_small.
  - unfold u64 at 1. replace (u64 z - 2 ^ 64) with (u64 z + (-1) * 2 ^ 64) by lia.
    rewrite Z.mod_add by lia. by apply u64_small.
Qed.

Lemma s64_inj x y :
  0 ≤ x < 2 ^ 64 → 0 ≤ y < 2 ^ 64 → s64 x = s64 y → x = y.
Proof.
  intros Hx Hy E. apply (f_equal u64) in E. rewrite !u64_s64 in E.
  by rewrite !u64_small in E.
Qed.

(** ** Bytes *)

Definition byte_to_Z (b : byte) : Z := Z.of_N (Byte.to_N b).
Definition byte_of_Z (z : Z) : byte := default x00 (Byte.of_N (Z.to_N (u8 z))).

#[export] Instance byte_eq_dec : EqDecision byte := Byte.byte_eq_dec.
#[export] Instance byte_countable : Countable byte.
Proof.
  refine (inj_countable Byte.to_N Byte.of_N _). intros b; apply Byte.of_to_N.
Defined.

Lemma byte_to_Z_range b : 0 ≤ byte_to_Z b < 256.
Proof. unfold byte_to_Z. pose proof (Byte.to_N_bounded b). lia. Qed.

Lemma byte_of_to_Z b : byte_of_Z (byte_to_Z b) = b.
Proof.
  unfold byte_of_Z. pose proof (byte_to_Z_range b).
  rewrite u8_small by lia. unfold byte_to_Z. rewrite N2Z.id.
  by rewrite Byte.of_to_N.
Qed.

Lemma byte_to_of_Z z : byte_to_Z (byte_of_Z z) = u8 z.
Proof.
  unfold byte_of_Z, byte_to_Z. pose proof (u8_range z) as Hr.
  destruct (Byte.of_N (Z.to_N (u8 z))) as [b|] eqn:E; simpl.
  - apply Byte.to_of_N in E. rewrite E. lia.
  - apply Byte.of_N_None_iff in E. lia.
Qed.

Lemma byte_to_Z_inj a b : byte_to_Z a = byte_to_Z b → a = b.
Proof. intros E. by rewrite <- (byte_of_to_Z a), E, byte_of_to_Z. Qed.

(** ** Lengths as [Z] and the rewriting database [zlen] *)

Definition zlen {A} (l : list A) : Z := Z.of_nat (length l).

Create Rewrite HintDb zlen.

Section zlen_lemmas.
Context {A : Type}.
Implicit Types l k : list A.

Lemma zlen_nonneg l : 0 ≤ zlen l.
Proof. unfold zlen. lia. Qed.
Lemma zlen_nil : zlen ([] : list A) = 0.
Proof. done. Qed.
Lemma zlen_cons x l : zlen (x :: l) = 1 + zlen l.
Proof. unfold zlen. simpl. lia. Qed.
Lemma zlen_app l k : zlen (l ++ k) = zlen l + zlen k.
Proof. unfold zlen. rewrite length_app. lia. Qed.
Lemma zlen_replicate n (x : A) : 0 ≤ n → zlen (replicate (Z.to_nat n) x) = n.
Proof. intros. unfold zlen. rewrite length_replicate. lia. Qed.
Lemma zlen_take n l : 0 ≤ n ≤ zlen l → zlen (take (Z.to_nat n) l) = n.
Proof. unfold zlen. intros. rewrite length_take. lia. Qed.
Lemma zlen_drop n l : 0 ≤ n ≤ zlen l → zlen (drop (Z.to_nat n) l) = zlen l - n.
Proof. unfold zlen. intros. rewrite length_drop. lia. Qed.
Lemma zlen_0_nil l : zlen l = 0 → l = [].
Proof. destruct l; [done|]. rewrite zlen_cons. pose proof (zlen_nonneg l). lia. Qed.

(** A list can be cut at any offset within it. *)
Lemma split_at l n :
  0 ≤ n ≤ zlen l → ∃ l1 l2, l = l1 ++ l2 ∧ zlen l1 = n.
Proof.
  intros Hn. exists (take (Z.to_nat n) l), (drop (Z.to_nat n) l).
  by rewrite take_drop, zlen_take.
Qed.

Lemma app_inj_zlen l1 l2 k1 k2 :
  l1 ++ k1 = l2 ++ k2 → zlen l1 = zlen l2 → l1 = l2 ∧ k1 = k2.
Proof. unfold zlen. intros E L. apply app_inj_1; [lia|done]. Qed.
End zlen_lemmas.

#[export] Hint Rewrite @zlen_cons @zlen_app : zlen.

(** [zlen []] is convertible to [0], so it is normalised by conversion. *)
Ltac zlen_nil_simpl :=
  repeat match goal with
  | |- context [@zlen ?A []] => change (@zlen A []) with 0
  | H : context [@zlen ?A []] |- _ => change (@zlen A []) with 0 in H
  end.

(** Normalise lengths, add the lower bound of each, and finish with [lia]. *)
Ltac zlen_bounds :=
  repeat match goal with
  | |- context [zlen ?l] =>
      lazymatch goal with H : 0 ≤ zlen l |- _ => fail | _ => pose proof (zlen_nonneg l) end
  | _ : context [zlen ?l] |- _ =>
      lazymatch goal with H : 0 ≤ zlen l |- _ => fail | _ => pose proof (zlen_nonneg l) end
  end.
Ltac zl := zlen_nil_simpl; autorewrite with zlen in *; zlen_nil_simpl; zlen_bounds; lia.

(** ** Go slices

    [slice l lo hi] is the expression [l[lo:hi]] on a slice whose capacity is
    its length, [slice_from l lo] is [l[lo:]] and [index l i] is [l[i]]; each
    panics out of range. *)
Section slices.
Context {A : Type}.
Implicit Types l : list A.

Definition slice l (lo hi : Z) : outcome (list A) :=
  if (0 <=? lo) && (lo <=? hi) && (hi <=? zlen l)
  then Ret (take (Z.to_nat (hi - lo)) (drop (Z.to_nat lo) l))
  else Panic.

Definition slice_from l (lo : Z) : outcome (list A) := slice l lo (zlen l).

Definition index l (i : Z) : outcome A :=
  if (0 <=? i) then match l !! Z.to_nat i with Some x => Ret x | None => Panic end
  else Panic.

(** [copy(l[lo:hi], src)]: writes as much of [src] as fits. *)
Definition copy_into l (lo hi : Z) (src : list A) : outcome (list A) :=
  if (0 <=? lo) && (lo <=? hi) && (hi <=? zlen l)
  then let n := Z.to_nat (Z.min (hi - lo) (zlen src)) in
       Ret (take (Z.to_nat lo) l ++ take n src ++ drop (Z.to_nat lo + n) l)
  else Panic.

Lemma slice_app pre mid post lo hi :
  lo = zlen pre → hi = zlen pre + zlen mid →
  slice (pre ++ mid ++ post) lo hi = Ret mid.
Proof.
  intros -> ->. unfold slice.
  pose proof (zlen_nonneg pre). pose proof (zlen_nonneg mid).
  pose proof (zlen_nonneg post).
  rewrite !zlen_app.
  replace (_ && _) with true by (symmetry; rewrite !andb_true_iff, !Z.leb_le; lia).
  unfold zlen. rewrite Nat2Z.id, drop_app_length.
  replace (Z.to_nat _) with (length mid) by lia. by rewrite take_app_length.
Qed.

Lemma slice_front mid post hi : hi = zlen mid → slice (mid ++ post) 0 hi = Ret mid.
Proof. intros ->. exact (slice_app [] mid post 0 (zlen mid) eq_refl eq_refl). Qed.

Lemma slice_panic l lo hi :
  ¬ (0 ≤ lo ≤ hi ∧ hi ≤ zlen l) → slice l lo hi = Panic.
Proof.
  intros H. unfold slice. destruct (_ && _) eqn:E; [|done].
  rewrite !andb_true_iff, !Z.leb_le in E. lia.
Qed.

Lemma slice_Ret l lo hi :
  0 ≤ lo ≤ hi → hi ≤ zlen l →
  ∃ s, slice l lo hi = Ret s ∧ zlen s = hi - lo.
Proof.
  intros H1 H2. unfold slice.
  replace (_ && _) with true by (symmetry; rewrite !andb_true_iff, !Z.leb_le; lia).
  eexists; split; [done|]. rewrite zlen_take; [done|]. rewrite zlen_drop; lia.
Qed.

Lemma slice_mid l lo hi :
  0 ≤ lo ≤ hi → hi ≤ zlen l →
  slice l lo hi = Ret (take (Z.to_nat (hi - lo)) (drop (Z.to_nat lo) l)).
Proof.
  intros H1 H2. unfold slice.
  replace (_ && _) with true by (symmetry; rewrite !andb_true_iff, !Z.leb_le; lia). done.
Qed.

Lemma slice_from_drop l lo :
  0 ≤ lo ≤ zlen l → slice_from l lo = Ret (drop (Z.to_nat lo) l).
Proof.
  intros H. unfold slice_from. rewrite slice_mid by lia. f_equal.
  apply take_ge. unfold zlen in *. rewrite length_drop. lia.
Qed.

Lemma slice_from_panic l lo : ¬ (0 ≤ lo ≤ zlen l) → slice_from l lo = Panic.
Proof. intros H. unfold slice_from. apply slice_panic. lia. Qed.

Lemma slice_inv l lo hi s :
  slice l lo hi = Ret s →
  ∃ pre post, l = pre ++ s ++ post ∧ zlen pre = lo ∧ zlen s = hi - lo.
Proof.
  intros H. unfold slice in H. destruct (_ && _) eqn:E; [|done].
  rewrite !andb_true_iff, !Z.leb_le in E. simplify_eq.
  exists (take (Z.to_nat lo) l), (drop (Z.to_nat (hi - lo)) (drop (Z.to_nat lo) l)).
  rewrite take_drop, take_drop. split_and!; [done| |].
  - apply zlen_take. lia.
  - rewrite zlen_take; [done|]. rewrite zlen_drop; lia.
Qed.

Lemma slice_full l : slice l 0 (zlen l) = Ret l.
Proof.
  pose proof (slice_app [] l [] 0 (zlen l)) as H.
  rewrite app_nil_l, app_nil_r in H. apply H; zl.
Qed.

Lemma slice_from_app pre post lo :
  lo = zlen pre → slice_from (pre ++ post) lo = Ret post.
Proof.
  intros ->. unfold slice_from. 
  pose proof (slice_app pre post [] (zlen pre) (zlen (pre ++ post))) as H.
  rewrite app_nil_r in H. apply H; [done|]. by rewrite zlen_app.
Qed.

Lemma index_app pre x post i :
  i = zlen pre → index (pre ++ x :: post) i = Ret x.
Proof.
  intros ->. unfold index, zlen.
  replace (0 <=? _) with true by (symmetry; apply Z.leb_le; lia).
  by rewrite Nat2Z.id, list_lookup_middle.
Qed.

Lemma index_panic l i : ¬ (0 ≤ i < zlen l) → index l i = Panic.
Proof.
  intros H. unfold index. destruct (Z.leb_spec 0 i); [|done].
  rewrite lookup_ge_None_2; [done|]. unfold zlen in H. lia.
Qed.

Lemma index_lookup l i x :
  0 ≤ i → l !! Z.to_nat i = Some x → index l i = Ret x.
Proof. intros H E. unfold index. apply Z.leb_le in H as ->. by rewrite E. Qed.

Lemma copy_into_nil l lo hi : 0 ≤ lo ≤ hi → hi ≤ zlen l → copy_into l lo hi [] = Ret l.
Proof.
  intros H1 H2. unfold copy_into.
  replace (_ && _) with true by (symmetry; rewrite !andb_true_iff, !Z.leb_le; lia).
  change (zlen []) with 0. rewrite Z.min_r by lia. cbn [take Z.to_nat app].
  by rewrite Nat.add_0_r, app_nil_l, take_drop.
Qed.

Lemma copy_into_app pre old post src lo hi :
  lo = zlen pre → zlen src = zlen old → zlen pre + zlen old ≤ hi →
  hi ≤ zlen pre + zlen old + zlen post →
  copy_into (pre ++ old ++ post) lo hi src = Ret (pre ++ src ++ post).
Proof.
  intros -> L H1 H2. unfold copy_into.
  pose proof (zlen_nonneg pre). pose proof (zlen_nonneg old).
  rewrite !zlen_app.
  replace (_ && _) with true by (symmetry; rewrite !andb_true_iff, !Z.leb_le; lia).
  replace (Z.min _ _) with (zlen src) by lia.
  unfold zlen in *. rewrite !Nat2Z.id, take_app_length, firstn_all.
  do 3 f_equal.
  replace (length pre + length src)%nat with (length (pre ++ old)).
  2:{ rewrite length_app. lia. }
  by rewrite (assoc_L (++)), drop_app_length.
Qed.
End slices.

(** ** Little-endian integers ([encoding/binary]) *)

Fixpoint le_enc (n : nat) (z : Z) : list byte :=
  match n with
  | O => []
  | S n => byte_of_Z z :: le_enc n (z / 256)
  end.

Fixpoint le_dec (bs : list byte) : Z :=
  match bs with
  | [] => 0
  | b :: bs => byte_to_Z b + 256 * le_dec bs
  end.

Lemma le_enc_length n z : length (le_enc n z) = n.
Proof. revert z. induction n; intros; simpl; auto. Qed.

Lemma zlen_le_enc n z : zlen (le_enc n z) = Z.of_nat n.
Proof. unfold zlen. by rewrite le_enc_length. Qed.
#[export] Hint Rewrite zlen_le_enc : zlen.

Lemma le_dec_enc n z : le_dec (le_enc n z) = z mod 256 ^ Z.of_nat n.
Proof.
  revert z. induction n as [|n IH]; intros z; simpl le_enc; simpl le_dec.
  - by rewrite Z.mod_1_r.
  - rewrite IH, byte_to_of_Z. unfold u8. change (2 ^ 8) with 256.
    rewrite Nat2Z.inj_succ, Z.pow_succ_r by lia.
    rewrite Z.rem_mul_r by lia. done.
Qed.

Lemma le_dec_range bs : 0 ≤ le_dec bs < 256 ^ zlen bs.
Proof.
  induction bs as [|b bs IH].
  - zlen_nil_simpl. simpl. lia.
  - rewrite zlen_cons. simpl le_dec. pose proof (byte_to_Z_range b).
    rewrite Z.pow_add_r by (pose proof (zlen_nonneg bs); lia). lia.
Qed.

Lemma le_enc_dec bs : le_enc (length bs) (le_dec bs) = bs.
Proof.
  induction bs as [|b bs IH]; [done|]. simpl le_dec. simpl length. simpl le_enc.
  pose proof (byte_to_Z_range b). f_equal.
  - rewrite <- (byte_of_to_Z b) at 2. unfold byte_of_Z. do 3 f_equal.
    unfold u8. change (2 ^ 8) with 256.
    rewrite (Z.mul_comm 256), Z.mod_add by lia. done.
  - rewrite (Z.mul_comm 256), Z.div_add, Z.div_small by lia. by rewrite Z.add_0_l.
Qed.

Lemma le_dec_app a b : le_dec (a ++ b) = le_dec a + 256 ^ zlen a * le_dec b.
Proof.
  induction a as [|x a IH]; [change (zlen []) with 0; simpl; lia|]. rewrite zlen_cons. simpl le_dec.
  pose proof (zlen_nonneg a). rewrite IH, Z.pow_add_r by lia. lia.
Qed.

Lemma le_dec_inj a b : length a = length b → le_dec a = le_dec b → a = b.
Proof. intros L E. rewrite <- (le_enc_dec a), <- (le_enc_dec b). congruence. Qed.

(** [binary.LittleEndian.UintN(b)] with [n = N / 8] bytes. *)
Definition get_le (n : Z) (b : list byte) : outcome Z :=
  s ← slice b 0 n; Ret (le_dec s).

(** [binary.LittleEndian.PutUintN(b[off:], x)]. *)
Definition put_le (n : nat) (b : list byte) (off x : Z) : outcome (list byte) :=
  rest ← slice_from b off;
  _ ← check (Z.of_nat n <=? zlen rest);
  copy_into b off (off + Z.of_nat n) (le_enc n x).

Lemma get_le_app n bs rest :
  zlen bs = n → get_le n (bs ++ rest) = Ret (le_dec bs).
Proof.
  intros L. unfold get_le.
  rewrite (slice_app [] bs rest); [done|zl|zl].
Qed.

Lemma get_le_all n b : zlen b = n → get_le n b = Ret (le_dec b).
Proof. intros H. rewrite <- (app_nil_r b) at 1. by apply get_le_app. Qed.

Lemma get_le_take n b : 0 ≤ n ≤ zlen b → get_le n b = Ret (le_dec (take (Z.to_nat n) b)).
Proof. intros H. unfold get_le. rewrite slice_mid by lia. simpl. by rewrite Z.sub_0_r. Qed.

(** An integer field inside a buffer. *)
Lemma get_le_field n b off :
  0 ≤ off → 0 ≤ n → off + n ≤ zlen b →
  slice b off (off + n) ≫= get_le n = Ret (le_dec (take (Z.to_nat n) (drop (Z.to_nat off) b))).
Proof.
  intros H1 H2 H3. rewrite slice_mid by lia. simpl. replace (off + n - off) with n by lia.
  apply get_le_all. rewrite zlen_take; [done|]. rewrite zlen_drop; lia.
Qed.

Lemma get_le_panic n b : zlen b < n → get_le n b = Panic.
Proof. intros H. unfold get_le. rewrite slice_panic; [done|lia]. Qed.

Lemma put_le_app n pre old post off x :
  off = zlen pre → zlen old = Z.of_nat n →
  put_le n (pre ++ old ++ post) off x = Ret (pre ++ le_enc n x ++ post).
Proof.
  intros -> L. unfold put_le. rewrite slice_from_app by done. simpl.
  rewrite check_true; simpl.
  2:{ apply Z.leb_le. rewrite zlen_app. pose proof (zlen_nonneg post). lia. }
  pose proof (zlen_nonneg post).
  apply copy_into_app; rewrite ?zlen_le_enc; lia.
Qed.

Lemma put_le_panic n pre post off x :
  off = zlen pre → zlen post < Z.of_nat n → put_le n (pre ++ post) off x = Panic.
Proof.
  intros -> L. unfold put_le. rewrite slice_from_app by done. simpl.
  destruct (Z.leb_spec (Z.of_nat n) (zlen post)); [lia|done].
Qed.

Lemma put_le_front n old post x :
  zlen old = Z.of_nat n → put_le n (old ++ post) 0 x = Ret (le_enc n x ++ post).
Proof. intros L. exact (put_le_app n [] old post 0 x eq_refl L). Qed.

#[global] Arguments zlen : simpl never.
#[global] Arguments le_enc : simpl never.
#[global] Arguments le_dec : simpl never.
#[global] Arguments slice : simpl never.
#[global] Arguments slice_from : simpl never.
#[global] Arguments index : simpl never.
#[global] Arguments copy_into : simpl never.
#[global] Arguments get_le : simpl never.
#[global] Arguments put_le : simpl never.
#[global] Arguments u8 : simpl never.
#[global] Arguments u16 : simpl never.
#[global] Arguments u32 : simpl never.
#[global] Arguments u64 : simpl never.
#[global] Arguments s64 : simpl never.

(** The bytes of a string literal. *)
Definition str (s : string) : list byte := String.list_byte_of_string s.

(** ** Bit operations *)

Lemma lxor_range n a b :
  0 ≤ n → 0 ≤ a < 2 ^ n → 0 ≤ b < 2 ^ n → 0 ≤ Z.lxor a b < 2 ^ n.
Proof.
  intros Hn Ha Hb. assert (0 ≤ Z.lxor a b) by (apply Z.lxor_nonneg; lia).
  split; [done|]. destruct (decide (Z.lxor a b = 0)) as [->|]; [lia|].
  apply Z.log2_lt_pow2; [lia|].
  destruct (decide (n = 0)) as [->|]; [assert (a = 0) by lia; assert (b = 0) by lia; by subst|].
  eapply Z.le_lt_trans; [apply Z.log2_lxor; lia|].
  assert (∀ x, 0 ≤ x < 2 ^ n → Z.log2 x < n) as Hlog.
  { intros x Hx. destruct (decide (x = 0)) as [->|]; [simpl; lia|].
    apply Z.log2_lt_pow2; lia. }
  apply Z.max_lub_lt; by apply Hlog.
Qed.

Lemma lxor_cancel_r a b c : Z.lxor a c = Z.lxor b c → a = b.
Proof.
  intros E. rewrite <- (Z.lxor_0_r a), <- (Z.lxor_0_r b), <- (Z.lxor_nilpotent c).
  by rewrite <- !Z.lxor_assoc, E.
Qed.

(** A shift-and-or loop that builds [n] ones. *)
Lemma lor_ones_succ n : 0 ≤ n → Z.lor (Z.ones n) (Z.shiftl 1 n) = Z.ones (n + 1).
Proof.
  intros Hn. apply Z.bits_inj'; intros i Hi.
  rewrite Z.lor_spec, Z.shiftl_spec by lia.
  destruct (Z.lt_total i n) as [H|[->|H]].
  - rewrite !Z.ones_spec_low by lia. done.
  - rewrite Z.sub_diag, (Z.ones_spec_low (n + 1)) by lia. apply orb_true_r.
  - rewrite !Z.ones_spec_high by lia. simpl.
    replace 1 with (2 ^ 0) by done. apply Z.pow2_bits_false. lia.
Qed.

(** ** Time

    A [time.Time] is the number of nanoseconds since the Unix epoch; the zero
    [time.Time] is midnight of January 1 of year 1.  [time.Now] is an input of
    the operations that read the clock. *)
Definition time := Z.
Definition second : Z := 1000000000.
Definition millisecond : Z := 1000000.
Definition zero_time : time := -62135596800 * second.
(** [time.Unix(sec, nsec)]. *)
Definition time_unix (sec nsec : Z) : time := sec * second + nsec.
(** [t.Unix()]. *)
Definition unix_sec (t : time) : Z := t / second.
(** [time.Unix(0, int64(x))] for the 64-bit header [x] of a stored value. *)
Definition time_of_header (x : Z) : time := time_unix 0 (s64 x).

Lemma time_of_header_after_zero x : zero_time < time_of_header x.
Proof.
  unfold zero_time, time_of_header, time_unix, second. pose proof (s64_range x). lia.
Qed.

Lemma time_of_header_inj x y :
  0 ≤ x < 2 ^ 64 → 0 ≤ y < 2 ^ 64 → time_of_header x = time_of_header y → x = y.
Proof.
  unfold time_of_header, time_unix. intros Hx Hy E. apply s64_inj; [done..|lia].
Qed.

(** The least index that satisfies a decidable property. *)
Lemma least_index (P : Z → Prop) (Pdec : ∀ n, Decision (P n)) n0 :
  0 ≤ n0 → P n0 → ∃ n, 0 ≤ n ≤ n0 ∧ P n ∧ ∀ j, 0 ≤ j < n → ¬ P j.
Proof.
  intros Hn0 HP.
  assert (∀ k : nat, (∃ n, 0 ≤ n < Z.of_nat k ∧ P n ∧ ∀ j, 0 ≤ j < n → ¬ P j) ∨
                     ∀ j, 0 ≤ j < Z.of_nat k → ¬ P j) as H.
  { induction k as [|k [(n & Hn & Hp)|Hno]].
    - right. lia.
    - left. exists n. split; [lia|done].
    - destruct (Pdec (Z.of_nat k)).
      + left. exists (Z.of_nat k). split_and!; [lia..|done|done].
      + right. intros j Hj. destruct (decide (j = Z.of_nat k)) as [->|]; [done|].
        apply Hno. lia. }
  destruct (H (Z.to_nat n0 + 1)%nat) as [(n & Hn & Hp & Hl)|Hno].
  - exists n. split; [lia|done].
  - exfalso. apply (Hno n0); [lia|done].
Qed.

(** A shorter prefix of the same list is a prefix of the longer one. *)
Lemma prefix_split {A} (a x b y : list A) :
  a ++ x = b ++ y → zlen b ≤ zlen a → ∃ r, a = b ++ r ∧ y = r ++ x.
Proof.
  intros E L. exists (drop (length b) a). unfold zlen in L.
  pose proof (f_equal (take (length b)) E) as Et. pose proof (f_equal (drop (length b)) E) as Ed.
  rewrite take_app_length, take_app_le in Et by lia.
  rewrite drop_app_length, drop_app_le in Ed by lia.
  split; [|done]. rewrite <- Et at 1. by rewrite take_drop.
Qed.

(** Two positions of a list are the same, or one is before the other. *)
Lemma split_cases {A} (l1 : list A) x l2 k1 y k2 :
  l1 ++ x :: l2 = k1 ++ y :: k2 →
  (l1 = k1 ∧ x = y ∧ l2 = k2) ∨
  (∃ m, k1 = l1 ++ x :: m ∧ l2 = m ++ y :: k2) ∨
  (∃ m, l1 = k1 ++ y :: m ∧ k2 = m ++ x :: l2).
Proof.
  revert k1. induction l1 as [|z l1 IH]; intros [|w k1] E; injection E as -> E.
  - by left.
  - right. left. by exists k1.
  - right. right. by exists l1.
  - destruct (IH k1 E) as [(-> & -> & ->)|[(m & -> & ->)|(m & -> & ->)]]; eauto.
Qed.

(** ** Automation *)

(** Take apart a successful run of a sequence of calls. *)
Ltac outcome_inv :=
  repeat match goal with
  | H : (_ ≫= _) = Ret _ |- _ =>
      let a := fresh "a" in let E := fresh "E" in
      apply bind_Ret_inv in H as (a & E & H)
  | H : check _ = Ret _ |- _ => apply check_Ret_inv in H
  | H : Ret _ = Ret _ |- _ => apply (inj Ret) in H
  | H : mret _ = Ret _ |- _ => apply (inj Ret) in H
  end.

#[export] Instance Ret_inj {A} : Inj (=) (=) (@Ret A).
Proof. by intros ? ? [= ->]. Qed.

(** Reduce the sequencing of calls and the projections of a slice only. *)
Ltac bsimpl := cbn [mbind outcome_bind mret outcome_ret fmap outcome_fmap fst snd].

(** Case analysis on the boolean comparisons of the code. *)
Ltac bool_case :=
  match goal with
  | |- context [?a <? ?b] => destruct (Z.ltb_spec a b)
  | |- context [?a <=? ?b] => destruct (Z.leb_spec a b)
  | |- context [?a =? ?b] => destruct (Z.eqb_spec a b)
  end.

Ltac bool_prop :=
  repeat match goal with
  | H : (_ && _) = true |- _ => apply andb_true_iff in H as [? ?]
  | H : (_ || _) = false |- _ => apply orb_false_iff in H as [? ?]
  | H : negb _ = true |- _ => apply negb_true_iff in H
  | H : negb _ = false |- _ => apply negb_false_iff in H
  | H : (_ <? _) = true |- _ => apply Z.ltb_lt in H
  | H : (_ <? _) = false |- _ => apply Z.ltb_ge in H
  | H : (_ <=? _) = true |- _ => apply Z.leb_le in H
  | H : (_ <=? _) = false |- _ => apply Z.leb_gt in H
  | H : (_ =? _) = true |- _ => apply Z.eqb_eq in H
  | H : (_ =? _) = false |- _ => apply Z.eqb_neq in H
  end.
