(* ===== verification/Hashing.v ===== *)
(** * Hashing: the FNV-1a hash and the chunk of a key ([src/hashing/hashing.go])

    [FNV1a64] is the hash every layer uses: its upper half selects the chunk
    of a key, its lower half the bucket inside the chunk, and the whole value
    stands for the old value in a compare-and-swap. *)
From S2P Require Import Prelude.

Definition offset64 : Z := 14695981039346656037.
Definition prime64 : Z := 1099511628211.

(** One iteration of the loop: [h ^= uint64(c); h *= prime64]. *)
Definition fnv_step (h : Z) (c : byte) : Z := u64 (Z.lxor h (byte_to_Z c) * prime64).

Definition FNV1a64 (b : list byte) : Z := fold_left fnv_step b offset64.

(** [int((h >> 32) % uint64(numChunks))]; the remainder by zero panics. *)
Definition GetChunkID (b : list byte) (numChunks : Z) : outcome Z :=
  let h := FNV1a64 b in
  _ ← check (negb (u64 numChunks =? 0));
  Ret (Z.shiftr h 32 mod u64 numChunks).

(** The inverse of [prime64] modulo [2^64]. *)
Definition prime64_inv : Z := 14886173955864302971.

(** ** Range of the hash *)

Lemma fnv_step_range h c : 0 ≤ fnv_step h c < 2 ^ 64.
Proof. apply u64_range. Qed.

Lemma fold_fnv_range b h : 0 ≤ h < 2 ^ 64 → 0 ≤ fold_left fnv_step b h < 2 ^ 64.
Proof.
  revert h. induction b as [|c b IH]; intros h Hh; simpl; [done|].
  apply IH, fnv_step_range.
Qed.

Lemma FNV1a64_range b : 0 ≤ FNV1a64 b < 2 ^ 64.
Proof. apply fold_fnv_range. unfold offset64. lia. Qed.

Lemma FNV1a64_app a b : FNV1a64 (a ++ b) = fold_left fnv_step b (FNV1a64 a).
Proof. apply fold_left_app. Qed.

(** ** Every step is a bijection of the 64-bit states *)

Lemma mul_prime64_inj x y :
  0 ≤ x < 2 ^ 64 → 0 ≤ y < 2 ^ 64 → u64 (x * prime64) = u64 (y * prime64) → x = y.
Proof.
  intros Hx Hy E.
  assert (∀ z, 0 ≤ z < 2 ^ 64 → u64 (u64 (z * prime64) * prime64_inv) = z) as Hinv.
  { intros z Hz. unfold u64. rewrite Z.mul_mod_idemp_l by lia.
    rewrite <- Z.mul_assoc. rewrite <- Z.mul_mod_idemp_r by lia.
    replace ((prime64 * prime64_inv) mod 2 ^ 64) with 1 by (by vm_compute).
    rewrite Z.mul_1_r. by apply Z.mod_small. }
  rewrite <- (Hinv x Hx), <- (Hinv y Hy). by rewrite E.
Qed.

Lemma lxor_byte_range h c : 0 ≤ h < 2 ^ 64 → 0 ≤ Z.lxor h (byte_to_Z c) < 2 ^ 64.
Proof. intros. apply lxor_range; [lia..|]. pose proof (byte_to_Z_range c). lia. Qed.

Lemma fnv_step_inj h h' c :
  0 ≤ h < 2 ^ 64 → 0 ≤ h' < 2 ^ 64 → fnv_step h c = fnv_step h' c → h = h'.
Proof.
  intros Hh Hh' E. apply mul_prime64_inj in E; [|by apply lxor_byte_range..].
  by eapply lxor_cancel_r.
Qed.

Lemma fnv_step_byte_inj h c c' :
  0 ≤ h < 2 ^ 64 → fnv_step h c = fnv_step h c' → c = c'.
Proof.
  intros Hh E. apply mul_prime64_inj in E; [|by apply lxor_byte_range..].
  rewrite !(Z.lxor_comm h) in E. apply lxor_cancel_r in E. by apply byte_to_Z_inj.
Qed.

Lemma fold_fnv_inj s h h' :
  0 ≤ h < 2 ^ 64 → 0 ≤ h' < 2 ^ 64 →
  fold_left fnv_step s h = fold_left fnv_step s h' → h = h'.
Proof.
  revert h h'. induction s as [|c s IH]; intros h h' Hh Hh' E; simpl in E; [done|].
  apply IH in E; [|apply fnv_step_range..]. by eapply fnv_step_inj.
Qed.

(** Two byte strings that differ in exactly one byte never have the same
    hash: the hash check of a compare-and-swap detects every such change. *)
Theorem FNV1a64_single_byte p c c' s :
  FNV1a64 (p ++ c :: s) = FNV1a64 (p ++ c' :: s) ↔ c = c'.
Proof.
  split; [|by intros ->]. rewrite !FNV1a64_app. simpl. intros E.
  apply fold_fnv_inj in E; [|apply fnv_step_range..].
  apply fnv_step_byte_inj in E; [done|]. apply FNV1a64_range.
Qed.

(** ** The chunk of a key *)

Lemma GetChunkID_Ret b n :
  0 < n < 2 ^ 63 → GetChunkID b n = Ret (Z.shiftr (FNV1a64 b) 32 mod n).
Proof.
  intros Hn. unfold GetChunkID. rewrite u64_small by lia.
  rewrite check_true; [done|]. apply negb_true_iff, Z.eqb_neq. lia.
Qed.

(** Known values: the empty input, and two keys whose low 32 bits are the
    reserved bucket values 0 and 1. *)
Example FNV1a64_empty : FNV1a64 [] = offset64.
Proof. reflexivity. Qed.
Example FNV1a64_hola : FNV1a64 (str "hola") = 4623503348185510199.
Proof. vm_compute. reflexivity. Qed.
Example FNV1a64_low_0 : u32 (FNV1a64 (str "d1nnpv")) = 0.
Proof. vm_compute. reflexivity. Qed.
Example FNV1a64_low_1 : u32 (FNV1a64 (str "f6o9tqu")) = 1.
Proof. vm_compute. reflexivity. Qed.
