(* ===== verification/SyncChecksum.v ===== *)
(** * The time-stable checksum of a chunk ([src/core/pmap/syncchecksum.go])

    A [syncChecksum] keeps three running sums modulo [2^64]: of everything
    (the new one) and of two earlier time windows (medium and old).  Replicas
    compare the old one, which a write that is still on its way to some
    replica does not disturb. *)
From S2P Require Import Prelude.

Record syncChecksum := SyncChecksum {
  newChecksum : Z;
  mediumChecksum : Z;
  oldChecksum : Z;
  newTime : time;
  mediumTime : time;
  oldTime : time
}.

(** The zero value of the struct. *)
Definition zeroChecksum : syncChecksum :=
  SyncChecksum 0 0 0 zero_time zero_time zero_time.

(** The branch [if t.After(s.newTime)] of [sum]. *)
Definition moveForward (s : syncChecksum) (t : time) : syncChecksum :=
  if newTime s <? t then
    {| oldTime := mediumTime s;
       mediumTime := newTime s;
       newTime := time_unix (unix_sec t + 1) 0;
       oldChecksum := mediumChecksum s;
       mediumChecksum := newChecksum s;
       newChecksum := newChecksum s |}
  else s.

Definition sum (s : syncChecksum) (el : Z) (t : time) : syncChecksum :=
  let s := moveForward s t in
  {| newChecksum := u64 (newChecksum s + el);
     mediumChecksum :=
       if t <? mediumTime s then u64 (mediumChecksum s + el) else mediumChecksum s;
     oldChecksum :=
       if t <? oldTime s then u64 (oldChecksum s + el) else oldChecksum s;
     newTime := newTime s;
     mediumTime := mediumTime s;
     oldTime := oldTime s |}.

(** [sub] adds the two's complement [-el]. *)
Definition sub (s : syncChecksum) (el : Z) (t : time) : syncChecksum :=
  sum s (u64 (- el)) t.

(** [checksum()] at clock reading [now]: the value returned and the new state. *)
Definition checksum (s : syncChecksum) (now : time) : Z * syncChecksum :=
  let s := sum s 0 now in (oldChecksum s, s).

(** ** Running sums *)

(** A history of [sum] calls, latest first, and the state it leads to. *)
Definition history := list (Z * time).

Fixpoint run (ops : history) : syncChecksum :=
  match ops with
  | [] => zeroChecksum
  | (el, t) :: ops => sum (run ops) el t
  end.

(** The sum of the elements whose time satisfies [p]. *)
Fixpoint total (p : time → bool) (ops : history) : Z :=
  match ops with
  | [] => 0
  | (el, t) :: ops => if p t then el + total p ops else total p ops
  end.

Lemma u64_add_l a b : u64 (u64 a + b) = u64 (a + b).
Proof. unfold u64. apply Z.add_mod_idemp_l. lia. Qed.

Lemma u64_add_r a b : u64 (a + u64 b) = u64 (a + b).
Proof. unfold u64. apply Z.add_mod_idemp_r. lia. Qed.

Lemma newChecksum_sum s el t : newChecksum (sum s el t) = u64 (newChecksum s + el).
Proof. unfold sum, moveForward. by destruct (_ <? _). Qed.

Lemma newChecksum_sub s el t : newChecksum (sub s el t) = u64 (newChecksum s - el).
Proof. unfold sub. by rewrite newChecksum_sum, u64_add_r. Qed.

(** A call leaves no trace on the new sum when it adds nothing. *)
Lemma newChecksum_checksum s now :
  newChecksum (snd (checksum s now)) = u64 (newChecksum s).
Proof. unfold checksum. cbn [snd]. by rewrite newChecksum_sum, Z.add_0_r. Qed.

(** The sums are 64-bit numbers. *)
Record sums_ok (s : syncChecksum) : Prop := SumsOk {
  so_new : 0 ≤ newChecksum s < 2 ^ 64;
  so_medium : 0 ≤ mediumChecksum s < 2 ^ 64;
  so_old : 0 ≤ oldChecksum s < 2 ^ 64
}.

Lemma zeroChecksum_ok : sums_ok zeroChecksum.
Proof. by split; vm_compute. Qed.

Lemma sum_ok s el t : sums_ok s → sums_ok (sum s el t).
Proof.
  intros Hs. assert (sums_ok (moveForward s t)) as [? ? ?].
  { unfold moveForward. destruct (_ <? _); [|done]. destruct Hs. by split. }
  pose proof (u64_range (newChecksum (moveForward s t) + el)).
  pose proof (u64_range (mediumChecksum (moveForward s t) + el)).
  pose proof (u64_range (oldChecksum (moveForward s t) + el)).
  split; cbn; [done|destruct (_ <? _)..]; done.
Qed.

Lemma sub_ok s el t : sums_ok s → sums_ok (sub s el t).
Proof. apply sum_ok. Qed.

(** ** The three windows *)

(** Instants on a second boundary, where the windows are cut. *)
Definition aligned (t : time) : Prop := t mod second = 0.
#[export] Instance aligned_dec t : Decision (aligned t).
Proof. unfold aligned. apply _. Defined.

(** A call that cannot fall on a boundary: it adds nothing, as [checksum]
    does, or its time is not a whole second. *)
Definition offBoundary (op : Z * time) : Prop := op.1 = 0 ∨ ¬ aligned op.2.

Lemma next_second_aligned t : aligned (time_unix (unix_sec t + 1) 0).
Proof. unfold aligned, time_unix. rewrite Z.add_0_r. apply Z.mod_mul. by vm_compute. Qed.

Lemma next_second_after t : t < time_unix (unix_sec t + 1) 0.
Proof.
  unfold time_unix, unix_sec, second.
  pose proof (Z.mod_pos_bound t 1000000000 ltac:(lia)).
  pose proof (Z.div_mod t 1000000000 ltac:(lia)). lia.
Qed.

(** A second reading at the same time changes nothing. *)
Lemma checksum_again s now : checksum (checksum s now).2 now = checksum s now.
Proof.
  assert (now ≤ newTime (moveForward s now)) as Hnow.
  { unfold moveForward. destruct (Z.ltb_spec (newTime s) now); [|done]. cbn. pose proof (next_second_after now). lia. }
  assert (sum (sum s 0 now) 0 now = sum s 0 now) as E; [|unfold checksum; cbn [snd]; by rewrite E].
  unfold sum at 1. set (m := moveForward (sum s 0 now) now). assert (m = sum s 0 now) as ->.
  { unfold m, moveForward at 1. cbn. destruct (Z.ltb_spec (newTime (moveForward s now)) now); [lia|done]. }
  unfold sum. generalize (moveForward s now). intros x. cbn. rewrite !Z.add_0_r.
  f_equal; [|destruct (_ <? _)..]; unfold u64; by rewrite ?Zmod_mod.
Qed.

(** What a state knows of its history: the times are ordered and on second
    boundaries, no call is later than [newTime], and each sum counts exactly
    the calls before its time. *)
Record windows (ops : history) (s : syncChecksum) : Prop := Windows {
  win_order : oldTime s ≤ mediumTime s ≤ newTime s;
  win_aligned : aligned (newTime s);
  win_past : Forall (λ op : Z * time, op.2 ≤ newTime s) ops;
  win_new : newChecksum s = u64 (total (λ _, true) ops);
  win_medium : mediumChecksum s = u64 (total (λ t, t <? mediumTime s) ops);
  win_old : oldChecksum s = u64 (total (λ t, t <? oldTime s) ops)
}.

Lemma windows_zero : windows [] zeroChecksum.
Proof. split; simpl; [lia|by vm_compute|constructor|done..]. Qed.

(** Before a boundary that no call fell on, everything counts. *)
Lemma total_before (ops : history) b :
  aligned b → Forall offBoundary ops → Forall (λ op : Z * time, op.2 ≤ b) ops →
  total (λ t, t <? b) ops = total (λ _, true) ops.
Proof.
  intros Hb. induction ops as [|[el t] ops IH]; [done|].
  intros [Hoff Hoffs]%Forall_cons [Ht Hts]%Forall_cons. simpl in *.
  rewrite IH by done. destruct (Z.ltb_spec t b); [done|].
  destruct Hoff as [E|Hoff]; simpl in *; [lia|].
  assert (t = b) by lia. by subst.
Qed.

Lemma windows_moveForward ops s t :
  Forall offBoundary ops → windows ops s → windows ops (moveForward s t).
Proof.
  intros Hoff [Hord Hal Hpast Hnew Hmed Hold]. unfold moveForward.
  destruct (Z.ltb_spec (newTime s) t) as [Hlt|]; [|by split].
  pose proof (next_second_after t). split; simpl.
  - lia.
  - apply next_second_aligned.
  - eapply Forall_impl; [exact Hpast|]. simpl. intros. lia.
  - done.
  - by rewrite total_before.
  - done.
Qed.

Lemma moveForward_covers s t : t ≤ newTime (moveForward s t).
Proof.
  unfold moveForward. pose proof (next_second_after t).
  destruct (Z.ltb_spec (newTime s) t); simpl; lia.
Qed.

Lemma windows_sum ops s el t :
  Forall offBoundary ops → windows ops s → windows ((el, t) :: ops) (sum s el t).
Proof.
  intros Hoff Hw. apply (windows_moveForward _ _ t) in Hw as [Hord Hal Hpast Hnew Hmed Hold];
    [|done]. pose proof (moveForward_covers s t).
  unfold sum. split; simpl; try done.
  - by constructor.
  - rewrite Hnew, u64_add_l. f_equal. lia.
  - rewrite Hmed. destruct (t <? _); [|done]. rewrite u64_add_l. f_equal. lia.
  - rewrite Hold. destruct (t <? _); [|done]. rewrite u64_add_l. f_equal. lia.
Qed.

Lemma windows_run ops : Forall offBoundary ops → windows ops (run ops).
Proof.
  induction ops as [|[el t] ops IH]; intros H; simpl; [apply windows_zero|].
  apply Forall_cons in H as [_ H]. apply windows_sum; auto.
Qed.

Lemma total_perm p ops ops' : Permutation ops ops' → total p ops = total p ops'.
Proof.
  induction 1 as [|[el t] ops ops' _ IH|[el t] [el' t'] ops|]; simpl.
  - done.
  - by rewrite IH.
  - destruct (p t), (p t'); lia.
  - congruence.
Qed.

(** The old checksum of a history counts exactly the calls whose time is
    before [oldTime], whatever the order in which they arrived: two replicas
    that applied the same calls in different orders and have reached the same
    [oldTime] report the same checksum. *)
Theorem old_checksum_order_independent ops ops' :
  Forall offBoundary ops → Permutation ops ops' →
  oldTime (run ops) = oldTime (run ops') →
  oldChecksum (run ops) = u64 (total (λ t, t <? oldTime (run ops)) ops) ∧
  oldChecksum (run ops') = oldChecksum (run ops).
Proof.
  intros Hoff Hperm Htime.
  assert (Forall offBoundary ops') as Hoff' by (by rewrite <- Hperm).
  pose proof (win_old _ _ (windows_run _ Hoff)) as H.
  pose proof (win_old _ _ (windows_run _ Hoff')) as H'.
  split; [done|]. rewrite H, H', Htime. f_equal. by apply total_perm.
Qed.

(** Two replicas and two writes that arrive in opposite orders. *)
Lemma old_checksum_order_independent_witness :
  let a := (7, 5 * second + 1) in
  let b := (9, 5 * second + 2) in
  let c1 := (0, 8 * second) in
  let c2 := (0, 11 * second) in
  let c3 := (0, 14 * second) in
  let ops := [c3; c2; c1; a; b] in
  let ops' := [c3; c2; c1; b; a] in
  oldChecksum (run ops) = u64 (total (λ t, t <? oldTime (run ops)) ops) ∧
  oldChecksum (run ops') = oldChecksum (run ops).
Proof.
  apply old_checksum_order_independent.
  - rewrite !Forall_cons. split_and!; try apply Forall_nil_2;
      first [by left | right; intros H; vm_compute in H; discriminate].
  - do 3 constructor. apply perm_swap.
  - vm_compute. reflexivity.
Defined.
