(* ===== verification/Decimal.v ===== *)
(** * Decimal numbers

    How the program prints numbers ([fmt.Sprint] of an integer, here [pretty])
    and how the standard library reads digits. *)
From Stdlib Require Import Ascii.
From stdpp Require Import pretty.
From S2P Require Import Prelude.

(** The value of a digit; 36 for a character that is none. *)
Definition digit (c : ascii) : Z :=
  let n := Z.of_N (N_of_ascii c) in
  if (48 <=? n) && (n <=? 57) then n - 48
  else if (97 <=? n) && (n <=? 122) then n - 87
  else if (65 <=? n) && (n <=? 90) then n - 55
  else 36.

Fixpoint digits (base : Z) (s : string) (acc : Z) : option Z :=
  match s with
  | EmptyString => Some acc
  | String c s => if digit c <? base then digits base s (acc * base + digit c) else None
  end.

Lemma append_assoc s1 s2 s3 : (s1 +:+ s2) +:+ s3 = s1 +:+ s2 +:+ s3.
Proof. induction s1 as [|c s1 IH]; [done|]. exact (f_equal (String c) IH). Qed.

Lemma digits_app base s1 s2 : ∀ acc, digits base (s1 +:+ s2) acc = digits base s1 acc ≫= digits base s2.
Proof.
  induction s1 as [|c s1 IH]; intros acc; [done|]. change (String c s1 +:+ s2) with (String c (s1 +:+ s2)).
  cbn [digits]. case_match; [apply IH|done].
Qed.

Lemma digit_char x : (x < 10)%N → digit (pretty_N_char x) = Z.of_N x.
Proof.
  intros Hx. assert (x ∈ [0; 1; 2; 3; 4; 5; 6; 7; 8; 9]%N) as Hin by (rewrite !elem_of_cons; lia).
  repeat (apply elem_of_cons in Hin as [->|Hin]; [done|]). by apply not_elem_of_nil in Hin.
Qed.

Lemma pretty_go_app x : ∀ s, pretty_N_go x s = pretty_N_go x "" +:+ s.
Proof.
  induction (N.lt_wf_0 x) as [x _ IH]. intros s. destruct (decide (0 < x)%N); cycle 1.
  { assert (x = 0%N) as -> by lia. by rewrite !pretty_N_go_0. }
  rewrite !(pretty_N_go_step x) by done. rewrite IH by (by apply N.div_lt). symmetry.
  rewrite IH by (by apply N.div_lt). by rewrite append_assoc.
Qed.

(** The digits of a positive number, of which the first is not 0. *)
Lemma pretty_go_digits x :
  (0 < x)%N → ∃ c s, pretty_N_go x "" = String c s ∧ 0 < digit c < 10 ∧ digits 10 (String c s) 0 = Some (Z.of_N x).
Proof.
  induction (N.lt_wf_0 x) as [x _ IH]. intros Hx. rewrite pretty_N_go_step, pretty_go_app by done.
  assert (x mod 10 < 10)%N as Hm by (by apply N.mod_lt).
  pose proof (N.div_mod' x 10) as Hd. destruct (decide (x < 10)%N).
  - rewrite N.div_small, pretty_N_go_0 by done. eexists _, _. split; [reflexivity|].
    rewrite N.mod_small in * by done. cbn [digits]. rewrite digit_char by done. split; [lia|].
    destruct (Z.ltb_spec (Z.of_N x) 10); [f_equal; lia|lia].
  - destruct (IH (x / 10)%N) as (c & s & E & Hc & Hs); [by apply N.div_lt|apply N.div_str_pos; lia|].
    exists c, (s +:+ String (pretty_N_char (x mod 10)) ""). rewrite E. split_and!; [done|lia..|].
    change (String c (s +:+ ?t)) with (String c s +:+ t). rewrite digits_app, Hs. cbn [mbind option_bind digits].
    rewrite digit_char by done. destruct (Z.ltb_spec (Z.of_N (x mod 10)) 10); [f_equal; lia|lia].
Qed.

(** ** Names that start with a number *)

Fixpoint avoids (c : ascii) (s : string) : bool :=
  match s with EmptyString => true | String d s => negb (bool_decide (d = c)) && avoids c s end.

Lemma digits_avoids base s c : ∀ acc z, digits base s acc = Some z → base ≤ digit c → avoids c s.
Proof.
  induction s as [|d s IH]; intros acc z; cbn [digits avoids]; [done|].
  destruct (Z.ltb_spec (digit d) base); [|done]. intros E Hc. rewrite bool_decide_false by (intros ->; lia). by eapply IH.
Qed.

Lemma pretty_avoids z c : 0 ≤ z → 10 ≤ digit c → avoids c (pretty z).
Proof.
  intros Hz Hc. unfold pretty, pretty_Z. destruct z as [|p|p]; [| |lia].
  - apply (digits_avoids 10 "0" c 0 0); done.
  - unfold pretty, pretty_positive, pretty, pretty_N. rewrite decide_False by done.
    destruct (pretty_go_digits (N.pos p)) as (d & s & -> & _ & E); [done|]. by eapply digits_avoids.
Qed.

Lemma prefix_cut c s1 : ∀ s2 t1 t2,
  avoids c s1 → avoids c s2 → String.prefix (s1 +:+ String c t1) (s2 +:+ String c t2) = true → s1 = s2.
Proof.
  induction s1 as [|d1 s1 IH]; intros [|d2 s2] t1 t2 H1 H2.
  - done.
  - cbn in H2. change (String d2 s2 +:+ ?t) with (String d2 (s2 +:+ t)). change ("" +:+ ?t) with t. cbn [String.prefix].
    destruct (ascii_dec c d2) as [->|]; [|done]. by rewrite bool_decide_true in H2.
  - cbn in H1. change (String d1 s1 +:+ ?t) with (String d1 (s1 +:+ t)). change ("" +:+ ?t) with t. cbn [String.prefix].
    destruct (ascii_dec d1 c) as [->|]; [|done]. by rewrite bool_decide_true in H1.
  - cbn [avoids] in H1, H2. apply andb_True in H1 as [_ H1], H2 as [_ H2].
    change (String ?d ?s +:+ ?t) with (String d (s +:+ t)). cbn [String.prefix].
    destruct (ascii_dec d1 d2) as [->|]; [|done]. intros E. f_equal. by eapply IH.
Qed.

Lemma prefix_app s t : String.prefix s (s +:+ t) = true.
Proof.
  induction s as [|c s IH]; [by destruct t|]. change (String c s +:+ t) with (String c (s +:+ t)). cbn [String.prefix].
  by destruct (ascii_dec c c).
Qed.
