(* ===== verification/Store.v ===== *)
(** * The append-only store of a chunk ([src/core/pmap/store.go])

    A store is a memory-mapped file that holds a log of key-value records.
    Each record is framed by its two lengths in front and the total length
    behind, so that the log can be walked in both directions.  The abstract
    view of a store is its list of records. *)
From S2P Require Import Prelude.

(** Errors are the strings given to [errors.New]. *)
Definition error := string.

Record store := Store {
  st_deleted : Z;
  st_length : Z;
  st_size : Z;
  st_osFile : option string;
  st_file : list byte
}.

Definition set_deleted (st : store) (d : Z) : store :=
  Store d (st_length st) (st_size st) (st_osFile st) (st_file st).
Definition set_length (st : store) (l : Z) : store :=
  Store (st_deleted st) l (st_size st) (st_osFile st) (st_file st).
Definition set_file (st : store) (f : list byte) : store :=
  Store (st_deleted st) (st_length st) (st_size st) (st_osFile st) f.

Definition headerKeyOffset : Z := 0.
Definition headerValueOffset : Z := 4.
Definition headerSize : Z := 8.

(** ** The memory mapping library

    [launchpad.net/gommap] is a parameter: mapping a file with given
    contents, mapping an anonymous region of a length, and unmapping, each of
    which may fail. *)
Class Gommap := {
  mapFile : list byte → option (list byte);
  mapRegion : Z → option (list byte);
  unsafeUnmap : list byte → bool
}.

(** What the code relies on: a non-empty file is mapped as it is, an anonymous
    region is zero, and a mapping can be released. *)
Class GommapLaws `{Gommap} : Prop := {
  mapFile_ok b : 0 < zlen b → mapFile b = Some b;
  mapRegion_ok n : 0 < n < 2 ^ 63 → mapRegion n = Some (replicate (Z.to_nat n) x00);
  unsafeUnmap_ok b : 0 < zlen b → unsafeUnmap b = true
}.

(** A mapping library that satisfies the laws. *)
Definition plainGommap : Gommap := {|
  mapFile b := if 0 <? zlen b then Some b else None;
  mapRegion n := if (0 <? n) && (n <? 2 ^ 63) then Some (replicate (Z.to_nat n) x00) else None;
  unsafeUnmap b := 0 <? zlen b
|}.

Lemma plainGommap_laws : @GommapLaws plainGommap.
Proof.
  split; cbn [mapFile mapRegion unsafeUnmap plainGommap].
  - intros b Hb. by apply Z.ltb_lt in Hb as ->.
  - intros n [H1 H2]. apply Z.ltb_lt in H1 as ->. by apply Z.ltb_lt in H2 as ->.
  - intros b Hb. by apply Z.ltb_lt.
Qed.

Section mapping.
Context {G : Gommap}.

(** [if err != nil { panic(err) }]. *)
Definition orPanic {A} (o : option A) : outcome A :=
  match o with Some x => Ret x | None => Panic end.

(** The file at [path] is truncated to [size] zero bytes and mapped; the
    empty path maps an anonymous region. *)
Definition newStore (path : string) (size : Z) : outcome store :=
  if decide (path ≠ EmptyString) then
    _ ← check (0 <=? s64 size);
    f ← orPanic (mapFile (replicate (Z.to_nat (s64 size)) x00));
    Ret (Store 0 0 size (Some path) f)
  else
    f ← orPanic (mapRegion (s64 size));
    Ret (Store 0 0 size None f).

(** [contents] are the bytes of the file found at [path]. *)
Definition openStore (path : string) (contents : list byte) : outcome store :=
  f ← orPanic (mapFile contents);
  Ret (Store 0 0 (zlen contents) (Some path) f).

(** A closed store has the nil slice for a mapping. *)
Definition close (st : store) : outcome store :=
  _ ← check (0 <? zlen (st_file st));
  _ ← check (unsafeUnmap (st_file st));
  Ret (set_file st []).
End mapping.

(** Returns the path that is removed from the file system, if any. *)
Definition deleteStore (st : store) : outcome (option string) :=
  _ ← check (zlen (st_file st) =? 0);
  Ret (st_osFile st).

(** ** Store access *)

Definition keyLen (st : store) (index : Z) : outcome Z :=
  b ← slice_from (st_file st) (u64 (index + headerKeyOffset)); get_le 4 b.

Definition valLen (st : store) (index : Z) : outcome Z :=
  b ← slice_from (st_file st) (u64 (index + headerValueOffset)); get_le 4 b.

Definition totalLen (st : store) (index : Z) : outcome Z :=
  k ← keyLen st index; v ← valLen st index; Ret (u32 (k + v)).

Definition setKeyLen (st : store) (index x : Z) : outcome store :=
  f ← put_le 4 (st_file st) index x; Ret (set_file st f).

Definition setValLen (st : store) (index x : Z) : outcome store :=
  f ← put_le 4 (st_file st) (u64 (index + headerValueOffset)) x; Ret (set_file st f).

Definition prev (st : store) (index : Z) : outcome Z :=
  if 0 <? s64 (s64 index - 4) then
    b ← slice (st_file st) (u64 (index - 4)) index;
    t ← get_le 4 b;
    Ret (s64 (s64 index - 12 - t))
  else Ret (-1).

(** A slice of the mapping: where it starts and its length.  Its capacity
    extends to the end of the mapping. *)
Record mslice := MSlice { ms_off : Z; ms_len : Z }.

(** [st.file[lo:hi]]. *)
Definition map_slice (st : store) (lo hi : Z) : outcome mslice :=
  _ ← check ((lo <=? hi) && (hi <=? zlen (st_file st)));
  Ret (MSlice lo (hi - lo)).

(** The bytes of a slice of the mapping. *)
Definition mbytes (st : store) (s : mslice) : outcome (list byte) :=
  slice (st_file st) (ms_off s) (ms_off s + ms_len s).

(** [s[:8]], which Go checks against the capacity of [s]. *)
Definition mhead8 (st : store) (s : mslice) : outcome (list byte) :=
  slice (st_file st) (ms_off s) (ms_off s + 8).

Definition key_slice (st : store) (index : Z) : outcome mslice :=
  k ← keyLen st index;
  map_slice st (u64 (index + headerSize)) (u64 (index + headerSize + k)).

Definition key (st : store) (index : Z) : outcome (list byte) :=
  s ← key_slice st index; mbytes st s.

Definition val (st : store) (index : Z) : outcome mslice :=
  k ← keyLen st index;
  t ← totalLen st index;
  map_slice st (u64 (index + headerSize + k)) (u64 (index + headerSize + t)).

(** [copy(s, src)] into a slice of the mapping. *)
Definition mcopy (st : store) (s : mslice) (src : list byte) : outcome store :=
  f ← copy_into (st_file st) (ms_off s) (ms_off s + ms_len s) src;
  Ret (set_file st f).

Definition errStoreFull : error := "store size limit reached: denied put operation".

(** Appends a pair: the new store with the error, or with the index of the
    pair as a [uint32]. *)
Definition put (st : store) (k v : list byte) : outcome (store * (error + Z)) :=
  let size := u64 (4 + 4 + 4 + zlen k + zlen v) in
  if st_size st <=? u64 (st_length st + size) then Ret (st, inl errStoreFull)
  else
    let index := st_length st in
    let st := set_length st (u64 (st_length st + size)) in
    st ← setKeyLen st index (u32 (zlen k));
    st ← setValLen st index (u32 (zlen v));
    ks ← key_slice st index;
    st ← mcopy st ks k;
    vs ← val st index;
    st ← mcopy st vs v;
    f ← put_le 4 (st_file st) (index + 8 + zlen k + zlen v) (u32 (zlen k + zlen v));
    Ret (set_file st f, inr (u32 index)).

(** ** The log of records *)

Record rec := Rec { r_key : list byte; r_val : list byte }.

#[export] Instance rec_eq_dec : EqDecision rec.
Proof. solve_decision. Defined.

Definition body_len (r : rec) : Z := zlen (r_key r) + zlen (r_val r).

(** The bytes of a record. *)
Definition enc_rec (r : rec) : list byte :=
  le_enc 4 (zlen (r_key r)) ++ le_enc 4 (zlen (r_val r)) ++
  r_key r ++ r_val r ++ le_enc 4 (body_len r).

Definition enc_log (l : list rec) : list byte := concat (map enc_rec l).

Lemma zlen_enc_rec r : zlen (enc_rec r) = 12 + body_len r.
Proof. unfold enc_rec, body_len. autorewrite with zlen. lia. Qed.

Lemma body_len_nonneg r : 0 ≤ body_len r.
Proof. unfold body_len. zl. Qed.

Lemma enc_log_app l k : enc_log (l ++ k) = enc_log l ++ enc_log k.
Proof. unfold enc_log. by rewrite map_app, concat_app. Qed.

Lemma enc_log_cons r l : enc_log (r :: l) = enc_rec r ++ enc_log l.
Proof. done. Qed.

Lemma enc_log_snoc l r : enc_log (l ++ [r]) = enc_log l ++ enc_rec r.
Proof. rewrite enc_log_app, enc_log_cons. simpl. by rewrite app_nil_r. Qed.

#[export] Hint Rewrite zlen_enc_rec enc_log_app enc_log_cons : zlen.

(** The store holds exactly the records [l], at the front of a mapping of
    [st_size] bytes that 32-bit indices can address; the rest is still zero. *)
Record st_wf (st : store) (l : list rec) : Prop := StWf {
  wf_file : ∃ rest, st_file st = enc_log l ++ rest ∧ Forall (λ b, b = x00) rest;
  wf_length : st_length st = zlen (enc_log l);
  wf_size : st_size st = zlen (st_file st);
  wf_room : st_length st < st_size st;
  wf_addressable : st_size st ≤ 2 ^ 32
}.

(** Record [r] is in the log at byte offset [off]. *)
Definition rec_at (l : list rec) (off : Z) (r : rec) : Prop :=
  ∃ l1 l2, l = l1 ++ r :: l2 ∧ off = zlen (enc_log l1).

Lemma rec_at_app l k off r : rec_at l off r → rec_at (l ++ k) off r.
Proof. intros (l1 & l2 & -> & ->). exists l1, (l2 ++ k). by rewrite <- app_assoc. Qed.

Lemma rec_at_last l r : rec_at (l ++ [r]) (zlen (enc_log l)) r.
Proof. by exists l, []. Qed.

Lemma rec_at_fun l off r r' : rec_at l off r → rec_at l off r' → r = r'.
Proof.
  intros (l1 & l2 & E1 & O1) (k1 & k2 & E2 & O2). subst l.
  assert (l1 = k1) as ->.
  { revert k1 off O1 O2 E2. induction l1 as [|x l1 IH]; intros [|y k1] off O1 O2 E2.
    - done.
    - exfalso. change (enc_log []) with (@nil byte) in *. pose proof (body_len_nonneg y). zl.
    - exfalso. change (enc_log []) with (@nil byte) in *. pose proof (body_len_nonneg x). zl.
    - injection E2 as -> E2. f_equal. eapply IH; [done| |done]. zl. }
  by simplify_list_eq.
Qed.

Lemma rec_at_bounds l off r :
  rec_at l off r → 0 ≤ off ∧ off + 12 + body_len r ≤ zlen (enc_log l).
Proof. intros (l1 & l2 & -> & ->). autorewrite with zlen. zl. Qed.

(** ** Reading a record back *)

(** Where a record lies in the bytes of the mapping. *)
Definition layout (f : list byte) (off : Z) (r : rec) : Prop :=
  ∃ pre post, f = pre ++ enc_rec r ++ post ∧ zlen pre = off.

Lemma layout_of_wf st l off r :
  st_wf st l → rec_at l off r → layout (st_file st) off r ∧
  0 ≤ off ∧ off + 12 + body_len r ≤ st_length st ∧ st_length st < 2 ^ 32.
Proof.
  intros [(rest & Hf & _) Hlen Hsz Hroom Haddr] Hat.
  pose proof (rec_at_bounds _ _ _ Hat). destruct Hat as (l1 & l2 & -> & ->).
  split_and!; try lia. exists (enc_log l1), (enc_log l2 ++ rest).
  rewrite Hf, enc_log_app, enc_log_cons. by rewrite <- !app_assoc.
Qed.

(** The accessors, from the bytes of the two length fields. *)
Section fields.
Context (st : store) (off kl vl : Z) (pre post : list byte).
Context (Hf : st_file st = pre ++ le_enc 4 kl ++ le_enc 4 vl ++ post).
Context (Hpre : zlen pre = off) (Hkl : 0 ≤ kl) (Hvl : 0 ≤ vl).
Context (Hfit : off + 12 + kl + vl < 2 ^ 32).

Lemma fields_keyLen : keyLen st off = Ret kl.
Proof using All.
  unfold keyLen, headerKeyOffset. rewrite Z.add_0_r, u64_small by zl.
  rewrite Hf, slice_from_app by done. bsimpl. rewrite get_le_app by zl.
  rewrite le_dec_enc, Z.mod_small; [done|].
  change (256 ^ Z.of_nat 4) with (2 ^ 32). zl.
Qed.

Lemma fields_valLen : valLen st off = Ret vl.
Proof using All.
  unfold valLen, headerValueOffset. rewrite u64_small by zl.
  rewrite Hf, (assoc_L (++) pre), slice_from_app by zl. bsimpl.
  rewrite get_le_app by zl. rewrite le_dec_enc, Z.mod_small; [done|].
  change (256 ^ Z.of_nat 4) with (2 ^ 32). zl.
Qed.

Lemma fields_totalLen : totalLen st off = Ret (kl + vl).
Proof using All.
  unfold totalLen. rewrite fields_keyLen, fields_valLen. bsimpl.
  rewrite u32_small; [done|zl].
Qed.

Lemma fields_key_slice :
  off + 8 + kl ≤ zlen (st_file st) →
  key_slice st off = Ret (MSlice (off + 8) kl).
Proof using All.
  intros Hle. unfold key_slice, map_slice, headerSize. rewrite fields_keyLen. bsimpl.
  rewrite !u64_small by zl. rewrite check_true; bsimpl.
  2:{ apply andb_true_iff; rewrite !Z.leb_le; lia. }
  do 2 f_equal. lia.
Qed.

Lemma fields_val :
  off + 8 + kl + vl ≤ zlen (st_file st) →
  val st off = Ret (MSlice (off + 8 + kl) vl).
Proof using All.
  intros Hle. unfold val, map_slice, headerSize.
  rewrite fields_keyLen, fields_totalLen. bsimpl.
  rewrite !u64_small by zl. rewrite check_true; bsimpl.
  2:{ apply andb_true_iff; rewrite !Z.leb_le; lia. }
  do 2 f_equal. lia.
Qed.
End fields.

Section reading.
Context (st : store) (off : Z) (r : rec).
Context (Hlay : layout (st_file st) off r) (Hoff : 0 ≤ off).
Context (Hend : off + 12 + body_len r < 2 ^ 32).

Let kl := zlen (r_key r).
Let vl := zlen (r_val r).

Lemma layout_end : off + 12 + body_len r ≤ zlen (st_file st).
Proof using All. destruct Hlay as (pre & post & Hf & Hpre). rewrite Hf. zl. Qed.

(** The mapping around the record, cut at its fields. *)
Lemma layout_fields : ∃ pre post,
  st_file st = pre ++ le_enc 4 kl ++ le_enc 4 vl ++
               r_key r ++ r_val r ++ le_enc 4 (body_len r) ++ post ∧ zlen pre = off.
Proof using All.
  destruct Hlay as (pre & post & Hf & Hpre). exists pre, post. split; [|done].
  rewrite Hf. unfold enc_rec. by rewrite <- !app_assoc.
Qed.

Lemma read_keyLen : keyLen st off = Ret (zlen (r_key r)).
Proof using All.
  destruct layout_fields as (pre & post & Hf & Hpre). unfold body_len in Hend.
  eapply fields_keyLen; [exact Hf|done|zl..].
Qed.

Lemma read_valLen : valLen st off = Ret (zlen (r_val r)).
Proof using All.
  destruct layout_fields as (pre & post & Hf & Hpre). unfold body_len in Hend.
  eapply fields_valLen; [exact Hf|done|zl..].
Qed.

Lemma read_totalLen : totalLen st off = Ret (body_len r).
Proof using All.
  destruct layout_fields as (pre & post & Hf & Hpre). unfold body_len in Hend.
  eapply fields_totalLen; [exact Hf|done|zl..].
Qed.

Lemma layout_key : ∃ pre post,
  st_file st = pre ++ r_key r ++ post ∧ zlen pre = off + 8.
Proof using All.
  destruct layout_fields as (pre & post & Hf & Hpre).
  exists (pre ++ le_enc 4 kl ++ le_enc 4 vl), (r_val r ++ le_enc 4 (body_len r) ++ post).
  rewrite Hf, <- !app_assoc. split; [done|zl].
Qed.

Lemma layout_trailer : ∃ pre post,
  st_file st = pre ++ le_enc 4 (body_len r) ++ post ∧ zlen pre = off + 8 + body_len r.
Proof using All.
  destruct layout_fields as (pre & post & Hf & Hpre).
  exists (pre ++ le_enc 4 kl ++ le_enc 4 vl ++ r_key r ++ r_val r), post.
  rewrite Hf, <- !app_assoc. split; [done|unfold body_len; zl].
Qed.

Lemma read_key : key st off = Ret (r_key r).
Proof using All.
  destruct layout_fields as (pre & post & Hf & Hpre). pose proof layout_end.
  unfold body_len in *. unfold key.
  erewrite fields_key_slice; [|exact Hf|done|unfold kl, vl in *; zl..]. bsimpl.
  destruct layout_key as (pre' & post' & Hf' & Hpre').
  unfold mbytes. cbn [ms_off ms_len]. rewrite Hf'.
  apply slice_app; unfold kl, vl in *; lia.
Qed.

Lemma read_val : val st off = Ret (MSlice (off + 8 + kl) vl).
Proof using All.
  destruct layout_fields as (pre & post & Hf & Hpre). pose proof layout_end.
  unfold body_len in *.
  erewrite fields_val; [done|exact Hf|done|unfold kl, vl in *; zl..].
Qed.

Lemma layout_val : ∃ pre post,
  st_file st = pre ++ r_val r ++ post ∧ zlen pre = off + 8 + kl.
Proof using All.
  destruct layout_fields as (pre & post & Hf & Hpre).
  exists (pre ++ le_enc 4 kl ++ le_enc 4 vl ++ r_key r), (le_enc 4 (body_len r) ++ post).
  rewrite Hf, <- !app_assoc. split; [done|unfold kl; zl].
Qed.

Lemma read_val_bytes : mbytes st (MSlice (off + 8 + kl) vl) = Ret (r_val r).
Proof using All.
  destruct layout_val as (pre & post & Hf & Hpre). unfold mbytes. cbn [ms_off ms_len].
  rewrite Hf. apply slice_app; unfold vl; zl.
Qed.

(** The timestamp of a value of at least 8 bytes. *)
Lemma read_val_head8 :
  8 ≤ vl → mhead8 st (MSlice (off + 8 + kl) vl) = Ret (take 8 (r_val r)).
Proof using All.
  intros H8. destruct layout_val as (pre & post & Hf & Hpre).
  unfold mhead8. cbn [ms_off ms_len]. unfold vl in H8.
  pose proof (zlen_take 8 (r_val r) ltac:(lia)) as Ht. change (Z.to_nat 8) with 8%nat in Ht.
  rewrite Hf, <- (take_drop 8 (r_val r)) at 1. rewrite <- app_assoc. apply slice_app; lia.
Qed.

(** Walking back from the end of the record finds its start. *)
Lemma read_prev : prev st (off + 12 + body_len r) = Ret off.
Proof using All.
  unfold prev. pose proof (body_len_nonneg r).
  rewrite (s64_small (off + 12 + body_len r)) by lia. rewrite s64_small by lia.
  replace (0 <? _) with true by (symmetry; apply Z.ltb_lt; lia).
  rewrite u64_small by lia.
  destruct layout_trailer as (pre & post & Hf & Hpre).
  rewrite Hf, slice_app by zl. bsimpl.
  rewrite <- (app_nil_r (le_enc 4 _)), get_le_app by zl. bsimpl.
  rewrite le_dec_enc, Z.mod_small.
  2:{ change (256 ^ Z.of_nat 4) with (2 ^ 32). lia. }
  rewrite s64_small by lia. f_equal. lia.
Qed.
End reading.

(** ** Appending *)

Lemma st_wf_file_app st l :
  st_wf st l → ∃ rest, st_file st = enc_log l ++ rest ∧ Forall (λ b, b = x00) rest ∧
    zlen rest = st_size st - st_length st ∧ st_length st = zlen (enc_log l).
Proof.
  intros [(rest & Hf & Hz) Hlen Hsz Hroom Haddr]. exists rest. split_and!; [done|done| |done].
  rewrite Hsz, Hf, Hlen. zl.
Qed.

(** The free part of the mapping, cut where the fields of a record go. *)
Lemma cut_room (rest : list byte) k v :
  12 + zlen k + zlen v ≤ zlen rest →
  ∃ a b (c : list byte) d e post, rest = a ++ b ++ c ++ d ++ e ++ post ∧
    zlen a = 4 ∧ zlen b = 4 ∧ zlen c = zlen (k : list byte) ∧
    zlen d = zlen (v : list byte) ∧ zlen e = 4.
Proof.
  intros H.
  destruct (split_at rest 4) as (a & r1 & -> & Ha); [zl|].
  destruct (split_at r1 4) as (b & r2 & -> & Hb); [zl|].
  destruct (split_at r2 (zlen k)) as (c & r3 & -> & Hc); [zl|].
  destruct (split_at r3 (zlen v)) as (d & r4 & -> & Hd); [zl|].
  destruct (split_at r4 4) as (e & post & -> & He); [zl|].
  by exists a, b, c, d, e, post.
Qed.

Lemma setKeyLen_at st pre old post off x :
  st_file st = pre ++ old ++ post → zlen pre = off → zlen old = 4 →
  setKeyLen st off x = Ret (set_file st (pre ++ le_enc 4 x ++ post)).
Proof.
  intros Hf Hpre Hold. unfold setKeyLen. rewrite Hf. by rewrite put_le_app.
Qed.

Lemma setValLen_at st pre old post off x :
  st_file st = pre ++ old ++ post → zlen pre = off + 4 → 0 ≤ off < 2 ^ 32 → zlen old = 4 →
  setValLen st off x = Ret (set_file st (pre ++ le_enc 4 x ++ post)).
Proof.
  intros Hf Hpre Hoff Hold. unfold setValLen, headerValueOffset. rewrite u64_small by lia.
  rewrite Hf. by rewrite put_le_app.
Qed.

Lemma mcopy_at st pre old post off n src :
  st_file st = pre ++ old ++ post → zlen pre = off → zlen old = n → zlen src = n →
  mcopy st (MSlice off n) src = Ret (set_file st (pre ++ src ++ post)).
Proof.
  intros Hf Hpre Hold Hsrc. unfold mcopy. cbn [ms_off ms_len]. rewrite Hf.
  rewrite copy_into_app; [done|zl..].
Qed.

(** The bytes of the mapping after an append that fits. *)
Lemma put_bytes st k v pre a b c d e post :
  st_file st = pre ++ a ++ b ++ c ++ d ++ e ++ post →
  zlen pre = st_length st → zlen a = 4 → zlen b = 4 → zlen c = zlen k →
  zlen d = zlen v → zlen e = 4 →
  st_length st + 12 + zlen k + zlen v < st_size st → st_size st ≤ 2 ^ 32 →
  put st k v = Ret
    (set_file (set_length st (st_length st + 12 + zlen k + zlen v))
              (pre ++ enc_rec (Rec k v) ++ post), inr (st_length st)).
Proof.
  intros Hf Hpre Ha Hb Hc Hd He Hfit Haddr.
  assert (0 ≤ st_length st) by (rewrite <- Hpre; apply zlen_nonneg).
  pose proof (zlen_nonneg k). pose proof (zlen_nonneg v).
  unfold put. rewrite (u64_small (4 + 4 + 4 + zlen k + zlen v)), u64_small by lia.
  destruct (Z.leb_spec (st_size st) (st_length st + (4 + 4 + 4 + zlen k + zlen v))); [lia|].
  rewrite !u32_small by lia.
  erewrite setKeyLen_at; [bsimpl|exact Hf|done|done].
  erewrite (setValLen_at _ (pre ++ le_enc 4 (zlen k)) b (c ++ d ++ e ++ post));
    [bsimpl|by cbn [st_file set_file]; rewrite <- !app_assoc|zl|lia|done].
  erewrite (fields_key_slice _ _ (zlen k) (zlen v) pre (c ++ d ++ e ++ post));
    [bsimpl|by cbn [st_file set_file]; rewrite <- !app_assoc|done|lia|lia|lia|
     cbn [st_file set_file]; zl].
  erewrite (mcopy_at _ (pre ++ le_enc 4 (zlen k) ++ le_enc 4 (zlen v)) c (d ++ e ++ post));
    [bsimpl|by cbn [st_file set_file]; rewrite <- !app_assoc|zl|done|done].
  erewrite (fields_val _ _ (zlen k) (zlen v) pre (k ++ d ++ e ++ post));
    [bsimpl|by cbn [st_file set_file]; rewrite <- !app_assoc|done|lia|lia|lia|
     cbn [st_file set_file]; zl].
  erewrite (mcopy_at _ (pre ++ le_enc 4 (zlen k) ++ le_enc 4 (zlen v) ++ k) d (e ++ post));
    [bsimpl|by cbn [st_file set_file]; rewrite <- !app_assoc|zl|done|done].
  cbn [st_file set_file].
  replace (_ ++ v ++ e ++ post)
    with ((pre ++ le_enc 4 (zlen k) ++ le_enc 4 (zlen v) ++ k ++ v) ++ e ++ post)
    by (by rewrite <- !app_assoc).
  rewrite put_le_app by zl. bsimpl. do 2 f_equal.
  unfold set_file, set_length. cbn [st_deleted st_length st_size st_osFile st_file].
  f_equal; [lia|]. unfold enc_rec, body_len. cbn [r_key r_val]. by rewrite <- !app_assoc.
Qed.

(** An append that fits adds one record and returns its offset, which is not
    truncated by the conversion to 32 bits. *)
Lemma put_ok st l k v :
  st_wf st l → st_length st + 12 + zlen k + zlen v < st_size st →
  ∃ st', put st k v = Ret (st', inr (st_length st)) ∧
    st_wf st' (l ++ [Rec k v]) ∧
    st_deleted st' = st_deleted st ∧ st_size st' = st_size st ∧
    st_osFile st' = st_osFile st ∧
    st_length st' = st_length st + 12 + zlen k + zlen v.
Proof.
  intros Hwf Hfit. destruct (st_wf_file_app _ _ Hwf) as (rest & Hf & Hz & Hrest & Hlen).
  destruct Hwf as [_ _ Hsz Hroom Haddr].
  destruct (cut_room rest k v) as (a&b&c&d&e&post&->&Ha&Hb&Hc&Hd&He); [lia|].
  rewrite !Forall_app in Hz. eexists. split; [by eapply put_bytes|].
  cbn [st_deleted st_length st_size st_osFile st_file set_file set_length].
  split_and!; try done. split; cbn [st_file st_length st_size set_file set_length].
  - exists post. split; [by rewrite enc_log_snoc, <- app_assoc|apply Hz].
  - rewrite Hlen, enc_log_snoc. unfold enc_rec, body_len. cbn [r_key r_val]. zl.
  - rewrite Hsz, Hf. unfold enc_rec, body_len. cbn [r_key r_val]. zl.
  - lia.
  - done.
Qed.

(** An append that does not fit changes nothing. *)
Lemma put_full st l k v :
  st_wf st l → st_size st ≤ st_length st + 12 + zlen k + zlen v →
  zlen k + zlen v < 2 ^ 63 →
  put st k v = Ret (st, inl errStoreFull).
Proof.
  intros Hwf Hfull Hkv. destruct (st_wf_file_app _ _ Hwf) as (rest & Hf & Hz & Hrest & Hlen).
  destruct Hwf as [_ _ Hsz Hroom Haddr]. pose proof (zlen_nonneg (enc_log l)).
  pose proof (zlen_nonneg k). pose proof (zlen_nonneg v).
  unfold put. rewrite (u64_small (4 + 4 + 4 + zlen k + zlen v)), u64_small by lia.
  destruct (Z.leb_spec (st_size st) (st_length st + (4 + 4 + 4 + zlen k + zlen v))); [done|lia].
Qed.

(** The two cases together. *)
Lemma put_cases st l k v :
  st_wf st l → zlen k + zlen v < 2 ^ 63 →
  (st_size st ≤ st_length st + 12 + zlen k + zlen v ∧
   put st k v = Ret (st, inl errStoreFull)) ∨
  (∃ st', put st k v = Ret (st', inr (st_length st)) ∧ st_wf st' (l ++ [Rec k v]) ∧
    st_deleted st' = st_deleted st ∧ st_size st' = st_size st ∧
    st_osFile st' = st_osFile st ∧ st_length st' = st_length st + 12 + zlen k + zlen v).
Proof.
  intros Hwf Hkv.
  destruct (Z.le_gt_cases (st_size st) (st_length st + 12 + zlen k + zlen v)) as [H|H].
  - left. split; [done|]. by eapply put_full.
  - right. by apply put_ok.
Qed.

Lemma newStore_wf `{GommapLaws} path size :
  0 < size ≤ 2 ^ 32 → ∃ st, newStore path size = Ret st ∧ st_wf st [] ∧
    st_size st = size ∧ st_deleted st = 0.
Proof.
  intros Hs. unfold newStore. rewrite s64_small by lia.
  set (zeros := replicate (Z.to_nat size) x00).
  assert (zlen zeros = size) as Hz by (apply zlen_replicate; lia).
  assert (∀ f, st_wf (Store 0 0 size f zeros) []) as Hwf.
  { intros f. split; cbn [st_file st_length st_size]; [|done|done|lia|lia].
    exists zeros. split; [done|]. by apply Forall_replicate. }
  case_decide.
  - rewrite check_true by (apply Z.leb_le; lia). bsimpl.
    rewrite mapFile_ok by lia. bsimpl. by eexists.
  - rewrite mapRegion_ok by lia. by eexists.
Qed.

Lemma set_deleted_wf st l d : st_wf st l → st_wf (set_deleted st d) l.
Proof. by intros [? ? ? ? ?]. Qed.
