(* ===== verification/HashMap.v ===== *)
(** * The open-addressed index of a chunk ([src/core/pmap/hashmap.go])

    A hashmap is an array of buckets probed linearly; a bucket holds a 32-bit
    hash and the index of a record in the store.  Hash 0 marks a free bucket
    and hash 1 a deleted one.  The abstract view of a hashmap is the finite
    set of its entries [(hash, store index)]. *)
From S2P Require Import Prelude.
From S2P Require Import Store.

(** ** A [[]uint32] allocated by [make]: zero until written *)

Record u32slice := U32Slice { sl_len : Z; sl_cells : gmap Z Z }.

Definition make_u32 (n : Z) : u32slice := U32Slice n ∅.

Definition sl_at (s : u32slice) (i : Z) : Z := default 0 (sl_cells s !! i).

Definition sl_get (s : u32slice) (i : Z) : outcome Z :=
  _ ← check ((0 <=? i) && (i <? sl_len s)); Ret (sl_at s i).

Definition sl_set (s : u32slice) (i x : Z) : outcome u32slice :=
  _ ← check ((0 <=? i) && (i <? sl_len s));
  Ret (U32Slice (sl_len s) (<[i := x]> (sl_cells s))).

(** ** The hashmap *)

Record hashmap := HashMap {
  sizeLimit : Z;
  size : Z;
  sizeMask : Z;
  sizelog2 : Z;
  numKeysToExpand : Z;
  numStoredKeys : Z;
  numDeletedKeys : Z;
  mem : u32slice
}.

Definition defaultHashMapInitialLog2Size : Z := 16.
Definition defaultHashMapSizeLimit : Z := 1024 * 1024 * 64.

Definition emptyBucket : Z := 0.
Definition deletedBucket : Z := 1.

(** [uint32(float64(size) * 0.7)]: the nearest double of 0.7 is
    6305039478318694 / 2^53, its product with a power of two is exact, and the
    conversion truncates. *)
Definition maxLoad (size : Z) : Z := Z.shiftr (size * 6305039478318694) 53.

(** The loop [for i < log2Size { sizeMask |= 1 << i }]. *)
Fixpoint maskLoop (log2Size : nat) : Z :=
  match log2Size with
  | O => 0
  | S i => Z.lor (maskLoop i) (u32 (Z.shiftl 1 (Z.of_nat i)))
  end.

Definition setSize (m : hashmap) (log2Size : Z) : hashmap :=
  let size := u32 (Z.shiftl 1 log2Size) in
  {| sizeLimit := sizeLimit m;
     size := size;
     sizeMask := maskLoop (Z.to_nat log2Size);
     sizelog2 := log2Size;
     numKeysToExpand := u32 (maxLoad size);
     numStoredKeys := numStoredKeys m;
     numDeletedKeys := numDeletedKeys m;
     mem := mem m |}.

Definition set_mem (m : hashmap) (a : u32slice) : hashmap :=
  HashMap (sizeLimit m) (size m) (sizeMask m) (sizelog2 m) (numKeysToExpand m)
          (numStoredKeys m) (numDeletedKeys m) a.

Definition set_numStoredKeys (m : hashmap) (n : Z) : hashmap :=
  HashMap (sizeLimit m) (size m) (sizeMask m) (sizelog2 m) (numKeysToExpand m)
          n (numDeletedKeys m) (mem m).

Definition alloc (m : hashmap) : hashmap :=
  let m := setSize m (sizelog2 m) in set_mem m (make_u32 (u32 (size m * 8))).

Definition newHashMap (initialLog2Size sizeLimit : Z) : hashmap :=
  alloc (HashMap sizeLimit 0 0 initialLog2Size 0 0 0 (make_u32 0)).

Definition getHash (m : hashmap) (index : Z) : outcome Z :=
  sl_get (mem m) (u32 (2 * index)).
Definition getStoreIndex (m : hashmap) (index : Z) : outcome Z :=
  sl_get (mem m) (u32 (2 * index + 1)).
Definition setHash (m : hashmap) (index hash : Z) : outcome hashmap :=
  a ← sl_set (mem m) (u32 (2 * index)) hash; Ret (set_mem m a).
Definition setStoreIndex (m : hashmap) (index storeIndex : Z) : outcome hashmap :=
  a ← sl_set (mem m) (u32 (2 * index + 1)) storeIndex; Ret (set_mem m a).

Definition hashReMap (h : Z) : Z := if h <? 2 then u32 (h + 2) else h.

(** [index = (index + 1) & sizeMask]. *)
Definition nextIndex (m : hashmap) (index : Z) : Z :=
  Z.land (u32 (index + 1)) (sizeMask m).

(** The inner loop of [expand]: put the pair in the first free bucket. *)
Fixpoint place (fuel : nat) (m : hashmap) (index h storeIndex : Z) : outcome hashmap :=
  match fuel with
  | O => OutOfFuel
  | S fuel =>
      storedHash ← getHash m index;
      if storedHash =? emptyBucket then
        m ← setHash m index h;
        m ← setStoreIndex m index storeIndex;
        Ret (set_numStoredKeys m (u32 (numStoredKeys m + 1)))
      else place fuel m (nextIndex m index) h storeIndex
  end.

(** The outer loop of [expand], from bucket [i] for [n] buckets. *)
Fixpoint rehash (m newHM : hashmap) (i : Z) (n : nat) : outcome hashmap :=
  match n with
  | O => Ret newHM
  | S n =>
      h ← getHash m i;
      newHM ←
        (if deletedBucket <? h then
           storeIndex ← getStoreIndex m i;
           place (Z.to_nat (size newHM)) newHM (Z.land h (sizeMask newHM)) h storeIndex
         else Ret newHM);
      rehash m newHM (i + 1) n
  end.

Definition errHashMapLimit : error := "HashMap size limit reached".

(** The map after the call, and the error if the limit is reached. *)
Definition expand (m : hashmap) : outcome (hashmap * option error) :=
  if sizeLimit m <? u32 (size m * 2) then Ret (m, Some errHashMapLimit)
  else
    let newHM := newHashMap (u32 (sizelog2 m + 1)) (sizeLimit m) in
    newHM ← rehash m newHM 0 (Z.to_nat (size m));
    Ret (newHM, None).

(** ** Probing

    The loop shared by [Get], [Set], [CAS], [Del] and [restorePair] of
    [pmap.go]: from [index] on, stop at the first free bucket, or at the first
    bucket with hash [h] whose stored key equals the one searched for
    ([sameKey] compares the key of a record with it). *)
Inductive probed := AtEmpty (index : Z) | AtMatch (index stIndex : Z).

Fixpoint probe (fuel : nat) (m : hashmap) (h : Z) (sameKey : Z → outcome bool)
    (index : Z) : outcome probed :=
  match fuel with
  | O => OutOfFuel
  | S fuel =>
      storedHash ← getHash m index;
      if storedHash =? emptyBucket then Ret (AtEmpty index)
      else if h =? storedHash then
        stIndex ← getStoreIndex m index;
        same ← sameKey stIndex;
        if (same : bool) then Ret (AtMatch index stIndex)
        else probe fuel m h sameKey (nextIndex m index)
      else probe fuel m h sameKey (nextIndex m index)
  end.

(** ** The sizes *)

Lemma maskLoop_ones n : (n ≤ 32)%nat → maskLoop n = Z.ones (Z.of_nat n).
Proof.
  induction n as [|n IH]; intros Hn; [done|]. cbn [maskLoop]. rewrite IH by lia.
  rewrite u32_small.
  - rewrite lor_ones_succ by lia. f_equal. lia.
  - rewrite Z.shiftl_1_l. split; [lia|]. apply Z.pow_lt_mono_r; lia.
Qed.

Lemma maxLoad_range s : 0 ≤ s → 0 ≤ maxLoad s ≤ s.
Proof.
  intros Hs. unfold maxLoad. rewrite Z.shiftr_div_pow2 by lia. split.
  - apply Z.div_pos; lia.
  - apply Z.div_le_upper_bound; lia.
Qed.

(** At least one bucket stays free at the load limit. *)
Lemma maxLoad_lt s : 0 < s → maxLoad s < s.
Proof.
  intros Hs. unfold maxLoad. rewrite Z.shiftr_div_pow2 by lia.
  apply Z.div_lt_upper_bound; lia.
Qed.

(** Doubling the size makes room for at least one more key. *)
Lemma maxLoad_double s : 0 < s → maxLoad s < maxLoad (2 * s).
Proof.
  intros Hs. unfold maxLoad. rewrite !Z.shiftr_div_pow2 by lia.
  set (c := 6305039478318694). set (d := 2 ^ 53).
  assert (0 < d) by (unfold d; lia).
  pose proof (Z.div_mod (s * c) d ltac:(lia)) as E1.
  pose proof (Z.mod_pos_bound (s * c) d ltac:(lia)) as B1.
  apply Z.lt_le_trans with (s * c / d + 1); [lia|].
  apply Z.div_le_lower_bound; [done|].
  assert (d ≤ 2 * c) by (unfold d, c; lia). nia.
Qed.

(** ** Cells of the array *)

Definition hash_at (m : hashmap) (i : Z) : Z := sl_at (mem m) (2 * i).
Definition idx_at (m : hashmap) (i : Z) : Z := sl_at (mem m) (2 * i + 1).

(** The fields derived from the size, and the bounds that keep the 32-bit
    arithmetic of the code from wrapping. *)
Record hm_shape (m : hashmap) : Prop := HmShape {
  sh_log2 : 0 ≤ sizelog2 m ≤ 28;
  sh_size : size m = 2 ^ sizelog2 m;
  sh_mask : sizeMask m = Z.ones (sizelog2 m);
  sh_load : numKeysToExpand m = maxLoad (size m);
  sh_mem : sl_len (mem m) = 8 * size m;
  sh_limit : sizeLimit m ≤ 2 ^ 28
}.

Lemma shape_size_pos m : hm_shape m → 0 < size m ≤ 2 ^ 28.
Proof.
  intros H. rewrite (sh_size m H). pose proof (sh_log2 m H).
  split; [apply Z.pow_pos_nonneg; lia|]. apply Z.pow_le_mono_r; lia.
Qed.

Lemma shape_mask_mod m h : hm_shape m → Z.land h (sizeMask m) = h mod size m.
Proof.
  intros H. rewrite (sh_mask m H), (sh_size m H). apply Z.land_ones.
  pose proof (sh_log2 m H). lia.
Qed.

Lemma nextIndex_mod m i :
  hm_shape m → 0 ≤ i < size m → nextIndex m i = (i + 1) mod size m.
Proof.
  intros H Hi. unfold nextIndex. pose proof (shape_size_pos m H).
  rewrite u32_small by lia. by apply shape_mask_mod.
Qed.

Lemma newHashMap_shape log2 limit :
  0 ≤ log2 ≤ 28 → limit ≤ 2 ^ 28 →
  hm_shape (newHashMap log2 limit) ∧ size (newHashMap log2 limit) = 2 ^ log2 ∧
  (∀ i, hash_at (newHashMap log2 limit) i = 0) ∧
  numStoredKeys (newHashMap log2 limit) = 0 ∧ sizeLimit (newHashMap log2 limit) = limit.
Proof.
  intros Hlog Hlim. unfold newHashMap, alloc, setSize, set_mem. cbn -[maskLoop].
  assert (0 < 2 ^ log2 ≤ 2 ^ 28) as Hpow.
  { split; [apply Z.pow_pos_nonneg; lia|]. apply Z.pow_le_mono_r; lia. }
  assert (u32 (Z.shiftl 1 log2) = 2 ^ log2) as Hsz.
  { rewrite Z.shiftl_1_l. apply u32_small. lia. }
  split_and!; try done.
  split; cbn -[maskLoop]; try done.
  - rewrite maskLoop_ones by lia. f_equal. lia.
  - rewrite Hsz. pose proof (maxLoad_range (2 ^ log2)). apply u32_small. lia.
  - rewrite Hsz. rewrite u32_small by lia. lia.
Qed.

(** ** Reading and writing a bucket in range *)

Definition with_hash (m : hashmap) (i h : Z) : hashmap :=
  set_mem m (U32Slice (sl_len (mem m)) (<[2 * i := h]> (sl_cells (mem m)))).
Definition with_idx (m : hashmap) (i s : Z) : hashmap :=
  set_mem m (U32Slice (sl_len (mem m)) (<[2 * i + 1 := s]> (sl_cells (mem m)))).

Section buckets.
Context (m : hashmap) (Hsh : hm_shape m).

Lemma cell_in_range i j :
  0 ≤ i < size m → 0 ≤ j ≤ 1 →
  u32 (2 * i + j) = 2 * i + j ∧ (0 <=? 2 * i + j) && (2 * i + j <? sl_len (mem m)) = true.
Proof using Hsh.
  intros Hi Hj. pose proof (shape_size_pos m Hsh). rewrite (sh_mem m Hsh).
  split; [apply u32_small; lia|]. rewrite andb_true_iff, Z.leb_le, Z.ltb_lt. lia.
Qed.

Lemma getHash_at i : 0 ≤ i < size m → getHash m i = Ret (hash_at m i).
Proof using Hsh.
  intros Hi. destruct (cell_in_range i 0) as [E1 E2]; [done|lia|].
  rewrite Z.add_0_r in *. unfold getHash, sl_get. by rewrite E1, E2.
Qed.

Lemma getStoreIndex_at i : 0 ≤ i < size m → getStoreIndex m i = Ret (idx_at m i).
Proof using Hsh.
  intros Hi. destruct (cell_in_range i 1) as [E1 E2]; [done|lia|].
  unfold getStoreIndex, sl_get. by rewrite E1, E2.
Qed.

Lemma setHash_at i h : 0 ≤ i < size m → setHash m i h = Ret (with_hash m i h).
Proof using Hsh.
  intros Hi. destruct (cell_in_range i 0) as [E1 E2]; [done|lia|].
  rewrite Z.add_0_r in *. unfold setHash, sl_set. by rewrite E1, E2.
Qed.

Lemma setStoreIndex_at i s : 0 ≤ i < size m → setStoreIndex m i s = Ret (with_idx m i s).
Proof using Hsh.
  intros Hi. destruct (cell_in_range i 1) as [E1 E2]; [done|lia|].
  unfold setStoreIndex, sl_set. by rewrite E1, E2.
Qed.

Lemma with_hash_shape i h : hm_shape (with_hash m i h).
Proof using Hsh. by destruct Hsh. Qed.
Lemma with_idx_shape i s : hm_shape (with_idx m i s).
Proof using Hsh. by destruct Hsh. Qed.
Lemma set_numStoredKeys_shape n : hm_shape (set_numStoredKeys m n).
Proof using Hsh. by destruct Hsh. Qed.
End buckets.

Lemma sl_at_insert len c i x j :
  sl_at (U32Slice len (<[i := x]> c)) j = if decide (i = j) then x else sl_at (U32Slice len c) j.
Proof. unfold sl_at. cbn [sl_cells]. rewrite lookup_insert. by case_decide. Qed.

Lemma sl_at_eta m j : sl_at (U32Slice (sl_len (mem m)) (sl_cells (mem m))) j = sl_at (mem m) j.
Proof. done. Qed.

Lemma hash_at_with_hash m i h j :
  hash_at (with_hash m i h) j = if decide (i = j) then h else hash_at m j.
Proof.
  unfold hash_at, with_hash, set_mem. cbn [mem]. rewrite sl_at_insert, sl_at_eta.
  repeat case_decide; try done; lia.
Qed.

Lemma idx_at_with_hash m i h j : idx_at (with_hash m i h) j = idx_at m j.
Proof.
  unfold idx_at, with_hash, set_mem. cbn [mem]. rewrite sl_at_insert, sl_at_eta.
  repeat case_decide; try done; lia.
Qed.

Lemma hash_at_with_idx m i s j : hash_at (with_idx m i s) j = hash_at m j.
Proof.
  unfold hash_at, with_idx, set_mem. cbn [mem]. rewrite sl_at_insert, sl_at_eta.
  repeat case_decide; try done; lia.
Qed.

Lemma idx_at_with_idx m i s j :
  idx_at (with_idx m i s) j = if decide (i = j) then s else idx_at m j.
Proof.
  unfold idx_at, with_idx, set_mem. cbn [mem]. rewrite sl_at_insert, sl_at_eta.
  repeat case_decide; try done; lia.
Qed.

Lemma hash_at_set_numStoredKeys m n i : hash_at (set_numStoredKeys m n) i = hash_at m i.
Proof. done. Qed.
Lemma idx_at_set_numStoredKeys m n i : idx_at (set_numStoredKeys m n) i = idx_at m i.
Proof. done. Qed.
Lemma size_with_hash m i h : size (with_hash m i h) = size m.
Proof. done. Qed.
Lemma size_with_idx m i h : size (with_idx m i h) = size m.
Proof. done. Qed.

Create Rewrite HintDb buckets.
#[export] Hint Rewrite hash_at_with_hash idx_at_with_hash hash_at_with_idx idx_at_with_idx
  hash_at_set_numStoredKeys idx_at_set_numStoredKeys size_with_hash size_with_idx : buckets.

(** ** Buckets in use, probe sequences and entries *)

Definition occupied (m : hashmap) : gset Z :=
  list_to_set (filter (λ i, hash_at m i ≠ 0) (seqZ 0 (size m))).

Lemma elem_of_occupied m i :
  0 ≤ size m → i ∈ occupied m ↔ 0 ≤ i < size m ∧ hash_at m i ≠ 0.
Proof.
  intros Hs. unfold occupied.
  rewrite elem_of_list_to_set, list_elem_of_filter, elem_of_seqZ, Z.add_0_l. tauto.
Qed.

(** Bucket [i] is reached by probing from hash [h]: every bucket before it is
    in use. *)
Definition reach (m : hashmap) (h i : Z) : Prop :=
  ∃ n, 0 ≤ n < size m ∧ i = (h + n) mod size m ∧
       ∀ j, 0 ≤ j < n → hash_at m ((h + j) mod size m) ≠ 0.

Definition live (m : hashmap) (i h s : Z) : Prop :=
  0 ≤ i < size m ∧ hash_at m i = h ∧ 2 ≤ h ∧ idx_at m i = s.

Definition entry (m : hashmap) (h s : Z) : Prop := ∃ i, live m i h s.

Record hm_inv (m : hashmap) : Prop := HmInv {
  inv_shape : hm_shape m;
  inv_stored : numStoredKeys m = Z.of_nat (base.size (occupied m));
  inv_free : numStoredKeys m < size m;
  inv_reach : ∀ i h s, live m i h s → reach m h i;
  inv_inj : ∀ i j h h' s, live m i h s → live m j h' s → i = j
}.

(** The hashmap represents the set of entries [E] within its load limit. *)
Record hm_rep (m : hashmap) (E : gset (Z * Z)) : Prop := HmRep {
  rep_inv : hm_inv m;
  rep_load : numStoredKeys m ≤ numKeysToExpand m;
  rep_entries : ∀ h s, (h, s) ∈ E ↔ entry m h s
}.

Lemma mod_in_range m x : hm_shape m → 0 ≤ x mod size m < size m.
Proof. intros H. apply Z.mod_pos_bound. by apply shape_size_pos. Qed.

Lemma reach_mono m m' h i :
  size m' = size m → (∀ j, hash_at m j ≠ 0 → hash_at m' j ≠ 0) → reach m h i → reach m' h i.
Proof.
  intros Hs Hm (n & Hn & Hi & Hp). exists n. rewrite Hs. split_and!; [lia..|done|auto].
Qed.

(** Two buckets reached from the same hash by the same number of steps. *)
Lemma reach_step m h n n' :
  hm_shape m → 0 ≤ n < size m → 0 ≤ n' < size m →
  (h + n) mod size m = (h + n') mod size m → n = n'.
Proof.
  intros Hsh Hn Hn' E. pose proof (shape_size_pos m Hsh).
  assert ((n - n') mod size m = 0) as H0.
  { replace (n - n') with ((h + n) - (h + n')) by lia.
    rewrite Zminus_mod, E, Z.sub_diag. apply Z.mod_0_l. lia. }
  apply Z.mod_divide in H0 as [q Hq]; [|lia].
  destruct (Z.lt_total q 0) as [?|[->|?]]; nia.
Qed.

(** A probe sequence meets a free bucket. *)
Lemma first_free m h :
  hm_inv m → ∃ n, 0 ≤ n < size m ∧ hash_at m ((h + n) mod size m) = 0 ∧
    ∀ j, 0 ≤ j < n → hash_at m ((h + j) mod size m) ≠ 0.
Proof.
  intros [Hsh Hst Hfree _ _]. pose proof (shape_size_pos m Hsh) as Hs.
  assert (∃ i, 0 ≤ i < size m ∧ hash_at m i = 0) as (i & Hi & Hz).
  { destruct (decide (Exists (λ i, hash_at m i = 0) (seqZ 0 (size m)))) as [H|H].
    - apply Exists_exists in H as (i & Hi%elem_of_seqZ & Hz). exists i. split; [lia|done].
    - exfalso. apply not_Exists_Forall in H; [|apply _].
      assert (occupied m = list_to_set (seqZ 0 (size m))) as Hall.
      { apply set_eq. intros j. rewrite elem_of_occupied by lia.
        rewrite elem_of_list_to_set, elem_of_seqZ, Z.add_0_l.
        split; [tauto|]. intros Hj. split; [done|].
        rewrite Forall_forall in H. apply H. by rewrite elem_of_seqZ, Z.add_0_l. }
      rewrite Hall, size_list_to_set, length_seqZ in Hst by apply NoDup_seqZ. lia. }
  destruct (least_index (λ n, hash_at m ((h + n) mod size m) = 0) _ ((i - h) mod size m))
    as (n & Hn & Hz' & Hl).
  - apply Z.mod_pos_bound. lia.
  - rewrite Z.add_mod_idemp_r by lia. replace (h + (i - h)) with i by lia.
    by rewrite Z.mod_small.
  - pose proof (Z.mod_pos_bound (i - h) (size m)). exists n. split_and!; [lia..|done|done].
Qed.

(** ** Filling a free bucket *)

Definition hm_insert (m : hashmap) (i h s : Z) : hashmap :=
  set_numStoredKeys (with_idx (with_hash m i h) i s) (u32 (numStoredKeys m + 1)).

Section insert.
Context (m : hashmap) (i h s : Z).
Context (Hinv : hm_inv m) (Hi : 0 ≤ i < size m) (Hfree : hash_at m i = 0).
Context (Hreach : reach m h i) (Hh : 2 ≤ h) (Hs : ∀ h', ¬ entry m h' s).
Context (Hroom : numStoredKeys m + 1 < size m).

Let m' := hm_insert m i h s.

Lemma insert_live j h' s' :
  live m' j h' s' ↔ (j = i ∧ h' = h ∧ s' = s) ∨ (j ≠ i ∧ live m j h' s').
Proof using All.
  unfold live, m', hm_insert. change (size (set_numStoredKeys _ _)) with (size m).
  autorewrite with buckets. repeat case_decide; naive_solver.
Qed.

Lemma insert_entry h' s' : entry m' h' s' ↔ entry m h' s' ∨ (h' = h ∧ s' = s).
Proof using All.
  unfold entry. setoid_rewrite insert_live. split.
  - naive_solver.
  - intros [[j Hj]|[-> ->]]; [|naive_solver]. exists j. right. split; [|done].
    intros ->. destruct Hj as (_ & ? & ? & _). lia.
Qed.

Lemma insert_occupied : occupied m' = {[i]} ∪ occupied m.
Proof using All.
  pose proof (shape_size_pos m (inv_shape m Hinv)).
  apply set_eq. intros j. rewrite elem_of_union, elem_of_singleton, !elem_of_occupied
    by (try change (size m') with (size m); lia).
  change (size m') with (size m). unfold m', hm_insert. autorewrite with buckets.
  case_decide as Hd; [subst j|].
  - split; [by left|]. intros _. split; [done|lia].
  - split; [by right|]. intros [->|?]; [by destruct Hd|done].
Qed.

Lemma insert_stored : numStoredKeys m' = numStoredKeys m + 1.
Proof using All.
  pose proof (shape_size_pos m (inv_shape m Hinv)).
  pose proof (inv_stored m Hinv). cbn. apply u32_small. lia.
Qed.

Lemma insert_inv : hm_inv m'.
Proof using All.
  destruct Hinv as [Hsh Hst Hfr Hre Hin]. split.
  - by destruct Hsh.
  - rewrite insert_stored, insert_occupied, size_union, size_singleton, Hst; [lia|].
    apply disjoint_singleton_l. rewrite elem_of_occupied; [naive_solver|].
    pose proof (shape_size_pos m Hsh). lia.
  - rewrite insert_stored. change (size m') with (size m). lia.
  - assert (∀ j, hash_at m j ≠ 0 → hash_at m' j ≠ 0) as Hmono.
    { intros j Hj. unfold m', hm_insert. autorewrite with buckets. case_decide; lia. }
    intros j h' s'. rewrite insert_live. intros [(-> & -> & ->)|[_ Hl]];
      (eapply (reach_mono m); [done|done|]); [done|by eapply Hre].
  - intros j j' h1 h2 s'. rewrite !insert_live.
    intros [(-> & -> & ->)|[? Hl]] [(-> & -> & Hs')|[? Hl']]; subst; try done.
    + exfalso. eapply Hs. by exists j'.
    + exfalso. eapply Hs. by exists j.
    + by eapply Hin.
Qed.
End insert.

(** ** Rewriting a bucket in use: new store index, or deletion *)

(** A change of one bucket that keeps it in use keeps the probe sequences. *)
Lemma rewrite_inv m m' i :
  hm_inv m → hm_shape m' → size m' = size m → numStoredKeys m' = numStoredKeys m →
  0 ≤ i < size m → hash_at m i ≠ 0 → hash_at m' i ≠ 0 →
  (∀ j, j ≠ i → hash_at m' j = hash_at m j) →
  (∀ j h s, live m' j h s → j ≠ i → live m j h s) →
  (∀ h s, live m' i h s → reach m h i ∧ ∀ j h', live m j h' s → j = i) →
  hm_inv m'.
Proof.
  intros [Hsh Hst Hfr Hre Hin] Hsh' Hsz Hnum Hi Hocc Hocc' Hsame Hlive Hnew.
  assert (∀ j, hash_at m j ≠ 0 ↔ hash_at m' j ≠ 0) as Huse.
  { intros j. destruct (decide (j = i)) as [->|?]; [tauto|]. by rewrite Hsame. }
  pose proof (shape_size_pos m Hsh). split.
  - done.
  - rewrite Hnum, Hst. do 2 f_equal. apply set_eq. intros j.
    rewrite !elem_of_occupied by lia. rewrite Hsz, Huse. done.
  - by rewrite Hnum, Hsz.
  - intros j h s Hl. apply (reach_mono m); [done|naive_solver|].
    destruct (decide (j = i)) as [->|?]; [by eapply Hnew|eauto].
  - intros j j' h h' s Hl Hl'.
    destruct (decide (j = i)) as [->|?], (decide (j' = i)) as [->|?]; try done.
    + symmetry. eapply Hnew; [done|]. eauto.
    + eapply Hnew; [done|]. eauto.
    + eauto.
Qed.

Definition hm_update (m : hashmap) (i h s : Z) : hashmap := with_idx (with_hash m i h) i s.

Section rewrite.
Context (m : hashmap) (i h s0 : Z) (Hinv : hm_inv m) (Hl : live m i h s0).

Lemma update_live s j h' s' :
  live (hm_update m i h s) j h' s' ↔
  (j = i ∧ h' = h ∧ s' = s) ∨ (j ≠ i ∧ live m j h' s').
Proof using All.
  unfold live, hm_update in *. autorewrite with buckets.
  repeat case_decide; naive_solver.
Qed.

Lemma delete_live j h' s' :
  live (with_hash m i deletedBucket) j h' s' ↔ j ≠ i ∧ live m j h' s'.
Proof using All.
  unfold live, deletedBucket in *. autorewrite with buckets.
  repeat case_decide; naive_solver lia.
Qed.

(** The other buckets hold the entries with another store index. *)
Lemma other_entry h' s' : (∃ j, j ≠ i ∧ live m j h' s') ↔ entry m h' s' ∧ s' ≠ s0.
Proof using All.
  split.
  - intros (j & Hne & Hj). split; [by exists j|]. intros ->.
    apply Hne. by eapply (inv_inj m Hinv).
  - intros [[j Hj] Hne]. exists j. split; [|done]. intros ->.
    apply Hne. destruct Hj as (_ & _ & _ & <-), Hl as (_ & _ & _ & <-). done.
Qed.

Lemma update_inv s :
  (∀ h', ¬ entry m h' s) → hm_inv (hm_update m i h s).
Proof using All.
  intros Hfresh. pose proof Hl as (Hi & Hh & H2 & Hs).
  eapply (rewrite_inv m _ i); try done.
  - apply with_idx_shape, with_hash_shape, Hinv.
  - lia.
  - unfold hm_update. autorewrite with buckets. case_decide; [lia|done].
  - intros j Hj. unfold hm_update. autorewrite with buckets. by case_decide.
  - intros j h' s'. rewrite update_live. naive_solver.
  - intros h' s' [(_ & -> & ->)|[? _]]%update_live; [|done].
    split; [by eapply Hinv|]. intros j h' Hj. exfalso. eapply Hfresh. by exists j.
Qed.

Lemma delete_inv : hm_inv (with_hash m i deletedBucket).
Proof using All.
  pose proof Hl as (Hi & Hh & H2 & Hs). eapply (rewrite_inv m _ i); try done.
  - apply with_hash_shape, Hinv.
  - lia.
  - autorewrite with buckets. case_decide; done.
  - intros j Hj. autorewrite with buckets. by case_decide.
  - intros j h' s'. rewrite delete_live. naive_solver.
  - intros h' s' [? _]%delete_live. done.
Qed.
End rewrite.

(** ** The operations on the represented set *)

Lemma rep_insert m E i h s :
  hm_rep m E → 0 ≤ i < size m → hash_at m i = 0 → reach m h i → 2 ≤ h →
  (∀ h', (h', s) ∉ E) → numStoredKeys m < numKeysToExpand m →
  hm_rep (hm_insert m i h s) ({[(h, s)]} ∪ E).
Proof.
  intros [Hinv Hload Hent] Hi Hz Hr H2 Hs Hlt.
  pose proof (shape_size_pos m (inv_shape m Hinv)) as Hpos.
  assert (numStoredKeys m + 1 < size m) as Hroom.
  { rewrite (sh_load m (inv_shape m Hinv)) in Hlt. pose proof (maxLoad_lt (size m)). lia. }
  assert (∀ h', ¬ entry m h' s) as Hs' by (intros h'; rewrite <- Hent; auto).
  split.
  - by apply insert_inv.
  - rewrite insert_stored by done. change (numKeysToExpand (hm_insert m i h s)) with (numKeysToExpand m). lia.
  - intros h' s'. rewrite insert_entry, <- Hent by done. set_solver.
Qed.

Lemma rep_fun m E h h' s : hm_rep m E → (h, s) ∈ E → (h', s) ∈ E → h = h'.
Proof.
  intros [Hinv _ Hent] [i Hi]%Hent [j Hj]%Hent.
  assert (i = j) as -> by (by eapply (inv_inj m Hinv)).
  destruct Hi as (_ & <- & _), Hj as (_ & <- & _). done.
Qed.

Lemma rep_update m E i h s0 s :
  hm_rep m E → live m i h s0 → (∀ h', (h', s) ∉ E) →
  hm_rep (hm_update m i h s) ({[(h, s)]} ∪ (E ∖ {[(h, s0)]})).
Proof.
  intros Hrep Hl Hs. pose proof Hrep as [Hinv Hload Hent].
  assert ((h, s0) ∈ E) as Hin by (apply Hent; by exists i). split.
  - eapply update_inv; [done..|]. intros h'. rewrite <- Hent. auto.
  - done.
  - intros h' s'. transitivity ((h' = h ∧ s' = s) ∨ (entry m h' s' ∧ s' ≠ s0)).
    + rewrite <- Hent. rewrite elem_of_union, elem_of_difference, !elem_of_singleton.
      split; intros [?|[HE Hne]]; [naive_solver| |naive_solver|].
      * right. split; [done|]. intros ->. apply Hne. f_equal. by eapply rep_fun.
      * right. split; [done|]. intros [= _ ->]. done.
    + rewrite <- (other_entry m i h s0) by done. unfold entry.
      setoid_rewrite (update_live m i h s0); [|done..]. naive_solver.
Qed.

Lemma rep_delete m E i h s0 :
  hm_rep m E → live m i h s0 → hm_rep (with_hash m i deletedBucket) (E ∖ {[(h, s0)]}).
Proof.
  intros Hrep Hl. pose proof Hrep as [Hinv Hload Hent].
  assert ((h, s0) ∈ E) as Hin by (apply Hent; by exists i). split.
  - by eapply delete_inv.
  - done.
  - intros h' s'. transitivity (entry m h' s' ∧ s' ≠ s0).
    + rewrite <- Hent, elem_of_difference, elem_of_singleton.
      split; intros [HE Hne]; (split; [done|]); [|naive_solver].
      intros ->. apply Hne. f_equal. by eapply rep_fun.
    + rewrite <- (other_entry m i h s0) by done. unfold entry.
      setoid_rewrite (delete_live m i h s0); [|done..]. naive_solver.
Qed.

Lemma rep_new log2 limit :
  0 ≤ log2 ≤ 28 → limit ≤ 2 ^ 28 → hm_rep (newHashMap log2 limit) ∅.
Proof.
  intros Hlog Hlim. destruct (newHashMap_shape log2 limit) as (Hsh & Hsz & Hz & Hn & _); [done..|].
  assert (occupied (newHashMap log2 limit) = ∅) as Hocc.
  { apply set_eq. intros j. pose proof (shape_size_pos _ Hsh).
    rewrite elem_of_occupied by lia. rewrite Hz. set_solver. }
  assert (∀ i h s, ¬ live (newHashMap log2 limit) i h s) as Hnone.
  { intros i h s (_ & Hh & H2 & _). rewrite Hz in Hh. lia. }
  pose proof (shape_size_pos _ Hsh). split; [split|..].
  - done.
  - by rewrite Hocc, size_empty.
  - rewrite Hn. lia.
  - intros i h s []%Hnone.
  - intros i j h h' s []%Hnone.
  - rewrite Hn, (sh_load _ Hsh). pose proof (maxLoad_range (size (newHashMap log2 limit))). lia.
  - intros h s. split; [set_solver|]. intros [i []%Hnone].
Qed.

(** ** Probing *)

Lemma next_pos m h n :
  hm_shape m → nextIndex m ((h + n) mod size m) = (h + (n + 1)) mod size m.
Proof.
  intros Hsh. pose proof (shape_size_pos m Hsh).
  rewrite nextIndex_mod by (done || by apply mod_in_range).
  rewrite Z.add_mod_idemp_l by lia. f_equal. lia.
Qed.

Section probing.
Context (m : hashmap) (h : Z) (sameKey : Z → outcome bool).
Context (Hinv : hm_inv m).
(** The key of every bucket with this hash can be compared. *)
Context (Hcmp : ∀ i, 0 ≤ i < size m → hash_at m i = h → h ≠ 0 →
                     ∃ b, sameKey (idx_at m i) = Ret b).

Let pos n := (h + n) mod size m.

Definition hit (i : Z) : Prop := hash_at m i = h ∧ sameKey (idx_at m i) = Ret true.
#[local] Instance hit_dec i : Decision (hit i).
Proof. unfold hit. apply _. Defined.

Lemma probe_run n : ∀ fuel k,
  (n < fuel)%nat → 0 ≤ k →
  (∀ j, k ≤ j < k + Z.of_nat n → hash_at m (pos j) ≠ 0 ∧ ¬ hit (pos j)) →
  (hash_at m (pos (k + Z.of_nat n)) = 0 →
   probe fuel m h sameKey (pos k) = Ret (AtEmpty (pos (k + Z.of_nat n)))) ∧
  (hash_at m (pos (k + Z.of_nat n)) ≠ 0 → hit (pos (k + Z.of_nat n)) →
   probe fuel m h sameKey (pos k) =
   Ret (AtMatch (pos (k + Z.of_nat n)) (idx_at m (pos (k + Z.of_nat n))))).
Proof using All.
  pose proof (inv_shape m Hinv) as Hsh.
  induction n as [|n IH]; intros [|fuel] k Hf Hk Hbefore; try lia; cbn [probe];
    rewrite getHash_at by (done || by apply mod_in_range); bsimpl.
  - rewrite Z.add_0_r. split.
    + intros Hz. by rewrite Hz.
    + intros Hnz [Hh Hs]. destruct (Z.eqb_spec (hash_at m (pos k)) emptyBucket); [done|].
      rewrite Hh, Z.eqb_refl. rewrite getStoreIndex_at by (done || by apply mod_in_range).
      bsimpl. by rewrite Hs.
  - destruct (Hbefore k) as [Hnz Hno]; [lia|].
    destruct (Z.eqb_spec (hash_at m (pos k)) emptyBucket) as [E|_]; [done|].
    assert (probe fuel m h sameKey (nextIndex m (pos k)) =
            probe fuel m h sameKey (pos (k + 1))) as Hnext.
    { unfold pos. by rewrite next_pos. }
    assert (∀ r, probe fuel m h sameKey (pos (k + 1)) = r →
      (if h =? hash_at m (pos k) then
         stIndex ← getStoreIndex m (pos k); same ← sameKey stIndex;
         (if (same : bool) then Ret (AtMatch (pos k) stIndex)
          else probe fuel m h sameKey (nextIndex m (pos k)))
       else probe fuel m h sameKey (nextIndex m (pos k))) = r) as Hskip.
    { intros r <-. destruct (Z.eqb_spec h (hash_at m (pos k))) as [Hh|_]; [|done].
      rewrite getStoreIndex_at by (done || by apply mod_in_range). bsimpl.
      destruct (Hcmp (pos k)) as [[] Hb]; [by apply mod_in_range|done|congruence| |].
      - by destruct Hno.
      - by rewrite Hb. }
    replace (k + Z.of_nat (S n)) with ((k + 1) + Z.of_nat n) by lia.
    destruct (IH fuel (k + 1)) as [IH1 IH2]; [lia|lia|intros j Hj; apply Hbefore; lia|].
    split; intros; apply Hskip; auto.
Qed.

(** What a probe from the home bucket of [h] finds. *)
Definition probe_post (r : probed) : Prop :=
  match r with
  | AtEmpty i =>
      0 ≤ i < size m ∧ hash_at m i = 0 ∧ reach m h i ∧
      (2 ≤ h → ∀ s, entry m h s → sameKey s = Ret false)
  | AtMatch i s =>
      0 ≤ i < size m ∧ hash_at m i = h ∧ h ≠ 0 ∧ idx_at m i = s ∧ sameKey s = Ret true
  end.

Lemma probe_spec :
  ∃ r, probe (Z.to_nat (size m)) m h sameKey (Z.land h (sizeMask m)) = Ret r ∧
       probe_post r.
Proof using All.
  pose proof (inv_shape m Hinv) as Hsh. pose proof (shape_size_pos m Hsh) as Hpos.
  rewrite shape_mask_mod by done.
  destruct (first_free m h Hinv) as (n0 & Hn0 & Hz0 & Hbefore0).
  destruct (least_index (λ n, hash_at m (pos n) = 0 ∨ hit (pos n)) _ n0)
    as (n & Hn & Hstop & Hbefore); [lia|by left|].
  destruct (probe_run (Z.to_nat n) (Z.to_nat (size m)) 0) as [He Hm].
  { lia. } { lia. }
  { intros j Hj. pose proof (Hbefore j ltac:(lia)). tauto. }
  rewrite Z2Nat.id, Z.add_0_l in He, Hm by lia.
  unfold pos in He at 2. unfold pos in Hm at 3. rewrite Z.add_0_r in He, Hm.
  assert (∀ j, 0 ≤ j < n → hash_at m (pos j) ≠ 0) as Hused
    by (intros j Hj E; apply (Hbefore j Hj); by left).
  destruct (decide (hash_at m (pos n) = 0)) as [Hz|Hnz].
  - exists (AtEmpty (pos n)). split; [by apply He|]. cbn [probe_post].
    assert (reach m h (pos n)) as Hreach by (by exists n; split_and!; [lia..|done|]).
    split_and!; [by apply mod_in_range..|done|done|].
    intros H2 s [i Hl]. pose proof Hl as (Hi & Hh & _ & Hs).
    destruct (Hcmp i) as [b Hb]; [done..|lia|]. rewrite Hs in Hb. rewrite Hb.
    destruct b; [|done]. exfalso.
    destruct (inv_reach m Hinv _ _ _ Hl) as (n' & Hn' & -> & Hp').
    destruct (Z.lt_total n n') as [Hlt|[->|Hgt]].
    + apply (Hp' n); [lia|done].
    + unfold pos in Hz. lia.
    + apply (Hbefore n'); [lia|]. right. split; [done|]. unfold pos. by rewrite Hs.
  - destruct Hstop as [?|Hhit]; [done|]. exists (AtMatch (pos n) (idx_at m (pos n))).
    split; [by apply Hm|]. destruct Hhit as [Hh Hs]. cbn [probe_post].
    split_and!; try done; try by apply mod_in_range. congruence.
Qed.
End probing.

(** ** Expansion *)

Lemma place_run m h s n : ∀ fuel k,
  hm_shape m → (n < fuel)%nat → 0 ≤ k →
  (∀ j, k ≤ j < k + Z.of_nat n → hash_at m ((h + j) mod size m) ≠ 0) →
  hash_at m ((h + (k + Z.of_nat n)) mod size m) = 0 →
  place fuel m ((h + k) mod size m) h s =
  Ret (hm_insert m ((h + (k + Z.of_nat n)) mod size m) h s).
Proof.
  induction n as [|n IH]; intros [|fuel] k Hsh Hf Hk Hbefore Hz; try lia; cbn [place];
    rewrite getHash_at by (done || by apply mod_in_range); bsimpl.
  - rewrite Z.add_0_r in *. rewrite Hz, Z.eqb_refl.
    rewrite setHash_at by (done || by apply mod_in_range). bsimpl.
    rewrite setStoreIndex_at;
      [done|by apply with_hash_shape|by apply (mod_in_range m)].
  - destruct (Z.eqb_spec (hash_at m ((h + k) mod size m)) emptyBucket) as [E|_].
    { exfalso. apply (Hbefore k); [lia|done]. }
    rewrite next_pos by done. replace (k + Z.of_nat (S n)) with ((k + 1) + Z.of_nat n) in * by lia.
    apply IH; [done|lia|lia| |done]. intros j Hj. apply Hbefore. lia.
Qed.

Lemma place_spec m h s :
  hm_inv m → numStoredKeys m + 1 < size m → 2 ≤ h → (∀ h', ¬ entry m h' s) →
  ∃ m', place (Z.to_nat (size m)) m (Z.land h (sizeMask m)) h s = Ret m' ∧
    hm_inv m' ∧ size m' = size m ∧ sizeLimit m' = sizeLimit m ∧
    numStoredKeys m' = numStoredKeys m + 1 ∧
    ∀ h' s', entry m' h' s' ↔ entry m h' s' ∨ (h' = h ∧ s' = s).
Proof.
  intros Hinv Hroom H2 Hs. pose proof (inv_shape m Hinv) as Hsh.
  destruct (first_free m h Hinv) as (n & Hn & Hz & Hbefore).
  assert (reach m h ((h + n) mod size m)) by (by exists n).
  pose proof (mod_in_range m (h + n) Hsh) as Hi.
  exists (hm_insert m ((h + n) mod size m) h s). split_and!.
  - rewrite shape_mask_mod by done.
    pose proof (place_run m h s (Z.to_nat n) (Z.to_nat (size m)) 0 Hsh) as Hp.
    rewrite Z2Nat.id, Z.add_0_l, Z.add_0_r in Hp by lia. apply Hp; [lia|lia|done|done].
  - by apply insert_inv.
  - done.
  - done.
  - by apply insert_stored.
  - intros h' s'. by apply insert_entry.
Qed.

(** The buckets in use below [i]. *)
Definition occupied_below (m : hashmap) (i : Z) : gset Z :=
  filter (λ j, j < i) (occupied m).

Lemma occupied_below_succ m i :
  0 ≤ i < size m → hash_at m i ≠ 0 →
  Z.of_nat (base.size (occupied_below m (i + 1))) =
  Z.of_nat (base.size (occupied_below m i)) + 1.
Proof.
  intros Hi Hnz. assert (occupied_below m (i + 1) = {[i]} ∪ occupied_below m i) as ->.
  { apply set_eq. intros j. unfold occupied_below.
    rewrite elem_of_union, elem_of_singleton, !elem_of_filter, elem_of_occupied by lia.
    split; [intros [? ?]; destruct (decide (j = i)); [by left|right; split; [lia|done]]|].
    intros [->|[? ?]]; split; try done; lia. }
  rewrite size_union, size_singleton; [lia|].
  apply disjoint_singleton_l. unfold occupied_below. rewrite elem_of_filter. lia.
Qed.

Lemma occupied_below_mono m i :
  Z.of_nat (base.size (occupied_below m i)) ≤ Z.of_nat (base.size (occupied_below m (i + 1))) ∧
  Z.of_nat (base.size (occupied_below m i)) ≤ Z.of_nat (base.size (occupied m)).
Proof.
  unfold occupied_below. split; apply Nat2Z.inj_le, subseteq_size; intros j;
    rewrite ?elem_of_filter; [|tauto]. intros [? ?]. split; [lia|done].
Qed.

(** Invariant of the outer loop: the new map holds the live entries of the
    buckets below [i]. *)
Record rehashed (m newHM : hashmap) (i : Z) : Prop := Rehashed {
  re_inv : hm_inv newHM;
  re_size : size newHM = 2 * size m;
  re_limit : sizeLimit newHM = sizeLimit m;
  re_count : numStoredKeys newHM ≤ Z.of_nat (base.size (occupied_below m i));
  re_entries : ∀ h s, entry newHM h s ↔ ∃ j, j < i ∧ live m j h s
}.

Lemma rehash_step m newHM i :
  hm_inv m → 0 ≤ i < size m → rehashed m newHM i →
  ∃ newHM', rehashed m newHM' (i + 1) ∧
    ∀ n, rehash m newHM i (S n) = rehash m newHM' (i + 1) n.
Proof.
  intros Hm Hi [Hinv Hsz Hlim Hcnt Hent]. pose proof (inv_shape m Hm) as Hsh.
  pose proof (occupied_below_mono m i) as [Hmono Htot].
  pose proof (inv_stored m Hm) as Hst. pose proof (inv_free m Hm) as Hfr.
  cbn [rehash]. rewrite getHash_at by done. bsimpl. unfold deletedBucket.
  destruct (Z.ltb_spec 1 (hash_at m i)) as [H2|H1].
  - assert (live m i (hash_at m i) (idx_at m i)) as Hl by (split_and!; [lia..|done|lia|done]).
    rewrite getStoreIndex_at by done. bsimpl.
    destruct (place_spec newHM (hash_at m i) (idx_at m i)) as
      (m' & -> & Hinv' & Hsz' & Hlim' & Hn' & Hent'); [done|lia|lia| |].
    { intros h' [j [Hj Hl']]%Hent.
      assert (i = j) by (by eapply (inv_inj m Hm)). lia. }
    bsimpl. exists m'. split; [|done]. split; try congruence.
    + rewrite Hn', occupied_below_succ by (done || lia). lia.
    + intros h s. rewrite Hent', Hent. split.
      * intros [[j [? ?]]|[-> ->]]; [exists j; split; [lia|done]|]. exists i. split; [lia|done].
      * intros (j & Hj & Hl'). destruct (decide (j = i)) as [->|].
        { right. destruct Hl' as (_ & <- & _ & <-). done. }
        left. exists j. split; [lia|done].
  - bsimpl. exists newHM. split; [|done]. split; try done; [lia|].
    intros h s. rewrite Hent. split; intros (j & Hj & Hl); exists j; (split; [|done]); [lia|].
    destruct (decide (j = i)) as [->|]; [|lia]. destruct Hl as (_ & ? & ? & _). lia.
Qed.

Lemma rehash_spec m n : ∀ newHM i,
  hm_inv m → 0 ≤ i → i + Z.of_nat n = size m → rehashed m newHM i →
  ∃ newHM', rehash m newHM i n = Ret newHM' ∧ rehashed m newHM' (size m).
Proof.
  induction n as [|n IH]; intros newHM i Hm Hi Hn Hre.
  - exists newHM. rewrite Z.add_0_r in Hn. by subst i.
  - destruct (rehash_step m newHM i) as (newHM' & Hre' & ->); [done|lia|done|].
    apply IH; [done|lia|lia|done].
Qed.

(** Below the limit, [expand] doubles the array and keeps every entry. *)
Lemma expand_ok m E :
  hm_rep m E → 2 * size m ≤ sizeLimit m →
  ∃ m', expand m = Ret (m', None) ∧ hm_rep m' E ∧ size m' = 2 * size m ∧
    sizeLimit m' = sizeLimit m ∧ numStoredKeys m' ≤ numStoredKeys m ∧
    numStoredKeys m' < numKeysToExpand m'.
Proof.
  intros [Hinv Hload Hent] Hlim. pose proof (inv_shape m Hinv) as Hsh.
  pose proof (shape_size_pos m Hsh) as Hpos. pose proof (sh_log2 m Hsh) as Hlog.
  pose proof (sh_limit m Hsh) as Hl28.
  assert (sizelog2 m + 1 ≤ 28) as Hlog'.
  { apply (Z.pow_le_mono_r_iff 2); [lia..|]. rewrite Z.pow_add_r, <- (sh_size m Hsh) by lia. lia. }
  assert (2 ^ (sizelog2 m + 1) = 2 * size m) as Hsz.
  { rewrite Z.pow_add_r, (sh_size m Hsh) by lia. lia. }
  unfold expand. rewrite u32_small by lia.
  destruct (Z.ltb_spec (sizeLimit m) (size m * 2)); [lia|]. rewrite u32_small by lia.
  destruct (newHashMap_shape (sizelog2 m + 1) (sizeLimit m)) as (_ & Hsz' & _ & Hn0 & Hlim');
    [lia..|].
  destruct (rep_new (sizelog2 m + 1) (sizeLimit m)) as [Hinv0 _ Hent0]; [lia..|].
  destruct (rehash_spec m (Z.to_nat (size m)) (newHashMap (sizelog2 m + 1) (sizeLimit m)) 0)
    as (m' & -> & [Hinv' Hsz'' Hlim'' Hcnt Hent']); [done|lia|lia| |].
  { split; [done|lia|done|lia|]. intros h s. rewrite <- Hent0. split; [set_solver|].
    intros (j & Hj & (? & _)). lia. }
  bsimpl. exists m'. pose proof (occupied_below_mono m (size m)) as [_ Htot].
  rewrite <- (inv_stored m Hinv) in Htot.
  assert (numStoredKeys m' < numKeysToExpand m') as Hlt.
  { rewrite (sh_load m' (inv_shape m' Hinv')), Hsz''. rewrite (sh_load m Hsh) in Hload.
    pose proof (maxLoad_double (size m)). lia. }
  split_and!; try done; [|lia]. split; [done|lia|].
  intros h s. rewrite Hent, Hent'. split; [|by intros (j & _ & Hj); exists j].
  intros [j Hj]. exists j. split; [|done]. destruct Hj as ((_ & Hj) & _). done.
Qed.

Lemma expand_limit m :
  hm_shape m → sizeLimit m < 2 * size m → expand m = Ret (m, Some errHashMapLimit).
Proof.
  intros Hsh Hlim. pose proof (shape_size_pos m Hsh). unfold expand. rewrite u32_small by lia.
  destruct (Z.ltb_spec (sizeLimit m) (size m * 2)); [done|lia].
Qed.
