(* ===== verification/PMap.v ===== *)
(** * The persistent dictionary of a chunk ([src/core/pmap/pmap.go])

    A PMap joins the store, its hashmap index and the checksum.  The first 8
    bytes of a value are its timestamp; the last write wins.  This file holds
    the operations; [PMapSpec] relates them to a finite map. *)
From S2P Require Import Prelude.
From S2P Require Import Hashing.
From S2P Require Import SyncChecksum.
From S2P Require Import Store.
From S2P Require Import HashMap.

Record PMap := mkPMap {
  hm : hashmap;
  st : store;
  cks : syncChecksum;
  path : string
}.

Definition set_hm (c : PMap) (m : hashmap) : PMap := mkPMap m (st c) (cks c) (path c).
Definition set_st (c : PMap) (s : store) : PMap := mkPMap (hm c) s (cks c) (path c).
Definition set_cks (c : PMap) (k : syncChecksum) : PMap := mkPMap (hm c) (st c) k (path c).

Definition New `{Gommap} (path : string) (size : Z) : outcome PMap :=
  s ← newStore path size;
  Ret (mkPMap (newHashMap defaultHashMapInitialLog2Size defaultHashMapSizeLimit)
              s zeroChecksum path).

(** ** Helpers shared by the primitives *)

(** [binary.LittleEndian.Uint64(b[:8])] of a value held in memory, and of a
    slice of the mapping. *)
Definition header (b : list byte) : outcome Z := s ← slice b 0 8; get_le 8 s.
Definition mheader (s : store) (v : mslice) : outcome Z := b ← mhead8 s v; get_le 8 b.

(** [bytes.Equal(c.st.key(stIndex), key)]. *)
Definition sameKey (s : store) (key : list byte) (stIndex : Z) : outcome bool :=
  k ← Store.key s stIndex; Ret (bool_decide (k = key)).

(** The probing loop, from the bucket [h & sizeMask]. *)
Definition search (c : PMap) (h : Z) (key : list byte) : outcome probed :=
  probe (Z.to_nat (size (hm c))) (hm c) h (sameKey (st c) key)
        (Z.land h (sizeMask (hm c))).

(** [if numStoredKeys >= numKeysToExpand { expand }], before a write. *)
Definition ensureSpace (c : PMap) : outcome (PMap * option error) :=
  if numKeysToExpand (hm c) <=? numStoredKeys (hm c) then
    r ← expand (hm c); Ret (set_hm c r.1, r.2)
  else Ret (c, None).

(** Point the bucket [index] at a record: [setHash] and [setStoreIndex]. *)
Definition setBucket (c : PMap) (index h storeIndex : Z) : outcome PMap :=
  m ← setHash (hm c) index h;
  m ← setStoreIndex m index storeIndex;
  Ret (set_hm c m).

Definition incStored (c : PMap) : PMap :=
  set_hm c (set_numStoredKeys (hm c) (u32 (numStoredKeys (hm c) + 1))).

Definition addDeleted (c : PMap) (n : Z) : PMap :=
  set_st c (set_deleted (st c) (u64 (st_deleted (st c) + n))).

(** ** Primitives *)

(** [Get] probes with the hash as given, without [hashReMap]. *)
Definition Get (c : PMap) (h32 : Z) (key : list byte) : outcome (option (list byte)) :=
  r ← search c (u32 h32) key;
  match r with
  | AtEmpty _ => Ret None
  | AtMatch _ stIndex =>
      v ← val (st c) stIndex; b ← mbytes (st c) v; Ret (Some b)
  end.

Definition errSetLen : error := "Error: message value len < 8".

Definition Set_ (c : PMap) (h64 : Z) (key value : list byte) : outcome (PMap * option error) :=
  if zlen value <? 8 then Ret (c, Some errSetLen)
  else
    sp ← ensureSpace c;
    match sp with
    | (_, Some e) => Ret (c, Some e)
    | (c, None) =>
        let h := hashReMap (u32 h64) in
        r ← search c h key;
        match r with
        | AtEmpty index =>
            p ← put (st c) key value;
            match p with
            | (s, inl e) => Ret (set_st c s, Some e)
            | (s, inr storeIndex) =>
                c ← setBucket (set_st c s) index h storeIndex;
                let c := incStored c in
                x ← header value;
                Ret (set_cks c (sum (cks c) (Z.lxor h64 x) (time_of_header x)), None)
            end
        | AtMatch index stIndex =>
            v ← val (st c) stIndex;
            old ← mheader (st c) v;
            x ← header value;
            let oldT := time_of_header old in
            let t := time_of_header x in
            if (t <? oldT) || (oldT =? t) then Ret (c, None)
            else
              p ← put (st c) key value;
              match p with
              | (s, inl e) => Ret (set_st c s, Some e)
              | (s, inr storeIndex) =>
                  old ← mheader s v;
                  let k := sub (cks c) (Z.lxor h64 old) t in
                  c ← setBucket (set_st c s) index h storeIndex;
                  Ret (set_cks c (sum k (Z.lxor h64 x) t), None)
              end
        end
    end.

Definition errCASLen : error := "Error: CAS value len < 16".
Definition errCASEmpty : error := "CAS failed: empty pair: non-zero timestamp".
Definition errCASTime : error := "CAS failed: timestamp mismatch".
Definition errCASHash : error := "CAS failed: hash mismatch".

(** [value] holds the expected timestamp, the hash of the expected value, the
    new timestamp and the new value. *)
Definition CAS (c : PMap) (h64 : Z) (key value : list byte) : outcome (PMap * option error) :=
  if zlen value <? 24 then Ret (c, Some errCASLen)
  else
    sp ← ensureSpace c;
    match sp with
    | (_, Some e) => Ret (c, Some e)
    | (c, None) =>
        provided ← header value;
        b ← slice value 8 16; hv ← get_le 8 b;
        b ← slice value 16 24; x ← get_le 8 b;
        new ← slice_from value 16;
        let providedTime := time_of_header provided in
        let t := time_of_header x in
        let h := hashReMap (u32 h64) in
        r ← search c h key;
        match r with
        | AtEmpty index =>
            if negb (providedTime =? time_unix 0 0) && negb (hv =? FNV1a64 []) then
              Ret (c, Some errCASEmpty)
            else
              p ← put (st c) key new;
              match p with
              | (s, inl e) => Ret (set_st c s, Some e)
              | (s, inr storeIndex) =>
                  c ← setBucket (set_st c s) index h storeIndex;
                  let c := incStored c in
                  Ret (set_cks c (sum (cks c) (Z.lxor h64 x) t), None)
              end
        | AtMatch index stIndex =>
            v ← val (st c) stIndex;
            old ← mheader (st c) v;
            if negb (time_of_header old =? providedTime) then Ret (c, Some errCASTime)
            else
              vb ← mbytes (st c) v;
              rest ← slice_from vb 8;
              if negb (hv =? FNV1a64 rest) then Ret (c, Some errCASHash)
              else
                let c := set_cks c (sub (cks c) (Z.lxor h64 old) t) in
                p ← put (st c) key new;
                match p with
                | (s, inl e) => Ret (set_st c s, Some e)
                | (s, inr storeIndex) =>
                    c ← setBucket (set_st c s) index h storeIndex;
                    Ret (set_cks c (sum (cks c) (Z.lxor h64 x) t), None)
                end
        end
    end.

(** [Del] marks the bucket deleted, then appends a record without a value (a
    tombstone). *)
Definition Del (c : PMap) (h64 : Z) (key value : list byte) : outcome (PMap * option error) :=
  let h := hashReMap (u32 h64) in
  r ← search c h key;
  match r with
  | AtEmpty _ => Ret (c, None)
  | AtMatch index stIndex =>
      v ← val (st c) stIndex;
      old ← mheader (st c) v;
      x ← header value;
      let oldT := time_of_header old in
      let t := time_of_header x in
      if t <? oldT then Ret (c, None)
      else
        let c := addDeleted c (12 + zlen key + ms_len v) in
        let c := set_cks c (sub (cks c) (Z.lxor h64 old) t) in
        m ← setHash (hm c) index deletedBucket;
        let c := set_hm c m in
        p ← put (st c) key [];
        match p with
        | (s, inl e) => Ret (set_st c s, Some e)
        | (s, inr _) => Ret (set_st c s, None)
        end
  end.

Definition Checksum (c : PMap) (now : time) : Z * PMap :=
  let r := checksum (cks c) now in (r.1, set_cks c r.2).

Definition Close `{Gommap} (c : PMap) : outcome PMap := s ← close (st c); Ret (set_st c s).

(** The closed map, and the path of the file that is removed. *)
Definition CloseAndDelete `{Gommap} (c : PMap) : outcome (PMap * option string) :=
  s ← close (st c); f ← deleteStore s; Ret (set_st c s, f).

(** [int] values: the counters are 64-bit. *)
Definition Deleted (c : PMap) : Z := s64 (st_deleted (st c)).
Definition Used (c : PMap) : Z := s64 (st_length (st c)).
Definition Size (c : PMap) : Z := s64 (st_size (st c)).

(** ** Iteration *)

(** Is the record at [index] the current one of its key? *)
Definition isPresent (c : PMap) (index : Z) : outcome bool :=
  key ← Store.key (st c) index;
  value ← Get c (u32 (FNV1a64 key)) key;
  match value with
  | None => Ret false
  | Some value =>
      storeValue ← val (st c) index;
      a ← slice value 0 8;
      b ← mhead8 (st c) storeValue;
      Ret (bool_decide (a = b))
  end.

Section iterate.
Context {A : Type}.
(** The callback: its own state before and after, and [Continue]. *)
Context (foreach : A → list byte → list byte → outcome (A * bool)).

(** The body of both loops: call [foreach] on the record at [index] if it is
    present; the flag says whether to go on. *)
Definition visit (c : PMap) (index : Z) (a : A) : outcome (A * bool) :=
  p ← isPresent c index;
  if (p : bool) then
    key ← Store.key (st c) index;
    v ← val (st c) index;
    value ← mbytes (st c) v;
    foreach a key value
  else Ret (a, true).

Fixpoint iterateLoop (fuel : nat) (c : PMap) (index : Z) (a : A) : outcome A :=
  if index <? st_length (st c) then
    match fuel with
    | O => OutOfFuel
    | S fuel =>
        r ← visit c index a;
        if (r.2 : bool) then
          t ← totalLen (st c) index;
          iterateLoop fuel c (u64 (index + u64 (12 + t))) r.1
        else Ret r.1
    end
  else Ret a.

Definition Iterate (c : PMap) (a : A) : outcome A :=
  iterateLoop (Z.to_nat (st_length (st c))) c 0 a.

(** The loop [for index >= 0]: the comparison of an unsigned value with zero
    always holds. *)
Fixpoint backwardsLoop (fuel : nat) (c : PMap) (index : Z) (a : A) : outcome A :=
  match fuel with
  | O => OutOfFuel
  | S fuel =>
      r ← visit c index a;
      if (r.2 : bool) then
        p ← prev (st c) index;
        if p <? 0 then Ret r.1 else backwardsLoop fuel c (u64 p) r.1
      else Ret r.1
  end.

(** The first [prev] is converted to [uint64] before it is compared with 0. *)
Definition BackwardsIterate (c : PMap) (a : A) : outcome A :=
  let index := st_length (st c) in
  if index <=? 0 then Ret a
  else
    p ← prev (st c) index;
    backwardsLoop (Z.to_nat (st_length (st c))) c (u64 p) a.
End iterate.

(** ** Opening a closed map *)

Definition restorePair (c : PMap) (key : list byte) (value : mslice) (storeIndex : Z) :
    outcome (PMap * option error) :=
  sp ← ensureSpace c;
  match sp with
  | (_, Some e) => Ret (c, Some e)
  | (c, None) =>
      let h64 := FNV1a64 key in
      let h := hashReMap (u32 h64) in
      r ← search c h key;
      match r with
      | AtEmpty index =>
          c ← setBucket c index h storeIndex;
          let c := incStored c in
          x ← mheader (st c) value;
          Ret (set_cks c (sum (cks c) (Z.lxor h64 x) (time_of_header x)), None)
      | AtMatch index stIndex =>
          v ← val (st c) stIndex;
          x ← mheader (st c) value;
          let t := time_of_header x in
          old ← mheader (st c) v;
          let c := set_cks c (sub (cks c) (Z.lxor h64 old) t) in
          let c := addDeleted c (12 + zlen key + ms_len v) in
          if 0 <? ms_len value then
            c ← setBucket c index h storeIndex;
            Ret (set_cks c (sum (cks c) (Z.lxor h64 x) t), None)
          else
            m ← setHash (hm c) index deletedBucket;
            Ret (set_hm c m, None)
      end
  end.

(** The loop of [Open]; the error of [restorePair] is ignored. *)
Fixpoint openLoop (fuel : nat) (c : PMap) (index : Z) : outcome PMap :=
  match fuel with
  | O => OutOfFuel
  | S fuel =>
      kl ← keyLen (st c) index;
      if kl <=? 0 then Ret c
      else
        key ← Store.key (st c) index;
        v ← val (st c) index;
        r ← restorePair c key v (u32 index);
        let c := r.1 in
        let c := if 0 <? ms_len v then c else addDeleted c (12 + zlen key) in
        t ← totalLen (st c) index;
        let index := u64 (index + u64 (12 + t)) in
        openLoop fuel (set_st c (set_length (st c) index)) index
  end.

Definition Open `{Gommap} (path : string) (contents : list byte) : outcome PMap :=
  s ← openStore path contents;
  openLoop (S (Z.to_nat (zlen contents)))
    (mkPMap (newHashMap defaultHashMapInitialLog2Size defaultHashMapSizeLimit)
            s zeroChecksum path) 0.
