(* ===== verification/PMapSpec.v ===== *)
(** * What a chunk promises: a finite map where the last write wins

    The abstract state of a PMap is a finite map from keys to values, the log
    of the records written so far, the capacity of the store, and the drift
    of its checksum.  Each primitive of [PMap] is related to a transition of
    that state by a refinement theorem. *)
From S2P Require Import Prelude.
From S2P Require Import Hashing.
From S2P Require Import SyncChecksum.
From S2P Require Import Store.
From S2P Require Import HashMap.
From S2P Require Import PMap.

(** ** The abstract state *)

Abbreviation kvmap := (gmap (list byte) (list byte)).

(** The 64-bit header of a value, and the instant it stands for. *)
Definition hdr (v : list byte) : Z := le_dec (take 8 v).
Definition ts (v : list byte) : time := time_of_header (hdr v).

Record abs := Abs {
  a_map : kvmap;
  a_log : list rec;
  a_size : Z;
  a_drift : Z
}.

(** A record of [k] and [v] still fits in the store. *)
Definition room (a : abs) (k v : list byte) : bool :=
  zlen (enc_log (a_log a)) + 12 + zlen k + zlen v <? a_size a.

(** Write the pair if there is room for it. *)
Definition spec_write (a : abs) (k v : list byte) : abs * option error :=
  if room a k v then
    (Abs (<[k := v]> (a_map a)) (a_log a ++ [Rec k v]) (a_size a) (a_drift a), None)
  else (a, Some errStoreFull).

Definition spec_Set (a : abs) (k v : list byte) : abs * option error :=
  if zlen v <? 8 then (a, Some errSetLen)
  else match a_map a !! k with
       | None => spec_write a k v
       | Some old => if ts v <=? ts old then (a, None) else spec_write a k v
       end.

(** The contribution of a pair to the checksum, and the sum over a map. *)
Definition el (k v : list byte) : Z := Z.lxor (FNV1a64 k) (hdr v).
Definition csum (m : kvmap) : Z := map_fold (λ k v acc, el k v + acc) 0 m.

Definition spec_CAS (a : abs) (k x : list byte) : abs * option error :=
  if zlen x <? 24 then (a, Some errCASLen)
  else
    let provided := ts x in
    let hv := hdr (drop 8 x) in
    let new := drop 16 x in
    match a_map a !! k with
    | None =>
        if negb (provided =? 0) && negb (hv =? FNV1a64 []) then (a, Some errCASEmpty)
        else spec_write a k new
    | Some old =>
        if negb (ts old =? provided) then (a, Some errCASTime)
        else if negb (hv =? FNV1a64 (drop 8 old)) then (a, Some errCASHash)
        else if room a k new then spec_write a k new
        else (Abs (a_map a) (a_log a) (a_size a) (u64 (a_drift a - el k old)),
              Some errStoreFull)
    end.

Definition spec_Del (a : abs) (k x : list byte) : outcome (abs * option error) :=
  match a_map a !! k with
  | None => Ret (a, None)
  | Some old =>
      _ ← check (8 <=? zlen x);
      if ts x <? ts old then Ret (a, None)
      else if room a k [] then
        Ret (Abs (delete k (a_map a)) (a_log a ++ [Rec k []]) (a_size a) (a_drift a), None)
      else Ret (Abs (delete k (a_map a)) (a_log a) (a_size a) (a_drift a), Some errStoreFull)
  end.

(** ** The representation *)

Definition khash (k : list byte) : Z := hashReMap (u32 (FNV1a64 k)).

Lemma hashReMap_range h : 0 ≤ h < 2 ^ 32 → 2 ≤ hashReMap h < 2 ^ 32.
Proof.
  intros Hh. unfold hashReMap. destruct (Z.ltb_spec h 2); [|lia]. rewrite u32_small; lia.
Qed.

Lemma khash_range k : 2 ≤ khash k < 2 ^ 32.
Proof. apply hashReMap_range, u32_range. Qed.

(** The keys whose 32-bit hash is neither of the two reserved bucket values. *)
Definition good_key (k : list byte) : Prop := 2 ≤ u32 (FNV1a64 k).
#[export] Instance good_key_dec k : Decision (good_key k).
Proof. unfold good_key. apply _. Defined.

Lemma good_key_khash k : good_key k → u32 (FNV1a64 k) = khash k.
Proof.
  unfold good_key, khash, hashReMap. destruct (Z.ltb_spec (u32 (FNV1a64 k)) 2); [lia|done].
Qed.

(** A directory: the offset of the current record of each key. *)
Abbreviation directory := (gmap (list byte) Z).

Definition dir_entries (d : directory) : gset (Z * Z) :=
  map_to_set (λ k s, (khash k, s)) d.

Lemma elem_of_dir_entries d h s :
  (h, s) ∈ dir_entries d ↔ ∃ k, d !! k = Some s ∧ h = khash k.
Proof. unfold dir_entries. rewrite elem_of_map_to_set. naive_solver. Qed.

(** The chunk sizes this covers: up to 512 MiB, four times the default.  A
    store of that size cannot fill the hashmap up to its limit. *)
Definition maxChunkSize : Z := 2 ^ 29.

Record pm_dir (c : PMap) (a : abs) (d : directory) : Prop := PmDir {
  pd_store : st_wf (st c) (a_log a);
  pd_size : a_size a = st_size (st c) ∧ st_size (st c) ≤ maxChunkSize;
  pd_index : hm_rep (hm c) (dir_entries d);
  pd_limit : sizeLimit (hm c) = defaultHashMapSizeLimit ∧
             size (hm c) ≤ defaultHashMapSizeLimit;
  pd_count : numStoredKeys (hm c) ≤ Z.of_nat (length (a_log a));
  pd_some : ∀ k s, d !! k = Some s →
              ∃ v, a_map a !! k = Some v ∧ rec_at (a_log a) s (Rec k v) ∧ 8 ≤ zlen v;
  pd_none : ∀ k, d !! k = None → a_map a !! k = None;
  pd_drift : a_drift a = u64 (newChecksum (cks c) - csum (a_map a));
  pd_sum : sums_ok (cks c)
}.

(** The PMap [c] represents the abstract state [a]. *)
Definition pm_rep (c : PMap) (a : abs) : Prop := ∃ d, pm_dir c a d.

(** ** Checksums of maps *)

Lemma csum_empty : csum ∅ = 0.
Proof. unfold csum. by rewrite map_fold_empty. Qed.

Lemma csum_insert_None m k v : m !! k = None → csum (<[k := v]> m) = el k v + csum m.
Proof. intros H. unfold csum. rewrite map_fold_insert_L; [done|intros; lia|done]. Qed.

Lemma csum_delete m k v : m !! k = Some v → csum m = el k v + csum (delete k m).
Proof. intros H. unfold csum. rewrite (map_fold_delete_L _ _ k v); [done|intros; lia|done]. Qed.

Lemma csum_insert_Some m k v w :
  m !! k = Some v → csum (<[k := w]> m) = csum m - el k v + el k w.
Proof.
  intros H. rewrite <- insert_delete_eq, csum_insert_None by (by rewrite lookup_delete_eq).
  rewrite (csum_delete m k v) by done. lia.
Qed.

Lemma u64_congr x y q : x = y + q * 2 ^ 64 → u64 x = u64 y.
Proof. intros ->. unfold u64. by rewrite Z.mod_add. Qed.

Lemma drift_shift n el s s' :
  s' = s + el → u64 (u64 (n + el) - s') = u64 (n - s).
Proof.
  intros ->. unfold u64 at 2. rewrite (Z.mod_eq (n + el)) by lia.
  apply (u64_congr _ _ (- ((n + el) / 2 ^ 64))). lia.
Qed.

(** ** Headers *)

Lemma hdr_range v : 0 ≤ hdr v < 2 ^ 64.
Proof.
  unfold hdr. pose proof (le_dec_range (take 8 v)) as H. split; [lia|].
  eapply Z.lt_le_trans; [apply H|]. change (2 ^ 64) with (256 ^ 8).
  apply Z.pow_le_mono_r; [lia|]. unfold zlen. rewrite length_take. lia.
Qed.

Lemma zlen_take8 (v : list byte) : 8 ≤ zlen v → zlen (take 8 v) = 8.
Proof. intros H. by apply (zlen_take 8). Qed.

Lemma header_ok v : 8 ≤ zlen v → header v = Ret (hdr v).
Proof.
  intros H. unfold header. rewrite slice_mid by lia. bsimpl.
  rewrite drop_0. change (Z.to_nat (8 - 0)) with 8%nat.
  by rewrite get_le_all by (by apply zlen_take8).
Qed.

Lemma header_panic v : zlen v < 8 → header v = Panic.
Proof. intros H. unfold header. rewrite slice_panic; [done|lia]. Qed.

(** ** Reading the record of a key *)

Section read_record.
Context (s : store) (l : list rec) (off : Z) (k v : list byte).
Context (Hwf : st_wf s l) (Hat : rec_at l off (Rec k v)).

Let vs := MSlice (off + 8 + zlen k) (zlen v).

Lemma rec_end : 0 ≤ off ∧ off + 12 + zlen k + zlen v ≤ st_length s ∧ st_length s < 2 ^ 32.
Proof using All.
  destruct (layout_of_wf _ _ _ _ Hwf Hat) as (_ & ? & Hend & ?).
  unfold body_len in Hend. cbn [r_key r_val] in Hend. lia.
Qed.

Lemma rec_layout : layout (st_file s) off (Rec k v) ∧ 0 ≤ off ∧
  off + 12 + body_len (Rec k v) < 2 ^ 32.
Proof using All.
  destruct (layout_of_wf _ _ _ _ Hwf Hat) as (? & ? & ? & ?). split_and!; [done..|lia].
Qed.

Lemma rec_key : Store.key s off = Ret k.
Proof using All. destruct rec_layout as (? & ? & ?). by apply (read_key s off (Rec k v)). Qed.

Lemma rec_keyLen : keyLen s off = Ret (zlen k).
Proof using All. destruct rec_layout as (? & ? & ?). by apply (read_keyLen s off (Rec k v)). Qed.

Lemma rec_totalLen : totalLen s off = Ret (zlen k + zlen v).
Proof using All. destruct rec_layout as (? & ? & ?). by apply (read_totalLen s off (Rec k v)). Qed.

Lemma rec_val : val s off = Ret vs.
Proof using All. destruct rec_layout as (? & ? & ?). by apply (read_val s off (Rec k v)). Qed.

Lemma rec_bytes : mbytes s vs = Ret v.
Proof using All. destruct rec_layout as (? & ? & ?). by apply (read_val_bytes s off (Rec k v)). Qed.

Lemma rec_head8 : 8 ≤ zlen v → mhead8 s vs = Ret (take 8 v).
Proof using All.
  intros. destruct rec_layout as (? & ? & ?). by apply (read_val_head8 s off (Rec k v)).
Qed.

Lemma rec_header : 8 ≤ zlen v → mheader s vs = Ret (hdr v).
Proof using All.
  intros H. unfold mheader. rewrite rec_head8 by done. bsimpl.
  by rewrite get_le_all by (by apply zlen_take8).
Qed.

Lemma rec_sameKey k' : sameKey s k' off = Ret (bool_decide (k = k')).
Proof using All. unfold sameKey. by rewrite rec_key. Qed.
End read_record.

(** ** Searching *)

(** The state of the index around the key that is searched for. *)
Definition found (c : PMap) (d : directory) (k : list byte) (r : probed) : Prop :=
  match r with
  | AtEmpty i =>
      d !! k = None ∧ 0 ≤ i < size (hm c) ∧ hash_at (hm c) i = 0 ∧ reach (hm c) (khash k) i
  | AtMatch i s => d !! k = Some s ∧ live (hm c) i (khash k) s
  end.

Lemma dir_inj c a d k k' s : pm_dir c a d → d !! k = Some s → d !! k' = Some s → k = k'.
Proof.
  intros Hd (v & _ & Hat & _)%(pd_some _ _ _ Hd) (v' & _ & Hat' & _)%(pd_some _ _ _ Hd).
  pose proof (rec_at_fun _ _ _ _ Hat Hat') as E. by injection E.
Qed.

Lemma live_dir c a d i h s :
  pm_dir c a d → live (hm c) i h s → ∃ k, d !! k = Some s ∧ h = khash k.
Proof.
  intros Hd Hl. apply elem_of_dir_entries, (rep_entries _ _ (pd_index _ _ _ Hd)). by exists i.
Qed.

Lemma search_found c a d k :
  pm_dir c a d → ∃ r, search c (khash k) k = Ret r ∧ found c d k r.
Proof.
  intros Hd. pose proof (pd_index _ _ _ Hd) as Hrep. pose proof (khash_range k) as Hk.
  assert (∀ i, 0 ≤ i < size (hm c) → hash_at (hm c) i = khash k →
     ∃ k', d !! k' = Some (idx_at (hm c) i) ∧
           sameKey (st c) k (idx_at (hm c) i) = Ret (bool_decide (k' = k))) as Hcmp.
  { intros i Hi Hh. destruct (live_dir c a d i (khash k) (idx_at (hm c) i)) as (k' & Hk' & _);
      [done|split_and!; [lia..|done|lia|done]|].
    destruct (pd_some _ _ _ Hd _ _ Hk') as (v & _ & Hat & _).
    exists k'. split; [done|]. eapply rec_sameKey; [apply Hd|done]. }
  destruct (probe_spec (hm c) (khash k) (sameKey (st c) k)) as (r & Hr & Hpost).
  { apply Hrep. }
  { intros i Hi Hh _. destruct (Hcmp i Hi Hh) as (k' & _ & ->). eauto. }
  exists r. split; [exact Hr|]. destruct r as [i|i s]; cbn in *.
  - destruct Hpost as (Hi & Hz & Hreach & Hno). split_and!; [|lia..|done|done].
    destruct (d !! k) as [s|] eqn:Es; [|done]. exfalso.
    assert (entry (hm c) (khash k) s) as Hent.
    { apply (rep_entries _ _ Hrep), elem_of_dir_entries. by exists k. }
    specialize (Hno ltac:(lia) s Hent).
    destruct (pd_some _ _ _ Hd _ _ Es) as (v & _ & Hat & _).
    rewrite (rec_sameKey _ _ _ _ _ (pd_store _ _ _ Hd) Hat), bool_decide_true in Hno; done.
  - destruct Hpost as (Hi & Hh & _ & <- & Hs).
    destruct (Hcmp i Hi Hh) as (k' & Hk' & Hs'). rewrite Hs' in Hs.
    injection Hs as Hs. apply bool_decide_eq_true in Hs as ->.
    split; [done|]. split_and!; [lia..|done|lia|done].
Qed.

(** The lookup that a found bucket stands for. *)
Lemma found_match c a d k s :
  pm_dir c a d → d !! k = Some s →
  ∃ v, a_map a !! k = Some v ∧ 8 ≤ zlen v ∧ rec_at (a_log a) s (Rec k v).
Proof. intros Hd (v & ? & ? & ?)%(pd_some _ _ _ Hd). by exists v. Qed.

(** ** Get *)

(** [Get] returns the current value of the key, for every key whose hash is
    not one of the two reserved bucket values. *)
Lemma Get_sim c a k :
  pm_rep c a → good_key k → Get c (FNV1a64 k) k = Ret (a_map a !! k).
Proof.
  intros [d Hd] H2.
  unfold Get. rewrite (good_key_khash k) by done.
  destruct (search_found c a d k Hd) as ([i|i s] & -> & Hf); bsimpl; cbn in Hf.
  - destruct Hf as (Hn & _). by rewrite (pd_none _ _ _ Hd _ Hn).
  - destruct Hf as (Hs & _). destruct (found_match _ _ _ _ _ Hd Hs) as (v & Hv & _ & Hat).
    rewrite (rec_val _ _ _ _ _ (pd_store _ _ _ Hd) Hat). bsimpl.
    rewrite (rec_bytes _ _ _ _ _ (pd_store _ _ _ Hd) Hat). bsimpl. by rewrite Hv.
Qed.

(** ** Making room in the index *)

Lemma log_count l : 12 * Z.of_nat (length l) ≤ zlen (enc_log l).
Proof.
  induction l as [|r l IH]; [done|]. rewrite enc_log_cons, zlen_app, zlen_enc_rec.
  pose proof (body_len_nonneg r). cbn [length]. lia.
Qed.

(** A power of two above half the limit is the limit itself. *)
Lemma full_size m :
  hm_shape m → size m ≤ defaultHashMapSizeLimit →
  defaultHashMapSizeLimit < 2 * size m → size m = 2 ^ 26.
Proof.
  intros Hsh Hle Hgt. rewrite (sh_size m Hsh) in *. pose proof (sh_log2 m Hsh) as Hlog.
  change defaultHashMapSizeLimit with (2 ^ 26) in *.
  assert (sizelog2 m ≤ 26) by (apply (Z.pow_le_mono_r_iff 2); lia).
  assert (26 < sizelog2 m + 1).
  { apply (Z.pow_lt_mono_r_iff 2); [lia..|]. rewrite Z.pow_add_r by lia. lia. }
  by replace (sizelog2 m) with 26 by lia.
Qed.

Lemma ensureSpace_ok c a d :
  pm_dir c a d →
  ∃ c', ensureSpace c = Ret (c', None) ∧ pm_dir c' a d ∧ st c' = st c ∧ cks c' = cks c ∧
    numStoredKeys (hm c') ≤ numStoredKeys (hm c) ∧
    numStoredKeys (hm c') < numKeysToExpand (hm c').
Proof.
  intros Hd. pose proof Hd as [Hst [Hsz Hmax] Hix [Hlim Hle] Hcnt Hsome Hnone Hdrift Hsum].
  unfold ensureSpace.
  destruct (Z.leb_spec (numKeysToExpand (hm c)) (numStoredKeys (hm c))) as [Hfull|?];
    [|by exists c].
  pose proof (inv_shape _ (rep_inv _ _ Hix)) as Hsh.
  destruct (Z.le_gt_cases (2 * size (hm c)) (sizeLimit (hm c))) as [Hok|Hno].
  - destruct (expand_ok _ _ Hix Hok) as (m' & -> & Hrep & Hsz' & Hlim' & Hn' & Hlt).
    bsimpl. exists (set_hm c m'). split_and!; try done. split; cbn; try done.
    + rewrite Hlim', Hsz'. split; [done|]. lia.
    + lia.
  - exfalso. rewrite Hlim in Hno. pose proof (full_size _ Hsh Hle ltac:(lia)) as E.
    rewrite (sh_load _ Hsh), E in Hfull. change (maxLoad (2 ^ 26)) with 46976204 in Hfull.
    pose proof (log_count (a_log a)). pose proof (wf_length _ _ Hst).
    pose proof (wf_room _ _ Hst). unfold maxChunkSize in Hmax. lia.
Qed.

(** ** Directories *)

Lemma dir_entries_insert_None d k s :
  d !! k = None → dir_entries (<[k := s]> d) = {[(khash k, s)]} ∪ dir_entries d.
Proof.
  intros Hn. apply set_eq. intros [h s']. rewrite elem_of_union, elem_of_singleton.
  rewrite !elem_of_dir_entries. split.
  - intros (k' & Hk' & ->). destruct (decide (k' = k)) as [->|Hne].
    + left. rewrite lookup_insert_eq in Hk'. by injection Hk' as <-.
    + right. rewrite lookup_insert_ne in Hk' by done. by exists k'.
  - intros [E|(k' & Hk' & ->)].
    + injection E as -> ->. exists k. by rewrite lookup_insert_eq.
    + exists k'. rewrite lookup_insert_ne; [done|]. intros ->. congruence.
Qed.

Lemma dir_entries_delete c a d k s :
  pm_dir c a d → d !! k = Some s →
  dir_entries (delete k d) = dir_entries d ∖ {[(khash k, s)]}.
Proof.
  intros Hd Hs. apply set_eq. intros [h s'].
  rewrite elem_of_difference, elem_of_singleton, !elem_of_dir_entries. split.
  - intros (k' & Hk' & ->). rewrite lookup_delete_Some in Hk'. destruct Hk' as [Hne Hk'].
    split; [by exists k'|]. intros [= _ ->]. apply Hne. by eapply dir_inj.
  - intros [(k' & Hk' & ->) Hne]. exists k'. split; [|done].
    rewrite lookup_delete_ne; [done|]. intros <-. apply Hne. by simplify_eq.
Qed.

Lemma dir_entries_insert_Some c a d k s s' :
  pm_dir c a d → d !! k = Some s →
  dir_entries (<[k := s']> d) = {[(khash k, s')]} ∪ (dir_entries d ∖ {[(khash k, s)]}).
Proof.
  intros Hd Hs. rewrite <- (dir_entries_delete _ _ _ _ _ Hd Hs).
  rewrite <- insert_delete_eq. apply dir_entries_insert_None, lookup_delete_eq.
Qed.

(** The end of the log is not yet in the directory. *)
Lemma dir_fresh c a d h : pm_dir c a d → (h, st_length (st c)) ∉ dir_entries d.
Proof.
  intros Hd (k & Hk & _)%elem_of_dir_entries.
  destruct (pd_some _ _ _ Hd _ _ Hk) as (v & _ & Hat & _).
  destruct (rec_end _ _ _ _ _ (pd_store _ _ _ Hd) Hat) as (_ & ? & _).
  pose proof (zlen_nonneg k). pose proof (zlen_nonneg v). lia.
Qed.

(** ** Writing a record

    A record is appended to the store, then the index is pointed at it.  A
    record that is already in the store (when a chunk is opened) is pointed
    at in the same way. *)
Lemma pm_dir_append c a d r s :
  pm_dir c a d → st_wf s (a_log a ++ [r]) → st_size s = st_size (st c) →
  pm_dir (set_st c s) (Abs (a_map a) (a_log a ++ [r]) (a_size a) (a_drift a)) d.
Proof.
  intros [Hst [Hsz Hmax] Hix Hl Hcnt Hsome Hnone Hdrift Hsum] Hwf Hs.
  split; cbn [hm st cks set_st a_map a_log a_size a_drift]; try done.
  - by rewrite Hs.
  - rewrite length_app. lia.
  - intros k s' (v & Hv & Hat & H8)%Hsome. exists v. split_and!; [done| |done].
    by apply rec_at_app.
Qed.

Lemma pm_dir_point c a d k v off m' n' :
  pm_dir c a d → 8 ≤ zlen v → rec_at (a_log a) off (Rec k v) →
  hm_rep m' (dir_entries (<[k := off]> d)) →
  sizeLimit m' = sizeLimit (hm c) → size m' = size (hm c) →
  numStoredKeys m' ≤ Z.of_nat (length (a_log a)) →
  a_drift a = u64 (newChecksum n' - csum (<[k := v]> (a_map a))) →
  sums_ok n' →
  pm_dir (mkPMap m' (st c) n' (path c))
    (Abs (<[k := v]> (a_map a)) (a_log a) (a_size a) (a_drift a)) (<[k := off]> d).
Proof.
  intros Hd H8 Hat Hrep Hlim Hsize Hnum Hdrift Hsum.
  pose proof Hd as [Hst [Hsz0 Hmax] Hix Hl Hcnt Hsome Hnone _ _].
  split; cbn [hm st cks a_map a_log a_size a_drift]; try done.
  - by rewrite Hlim, Hsize.
  - intros k' s'. destruct (decide (k' = k)) as [->|Hne].
    + rewrite lookup_insert_eq. intros [= <-]. exists v. by rewrite lookup_insert_eq.
    + rewrite !lookup_insert_ne by done. apply Hsome.
  - intros k'. rewrite lookup_insert_None. intros [Hn Hne].
    rewrite lookup_insert_ne by done. by apply Hnone.
Qed.

Lemma setBucket_at c i h s :
  hm_shape (hm c) → 0 ≤ i < size (hm c) →
  setBucket c i h s = Ret (set_hm c (hm_update (hm c) i h s)).
Proof.
  intros Hsh Hi. unfold setBucket. rewrite setHash_at by done. bsimpl.
  rewrite setStoreIndex_at by (by apply with_hash_shape || done). done.
Qed.

Lemma room_put c a d k v :
  pm_dir c a d → zlen k + zlen v < 2 ^ 63 →
  (room a k v = false ∧ put (st c) k v = Ret (st c, inl errStoreFull)) ∨
  (room a k v = true ∧ ∃ s, put (st c) k v = Ret (s, inr (st_length (st c))) ∧
     st_wf s (a_log a ++ [Rec k v]) ∧ st_size s = st_size (st c)).
Proof.
  intros Hd Hkv. pose proof Hd as [Hst [Hsz _] _ _ _ _ _ _ _].
  unfold room. rewrite <- (wf_length _ _ Hst), Hsz.
  destruct (put_cases _ _ k v Hst Hkv) as [[Hfull ->]|(s & -> & Hwf & _ & Hs & _)].
  - left. split; [|done]. apply Z.ltb_ge. lia.
  - right. split; [|by exists s]. apply Z.ltb_lt.
    destruct Hwf as [_ Hl _ Hr _]. rewrite (wf_length _ _ Hst), <- Hs.
    rewrite enc_log_snoc, zlen_app, zlen_enc_rec in Hl. unfold body_len in Hl.
    cbn [r_key r_val] in Hl. lia.
Qed.

(** The pair is new: fill the free bucket that the search found. *)
Lemma point_empty c a d k v i off t :
  pm_dir c a d → found c d k (AtEmpty i) → 8 ≤ zlen v →
  numStoredKeys (hm c) < numKeysToExpand (hm c) →
  numStoredKeys (hm c) < Z.of_nat (length (a_log a)) →
  rec_at (a_log a) off (Rec k v) → (∀ h, (h, off) ∉ dir_entries d) →
  ∃ c1, setBucket c i (khash k) off = Ret c1 ∧ cks c1 = cks c ∧ st c1 = st c ∧
    numStoredKeys (hm c1) = numStoredKeys (hm c) ∧
    pm_dir (set_cks (incStored c1) (sum (cks c) (el k v) t))
      (Abs (<[k := v]> (a_map a)) (a_log a) (a_size a) (a_drift a)) (<[k := off]> d).
Proof.
  intros Hd (Hn & Hi & Hz & Hreach) H8 Hlt Hlen Hat Hfresh.
  pose proof (pd_index _ _ _ Hd) as Hrep. pose proof (inv_shape _ (rep_inv _ _ Hrep)) as Hsh.
  pose proof (shape_size_pos _ Hsh). pose proof (khash_range k).
  eexists. split; [by apply setBucket_at|]. do 3 (split; [done|]).
  apply (pm_dir_point c a d k v off (hm_insert (hm c) i (khash k) off)); try done.
  - rewrite dir_entries_insert_None by done. by apply rep_insert; [done..|lia| |].
  - rewrite insert_stored; [lia|apply Hrep|done|done|done|lia| |].
    + intros h' He. by apply (rep_entries _ _ Hrep), Hfresh in He.
    + rewrite (sh_load _ Hsh) in Hlt. pose proof (maxLoad_lt (size (hm c))). lia.
  - rewrite newChecksum_sum, (pd_drift _ _ _ Hd). symmetry. apply drift_shift.
    rewrite csum_insert_None by (by apply (pd_none _ _ _ Hd)). lia.
  - apply sum_ok, (pd_sum _ _ _ Hd).
Qed.

(** The pair exists: repoint its bucket. *)
Lemma point_match c a d k v old i s0 off t :
  pm_dir c a d → found c d k (AtMatch i s0) → a_map a !! k = Some old → 8 ≤ zlen v →
  rec_at (a_log a) off (Rec k v) → (∀ h, (h, off) ∉ dir_entries d) →
  ∃ c1, setBucket c i (khash k) off = Ret c1 ∧ st c1 = st c ∧
    numStoredKeys (hm c1) = numStoredKeys (hm c) ∧
    pm_dir (set_cks c1 (sum (sub (cks c) (el k old) t) (el k v) t))
      (Abs (<[k := v]> (a_map a)) (a_log a) (a_size a) (a_drift a)) (<[k := off]> d).
Proof.
  intros Hd (Hs & Hl) Hold H8 Hat Hfresh.
  pose proof (pd_index _ _ _ Hd) as Hrep. pose proof (inv_shape _ (rep_inv _ _ Hrep)) as Hsh.
  eexists. split; [apply setBucket_at; [done|apply Hl]|]. do 2 (split; [done|]).
  apply (pm_dir_point c a d k v off (hm_update (hm c) i (khash k) off)); try done.
  - rewrite (dir_entries_insert_Some _ _ _ _ _ _ Hd Hs). by apply rep_update.
  - apply (pd_count _ _ _ Hd).
  - rewrite newChecksum_sum, newChecksum_sub, (pd_drift _ _ _ Hd).
    rewrite u64_add_l. symmetry.
    replace (newChecksum (cks c) - el k old + el k v)
      with (newChecksum (cks c) + (el k v - el k old)) by lia.
    apply drift_shift. rewrite (csum_insert_Some _ _ old) by done. lia.
  - apply sum_ok, sub_ok, (pd_sum _ _ _ Hd).
Qed.

(** The two cases after an append. *)
Section write.
Context (c : PMap) (a : abs) (d : directory) (k v : list byte) (t : time) (s : store).
Context (Hd : pm_dir c a d) (H8 : 8 ≤ zlen v).
Context (Hwf : st_wf s (a_log a ++ [Rec k v])) (Hsz : st_size s = st_size (st c)).

Let off := st_length (st c).

Lemma appended_at : rec_at (a_log a ++ [Rec k v]) off (Rec k v).
Proof using Hd. unfold off. rewrite (wf_length _ _ (pd_store _ _ _ Hd)). apply rec_at_last. Qed.

Lemma write_empty i :
  found c d k (AtEmpty i) → numStoredKeys (hm c) < numKeysToExpand (hm c) →
  ∃ c1, setBucket (set_st c s) i (khash k) off = Ret c1 ∧ cks c1 = cks c ∧
    pm_rep (set_cks (incStored c1) (sum (cks c) (el k v) t))
      (Abs (<[k := v]> (a_map a)) (a_log a ++ [Rec k v]) (a_size a) (a_drift a)).
Proof using All.
  intros Hf Hlt. pose proof (pm_dir_append c a d (Rec k v) s Hd Hwf Hsz) as Hd1.
  destruct (point_empty _ _ d k v i off t Hd1) as (c1 & ? & ? & _ & _ & Hd2); try done.
  - pose proof (pd_count _ _ _ Hd). cbn [a_log]. rewrite length_app. cbn [length hm set_st]. lia.
  - apply appended_at.
  - intros h. by eapply dir_fresh.
  - exists c1. split_and!; [done..|]. by eexists.
Qed.

Lemma write_match old i s0 :
  found c d k (AtMatch i s0) → a_map a !! k = Some old →
  ∃ c1, setBucket (set_st c s) i (khash k) off = Ret c1 ∧
    pm_rep (set_cks c1 (sum (sub (cks c) (el k old) t) (el k v) t))
      (Abs (<[k := v]> (a_map a)) (a_log a ++ [Rec k v]) (a_size a) (a_drift a)).
Proof using All.
  intros Hf Hold. pose proof (pm_dir_append c a d (Rec k v) s Hd Hwf Hsz) as Hd1.
  destruct (point_match _ _ d k v old i s0 off t Hd1) as (c1 & ? & _ & _ & Hd2); try done.
  - apply appended_at.
  - intros h. by eapply dir_fresh.
  - exists c1. split; [done|]. by eexists.
Qed.
End write.

(** The old value can still be read after the append. *)
Lemma reread_header c a d k old s0 r s :
  pm_dir c a d → d !! k = Some s0 → a_map a !! k = Some old → st_wf s (a_log a ++ [r]) →
  mheader s (MSlice (s0 + 8 + zlen k) (zlen old)) = Ret (hdr old).
Proof.
  intros Hd Hs Hold Hwf. destruct (found_match _ _ _ _ _ Hd Hs) as (v & Hv & H8 & Hat).
  assert (v = old) as -> by congruence.
  eapply rec_header; [done| |done]. by apply rec_at_app.
Qed.

(** ** Set *)

(** [Set] implements the last-write-wins transition: it stores the pair if
    the key is new or its timestamp is later than the stored one, ignores it
    otherwise, and reports a value without a timestamp or a full store without
    changing anything.  It never panics and its probing loop terminates. *)
Lemma Set_sim c a k v :
  pm_rep c a → zlen k + zlen v < 2 ^ 63 →
  ∃ c', Set_ c (FNV1a64 k) k v = Ret (c', (spec_Set a k v).2) ∧
        pm_rep c' (spec_Set a k v).1.
Proof.
  intros [d Hd] Hkv. unfold Set_, spec_Set.
  destruct (Z.ltb_spec (zlen v) 8) as [|H8]; [exists c; split; [done|by exists d]|].
  destruct (ensureSpace_ok c a d Hd) as (c1 & -> & Hd1 & Hst1 & Hck1 & _ & Hlt). bsimpl.
  fold (khash k). clear Hd. 
  destruct (search_found c1 a d k Hd1) as ([i|i s0] & -> & Hf); bsimpl.
  - destruct (Hf) as (Hn & _). rewrite (pd_none _ _ _ Hd1 _ Hn). unfold spec_write.
    destruct (room_put c1 a d k v Hd1 Hkv) as [(-> & ->)|(-> & s & -> & Hwf & Hsz)]; bsimpl.
    + exists (set_st c1 (st c1)). split; [done|]. exists d. by destruct c1.
    + destruct (write_empty c1 a d k v (ts v) s Hd1 H8 Hwf Hsz i) as (c2 & -> & E & Hrep); [done..|].
      bsimpl. rewrite header_ok by done. bsimpl. eexists. split; [done|].
      change (cks (incStored c2)) with (cks c2). rewrite E. exact Hrep.
  - pose proof Hf as (Hs & _). destruct (found_match _ _ _ _ _ Hd1 Hs) as (old & Hold & Ho8 & Hat).
    rewrite (rec_val _ _ _ _ _ (pd_store _ _ _ Hd1) Hat). bsimpl.
    rewrite (rec_header _ _ _ _ _ (pd_store _ _ _ Hd1) Hat) by done. bsimpl.
    rewrite header_ok by done. bsimpl. rewrite Hold. fold (ts v) (ts old).
    destruct (Z.leb_spec (ts v) (ts old)) as [Hle|Hgt].
    { replace (_ || _) with true; [exists c1; split; [done|by exists d]|].
      symmetry. rewrite orb_true_iff, Z.ltb_lt, Z.eqb_eq. lia. }
    replace (_ || _) with false by (symmetry; rewrite orb_false_iff, Z.ltb_ge, Z.eqb_neq; lia).
    unfold spec_write.
    destruct (room_put c1 a d k v Hd1 Hkv) as [(-> & ->)|(-> & s & -> & Hwf & Hsz)]; bsimpl.
    + exists (set_st c1 (st c1)). split; [done|]. exists d. by destruct c1.
    + rewrite (reread_header _ _ _ _ _ _ _ _ Hd1 Hs Hold Hwf). bsimpl.
      destruct (write_match c1 a d k v (ts v) s Hd1 H8 Hwf Hsz old i s0) as (c2 & -> & Hrep); [done..|].
      bsimpl. eexists. split; [done|]. exact Hrep.
Qed.

(** ** Compare and swap *)

(** An 8-byte field inside a value. *)
Lemma slice_field v lo :
  0 ≤ lo → lo + 8 ≤ zlen v →
  ∃ b, slice v lo (lo + 8) = Ret b ∧ get_le 8 b = Ret (hdr (drop (Z.to_nat lo) v)).
Proof.
  intros H1 H2. eexists. split; [by apply slice_mid; lia|].
  replace (lo + 8 - lo) with 8 by lia. change (Z.to_nat 8) with 8%nat.
  rewrite get_le_all; [done|]. apply zlen_take8. rewrite zlen_drop; lia.
Qed.

(** A change of the checksum alone. *)
Lemma pm_dir_cks c a d k :
  pm_dir c a d → sums_ok k →
  pm_dir (set_cks c k)
    (Abs (a_map a) (a_log a) (a_size a) (u64 (newChecksum k - csum (a_map a)))) d.
Proof. intros [? ? ? ? ? ? ? ? ?]. by split. Qed.

Lemma drift_sub n e s : u64 (u64 (n - e) - s) = u64 (u64 (n - s) - e).
Proof.
  unfold u64. rewrite !Zminus_mod_idemp_l. f_equal. lia.
Qed.

(** A stored pair that the checksum forgets. *)
Lemma pm_dir_sub c a d e t :
  pm_dir c a d → pm_dir (set_cks c (sub (cks c) e t)) (Abs (a_map a) (a_log a) (a_size a) (u64 (a_drift a - e))) d.
Proof.
  intros Hd. pose proof (pm_dir_cks c a d _ Hd (sub_ok (cks c) e t (pd_sum _ _ _ Hd))) as Hd2.
  by rewrite newChecksum_sub, drift_sub, <- (pd_drift _ _ _ Hd) in Hd2.
Qed.

(** The buckets do not look at the checksum. *)
Lemma setBucket_cks c s i h off c2 x :
  setBucket (set_st c s) i h off = Ret c2 → setBucket (set_st (set_cks c x) s) i h off = Ret (set_cks c2 x).
Proof.
  unfold setBucket. cbn [hm set_st set_cks]. intros (h1 & E1 & E)%bind_Ret_inv. rewrite E1. bsimpl.
  apply bind_Ret_inv in E as (h2 & E2 & [= <-]). by rewrite E2.
Qed.

(** [CAS] implements the compare-and-swap transition on every branch: the
    length check, the test of an absent pair, the timestamp and hash tests of
    a present one, and a full store, where the pair is kept but the checksum
    loses the contribution of the stored value. *)
Lemma CAS_sim c a k x :
  pm_rep c a → zlen k + zlen x < 2 ^ 63 →
  ∃ c', CAS c (FNV1a64 k) k x = Ret (c', (spec_CAS a k x).2) ∧
        pm_rep c' (spec_CAS a k x).1.
Proof.
  intros [d Hd] Hkx. unfold CAS, spec_CAS.
  destruct (Z.ltb_spec (zlen x) 24) as [|H24]; [exists c; split; [done|by exists d]|].
  destruct (ensureSpace_ok c a d Hd) as (c1 & -> & Hd1 & Hst1 & Hck1 & _ & Hlt). bsimpl.
  fold (khash k). clear Hd. rewrite header_ok by lia. bsimpl.
  destruct (slice_field x 8) as (b1 & E1 & F1); [lia..|]. change (8 + 8) with 16 in E1.
  rewrite E1. bsimpl. rewrite F1. bsimpl. clear E1 F1 b1.
  destruct (slice_field x 16) as (b2 & E2 & F2); [lia..|]. change (16 + 8) with 24 in E2.
  rewrite E2. bsimpl. rewrite F2. bsimpl. clear E2 F2 b2.
  rewrite slice_from_drop by lia. bsimpl.
  change (Z.to_nat 8) with 8%nat. change (Z.to_nat 16) with 16%nat.
  set (new := drop 16 x). fold (ts x) (ts new).
  assert (8 ≤ zlen new ∧ zlen k + zlen new < 2 ^ 63) as [Hn8 Hkn].
  { unfold new. pose proof (zlen_drop 16 x ltac:(lia)) as E. change (Z.to_nat 16) with 16%nat in E.
    lia. }
  destruct (search_found c1 a d k Hd1) as ([i|i s0] & -> & Hf); bsimpl.
  - destruct (Hf) as (Hn & _). rewrite (pd_none _ _ _ Hd1 _ Hn).
    change (time_unix 0 0) with 0.
    destruct (negb (ts x =? 0) && negb (hdr (drop 8 x) =? FNV1a64 []));
      [exists c1; split; [done|by exists d]|].
    unfold spec_write.
    destruct (room_put c1 a d k new Hd1 Hkn) as [(-> & ->)|(-> & s & -> & Hwf & Hsz)]; bsimpl.
    + exists (set_st c1 (st c1)). split; [done|]. exists d. by destruct c1.
    + destruct (write_empty c1 a d k new (ts new) s Hd1 Hn8 Hwf Hsz i) as (c2 & -> & E & Hrep); [done..|].
      bsimpl. eexists. split; [done|].
      change (cks (incStored c2)) with (cks c2). rewrite E. exact Hrep.
  - pose proof Hf as (Hs & _). destruct (found_match _ _ _ _ _ Hd1 Hs) as (old & Hold & Ho8 & Hat).
    rewrite (rec_val _ _ _ _ _ (pd_store _ _ _ Hd1) Hat). bsimpl.
    rewrite (rec_header _ _ _ _ _ (pd_store _ _ _ Hd1) Hat) by done. bsimpl.
    rewrite Hold. fold (ts old).
    destruct (negb (ts old =? ts x)); [exists c1; split; [done|by exists d]|].
    rewrite (rec_bytes _ _ _ _ _ (pd_store _ _ _ Hd1) Hat). bsimpl.
    rewrite slice_from_drop by lia. bsimpl. change (Z.to_nat 8) with 8%nat.
    destruct (negb (hdr (drop 8 x) =? FNV1a64 (drop 8 old)));
      [exists c1; split; [done|by exists d]|].
    fold (el k old). change (st (set_cks c1 _)) with (st c1). unfold spec_write.
    destruct (room_put c1 a d k new Hd1 Hkn) as [(-> & ->)|(-> & s & -> & Hwf & Hsz)]; bsimpl.
    + eexists. split; [done|]. exists d. pose proof (pm_dir_sub c1 a d (el k old) (ts new) Hd1). by destruct c1.
    + destruct (write_match c1 a d k new (ts new) s Hd1 Hn8 Hwf Hsz old i s0) as (c2 & E2 & Hrep); [done..|].
      rewrite (setBucket_cks _ _ _ _ _ _ _ E2). bsimpl. eexists. split; [done|]. exact Hrep.
Qed.

(** ** Deletion *)

(** The pair of a found bucket is removed from the index. *)
Lemma pm_dir_delete c a d k old i s0 n t :
  pm_dir c a d → found c d k (AtMatch i s0) → a_map a !! k = Some old →
  pm_dir (set_hm (set_cks (set_st c (set_deleted (st c) n)) (sub (cks c) (el k old) t))
                 (with_hash (hm c) i deletedBucket))
    (Abs (delete k (a_map a)) (a_log a) (a_size a) (a_drift a)) (delete k d).
Proof.
  intros Hd (Hs & Hl) Hold.
  pose proof Hd as [Hst [Hsz Hmax] Hix Hlm Hcnt Hsome Hnone Hdrift Hsum].
  split; cbn [hm st cks set_hm set_cks set_st a_map a_log a_size a_drift]; try done.
  - by apply set_deleted_wf.
  - rewrite (dir_entries_delete _ _ _ _ _ Hd Hs). by apply rep_delete.
  - intros k' s'. rewrite lookup_delete_Some. intros [Hne (v & Hv & Hat & H8)%Hsome].
    exists v. rewrite lookup_delete_ne by done. done.
  - intros k'. rewrite lookup_delete_None. intros [->|Hn]; [apply lookup_delete_eq|].
    rewrite lookup_delete_None. right. by apply Hnone.
  - rewrite newChecksum_sub, Hdrift. symmetry.
    replace (newChecksum (cks c) - el k old) with (newChecksum (cks c) + - el k old) by lia.
    apply drift_shift. rewrite (csum_delete (a_map a) k old) by done. lia.
  - apply sub_ok, Hd.
Qed.

(** [Del] implements deletion: an absent key or an older request changes
    nothing; otherwise the pair is removed and a tombstone is appended, or, in
    a full store, the pair is removed from memory only and the error is
    reported.  A request without the 8 bytes of a timestamp panics exactly
    when the key is present. *)
Lemma Del_sim c a k x :
  pm_rep c a → zlen k < 2 ^ 63 →
  match spec_Del a k x with
  | Ret (a', e) => ∃ c', Del c (FNV1a64 k) k x = Ret (c', e) ∧ pm_rep c' a'
  | _ => Del c (FNV1a64 k) k x = Panic
  end.
Proof.
  intros [d Hd] Hk. unfold Del, spec_Del. fold (khash k).
  destruct (search_found c a d k Hd) as ([i|i s0] & -> & Hf); bsimpl.
  { destruct (Hf) as (Hn & _). rewrite (pd_none _ _ _ Hd _ Hn).
    exists c. split; [done|by exists d]. }
  pose proof Hf as (Hs & Hl). destruct (found_match _ _ _ _ _ Hd Hs) as (old & Hold & Ho8 & Hat).
  rewrite (rec_val _ _ _ _ _ (pd_store _ _ _ Hd) Hat). bsimpl.
  rewrite (rec_header _ _ _ _ _ (pd_store _ _ _ Hd) Hat) by done. bsimpl. rewrite Hold.
  destruct (Z.leb_spec 8 (zlen x)) as [H8|H8]; bsimpl; cycle 1.
  { by rewrite header_panic. }
  unfold check. bsimpl. rewrite header_ok by done. bsimpl. fold (ts x) (ts old).
  destruct (Z.ltb_spec (ts x) (ts old)); [exists c; split; [done|by exists d]|].
  cbn [ms_len]. rewrite setHash_at; cycle 1.
  { apply (inv_shape _ (rep_inv _ _ (pd_index _ _ _ Hd))). } { apply Hl. }
  bsimpl. fold (el k old).
  pose proof (pm_dir_delete c a d k old i s0
    (u64 (st_deleted (st c) + (12 + zlen k + zlen old))) (ts x) Hd Hf Hold) as Hd2.
  match goal with |- context [put (st ?c2) k []] => change c2 with
    (set_hm (set_cks (set_st c (set_deleted (st c)
       (u64 (st_deleted (st c) + (12 + zlen k + zlen old))))) (sub (cks c) (el k old) (ts x)))
       (with_hash (hm c) i deletedBucket)) end.
  revert Hd2. set (c2 := set_hm _ _). set (a2 := Abs _ _ _ _). intros Hd2.
  change (room a k []) with (room a2 k []).
  destruct (room_put c2 a2 (delete k d) k [] Hd2 ltac:(zl))
    as [(-> & ->)|(-> & s & -> & Hwf & Hsz)]; bsimpl.
  - eexists. split; [done|]. exists (delete k d). by destruct c2.
  - eexists. split; [done|]. exists (delete k d).
    exact (pm_dir_append _ _ _ _ _ Hd2 Hwf Hsz).
Qed.

(** ** A new chunk *)

Definition new_abs (size : Z) : abs := Abs ∅ [] size 0.

Lemma New_sim `{GommapLaws} path sz :
  0 < sz ≤ maxChunkSize → ∃ c, New path sz = Ret c ∧ pm_rep c (new_abs sz).
Proof.
  intros Hsz. unfold maxChunkSize in *. destruct (newStore_wf path sz ltac:(lia)) as (s & Hs & Hwf & E).
  unfold New. rewrite Hs. bsimpl. eexists. split; [done|]. exists ∅.
  destruct (newHashMap_shape defaultHashMapInitialLog2Size defaultHashMapSizeLimit)
    as (Hsh & Hz & _ & Hn & Hl); [by vm_compute..|].
  split; cbn [hm st cks a_map a_log a_size a_drift new_abs]; try done.
  - unfold maxChunkSize. lia.
  - unfold dir_entries. rewrite map_to_set_empty. by apply rep_new; vm_compute.
Qed.
