(* ===== verification/Chunk.v ===== *)
(** * The interface of a chunk, and what holds of every implementation of it

    [ChunkOps] names the operations that the rest of the program uses of a
    chunk, and [ChunkLaws] what it relies on: each operation implements the
    corresponding transition of the abstract state.  The results of this file
    (refinement of whole histories, convergence of replicas) are proved from
    the laws alone; [PMap] is an instance. *)
From S2P Require Import Prelude.
From S2P Require Import Hashing.
From S2P Require Import SyncChecksum.
From S2P Require Import Store.
From S2P Require Import PMap.
From S2P Require Import PMapSpec.

Class ChunkOps (T : Type) := {
  chunkNew : string → Z → outcome T;
  chunkGet : T → Z → list byte → outcome (option (list byte));
  chunkSet : T → Z → list byte → list byte → outcome (T * option error);
  chunkCAS : T → Z → list byte → list byte → outcome (T * option error);
  chunkDel : T → Z → list byte → list byte → outcome (T * option error);
  chunkSum : T → Z
}.

Class ChunkLaws (T : Type) `{ChunkOps T} (rep : T → abs → Prop) := {
  chunk_new_law path size :
    0 < size ≤ maxChunkSize → ∃ c, chunkNew path size = Ret c ∧ rep c (new_abs size);
  chunk_get_law c a k :
    rep c a → good_key k → chunkGet c (FNV1a64 k) k = Ret (a_map a !! k);
  chunk_set_law c a k v :
    rep c a → zlen k + zlen v < 2 ^ 63 →
    ∃ c', chunkSet c (FNV1a64 k) k v = Ret (c', (spec_Set a k v).2) ∧
          rep c' (spec_Set a k v).1;
  chunk_cas_law c a k x :
    rep c a → zlen k + zlen x < 2 ^ 63 →
    ∃ c', chunkCAS c (FNV1a64 k) k x = Ret (c', (spec_CAS a k x).2) ∧
          rep c' (spec_CAS a k x).1;
  chunk_del_law c a k x :
    rep c a → zlen k < 2 ^ 63 →
    match spec_Del a k x with
    | Ret (a', e) => ∃ c', chunkDel c (FNV1a64 k) k x = Ret (c', e) ∧ rep c' a'
    | _ => chunkDel c (FNV1a64 k) k x = Panic
    end;
  chunk_sum_law c a :
    rep c a → a_drift a = 0 → chunkSum c = u64 (csum (a_map a))
}.

(** ** Histories *)

Inductive op :=
  | OpGet (k : list byte)
  | OpSet (k v : list byte)
  | OpCAS (k x : list byte)
  | OpDel (k x : list byte).

Inductive reply := RValue (v : option (list byte)) | RError (e : option error).

(** The sizes a Go slice can have, and a key that [Get] can look up. *)
Definition op_ok (o : op) : Prop :=
  match o with
  | OpGet k => good_key k
  | OpSet k v | OpCAS k v | OpDel k v => zlen k + zlen v < 2 ^ 63
  end.
#[export] Instance op_ok_dec o : Decision (op_ok o).
Proof. destruct o; apply _. Defined.

Definition spec_step (a : abs) (o : op) : outcome (abs * reply) :=
  match o with
  | OpGet k => Ret (a, RValue (a_map a !! k))
  | OpSet k v => let r := spec_Set a k v in Ret (r.1, RError r.2)
  | OpCAS k x => let r := spec_CAS a k x in Ret (r.1, RError r.2)
  | OpDel k x => r ← spec_Del a k x; Ret (r.1, RError r.2)
  end.

Fixpoint spec_exec (a : abs) (ops : list op) : outcome (abs * list reply) :=
  match ops with
  | [] => Ret (a, [])
  | o :: ops =>
      r ← spec_step a o; rs ← spec_exec r.1 ops; Ret (rs.1, r.2 :: rs.2)
  end.

(** The capacity of a chunk does not change. *)
Lemma spec_step_size a o a' r : spec_step a o = Ret (a', r) → a_size a' = a_size a.
Proof.
  destruct o as [k|k v|k x|k x]; cbn [spec_step].
  - by intros [= <- <-].
  - intros [= <- <-]. unfold spec_Set, spec_write. by repeat case_match.
  - intros [= <- <-]. unfold spec_CAS, spec_write. by repeat case_match.
  - unfold spec_Del, check. destruct (a_map a !! k); [|by intros [= <- <-]].
    destruct (8 <=? zlen x); bsimpl; [|done]. by repeat case_match; intros [= <- <-].
Qed.

Lemma spec_exec_size os : ∀ a a' rs, spec_exec a os = Ret (a', rs) → a_size a' = a_size a.
Proof.
  induction os as [|o os IH]; intros a a' rs; cbn [spec_exec]; [by intros [= <- <-]|].
  destruct (spec_step a o) as [[a1 r]| |] eqn:E1; bsimpl; [|done..].
  destruct (spec_exec a1 os) as [[a2 rs2]| |] eqn:E2; bsimpl; [|done..].
  intros [= <- <-]. rewrite (IH _ _ _ E2). by eapply spec_step_size.
Qed.

Definition op_key (o : op) : list byte :=
  match o with OpGet k | OpSet k _ | OpCAS k _ | OpDel k _ => k end.

(** The keys of the log are keys of operations. *)
Lemma step_keys (P : list byte → Prop) a o a' r :
  spec_step a o = Ret (a', r) → P (op_key o) →
  Forall (λ r, P (r_key r)) (a_log a) → Forall (λ r, P (r_key r)) (a_log a').
Proof.
  intros E HP HF.
  assert (∀ v, Forall (λ r, P (r_key r)) (a_log a ++ [Rec (op_key o) v])) as Happ.
  { intros v. apply Forall_app. by repeat constructor. }
  destruct o as [k|k v|k x|k x]; cbn [spec_step op_key] in *.
  - by injection E as <- <-.
  - injection E as <- <-. unfold spec_Set, spec_write. repeat case_match; try done; apply Happ.
  - injection E as <- <-. unfold spec_CAS, spec_write. repeat case_match; try done; apply Happ.
  - destruct (spec_Del a k x) as [[a1 e]| |] eqn:E1; [|done..]. injection E as <- <-. cbn [fst].
    unfold spec_Del in E1. destruct (a_map a !! k); [|by injection E1 as <- <-].
    unfold check in E1. destruct (8 <=? zlen x); [|done].
    cbn [mbind outcome_bind] in E1. repeat case_match; simplify_eq; try done; apply Happ.
Qed.

Lemma exec_keys (P : list byte → Prop) os : ∀ a a' rs,
  spec_exec a os = Ret (a', rs) → Forall (λ o, P (op_key o)) os →
  Forall (λ r, P (r_key r)) (a_log a) → Forall (λ r, P (r_key r)) (a_log a').
Proof.
  induction os as [|o os IH]; intros a a' rs; cbn [spec_exec]; [by intros [= <- <-]|].
  destruct (spec_step a o) as [[a1 r]| |] eqn:E1; bsimpl; [|done..].
  destruct (spec_exec a1 os) as [[a2 rs2]| |] eqn:E2; bsimpl; [|done..].
  intros [= <- <-] [Ho Hos]%Forall_cons HF. eapply IH; [done..|]. by eapply step_keys.
Qed.

Section chunk.
Context {T : Type} {ops : ChunkOps T}.

(** One operation on a chunk; the hash is the one the server computes. *)
Definition step (c : T) (o : op) : outcome (T * reply) :=
  match o with
  | OpGet k => v ← chunkGet c (FNV1a64 k) k; Ret (c, RValue v)
  | OpSet k v => r ← chunkSet c (FNV1a64 k) k v; Ret (r.1, RError r.2)
  | OpCAS k x => r ← chunkCAS c (FNV1a64 k) k x; Ret (r.1, RError r.2)
  | OpDel k x => r ← chunkDel c (FNV1a64 k) k x; Ret (r.1, RError r.2)
  end.

Fixpoint exec (c : T) (ops : list op) : outcome (T * list reply) :=
  match ops with
  | [] => Ret (c, [])
  | o :: ops => r ← step c o; rs ← exec r.1 ops; Ret (rs.1, r.2 :: rs.2)
  end.

Context {rep : T → abs → Prop} {laws : ChunkLaws T rep}.

Lemma step_sim c a o :
  rep c a → op_ok o →
  match spec_step a o with
  | Ret (a', r) => ∃ c', step c o = Ret (c', r) ∧ rep c' a'
  | _ => step c o = Panic
  end.
Proof.
  intros Hr Ho. destruct o as [k|k v|k x|k x]; unfold step, spec_step; cbn [op_ok] in Ho.
  - rewrite (chunk_get_law c a k) by done. by exists c.
  - destruct (chunk_set_law c a k v) as (c' & -> & ?); [done..|]. by exists c'.
  - destruct (chunk_cas_law c a k x) as (c' & -> & ?); [done..|]. by exists c'.
  - pose proof (chunk_del_law c a k x Hr ltac:(zl)) as Hd.
    destruct (spec_Del a k x) as [[a' e]| |]; bsimpl; [|by rewrite Hd..].
    destruct Hd as (c' & -> & ?). by exists c'.
Qed.

Lemma exec_sim os : ∀ c a,
  rep c a → Forall op_ok os →
  match spec_exec a os with
  | Ret (a', rs) => ∃ c', exec c os = Ret (c', rs) ∧ rep c' a'
  | _ => exec c os = Panic
  end.
Proof.
  induction os as [|o os IH]; intros c a Hr Hos; [by exists c|].
  apply Forall_cons in Hos as [Ho Hos]. cbn [spec_exec exec].
  pose proof (step_sim c a o Hr Ho) as Hs.
  destruct (spec_step a o) as [[a1 r]| |]; bsimpl; [|by rewrite Hs..].
  destruct Hs as (c1 & -> & Hr1). bsimpl. specialize (IH c1 a1 Hr1 Hos).
  destruct (spec_exec a1 os) as [[a2 rs]| |]; bsimpl; [|by rewrite IH..].
  destruct IH as (c2 & -> & Hr2). by exists c2.
Qed.
End chunk.
