(* ===== verification/Replicas.v ===== *)
(** * Replicas of a chunk converge

    The servers that hold a chunk receive the same writes in different orders,
    and more than once (the client writes to every holder, [repair] and
    [rebalance] send the pairs of a chunk again).  Since the last write wins,
    the order and the repetitions do not matter.  The results are proved for
    every implementation of the interface of [Chunk] and instantiated at
    [PMap]. *)
From S2P Require Import Prelude.
From S2P Require Import Hashing.
From S2P Require Import SyncChecksum.
From S2P Require Import Store.
From S2P Require Import PMap.
From S2P Require Import PMapSpec.
From S2P Require Import Chunk.

#[export] Instance PMap_ops `{Gommap} : ChunkOps PMap := {
  chunkNew := New;
  chunkGet := Get;
  chunkSet := Set_;
  chunkCAS := CAS;
  chunkDel := Del;
  chunkSum c := newChecksum (cks c)
}.

(** The new sum of a chunk without drift is the sum over its pairs. *)
Lemma Sum_sim c a : pm_rep c a → a_drift a = 0 → newChecksum (cks c) = u64 (csum (a_map a)).
Proof.
  intros [d Hd] H0. pose proof (pd_drift _ _ _ Hd) as E. rewrite H0 in E.
  rewrite <- (u64_small _ (so_new _ (pd_sum _ _ _ Hd))). symmetry in E.
  apply Z.mod_divide in E as [q Hq]; [|lia]. apply (u64_congr _ _ q). lia.
Qed.

#[export] Instance PMap_laws `{GommapLaws} : ChunkLaws PMap pm_rep := {
  chunk_new_law := New_sim;
  chunk_get_law := Get_sim;
  chunk_set_law := Set_sim;
  chunk_cas_law := CAS_sim;
  chunk_del_law := Del_sim;
  chunk_sum_law := Sum_sim
}.

(** ** The last write wins *)

Abbreviation write := (list byte * list byte)%type.

(** The pair that is kept of an old value and a new one. *)
Definition best (o : option (list byte)) (v : list byte) : list byte :=
  match o with
  | None => v
  | Some old => if ts v <=? ts old then old else v
  end.

Definition lww (m : kvmap) (w : write) : kvmap := <[w.1 := best (m !! w.1) w.2]> m.

Definition lwws (m : kvmap) (ws : list write) : kvmap := foldl lww m ws.

(** Two writes of a key at the same instant are the same write. *)
Definition consistent (ws : list write) : Prop :=
  ∀ k v v', (k, v) ∈ ws → (k, v') ∈ ws → ts v = ts v' → v = v'.

Lemma lww_lookup m w k :
  lww m w !! k = if decide (w.1 = k) then Some (best (m !! k) w.2) else m !! k.
Proof.
  unfold lww. case_decide as E; [rewrite E, lookup_insert_eq|rewrite lookup_insert_ne]; done.
Qed.

Lemma best_comm o v v' :
  (ts v = ts v' → v = v') → best (Some (best o v)) v' = best (Some (best o v')) v.
Proof.
  intros Hc. unfold best.
  destruct o as [old|]; [destruct (Z.leb_spec (ts v) (ts old)), (Z.leb_spec (ts v') (ts old))|];
    repeat bool_case; try done; try lia; apply Hc || (symmetry; apply Hc); lia.
Qed.

Lemma lww_comm m w w' :
  consistent [w; w'] → lww (lww m w) w' = lww (lww m w') w.
Proof.
  intros Hc. apply map_eq. intros k. rewrite !lww_lookup.
  destruct w as [k1 v1], w' as [k2 v2]. cbn [fst snd].
  repeat case_decide; subst; try done. f_equal. apply best_comm.
  apply (Hc k); set_solver.
Qed.

Lemma consistent_sub ws ws' : ws ⊆ ws' → consistent ws' → consistent ws.
Proof. unfold consistent. intros Hs Hc k v v' H H'. apply (Hc k); by apply Hs. Qed.

Lemma lwws_cons m w ws : lwws m (w :: ws) = lwws (lww m w) ws.
Proof. done. Qed.

Lemma lwws_app m ws ws' : lwws m (ws ++ ws') = lwws (lwws m ws) ws'.
Proof. apply foldl_app. Qed.

Lemma lwws_perm ws ws' : Permutation ws ws' → ∀ m, consistent ws → lwws m ws = lwws m ws'.
Proof.
  induction 1 as [|w ws ws' _ IH|w w' ws|ws ws1 ws' Hp1 IH1 Hp2 IH2]; intros m Hc; rewrite ?lwws_cons.
  - done.
  - apply IH. eapply consistent_sub; [|done]. set_solver.
  - unfold lwws. f_equal. apply lww_comm. eapply consistent_sub; [|done]. set_solver.
  - rewrite IH1 by done. apply IH2. eapply consistent_sub; [|done]. by rewrite Hp1.
Qed.

(** A stored value only moves forward in time. *)
Definition newer (m : kvmap) (k : list byte) (t : time) : Prop :=
  ∃ v, m !! k = Some v ∧ t ≤ ts v.

Lemma lww_newer m w k t : newer m k t → newer (lww m w) k t.
Proof.
  intros (v & Hv & Ht). unfold newer. rewrite lww_lookup. case_decide; [|eauto].
  eexists. split; [done|]. rewrite Hv. cbn. bool_case; lia.
Qed.

Lemma lwws_newer ws k t : ∀ m, newer m k t → newer (lwws m ws) k t.
Proof. induction ws as [|w ws IH]; intros m H; [done|]. by apply IH, lww_newer. Qed.

Lemma lww_adds m k v : newer (lww m (k, v)) k (ts v).
Proof.
  unfold newer. rewrite lww_lookup. cbn [fst snd]. rewrite decide_True by done.
  eexists. split; [done|]. unfold best. destruct (m !! k); [|lia]. bool_case; lia.
Qed.

Lemma lwws_adds ws k v : ∀ m, (k, v) ∈ ws → newer (lwws m ws) k (ts v).
Proof.
  induction ws as [|w ws IH]; intros m Hin; [by apply not_elem_of_nil in Hin|].
  apply elem_of_cons in Hin as [<-|Hin]; rewrite lwws_cons; [apply lwws_newer, lww_adds|by apply IH].
Qed.

(** A write that is not newer changes nothing. *)
Lemma lww_absorb m k v : newer m k (ts v) → lww m (k, v) = m.
Proof.
  intros (old & Hold & Ht). unfold lww. cbn [fst snd]. rewrite Hold. cbn.
  destruct (Z.leb_spec (ts v) (ts old)); [by apply insert_id|lia].
Qed.

Lemma lwws_absorb ws m :
  (∀ k v, (k, v) ∈ ws → newer m k (ts v)) → lwws m ws = m.
Proof.
  induction ws as [|[k v] ws IH]; intros H; [done|].
  rewrite lwws_cons, lww_absorb by (apply H; set_solver). apply IH. intros. apply H. set_solver.
Qed.

(** The same writes in any order and any multiplicity give the same map. *)
Lemma lwws_same_set m ws ws' :
  consistent ws → ws ⊆ ws' → ws' ⊆ ws → lwws m ws = lwws m ws'.
Proof.
  intros Hc H1 H2.
  assert (∀ us us', us ⊆ us' → lwws m (us' ++ us) = lwws m us') as Habs.
  { intros us us' Hs. rewrite lwws_app. apply lwws_absorb. intros k v Hin.
    apply lwws_adds. by apply Hs. }
  rewrite <- (Habs ws' ws), <- (Habs ws ws') by done.
  apply lwws_perm; [apply Permutation_app_comm|]. eapply consistent_sub; [|done]. set_solver.
Qed.

(** The pair kept for a key: the latest of the writes of that key. *)
Definition latest (ws : list write) (k : list byte) (o : option (list byte)) : Prop :=
  match o with
  | None => ∀ v, (k, v) ∉ ws
  | Some v => (k, v) ∈ ws ∧ ∀ v', (k, v') ∈ ws → ts v' ≤ ts v
  end.

Lemma lwws_from ws k v : ∀ m, lwws m ws !! k = Some v → m !! k = Some v ∨ (k, v) ∈ ws.
Proof.
  induction ws as [|[k' v'] ws IH]; intros m H; [by left|]. rewrite lwws_cons in H.
  apply IH in H as [H|H]; [|right; set_solver].
  rewrite lww_lookup in H. cbn [fst snd] in H. case_decide; subst; [|by left].
  unfold best in H. destruct (m !! k); [destruct (_ <=? _)|]; simplify_eq; set_solver.
Qed.

Lemma lwws_latest ws k : latest ws k (lwws ∅ ws !! k).
Proof.
  destruct (lwws ∅ ws !! k) as [v|] eqn:E; cbn.
  - split.
    + apply lwws_from in E as [E|E]; [by rewrite lookup_empty in E|done].
    + intros v' Hv'. destruct (lwws_adds ws k v' ∅ Hv') as (v1 & E1 & Ht).
      rewrite E in E1. by injection E1 as <-.
  - intros v Hv. destruct (lwws_adds ws k v ∅ Hv) as (v1 & E1 & _). congruence.
Qed.

(** ** Delivering writes to a chunk *)

Definition sets (ws : list write) : list op := map (λ w, OpSet w.1 w.2) ws.

(** The bytes that the records of [ws] take. *)
Definition space (ws : list write) : Z :=
  foldr (λ w n, 12 + zlen w.1 + zlen w.2 + n) 0 ws.

(** Values carry a timestamp. *)
Definition stamped (ws : list write) : Prop := Forall (λ w : write, 8 ≤ zlen w.2) ws.

Lemma space_nonneg ws : 0 ≤ space ws.
Proof. induction ws as [|w ws IH]; cbn [space foldr]; [lia|]. fold (space ws). zl. Qed.

Lemma space_cons w ws : space (w :: ws) = 12 + zlen w.1 + zlen w.2 + space ws.
Proof. done. Qed.

(** With room for its record, [Set] is [lww]. *)
Lemma spec_Set_lww a k v :
  8 ≤ zlen v → zlen (enc_log (a_log a)) + (12 + zlen k + zlen v) < a_size a →
  ∃ a', spec_Set a k v = (a', None) ∧ a_map a' = lww (a_map a) (k, v) ∧
    a_drift a' = a_drift a ∧ a_size a' = a_size a ∧
    zlen (enc_log (a_log a')) ≤ zlen (enc_log (a_log a)) + (12 + zlen k + zlen v).
Proof.
  intros H8 Hroom. unfold spec_Set, lww. cbn [fst snd].
  destruct (Z.ltb_spec (zlen v) 8); [lia|].
  assert (∃ a', spec_write a k v = (a', None) ∧ a_map a' = <[k := v]> (a_map a) ∧
    a_drift a' = a_drift a ∧ a_size a' = a_size a ∧
    zlen (enc_log (a_log a')) ≤ zlen (enc_log (a_log a)) + (12 + zlen k + zlen v)) as Hw.
  { unfold spec_write, room. destruct (Z.ltb_spec
      (zlen (enc_log (a_log a)) + 12 + zlen k + zlen v) (a_size a)); [|lia].
    eexists. split_and!; [done..|]. cbn [a_log].
    rewrite enc_log_snoc, zlen_app, zlen_enc_rec. unfold body_len. cbn [r_key r_val]. lia. }
  destruct (a_map a !! k) as [old|] eqn:E; cbn [best]; [|done].
  destruct (ts v <=? ts old); [|done]. exists a. rewrite insert_id by done.
  split_and!; [done..|]. zl.
Qed.

Lemma spec_sets_lwws ws : ∀ a,
  stamped ws → zlen (enc_log (a_log a)) + space ws < a_size a →
  ∃ a', spec_exec a (sets ws) = Ret (a', replicate (length ws) (RError None)) ∧
    a_map a' = lwws (a_map a) ws ∧ a_drift a' = a_drift a ∧ a_size a' = a_size a.
Proof.
  induction ws as [|[k v] ws IH]; intros a Hst Hroom; [by exists a|].
  apply Forall_cons in Hst as [H8 Hst]. cbn [snd] in H8.
  rewrite space_cons in Hroom. cbn [fst snd] in Hroom. pose proof (space_nonneg ws).
  destruct (spec_Set_lww a k v) as (a1 & E1 & Hm & Hdr & Hsz & Hlog); [done|lia|].
  destruct (IH a1) as (a2 & E2 & Hm2 & Hdr2 & Hsz2); [done|lia|].
  exists a2. cbn [sets map spec_exec spec_step fst snd]. rewrite E1. bsimpl.
  fold (sets ws). rewrite E2. bsimpl. rewrite lwws_cons, <- Hm.
  split_and!; [done|done|congruence|congruence].
Qed.

Lemma sets_ok ws n : space ws < n → n ≤ 2 ^ 63 → Forall op_ok (sets ws).
Proof.
  intros Hs Hn. induction ws as [|[k v] ws IH]; [constructor|].
  rewrite space_cons in Hs. cbn [fst snd] in Hs. pose proof (space_nonneg ws).
  constructor; [cbn; lia|]. apply IH. zl.
Qed.

Section converge.
Context {T : Type} {ops : ChunkOps T} {rep : T → abs → Prop} {laws : ChunkLaws T rep}.

(** A new chunk after a sequence of writes. *)
Lemma delivery path sz ws :
  0 < sz ≤ maxChunkSize → stamped ws → space ws < sz →
  ∃ c0 c a, chunkNew path sz = Ret c0 ∧
    exec c0 (sets ws) = Ret (c, replicate (length ws) (RError None)) ∧ rep c a ∧
    a_map a = lwws ∅ ws ∧ a_drift a = 0.
Proof.
  intros Hsz Hst Hsp. destruct (chunk_new_law path sz Hsz) as (c0 & Hc0 & Hr0).
  destruct (spec_sets_lwws ws (new_abs sz)) as (a & Ha & Hm & Hdr & _); [done|done|].
  unfold maxChunkSize in Hsz.
  pose proof (exec_sim (sets ws) c0 _ Hr0 (sets_ok ws sz Hsp ltac:(lia))) as Hs.
  rewrite Ha in Hs. destruct Hs as (c & Hc & Hr). by exists c0, c, a.
Qed.
End converge.

(** C3. Replicas converge: two empty chunks that receive the same writes, in any
    order and any number of times, end with the same pairs and the same sum of all
    their pairs, which is the newest checksum (the one that is announced,
    [Checksum], follows it with a delay that depends on the times of arrival); the
    value kept for a key is the one with the latest timestamp. Two writes of a key
    at the same time are the same write, each value carries a time, and no
    delivery fails as the records fit in the store, with their repetitions. *)
Theorem replicas_converge `{GommapLaws} sz ws ws' :
  0 < sz ≤ maxChunkSize → stamped ws → consistent ws →
  (∀ w, w ∈ ws ↔ w ∈ ws') → space ws < sz → space ws' < sz →
  ∃ c0 c c' : PMap,
    New EmptyString sz = Ret c0 ∧
    exec c0 (sets ws) = Ret (c, replicate (length ws) (RError None)) ∧
    exec c0 (sets ws') = Ret (c', replicate (length ws') (RError None)) ∧
    newChecksum (cks c) = newChecksum (cks c') ∧
    ∀ k, good_key k → ∃ o, Get c (FNV1a64 k) k = Ret o ∧ Get c' (FNV1a64 k) k = Ret o ∧
                           latest ws k o.
Proof.
  intros Hsz Hst Hc Hiff Hsp Hsp'.
  assert (stamped ws') as Hst'.
  { apply Forall_forall. intros w Hw%Hiff. by eapply Forall_forall in Hst. }
  destruct (delivery (T := PMap) EmptyString sz ws) as (c0 & c & a & Hc0 & Hx & Hr & Hm & Hdr);
    [done..|].
  destruct (delivery (T := PMap) EmptyString sz ws') as (c0' & c' & a' & Hc0' & Hx' & Hr' & Hm' & Hdr');
    [done..|].
  rewrite Hc0 in Hc0'. injection Hc0' as <-.
  assert (a_map a = a_map a') as Hmm.
  { rewrite Hm, Hm'. apply lwws_same_set; [done|intros w; apply Hiff..]. }
  exists c0, c, c'. split_and!; [done..| |].
  - rewrite (Sum_sim c a), (Sum_sim c' a') by done. by rewrite Hmm.
  - intros k Hk. exists (a_map a !! k). rewrite (Get_sim c a), (Get_sim c' a') by done.
    rewrite Hmm. split_and!; [done..|]. rewrite <- Hmm, Hm. apply lwws_latest.
Qed.

(** Two writes of one key and one of another, delivered in opposite orders,
    one of them twice. *)
Lemma replicas_converge_witness :
  let _ := plainGommap in
  let v1 := le_enc 8 100 ++ str "old" in
  let v2 := le_enc 8 200 ++ str "new" in
  let ws := [(str "a", v1); (str "a", v2); (str "b", v1)] in
  let ws' := [(str "b", v1); (str "a", v2); (str "a", v1); (str "a", v2)] in
  ∃ c0 c c' : PMap,
    New EmptyString 300 = Ret c0 ∧
    exec c0 (sets ws) = Ret (c, replicate (length ws) (RError None)) ∧
    exec c0 (sets ws') = Ret (c', replicate (length ws') (RError None)) ∧
    newChecksum (cks c) = newChecksum (cks c') ∧
    ∀ k, good_key k → ∃ o, Get c (FNV1a64 k) k = Ret o ∧ Get c' (FNV1a64 k) k = Ret o ∧
                           latest ws k o.
Proof.
  intros G v1 v2 ws ws'. apply (@replicas_converge G plainGommap_laws 300 ws ws').
  - by vm_compute.
  - repeat constructor; by vm_compute.
  - intros k v v' Hv Hv' Ht. unfold ws in *.
    rewrite !elem_of_cons, elem_of_nil in Hv, Hv'.
    destruct_or! Hv; destruct_or! Hv'; simplify_eq; try done; by vm_compute in Ht.
  - set_solver.
  - by vm_compute.
  - by vm_compute.
Defined.

(** Deletions do not converge.  A delete of a key that is not there leaves nothing
    behind, so that two chunks that receive a write and a later delete of a key in
    opposite orders disagree: one has lost the key, the other keeps the value. *)
Theorem deletes_diverge `{GommapLaws} :
  let k := str "k" in let v := le_enc 8 4 ++ str "v" in let x := le_enc 8 5 in
  ∃ c0 c c' : PMap, New EmptyString 128 = Ret c0 ∧
    exec c0 [OpSet k v; OpDel k x] = Ret (c, [RError None; RError None]) ∧
    exec c0 [OpDel k x; OpSet k v] = Ret (c', [RError None; RError None]) ∧
    Get c (FNV1a64 k) k = Ret None ∧ Get c' (FNV1a64 k) k = Ret (Some v).
Proof.
  intros k v x. destruct (New_sim EmptyString 128) as (c0 & Hnew & Hr0); [by vm_compute|].
  assert (op_ok (OpSet k v) ∧ op_ok (OpDel k x) ∧ good_key k) as (Ho1 & Ho2 & Hk) by (by vm_compute).
  pose proof (exec_sim [OpSet k v; OpDel k x] c0 _ Hr0 ltac:(by repeat constructor)) as H1.
  pose proof (exec_sim [OpDel k x; OpSet k v] c0 _ Hr0 ltac:(by repeat constructor)) as H2.
  revert H1 H2. set (p1 := spec_exec _ _). set (p2 := spec_exec _ _). vm_compute in p1, p2. subst p1 p2. cbv iota beta.
  intros (c & E1 & Hc) (c' & E2 & Hc'). exists c0, c, c'. split_and!; [done|exact E1|exact E2|..].
  - rewrite (Get_sim _ _ _ Hc Hk). by vm_compute.
  - rewrite (Get_sim _ _ _ Hc' Hk). by vm_compute.
Qed.
