(* ===== verification/PMapProps.v ===== *)
(** * What the persistent dictionary guarantees

    The properties of the primitives of [src/core/pmap/pmap.go], each over every
    state that represents an abstract one. *)
From S2P Require Import Prelude.
From S2P Require Import Hashing.
From S2P Require Import SyncChecksum.
From S2P Require Import Store.
From S2P Require Import HashMap.
From S2P Require Import PMap.
From S2P Require Import PMapSpec.
From S2P Require Import Chunk.
From S2P Require Import Replicas.

(** A chunk of 300 bytes that holds one pair. *)
Definition sample_key : list byte := str "key".
Definition sample_value (t : Z) (s : string) : list byte := le_enc 8 t ++ str s.
Definition sample : abs :=
  Abs {[sample_key := sample_value 100 "value"]} [Rec sample_key (sample_value 100 "value")] 300 0.

Lemma sample_rep : ∃ c, pm_rep c sample.
Proof.
  destruct (@New_sim _ plainGommap_laws EmptyString 300) as (c0 & _ & Hr0); [by vm_compute|].
  destruct (Set_sim c0 _ sample_key (sample_value 100 "value") Hr0) as (c & _ & Hr);
    [by vm_compute|]. by exists c.
Qed.

(** C1. Every history of operations on a new chunk of at most 512 MB returns
    exactly the replies of a finite map where the last write wins, up to the
    capacity of the store, and ends in a state that represents the map; it panics
    only where a deletion of a present key carries no timestamp. The keys and
    values have sizes that a slice can have, and no key is read whose 32-bit hash
    is one of the reserved 0 and 1, which [Get] never finds
    ([reserved_key_never_read]). *)
Theorem history_refines `{GommapLaws} path sz os :
  0 < sz ≤ maxChunkSize → Forall op_ok os →
  ∃ c0 : PMap, New path sz = Ret c0 ∧
    match spec_exec (new_abs sz) os with
    | Ret (a, rs) => ∃ c, exec c0 os = Ret (c, rs) ∧ pm_rep c a
    | _ => exec c0 os = Panic
    end.
Proof.
  intros Hsz Hos. destruct (New_sim path sz Hsz) as (c0 & Hnew & Hr0).
  exists c0. split; [done|]. exact (exec_sim os c0 _ Hr0 Hos).
Qed.

(** A history that writes, overwrites, swaps, deletes and reads. *)
Lemma history_refines_witness :
  let _ := plainGommap in
  let k := sample_key in
  let os := [OpSet k (sample_value 5 "a"); OpSet k (sample_value 4 "b"); OpGet k;
             OpCAS k (le_enc 8 5 ++ le_enc 8 (FNV1a64 (str "a")) ++ sample_value 9 "c");
             OpGet k; OpDel k (le_enc 8 7); OpDel k (le_enc 8 9); OpGet k] in
  ∃ c0 c : PMap, New EmptyString 300 = Ret c0 ∧
    exec c0 os = Ret (c, [RError None; RError None; RValue (Some (sample_value 5 "a"));
                          RError None; RValue (Some (sample_value 9 "c"));
                          RError None; RError None; RValue None]).
Proof.
  intros G k os.
  destruct (@history_refines G plainGommap_laws EmptyString 300 os) as (c0 & H0 & H).
  - by vm_compute.
  - repeat constructor; by vm_compute.
  - destruct (spec_exec (new_abs 300) os) as [[a rs]| |] eqn:E; vm_compute in E; [|done..].
    destruct H as (c & Hc & _). exists c0, c. split; [exact H0|]. rewrite Hc.
    injection E as _ <-. reflexivity.
Defined.

(** [Set] implements the last-write-wins transition: it stores the pair if
    the key is new or its timestamp is later than the stored one, ignores it
    otherwise, and reports a value without a timestamp or a full store without
    changing anything.  It never panics and its probing loop terminates. *)
Theorem Set_refines c a k v :
  pm_rep c a → zlen k + zlen v < 2 ^ 63 →
  ∃ c', Set_ c (FNV1a64 k) k v = Ret (c', (spec_Set a k v).2) ∧
        pm_rep c' (spec_Set a k v).1.
Proof. apply Set_sim. Qed.

Lemma Set_refines_witness :
  ∃ c c', Set_ c (FNV1a64 sample_key) sample_key (sample_value 200 "next") = Ret (c', None) ∧
    pm_rep c' (spec_Set sample sample_key (sample_value 200 "next")).1.
Proof.
  destruct sample_rep as [c Hr]. exists c.
  exact (Set_refines c sample sample_key (sample_value 200 "next") Hr eq_refl).
Defined.

(** [Get] returns the current value of the key, for every key whose hash is
    not one of the two reserved bucket values. *)
Theorem Get_refines c a k :
  pm_rep c a → good_key k → Get c (FNV1a64 k) k = Ret (a_map a !! k).
Proof. apply Get_sim. Qed.

Lemma Get_refines_witness :
  ∃ c, Get c (FNV1a64 sample_key) sample_key = Ret (Some (sample_value 100 "value")).
Proof.
  destruct sample_rep as [c Hr]. exists c.
  rewrite (Get_refines c sample sample_key Hr); [reflexivity|].
  by vm_compute.
Defined.

(** [CAS] implements the compare-and-swap transition on every branch: the
    length check, the test of an absent pair, the timestamp and hash tests of
    a present one, and a full store, where the pair is kept but the checksum
    loses the contribution of the stored value. *)
Theorem CAS_refines c a k x :
  pm_rep c a → zlen k + zlen x < 2 ^ 63 →
  ∃ c', CAS c (FNV1a64 k) k x = Ret (c', (spec_CAS a k x).2) ∧
        pm_rep c' (spec_CAS a k x).1.
Proof. apply CAS_sim. Qed.

Lemma CAS_refines_witness :
  let x := le_enc 8 100 ++ le_enc 8 (FNV1a64 (str "value")) ++ sample_value 150 "swap" in
  ∃ c c', CAS c (FNV1a64 sample_key) sample_key x = Ret (c', None) ∧
    pm_rep c' (spec_CAS sample sample_key x).1.
Proof.
  intros x. destruct sample_rep as [c Hr]. exists c.
  destruct (CAS_refines c sample sample_key x Hr ltac:(by vm_compute)) as (c' & H & Hr').
  exists c'. split; [|done]. rewrite H. by vm_compute.
Defined.

(** [Del] implements deletion: an absent key or an older request changes
    nothing; otherwise the pair is removed and a tombstone is appended, or, in
    a full store, the pair is removed from memory only and the error is
    reported.  A request without the 8 bytes of a timestamp panics exactly
    when the key is present. *)
Theorem Del_refines c a k x :
  pm_rep c a → zlen k < 2 ^ 63 →
  match spec_Del a k x with
  | Ret (a', e) => ∃ c', Del c (FNV1a64 k) k x = Ret (c', e) ∧ pm_rep c' a'
  | _ => Del c (FNV1a64 k) k x = Panic
  end.
Proof. apply Del_sim. Qed.

Lemma Del_refines_witness :
  ∃ c c' a', Del c (FNV1a64 sample_key) sample_key (le_enc 8 100) = Ret (c', None) ∧
    pm_rep c' a' ∧ a_map a' = ∅.
Proof.
  destruct sample_rep as [c Hr]. exists c.
  pose proof (Del_refines c sample sample_key (le_enc 8 100) Hr ltac:(by vm_compute)) as H.
  destruct (spec_Del sample sample_key (le_enc 8 100)) as [[a' e]| |] eqn:E;
    vm_compute in E; [|done..].
  destruct H as (c' & H & Hr'). injection E as <- <-. exists c'. eexists.
  split; [exact H|]. split; [exact Hr'|reflexivity].
Defined.
