(* ===== verification/PMapIter.v ===== *)
(** * Walking a chunk ([Iterate] and [BackwardsIterate] of pmap.go)

    Both loops walk the log and call back on the records that [isPresent]
    accepts: the key is in the map and its current value starts with the same
    8 bytes as the record.  They terminate, visit the records in the order of
    the log or in the reverse one, and visit each current pair exactly once
    when timestamps of a key increase along the log. *)
From S2P Require Import Prelude.
From S2P Require Import Hashing.
From S2P Require Import Store.
From S2P Require Import HashMap.
From S2P Require Import PMap.
From S2P Require Import PMapSpec.
From S2P Require Import Chunk.
From S2P Require Import Replicas.
From S2P Require Import PMapProps.

(** ** The log and the map *)

(** The map a log leads to: a record without a value is a deletion. *)
Definition apply_rec (m : kvmap) (r : rec) : kvmap :=
  if decide (r_val r = []) then delete (r_key r) m else <[r_key r := r_val r]> m.

Definition replay (l : list rec) : kvmap := foldl apply_rec ∅ l.

Lemma replay_snoc l r : replay (l ++ [r]) = apply_rec (replay l) r.
Proof. unfold replay. by rewrite foldl_app. Qed.

(** Records hold a timestamped value or none, and every pair of the map comes
    from the last record of its key. *)
Record abs_wf (a : abs) : Prop := AbsWf {
  aw_vals : Forall (λ r, r_val r = [] ∨ 8 ≤ zlen (r_val r)) (a_log a);
  aw_last : a_map a ⊆ replay (a_log a)
}.

Lemma abs_wf_new sz : abs_wf (new_abs sz).
Proof. split; [constructor|done]. Qed.

Lemma apply_rec_mono m m' r : m ⊆ m' → apply_rec m r ⊆ apply_rec m' r.
Proof.
  intros H. unfold apply_rec. case_decide; [by apply delete_mono|by apply insert_mono].
Qed.

(** A record whose effect on the map is that of its replay keeps the two
    together. *)
Lemma abs_wf_append a r :
  abs_wf a → r_val r = [] ∨ 8 ≤ zlen (r_val r) →
  abs_wf (Abs (apply_rec (a_map a) r) (a_log a ++ [r]) (a_size a) (a_drift a)).
Proof.
  intros [Hv Hl] Hr. split; cbn [a_map a_log].
  - apply Forall_app. split; [done|]. by constructor.
  - rewrite replay_snoc. by apply apply_rec_mono.
Qed.

Lemma apply_write m k v : 8 ≤ zlen v → apply_rec m (Rec k v) = <[k := v]> m.
Proof. intros H. unfold apply_rec. cbn. rewrite decide_False; [done|]. intros ->. by zlen_nil_simpl. Qed.

Lemma abs_wf_write a k v : abs_wf a → 8 ≤ zlen v → abs_wf (spec_write a k v).1.
Proof.
  intros Hw H8. unfold spec_write. destruct (room a k v); [|done]. cbn [fst].
  rewrite <- apply_write by done. apply abs_wf_append; [done|by right].
Qed.

Lemma abs_wf_drift a d : abs_wf a → abs_wf (Abs (a_map a) (a_log a) (a_size a) d).
Proof. by intros [? ?]. Qed.

Lemma abs_wf_Set a k v : abs_wf a → abs_wf (spec_Set a k v).1.
Proof.
  intros Hw. unfold spec_Set. destruct (Z.ltb_spec (zlen v) 8); [done|].
  destruct (a_map a !! k); [destruct (_ <=? _); [done|]|]; by apply abs_wf_write.
Qed.

Lemma abs_wf_CAS a k x : abs_wf a → abs_wf (spec_CAS a k x).1.
Proof.
  intros Hw. unfold spec_CAS. destruct (Z.ltb_spec (zlen x) 24); [done|].
  assert (8 ≤ zlen (drop 16 x)).
  { pose proof (zlen_drop 16 x ltac:(lia)) as E. change (Z.to_nat 16) with 16%nat in E. lia. }
  repeat case_match; try done; try (by apply abs_wf_write); by apply abs_wf_drift.
Qed.

Lemma abs_wf_Del a k x a' e : abs_wf a → spec_Del a k x = Ret (a', e) → abs_wf a'.
Proof.
  intros Hw. unfold spec_Del. destruct (a_map a !! k) as [old|]; [|by intros [= <- <-]].
  destruct (8 <=? zlen x); [bsimpl; unfold check; bsimpl|done].
  destruct (ts x <? ts old); [by intros [= <- <-]|].
  destruct (room a k []); intros [= <- <-].
  - apply (abs_wf_append a (Rec k [])); [done|by left].
  - destruct Hw as [Hv Hl]. split; cbn [a_map a_log]; [done|].
    etrans; [apply delete_subseteq|done].
Qed.

Lemma abs_wf_step a o a' r : abs_wf a → spec_step a o = Ret (a', r) → abs_wf a'.
Proof.
  intros Hw. destruct o as [k|k v|k x|k x]; cbn [spec_step].
  - by intros [= <- <-].
  - intros [= <- <-]. by apply abs_wf_Set.
  - intros [= <- <-]. by apply abs_wf_CAS.
  - destruct (spec_Del a k x) as [[a1 e]| |] eqn:E; bsimpl; [|done..].
    intros [= <- <-]. by eapply abs_wf_Del.
Qed.

Lemma abs_wf_exec os : ∀ a a' rs, abs_wf a → spec_exec a os = Ret (a', rs) → abs_wf a'.
Proof.
  induction os as [|o os IH]; intros a a' rs Hw; cbn [spec_exec]; [by intros [= <- <-]|].
  destruct (spec_step a o) as [[a1 r]| |] eqn:E1; bsimpl; [|done..].
  destruct (spec_exec a1 os) as [[a2 rs2]| |] eqn:E2; bsimpl; [|done..].
  intros [= <- <-]. eapply IH; [|done]. by eapply abs_wf_step.
Qed.

(** Past the last record of a present key there is no tombstone of it. *)
Lemma replay_last l1 r l2 v :
  r_val r = [] → replay (l1 ++ r :: l2) !! r_key r = Some v → l2 ≠ [].
Proof.
  intros Hr Hl ->. rewrite replay_snoc in Hl. unfold apply_rec in Hl.
  rewrite decide_True, lookup_delete_eq in Hl by done. done.
Qed.

(** The empty value is never a pair. *)
Lemma replay_nil l k : replay l !! k ≠ Some [].
Proof.
  induction l as [|r l IH] using rev_ind; [done|]. rewrite replay_snoc. unfold apply_rec.
  case_decide as Hr.
  - intros [_ H]%lookup_delete_Some. by apply IH.
  - intros [[_ H]|[_ H]]%lookup_insert_Some; [done|by apply IH].
Qed.

(** ** What the loops call back on *)

(** The 8 bytes of the mapping from the start of the value of [r]. *)
Definition head8 (r : rec) (suffix : list rec) : list byte :=
  take 8 (r_val r ++ le_enc 4 (body_len r) ++ enc_log suffix).

(** The record [r], followed by [suffix] in the log, is present. *)
Definition present (a : abs) (r : rec) (suffix : list rec) : bool :=
  match a_map a !! r_key r with
  | None => false
  | Some v => bool_decide (take 8 v = head8 r suffix)
  end.

Section spec.
Context {A : Type} (foreach : A → list byte → list byte → outcome (A * bool)).

Definition spec_visit (a : abs) (r : rec) (suffix : list rec) (acc : A) :
    outcome (A * bool) :=
  if present a r suffix then foreach acc (r_key r) (r_val r) else Ret (acc, true).

(** Call back along the log, until the callback says stop. *)
Fixpoint spec_iterate (a : abs) (l : list rec) (acc : A) : outcome A :=
  match l with
  | [] => Ret acc
  | r :: l =>
      p ← spec_visit a r l acc;
      if (p.2 : bool) then spec_iterate a l p.1 else Ret p.1
  end.

(** Call back against the log: [rl] are the records still to visit, latest
    first, and [suffix] the ones already visited. *)
Fixpoint spec_backwards (a : abs) (rl suffix : list rec) (acc : A) : outcome A :=
  match rl with
  | [] => Ret acc
  | r :: rl =>
      p ← spec_visit a r suffix acc;
      if (p.2 : bool) then spec_backwards a rl (r :: suffix) p.1 else Ret p.1
  end.
End spec.

(** ** The loops follow the log *)

Section loops.
Context (c : PMap) (a : abs) (d : directory) (Hd : pm_dir c a d) (Hw : abs_wf a).
Context (Hgood : Forall (λ r, good_key (r_key r)) (a_log a)).

Section at_record.
Context (l1 : list rec) (r : rec) (l2 : list rec) (Hlog : a_log a = l1 ++ r :: l2).

Lemma at_rec : rec_at (a_log a) (zlen (enc_log l1)) (Rec (r_key r) (r_val r)).
Proof using Hlog. exists l1, l2. by destruct r. Qed.

Lemma at_good : good_key (r_key r).
Proof using Hgood Hlog. rewrite Hlog, Forall_app, Forall_cons in Hgood. tauto. Qed.

(** Enough of the log follows the value of a present key. *)
Lemma at_long v : a_map a !! r_key r = Some v →
  8 ≤ zlen (r_val r ++ le_enc 4 (body_len r) ++ enc_log l2).
Proof using Hw Hlog.
  intros Hv. destruct Hw as [Hvals Hlast].
  rewrite Hlog, Forall_app, Forall_cons in Hvals. destruct Hvals as (_ & [Hnil|H8] & _).
  - assert (l2 ≠ []) as Hne.
    { eapply (replay_last l1 r l2 v); [done|]. rewrite <- Hlog.
      by eapply lookup_weaken. }
    destruct l2 as [|r2 l2']; [done|]. pose proof (body_len_nonneg r2). zl.
  - zl.
Qed.

Lemma at_head8 :
  8 ≤ zlen (r_val r ++ le_enc 4 (body_len r) ++ enc_log l2) →
  mhead8 (st c) (MSlice (zlen (enc_log l1) + 8 + zlen (r_key r)) (zlen (r_val r))) =
  Ret (head8 r l2).
Proof using Hd Hlog.
  intros H8. destruct (wf_file _ _ (pd_store _ _ _ Hd)) as (rest & Hf & _).
  unfold mhead8, head8. cbn [ms_off ms_len].
  set (body := r_val r ++ le_enc 4 (body_len r) ++ enc_log l2) in *.
  assert (st_file (st c) =
    (enc_log l1 ++ le_enc 4 (zlen (r_key r)) ++ le_enc 4 (zlen (r_val r)) ++ r_key r) ++
    take 8 body ++ (drop 8 body ++ rest)) as ->.
  { rewrite Hf, Hlog, enc_log_app, enc_log_cons. unfold enc_rec.
    rewrite (app_assoc (take 8 body)), take_drop. unfold body. by rewrite <- !app_assoc. }
  apply slice_app; [zl|]. rewrite zlen_take8 by done. zl.
Qed.

Lemma at_isPresent :
  isPresent c (zlen (enc_log l1)) = Ret (present a r l2).
Proof using Hd Hw Hgood Hlog.
  unfold isPresent, present. rewrite (rec_key _ _ _ _ _ (pd_store _ _ _ Hd) at_rec). bsimpl.
  assert (Get c (u32 (FNV1a64 (r_key r))) (r_key r) = Ret (a_map a !! r_key r)) as ->.
  { rewrite <- (Get_sim c a) by (by exists d || apply at_good).
    unfold Get. by rewrite (u32_small (u32 _)) by apply u32_range. }
  bsimpl. destruct (a_map a !! r_key r) as [v|] eqn:Ev; [|done].
  rewrite (rec_val _ _ _ _ _ (pd_store _ _ _ Hd) at_rec). bsimpl.
  assert (8 ≤ zlen v) as Hv8.
  { destruct (d !! r_key r) as [s|] eqn:Es.
    - destruct (pd_some _ _ _ Hd _ _ Es) as (v' & Hv' & _ & H8). congruence.
    - apply (pd_none _ _ _ Hd) in Es. congruence. }
  rewrite slice_mid by lia. bsimpl. rewrite at_head8 by (by eapply at_long). bsimpl.
  by rewrite drop_0.
Qed.

Lemma at_visit {A} foreach (acc : A) :
  visit foreach c (zlen (enc_log l1)) acc = spec_visit foreach a r l2 acc.
Proof using Hd Hw Hgood Hlog.
  unfold visit, spec_visit. rewrite at_isPresent. bsimpl.
  destruct (present a r l2); [|done].
  rewrite (rec_key _ _ _ _ _ (pd_store _ _ _ Hd) at_rec). bsimpl.
  rewrite (rec_val _ _ _ _ _ (pd_store _ _ _ Hd) at_rec). bsimpl.
  by rewrite (rec_bytes _ _ _ _ _ (pd_store _ _ _ Hd) at_rec).
Qed.

Lemma at_end : zlen (enc_log l1) + 12 + body_len r = zlen (enc_log (l1 ++ [r])) ∧
  zlen (enc_log (l1 ++ [r])) ≤ st_length (st c) ∧ st_length (st c) < 2 ^ 32.
Proof using Hd Hlog.
  destruct (rec_end _ _ _ _ _ (pd_store _ _ _ Hd) at_rec) as (_ & H1 & H2).
  rewrite enc_log_snoc, zlen_app, zlen_enc_rec. unfold body_len. lia.
Qed.

Lemma at_next : totalLen (st c) (zlen (enc_log l1)) = Ret (body_len r).
Proof using Hd Hlog.
  rewrite (rec_totalLen _ _ _ _ _ (pd_store _ _ _ Hd) at_rec). done.
Qed.

Lemma at_prev : prev (st c) (zlen (enc_log (l1 ++ [r]))) = Ret (zlen (enc_log l1)).
Proof using Hd Hlog.
  destruct at_end as (<- & ? & ?).
  destruct (rec_layout _ _ _ _ _ (pd_store _ _ _ Hd) at_rec) as (Hl & ? & ?).
  pose proof (read_prev (st c) _ (Rec (r_key r) (r_val r)) Hl) as E.
  change (body_len (Rec (r_key r) (r_val r))) with (body_len r) in *. by apply E.
Qed.
End at_record.

Lemma iterateLoop_spec {A} foreach l2 : ∀ l1 fuel (acc : A),
  a_log a = l1 ++ l2 → (length l2 ≤ fuel)%nat →
  iterateLoop foreach fuel c (zlen (enc_log l1)) acc = spec_iterate foreach a l2 acc.
Proof using Hd Hw Hgood.
  induction l2 as [|r l2 IH]; intros l1 fuel acc Hlog Hfuel.
  - rewrite app_nil_r in Hlog. destruct fuel as [|fuel]; cbn [iterateLoop spec_iterate];
      rewrite (wf_length _ _ (pd_store _ _ _ Hd)), Hlog, Z.ltb_irrefl; done.
  - destruct fuel as [|fuel]; cbn [length] in Hfuel; [lia|].
    destruct (at_end l1 r l2 Hlog) as (He & Hle & Hlt).
    pose proof (body_len_nonneg r). pose proof (zlen_nonneg (enc_log l1)).
    cbn [iterateLoop spec_iterate].
    destruct (Z.ltb_spec (zlen (enc_log l1)) (st_length (st c))); [|lia].
    rewrite (at_visit l1 r l2 Hlog).
    destruct (spec_visit foreach a r l2 acc) as [[acc' [|]]| |]; bsimpl; try done.
    rewrite (at_next l1 r l2 Hlog). bsimpl. rewrite (u64_small (12 + _)), u64_small by lia.
    replace (zlen (enc_log l1) + (12 + body_len r)) with (zlen (enc_log (l1 ++ [r]))) by lia.
    apply IH; [by rewrite <- app_assoc|lia].
Qed.

Lemma backwardsLoop_spec {A} foreach l1 : ∀ r l2 fuel (acc : A),
  a_log a = l1 ++ r :: l2 → (length l1 < fuel)%nat →
  backwardsLoop foreach fuel c (zlen (enc_log l1)) acc =
  spec_backwards foreach a (reverse (l1 ++ [r])) l2 acc.
Proof using Hd Hw Hgood.
  induction l1 as [|r' l1 IH] using rev_ind; intros r l2 fuel acc Hlog Hfuel;
    (destruct fuel as [|fuel]; [cbn in Hfuel; lia|]).
  - change (reverse ([] ++ [r])) with [r]. cbn [backwardsLoop spec_backwards].
    rewrite (at_visit [] r l2 Hlog).
    destruct (spec_visit foreach a r l2 acc) as [[acc' [|]]| |]; bsimpl; done.
  - rewrite reverse_snoc. cbn [backwardsLoop spec_backwards].
    rewrite (at_visit (l1 ++ [r']) r l2 Hlog).
    destruct (spec_visit foreach a r l2 acc) as [[acc' [|]]| |]; bsimpl; try done.
    rewrite <- app_assoc in Hlog. cbn [app] in Hlog.
    rewrite (at_prev l1 r' (r :: l2) Hlog). bsimpl.
    destruct (at_end l1 r' (r :: l2) Hlog) as (He & Hle & Hlt).
    pose proof (body_len_nonneg r'). pose proof (zlen_nonneg (enc_log l1)).
    destruct (Z.ltb_spec (zlen (enc_log l1)) 0); [lia|]. rewrite u64_small by lia.
    rewrite length_app in Hfuel. cbn [length] in Hfuel.
    apply (IH r' (r :: l2)); [done|lia].
Qed.
End loops.

(** The records of a state fit in the fuel of the loops. *)
Lemma log_fuel c a d : pm_dir c a d → (length (a_log a) ≤ Z.to_nat (st_length (st c)))%nat.
Proof.
  intros Hd. pose proof (log_count (a_log a)). rewrite (wf_length _ _ (pd_store _ _ _ Hd)). lia.
Qed.

Lemma Iterate_sim {A} foreach c a (acc : A) :
  pm_rep c a → abs_wf a → Forall (λ r, good_key (r_key r)) (a_log a) →
  Iterate foreach c acc = spec_iterate foreach a (a_log a) acc.
Proof.
  intros [d Hd] Hw Hg. unfold Iterate.
  apply (iterateLoop_spec c a d Hd Hw Hg foreach (a_log a) []); [done|by eapply log_fuel].
Qed.

Lemma BackwardsIterate_sim {A} foreach c a (acc : A) :
  pm_rep c a → abs_wf a → Forall (λ r, good_key (r_key r)) (a_log a) →
  BackwardsIterate foreach c acc = spec_backwards foreach a (reverse (a_log a)) [] acc.
Proof.
  intros [d Hd] Hw Hg. unfold BackwardsIterate. pose proof (log_fuel c a d Hd) as Hfuel.
  pose proof (wf_length _ _ (pd_store _ _ _ Hd)) as Hlen.
  destruct (a_log a) as [|r l _] eqn:Hlog using rev_ind.
  - change (zlen (enc_log [])) with 0 in Hlen. by rewrite Hlen.
  - destruct (at_end c a d Hd l r [] Hlog) as (He & Hle & Hlt).
    pose proof (body_len_nonneg r). pose proof (zlen_nonneg (enc_log l)).
    destruct (Z.leb_spec (st_length (st c)) 0); [lia|].
    rewrite Hlen at 1. rewrite (at_prev c a d Hd l r [] Hlog). bsimpl. rewrite u64_small by lia.
    rewrite <- Hlog in Hg. apply (backwardsLoop_spec c a d Hd Hw Hg foreach l r []); [done|].
    rewrite length_app in Hfuel. cbn [length] in Hfuel. lia.
Qed.

(** ** Which records are visited *)

(** The pairs that the loops call back on along [l], with [suffix] after it. *)
Fixpoint visible (a : abs) (l suffix : list rec) : list write :=
  match l with
  | [] => []
  | r :: l =>
      (if present a r (l ++ suffix) then [(r_key r, r_val r)] else []) ++ visible a l suffix
  end.

Lemma visible_app a l k suffix :
  visible a (l ++ k) suffix = visible a l (k ++ suffix) ++ visible a k suffix.
Proof.
  induction l as [|r l IH]; [done|]. cbn [visible app]. by rewrite IH, !app_assoc.
Qed.

Section total.
Context {A : Type} (f : A → write → A).

(** A callback that never stops. *)
Definition always (acc : A) (k v : list byte) : outcome (A * bool) := Ret (f acc (k, v), true).

Lemma always_Ret acc k v : always acc k v = Ret (f acc (k, v), true).
Proof. done. Qed.

Lemma spec_iterate_visible a l : ∀ acc,
  spec_iterate always a l acc = Ret (foldl f acc (visible a l [])).
Proof.
  induction l as [|r l IH]; intros acc; [done|]. cbn [spec_iterate visible].
  unfold spec_visit. rewrite app_nil_r, foldl_app.
  destruct (present a r l); [rewrite always_Ret|]; bsimpl; by rewrite IH.
Qed.

Lemma spec_backwards_visible a l : ∀ suffix acc,
  spec_backwards always a (reverse l) suffix acc =
  Ret (foldl f acc (reverse (visible a l suffix))).
Proof.
  induction l as [|r l IH] using rev_ind; intros suffix acc; [done|].
  rewrite reverse_snoc, visible_app, reverse_app, foldl_app. cbn [spec_backwards visible].
  unfold spec_visit. cbn [app]. rewrite app_nil_r.
  destruct (present a r suffix); [rewrite always_Ret|]; bsimpl; by rewrite IH.
Qed.
End total.

(** No earlier record of a key reads as the timestamp of a later one. *)
Definition fresh (l : list rec) : Prop :=
  ∀ l1 r l2 r' l3, l = l1 ++ r :: l2 ++ r' :: l3 → r_key r = r_key r' →
    head8 r (l2 ++ r' :: l3) ≠ take 8 (r_val r').

Lemma replay_split l k v :
  replay l !! k = Some v →
  ∃ l1 l2, l = l1 ++ Rec k v :: l2 ∧ Forall (λ r, r_key r ≠ k) l2.
Proof.
  induction l as [|r l IH] using rev_ind; [done|]. rewrite replay_snoc. unfold apply_rec.
  destruct (decide (r_key r = k)) as [Hk|Hk].
  - case_decide; rewrite Hk; [by rewrite lookup_delete_eq|]. rewrite lookup_insert_eq.
    intros [= <-]. exists l, []. split; [|constructor]. destruct r. by cbn in *; subst.
  - intros Hl. assert (replay l !! k = Some v) as Hl'.
    { case_decide; [by rewrite lookup_delete_ne in Hl|by rewrite lookup_insert_ne in Hl]. }
    destruct (IH Hl') as (l1 & l2 & -> & HF). exists l1, (l2 ++ [r]).
    rewrite <- app_assoc. split; [done|]. apply Forall_app. by repeat constructor.
Qed.

(** They come in the order of the log. *)
Lemma visible_sublist a l suffix : sublist ((λ w : write, Rec w.1 w.2) <$> visible a l suffix) l.
Proof.
  induction l as [|r l IH]; [constructor|]. cbn [visible]. destruct (present a r _); [|by constructor].
  rewrite fmap_app. destruct r. by constructor.
Qed.

Section visible.
Context (a : abs) (Hw : abs_wf a) (Hf : fresh (a_log a)).

(** Only the last record of a key is present. *)
Lemma present_last l1 r l2 :
  a_log a = l1 ++ r :: l2 → present a r l2 = true →
  a_map a !! r_key r = Some (r_val r) ∧ Forall (λ r', r_key r' ≠ r_key r) l2.
Proof using All.
  intros Hlog Hp. unfold present in Hp. destruct (a_map a !! r_key r) as [v|] eqn:Ev; [|done].
  apply bool_decide_eq_true in Hp.
  destruct (replay_split (a_log a) (r_key r) v) as (k1 & k2 & Hlog' & HF).
  { eapply lookup_weaken; [done|]. apply (aw_last a Hw). }
  rewrite Hlog in Hlog'.
  destruct (split_cases _ _ _ _ _ _ Hlog') as [(-> & -> & ->)|[(m & -> & ->)|(m & -> & ->)]].
  - by cbn [r_key r_val] in *.
  - exfalso. eapply (Hf l1 r m (Rec (r_key r) v) k2); [done..|]. by rewrite <- Hp.
  - exfalso. rewrite Forall_app, Forall_cons in HF. by apply HF.
Qed.

Lemma elem_of_visible l2 k v : ∀ l1,
  a_log a = l1 ++ l2 → (k, v) ∈ visible a l2 [] →
  a_map a !! k = Some v ∧ Exists (λ r, r_key r = k) l2.
Proof using All.
  induction l2 as [|r l2 IH]; intros l1 Hlog Hin; [by apply not_elem_of_nil in Hin|].
  cbn [visible] in Hin. rewrite app_nil_r in Hin. apply elem_of_app in Hin as [Hin|Hin].
  - destruct (present a r l2) eqn:Ep; [|by apply not_elem_of_nil in Hin].
    apply list_elem_of_singleton in Hin as [= -> ->].
    split; [by eapply present_last|by left].
  - destruct (IH (l1 ++ [r])) as [? ?]; [by rewrite <- app_assoc|done|]. split; [done|by right].
Qed.

Lemma visible_NoDup l2 : ∀ l1,
  a_log a = l1 ++ l2 → NoDup (visible a l2 []).*1.
Proof using All.
  induction l2 as [|r l2 IH]; intros l1 Hlog; [constructor|].
  assert (NoDup (visible a l2 []).*1) as Hnd by (apply (IH (l1 ++ [r])); by rewrite <- app_assoc).
  cbn [visible]. rewrite app_nil_r. destruct (present a r l2) eqn:Ep; [|done].
  constructor; [|done]. intros ([k v] & Hk & Hin)%list_elem_of_fmap. cbn [fst] in Hk.
  destruct (elem_of_visible l2 k v (l1 ++ [r])) as [_ Hex]; [by rewrite <- app_assoc|done|].
  destruct (present_last l1 r l2 Hlog Ep) as [_ HF].
  apply Exists_exists in Hex as (r' & Hr' & E). rewrite Forall_forall in HF.
  by apply (HF r' Hr'); congruence.
Qed.

Lemma visible_all k v :
  a_map a !! k = Some v → (k, v) ∈ visible a (a_log a) [].
Proof using All.
  intros Hv. destruct (replay_split (a_log a) k v) as (l1 & l2 & Hlog & HF).
  { eapply lookup_weaken; [done|]. apply (aw_last a Hw). }
  rewrite Hlog, visible_app. apply elem_of_app. right. cbn [visible]. rewrite app_nil_r.
  unfold present. cbn [r_key r_val]. rewrite Hv, bool_decide_true; [set_solver|].
  unfold head8. cbn [r_val]. pose proof (aw_vals a Hw) as Hvals.
  rewrite Hlog, Forall_app, Forall_cons in Hvals. destruct Hvals as (_ & [Hnil|H8] & _);
    cbn [r_val] in *.
  - exfalso. assert (replay (a_log a) !! k = Some v) as Hr.
    { eapply lookup_weaken; [done|]. apply (aw_last a Hw). }
    rewrite Hlog in Hr. subst v. by eapply replay_nil.
  - rewrite take_app_le; [done|]. unfold zlen in H8. lia.
Qed.

Lemma visible_perm : visible a (a_log a) [] ≡ₚ map_to_list (a_map a).
Proof using All.
  apply NoDup_Permutation.
  - eapply NoDup_fmap_1. by apply (visible_NoDup (a_log a) []).
  - apply NoDup_map_to_list.
  - intros [k v]. rewrite elem_of_map_to_list. split.
    + intros Hin. by eapply (elem_of_visible (a_log a) k v []).
    + apply visible_all.
Qed.
End visible.

(** ** Chunks that are only written to *)

(** Along the log, the timestamps of a key increase. *)
Definition increasing (l : list rec) : Prop :=
  ∀ l1 r l2 r' l3, l = l1 ++ r :: l2 ++ r' :: l3 → r_key r = r_key r' →
    ts (r_val r) < ts (r_val r').

Record write_only (a : abs) : Prop := WriteOnly {
  wo_vals : Forall (λ r, 8 ≤ zlen (r_val r)) (a_log a);
  wo_map : a_map a = replay (a_log a);
  wo_incr : increasing (a_log a)
}.

Lemma write_only_new sz : write_only (new_abs sz).
Proof. split; [constructor|done|]. intros [|] ? ? ? ?; discriminate 1. Qed.

Lemma increasing_fresh l : Forall (λ r, 8 ≤ zlen (r_val r)) l → increasing l → fresh l.
Proof.
  intros Hv Hi l1 r l2 r' l3 -> Hk E. pose proof (Hi l1 r l2 r' l3 eq_refl Hk) as Hlt.
  rewrite Forall_app, Forall_cons in Hv. destruct Hv as (_ & H8 & _).
  unfold head8 in E. rewrite take_app_le in E by (unfold zlen in H8; lia).
  unfold ts, hdr in Hlt. rewrite E in Hlt. lia.
Qed.

(** Without deletions, a key of the log is in the map. *)
Lemma replay_has l r :
  Forall (λ r, 8 ≤ zlen (r_val r)) l → r ∈ l → is_Some (replay l !! r_key r).
Proof.
  induction l as [|r0 l IH] using rev_ind; [by intros _ ?%not_elem_of_nil|].
  rewrite Forall_app, Forall_singleton, elem_of_app, list_elem_of_singleton, replay_snoc.
  intros [Hv H8] Hin. destruct r0 as [k v]. rewrite apply_write by done.
  rewrite lookup_insert_is_Some. cbn [r_key].
  destruct (decide (k = r_key r)) as [|Hne]; [by left|right]. split; [done|].
  destruct Hin as [Hin| ->]; [by apply IH|by cbn in Hne].
Qed.

(** Every record of a key is at most as late as the pair of the map. *)
Lemma replay_latest l r v :
  increasing l → r ∈ l → replay l !! r_key r = Some v → ts (r_val r) ≤ ts v.
Proof.
  intros Hi Hin Hv. destruct (replay_split _ _ _ Hv) as (k1 & k2 & Hl & HF).
  apply list_elem_of_split in Hin as (l1 & l2 & Hl'). rewrite Hl in Hl'. symmetry in Hl'.
  destruct (split_cases _ _ _ _ _ _ Hl') as [(-> & -> & ->)|[(m & -> & ->)|(m & -> & ->)]].
  - cbn. lia.
  - apply Z.lt_le_incl. eapply (Hi l1 r m (Rec (r_key r) v) k2); [|done].
    rewrite Hl, <- app_assoc. done.
  - exfalso. rewrite Forall_app, Forall_cons in HF. by apply HF.
Qed.

Lemma increasing_snoc l k v :
  Forall (λ r, 8 ≤ zlen (r_val r)) l → increasing l →
  (∀ old, replay l !! k = Some old → ts old < ts v) → increasing (l ++ [Rec k v]).
Proof.
  intros Hv Hi Hk l1 r l2 r' l3 E Hkey.
  destruct l3 as [|r3 l3 _] using rev_ind.
  - rewrite app_comm_cons, app_assoc in E. apply app_inj_tail in E as [-> <-].
    cbn [r_key r_val] in *. subst k. assert (r ∈ l1 ++ r :: l2) as Hr by set_solver.
    destruct (replay_has _ r Hv Hr) as [old Hold].
    pose proof (replay_latest _ _ _ Hi Hr Hold). specialize (Hk _ Hold). lia.
  - rewrite (app_comm_cons _ [r3]), (app_assoc l2), (app_comm_cons _ [r3]), app_assoc in E.
    apply app_inj_tail in E as [-> _]. by eapply Hi.
Qed.

Lemma write_only_Set a k v : write_only a → write_only (spec_Set a k v).1.
Proof.
  intros Hw. unfold spec_Set. destruct (Z.ltb_spec (zlen v) 8) as [|H8]; [done|].
  assert ((∀ old, a_map a !! k = Some old → ts old < ts v) →
          write_only (spec_write a k v).1) as Hwr.
  { intros Hlt. unfold spec_write. destruct (room a k v); [|done]. destruct Hw as [Hv Hm Hi].
    split; cbn [fst a_map a_log].
    - apply Forall_app. split; [done|]. by repeat constructor.
    - by rewrite replay_snoc, apply_write, Hm.
    - apply increasing_snoc; [done..|]. by rewrite <- Hm. }
  destruct (a_map a !! k) as [old|] eqn:E.
  - destruct (Z.leb_spec (ts v) (ts old)); [done|]. apply Hwr. by intros ? [= <-].
  - by apply Hwr.
Qed.

Lemma write_only_sets ws : ∀ a a' rs,
  write_only a → spec_exec a (sets ws) = Ret (a', rs) → write_only a'.
Proof.
  induction ws as [|w ws IH]; intros a a' rs Hw; cbn [sets map spec_exec spec_step]; bsimpl;
    [by intros [= <- <-]|].
  fold (sets ws). destruct (spec_exec _ (sets ws)) as [[a2 rs2]| |] eqn:E; bsimpl; [|done..].
  intros [= <- <-]. eapply IH; [|done]. by apply write_only_Set.
Qed.

(** ** The properties *)

(** Collect the visited pairs. *)
Definition collect : list write → list byte → list byte → outcome (list write * bool) :=
  always (λ acc w, acc ++ [w]).

Lemma foldl_collect (l acc : list write) : foldl (λ acc w, acc ++ [w]) acc l = acc ++ l.
Proof.
  revert acc. induction l as [|w l IH]; intros acc; cbn [foldl]; [by rewrite app_nil_r|].
  by rewrite IH, <- app_assoc.
Qed.

(** C29. [Iterate] terminates and calls back on every current pair of the chunk
    exactly once, in the order of the log, when no earlier record of a key
    reads as the timestamp of a later one, as two writes of a key at one instant
    do, and the hashes of the keys are not reserved; [BackwardsIterate] calls back
    on the same pairs in the reverse order. *)
Theorem Iterate_visits_current c a :
  pm_rep c a → abs_wf a → Forall (λ r, good_key (r_key r)) (a_log a) → fresh (a_log a) →
  ∃ kvs, Iterate collect c [] = Ret kvs ∧
         BackwardsIterate collect c [] = Ret (reverse kvs) ∧
         NoDup kvs.*1 ∧ kvs ≡ₚ map_to_list (a_map a) ∧
         sublist ((λ w : write, Rec w.1 w.2) <$> kvs) (a_log a).
Proof.
  intros Hr Hw Hg Hf. exists (visible a (a_log a) []).
  rewrite (Iterate_sim _ c a), (BackwardsIterate_sim _ c a) by done. unfold collect.
  rewrite spec_iterate_visible, spec_backwards_visible, !foldl_collect. split_and!; try done.
  - by apply (visible_NoDup a Hw Hf (a_log a) []).
  - by apply visible_perm.
  - apply visible_sublist.
Qed.

(** A chunk after a sequence of writes is such a state. *)
Lemma delivered `{GommapLaws} sz ws :
  0 < sz ≤ maxChunkSize → stamped ws → space ws < sz → Forall (λ w : write, good_key w.1) ws →
  ∃ c a, pm_rep c a ∧ abs_wf a ∧ Forall (λ r, good_key (r_key r)) (a_log a) ∧
    fresh (a_log a) ∧ a_map a = lwws ∅ ws.
Proof.
  intros Hsz Hst Hsp Hg.
  destruct (spec_sets_lwws ws (new_abs sz)) as (a & E & Hm & _); [done|done|].
  destruct (New_sim EmptyString sz Hsz) as (c0 & _ & Hr0). unfold maxChunkSize in Hsz.
  pose proof (exec_sim (sets ws) c0 _ Hr0 (sets_ok ws sz Hsp ltac:(lia))) as Hs.
  rewrite E in Hs. destruct Hs as (c & _ & Hr). exists c, a. split_and!; try done.
  - exact (abs_wf_exec _ _ _ _ (abs_wf_new sz) E).
  - eapply (exec_keys good_key); [done| |constructor].
    clear -Hg. induction Hg; constructor; done.
  - destruct (write_only_sets _ _ _ _ (write_only_new sz) E). by apply increasing_fresh.
Qed.

(** Two keys, one of them written twice. *)
Lemma Iterate_visits_current_witness :
  ∃ c kvs, Iterate collect c [] = Ret kvs ∧ BackwardsIterate collect c [] = Ret (reverse kvs) ∧
    NoDup kvs.*1 ∧ kvs ≡ₚ [(str "a", sample_value 7 "y"); (str "b", sample_value 6 "z")].
Proof.
  pose (ws := [(str "a", sample_value 5 "x"); (str "b", sample_value 6 "z");
               (str "a", sample_value 7 "y")]).
  destruct (@delivered _ plainGommap_laws 300 ws) as (c & a & Hr & Hw & Hg & Hf & Hm).
  - by vm_compute.
  - repeat constructor; by vm_compute.
  - by vm_compute.
  - repeat constructor; by vm_compute.
  - destruct (Iterate_visits_current c a Hr Hw Hg Hf) as (kvs & H1 & H2 & H3 & H4 & _).
    exists c, kvs. split_and!; [done..|]. rewrite H4, Hm.
    vm_compute. apply perm_swap || reflexivity.
Defined.
