(* ===== verification/Traffic.v ===== *)
(** * Walking a chunk while it changes ([Iterate] and [BackwardsIterate] of
      src/core/core.go)

    The core releases the lock of the chunk around each callback of an iteration,
    so other primitives run on the chunk between two records.  The loops below
    are those of pmap.go with the primitives that run during each callback; the
    callback itself, which sends the pair away, is the list of pairs that it is
    called on. *)
From S2P Require Import Prelude.
From S2P Require Import Hashing.
From S2P Require Import Store.
From S2P Require Import PMap.
From S2P Require Import PMapSpec.
From S2P Require Import Chunk.
From S2P Require Import Replicas.
From S2P Require Import PMapProps.
From S2P Require Import PMapIter.

(** The record at [index], if the callback is called on it. *)
Definition recordAt (c : PMap) (index : Z) : outcome (option write) :=
  p ← isPresent c index;
  if (p : bool) then
    key ← Store.key (st c) index;
    v ← val (st c) index;
    value ← mbytes (st c) v;
    Ret (Some (key, value))
  else Ret None.

(** What other goroutines do while the lock is released, if it is. *)
Definition interfere `{Gommap} (called : option write) (c : PMap) (traffic : list (list op)) :
    outcome (PMap * list (list op)) :=
  match called, traffic with
  | Some _, ops :: traffic => r ← exec c ops; Ret (r.1, traffic)
  | _, _ => Ret (c, traffic)
  end.

(** [Iterate]: the chunk at the end, and the pairs in the order of the calls. *)
Fixpoint trafficLoop `{Gommap} (fuel : nat) (c : PMap) (index : Z) (traffic : list (list op)) :
    outcome (PMap * list write) :=
  if index <? st_length (st c) then
    match fuel with
    | O => OutOfFuel
    | S fuel =>
        called ← recordAt c index;
        r ← interfere called c traffic;
        t ← totalLen (st r.1) index;
        rest ← trafficLoop fuel r.1 (u64 (index + u64 (12 + t))) r.2;
        Ret (rest.1, option_list called ++ rest.2)
    end
  else Ret (c, []).

(** [BackwardsIterate], from the record at [index] on. *)
Fixpoint trafficBack `{Gommap} (fuel : nat) (c : PMap) (index : Z) (traffic : list (list op)) :
    outcome (PMap * list write) :=
  match fuel with
  | O => OutOfFuel
  | S fuel =>
      called ← recordAt c index;
      r ← interfere called c traffic;
      p ← prev (st r.1) index;
      if p <? 0 then Ret (r.1, option_list called)
      else
        rest ← trafficBack fuel r.1 (u64 p) r.2;
        Ret (rest.1, option_list called ++ rest.2)
  end.

Definition trafficBackwards `{Gommap} (fuel : nat) (c : PMap) (traffic : list (list op)) : outcome (PMap * list write) :=
  let index := st_length (st c) in
  if index <=? 0 then Ret (c, [])
  else p ← prev (st c) index; trafficBack fuel c (u64 p) traffic.

(** ** What primitives do to the log and to other keys *)

(** Primitives with keys that can be read, and deletions with a timestamp. *)
Definition op_safe (o : op) : Prop :=
  op_ok o ∧ good_key (op_key o) ∧ match o with OpDel _ x => 8 ≤ zlen x | _ => True end.
#[export] Instance op_safe_dec o : Decision (op_safe o).
Proof. destruct o; apply _. Defined.

(** The log grows by records of the keys in [ks], and the other keys stay. *)
Record extends (a a' : abs) (ks : list (list byte)) (more : list rec) : Prop := Extends {
  ex_log : a_log a' = a_log a ++ more;
  ex_keys : Forall (λ r, r_key r ∈ ks) more;
  ex_count : (length more ≤ length ks)%nat;
  ex_same : ∀ k, k ∉ ks → a_map a' !! k = a_map a !! k
}.

Lemma extends_none a a' k : a_log a' = a_log a → a_map a' = a_map a → extends a a' [k] [].
Proof. intros Hl Hm. split; rewrite ?app_nil_r, ?Hm; [done|constructor|cbn; lia|done]. Qed.

Lemma extends_write a k v : extends a (spec_write a k v).1 [k] (if room a k v then [Rec k v] else []).
Proof.
  unfold spec_write. destruct (room a k v); cbn [fst]; [|by apply extends_none].
  split; cbn; [done|by repeat constructor|lia|]. intros k' Hk. rewrite lookup_insert_ne; [done|set_solver].
Qed.

Lemma step_extends a o :
  op_safe o → ∃ a' r more, spec_step a o = Ret (a', r) ∧ extends a a' [op_key o] more.
Proof.
  assert (∀ d k, extends a (Abs (a_map a) (a_log a) (a_size a) d) [k] []) as Hdrift by (intros; by apply extends_none).
  intros (_ & _ & Hx). destruct o as [k|k v|k x|k x]; cbn [spec_step op_key].
  - eexists a, _, []. split; [done|]. by apply extends_none.
  - unfold spec_Set. repeat case_match; eexists _, _, _; (split; [reflexivity|]);
      first [apply extends_write | by apply extends_none].
  - unfold spec_CAS. repeat case_match; eexists _, _, _; (split; [reflexivity|]);
      first [apply extends_write | apply Hdrift | by apply extends_none].
  - unfold spec_Del. destruct (a_map a !! k) as [old|]; [|eexists a, _, []; split; [reflexivity|]; by apply extends_none].
    rewrite check_true by (by apply Z.leb_le). bsimpl.
    destruct (ts x <? ts old); [eexists a, _, []; split; [reflexivity|]; by apply extends_none|].
    destruct (room a k []).
    + eexists _, _, [Rec k []]. split; [reflexivity|]. split; cbn; [done|by repeat constructor|lia|].
      intros k' Hk. rewrite lookup_delete_ne; [done|set_solver].
    + eexists _, _, []. split; [reflexivity|]. split; cbn; [by rewrite app_nil_r|constructor|lia|].
      intros k' Hk. rewrite lookup_delete_ne; [done|set_solver].
Qed.

Lemma exec_extends os : ∀ a,
  Forall op_safe os → ∃ a' rs more, spec_exec a os = Ret (a', rs) ∧ extends a a' (map op_key os) more.
Proof.
  induction os as [|o os IH]; intros a Hos.
  { eexists a, [], []. split; [done|]. split; [by rewrite app_nil_r|constructor|done|done]. }
  apply Forall_cons in Hos as [Ho Hos]. destruct (step_extends a o Ho) as (a1 & r & m1 & E1 & [L1 K1 C1 S1]).
  destruct (IH a1 Hos) as (a2 & rs & m2 & E2 & [L2 K2 C2 S2]).
  exists a2, (r :: rs), (m1 ++ m2). cbn [spec_exec]. rewrite E1. bsimpl. rewrite E2. bsimpl. split; [done|]. split.
  - by rewrite L2, L1, app_assoc.
  - apply Forall_app. split; (eapply Forall_impl; [done|]); cbn; set_solver.
  - rewrite length_app. cbn [map length] in *. lia.
  - intros k Hk. cbn [map] in Hk. rewrite S2, S1; [done|set_solver..].
Qed.

(** ** The keys that no one touches *)

Definition untouched (k : list byte) (traffic : list (list op)) : Prop := Forall (Forall (λ o, op_key o ≠ k)) traffic.

Definition ofKey (k : list byte) (ws : list write) : list write := filter (λ w, w.1 = k) ws.

Lemma ofKey_app k ws ws' : ofKey k (ws ++ ws') = ofKey k ws ++ ofKey k ws'.
Proof. apply filter_app. Qed.

Lemma present_stable a a' l1 r l2 l3 more :
  abs_wf a → a_log a = l1 ++ r :: l2 ++ l3 → a_map a' !! r_key r = a_map a !! r_key r →
  present a' r (l2 ++ l3 ++ more) = present a r (l2 ++ l3).
Proof.
  intros Hw Hlog Hm. unfold present. rewrite Hm. destruct (a_map a !! r_key r) as [v|] eqn:Ev; [|done].
  pose proof (at_long a Hw l1 r (l2 ++ l3) Hlog v Ev) as H8. unfold head8.
  rewrite (app_assoc l2 l3 more), (enc_log_app (l2 ++ l3)), !(app_assoc _ _ (enc_log more)), take_app_le; [done|].
  unfold zlen in H8. lia.
Qed.

Lemma visible_stable a a' k more l2 l3 : ∀ l1,
  abs_wf a → a_log a = l1 ++ l2 ++ l3 → a_map a' !! k = a_map a !! k →
  ofKey k (visible a' l2 (l3 ++ more)) = ofKey k (visible a l2 l3).
Proof.
  intros l1 Hw. revert l1. induction l2 as [|r l2 IH]; intros l1 Hlog Hm; [done|]. cbn [visible].
  rewrite !ofKey_app, (IH (l1 ++ [r])) by (done || by rewrite <- app_assoc). f_equal.
  destruct (decide (r_key r = k)) as [<-|Hne].
  - by rewrite (present_stable a a' l1 r l2 l3 more).
  - unfold ofKey. destruct (present a' r _), (present a r _); try done; by rewrite filter_cons_False.
Qed.

Lemma visible_other a k more l3 : Forall (λ r, r_key r ≠ k) more → ofKey k (visible a more l3) = [].
Proof.
  induction 1 as [|r more Hr _ IH]; [done|]. cbn [visible]. rewrite ofKey_app, IH. unfold ofKey.
  destruct (present _ _ _); [by rewrite filter_cons_False|done].
Qed.

Section traffic.
Context `{GommapLaws}.

(** A chunk whose log can be walked. *)
Record walkable (c : PMap) (a : abs) : Prop := Walkable {
  wk_rep : pm_rep c a;
  wk_wf : abs_wf a;
  wk_good : Forall (λ r, good_key (r_key r)) (a_log a)
}.

Lemma recordAt_sim c a l1 r l2 :
  walkable c a → a_log a = l1 ++ r :: l2 →
  recordAt c (zlen (enc_log l1)) = Ret (if present a r l2 then Some (r_key r, r_val r) else None).
Proof using.
  intros [[d Hd] Hw Hg] Hlog. unfold recordAt. rewrite (at_isPresent c a d Hd Hw Hg l1 r l2 Hlog). bsimpl.
  destruct (present a r l2); [|done]. pose proof (at_rec a l1 r l2 Hlog) as Hat.
  rewrite (rec_key _ _ _ _ _ (pd_store _ _ _ Hd) Hat). bsimpl. rewrite (rec_val _ _ _ _ _ (pd_store _ _ _ Hd) Hat). bsimpl.
  by rewrite (rec_bytes _ _ _ _ _ (pd_store _ _ _ Hd) Hat).
Qed.

(** After an interference the log has grown, and the keys it did not touch are
    as they were. *)
Lemma interfere_sim called c a traffic :
  walkable c a → Forall (Forall op_safe) traffic →
  ∃ c' a' more traffic', interfere called c traffic = Ret (c', traffic') ∧ walkable c' a' ∧ a_log a' = a_log a ++ more ∧
    Forall (Forall op_safe) traffic' ∧ (length more + length (concat traffic') ≤ length (concat traffic))%nat ∧
    ∀ k, untouched k traffic → untouched k traffic' ∧ a_map a' !! k = a_map a !! k ∧ Forall (λ r, r_key r ≠ k) more.
Proof.
  intros Hwk Hsafe.
  assert (∃ c' a' more traffic', Ret (c, traffic) = Ret (c', traffic') ∧ walkable c' a' ∧ a_log a' = a_log a ++ more ∧
    Forall (Forall op_safe) traffic' ∧ (length more + length (concat traffic') ≤ length (concat traffic))%nat ∧
    ∀ k, untouched k traffic → untouched k traffic' ∧ a_map a' !! k = a_map a !! k ∧ Forall (λ r, r_key r ≠ k) more) as Hstay.
  { exists c, a, [], traffic. rewrite app_nil_r. by split_and!. }
  destruct called as [w|]; [|done]. destruct traffic as [|ops traffic]; [done|]. clear Hstay. cbn [interfere].
  apply Forall_cons in Hsafe as [Hops Hsafe]. destruct Hwk as [Hr Hw Hg].
  destruct (exec_extends ops a Hops) as (a' & rs & more & E & [Hlog Hkeys Hcount Hsame]).
  pose proof (exec_sim ops c a Hr) as Hs. rewrite E in Hs.
  destruct Hs as (c' & -> & Hr'); [eapply Forall_impl; [exact Hops|]; by intros o (? & _)|]. bsimpl.
  exists c', a', more, traffic. split_and!; try done.
  - split; [done|by eapply abs_wf_exec|]. eapply (exec_keys good_key); [exact E| |done].
    eapply Forall_impl; [exact Hops|]. by intros o (_ & ? & _).
  - cbn [concat]. rewrite length_app. rewrite length_map in Hcount. lia.
  - intros k Hk. apply Forall_cons in Hk as [Hk Hk'].
    assert (k ∉ map op_key ops) as Hn.
    { intros (o & -> & Ho)%list_elem_of_fmap. rewrite Forall_forall in Hk. by apply (Hk o). }
    split_and!; [done|by apply Hsame|]. eapply Forall_impl; [exact Hkeys|]. intros r Hin E1. apply Hn. by rewrite <- E1.
Qed.

Lemma trafficLoop_sim fuel : ∀ c a l1 l2 traffic,
  walkable c a → a_log a = l1 ++ l2 → Forall (Forall op_safe) traffic →
  (length l2 + length (concat traffic) ≤ fuel)%nat →
  ∃ c' ws, trafficLoop fuel c (zlen (enc_log l1)) traffic = Ret (c', ws) ∧
    ∀ k, untouched k traffic → ofKey k ws = ofKey k (visible a l2 []).
Proof.
  induction fuel as [|fuel IH]; intros c a l1 l2 traffic Hwk Hlog Hsafe Hfuel;
    (destruct l2 as [|r l2];
      [rewrite app_nil_r in Hlog; exists c, []; split; [|done];
       destruct Hwk as [[d Hd] _ _]; cbn [trafficLoop]; by rewrite (wf_length _ _ (pd_store _ _ _ Hd)), Hlog, Z.ltb_irrefl|]);
    cbn [length] in Hfuel; [lia|].
  pose proof (recordAt_sim c a l1 r l2 Hwk Hlog) as Hrec. pose proof Hwk as [[d Hd] Hw _].
  destruct (at_end c a d Hd l1 r l2 Hlog) as (He & Hle & Hlt).
  pose proof (body_len_nonneg r). pose proof (zlen_nonneg (enc_log l1)).
  cbn [trafficLoop]. destruct (Z.ltb_spec (zlen (enc_log l1)) (st_length (st c))); [|lia].
  rewrite Hrec. bsimpl. set (called := if present a r l2 then _ else _).
  destruct (interfere_sim called c a traffic Hwk Hsafe) as (c1 & a1 & more & traffic1 & -> & Hwk1 & Hlog1 & Hsafe1 & Hcount & Hk). bsimpl.
  rewrite Hlog, <- app_assoc in Hlog1. cbn [app] in Hlog1. pose proof Hwk1 as [[d1 Hd1] _ _].
  rewrite (at_next c1 a1 d1 Hd1 l1 r (l2 ++ more) Hlog1). bsimpl. rewrite (u64_small (12 + _)), u64_small by lia.
  replace (zlen (enc_log l1) + (12 + body_len r)) with (zlen (enc_log (l1 ++ [r]))) by lia.
  destruct (IH c1 a1 (l1 ++ [r]) (l2 ++ more) traffic1) as (c' & ws & -> & Hws); [done|by rewrite <- app_assoc|done|rewrite length_app; lia|].
  bsimpl. eexists _, _. split; [done|]. intros k Huk. destruct (Hk k Huk) as (Huk1 & Hm & Hmore). cbn [visible].
  rewrite !ofKey_app, (Hws k Huk1), app_nil_r. f_equal; [unfold called; by destruct (present a r l2)|].
  rewrite visible_app, ofKey_app, app_nil_r, (visible_other a1 k more []), app_nil_r by done.
  apply (visible_stable a a1 k more l2 [] (l1 ++ [r])); [done|by rewrite app_nil_r, <- app_assoc|done].
Qed.

Lemma trafficBack_sim fuel : ∀ c a l1 r l2 traffic,
  walkable c a → a_log a = l1 ++ r :: l2 → Forall (Forall op_safe) traffic → (length l1 < fuel)%nat →
  ∃ c' ws, trafficBack fuel c (zlen (enc_log l1)) traffic = Ret (c', ws) ∧
    ∀ k, untouched k traffic → ofKey k ws = ofKey k (reverse (visible a (l1 ++ [r]) l2)).
Proof.
  induction fuel as [|fuel IH]; intros c a l1 r l2 traffic Hwk Hlog Hsafe Hfuel; [lia|].
  cbn [trafficBack]. rewrite (recordAt_sim c a l1 r l2 Hwk Hlog). bsimpl. set (called := if present a r l2 then _ else _).
  destruct (interfere_sim called c a traffic Hwk Hsafe) as (c1 & a1 & more & traffic1 & -> & Hwk1 & Hlog1 & Hsafe1 & _ & Hk). bsimpl.
  rewrite Hlog, <- app_assoc in Hlog1. cbn [app] in Hlog1. pose proof Hwk1 as [[d1 Hd1] _ _].
  assert (∀ k, ofKey k (reverse (visible a [r] l2)) = ofKey k (option_list called)) as Hcalled.
  { intros k. unfold called. cbn [visible app]. by destruct (present a r l2). }
  destruct l1 as [|r' l1 _] using rev_ind.
  { eexists _, _. split; [reflexivity|]. intros k _. by rewrite Hcalled. }
  rewrite <- app_assoc in Hlog, Hlog1. cbn [app] in Hlog, Hlog1.
  rewrite (at_prev c1 a1 d1 Hd1 l1 r' (r :: l2 ++ more) Hlog1). bsimpl.
  destruct (at_end c1 a1 d1 Hd1 l1 r' (r :: l2 ++ more) Hlog1) as (He & Hle & Hlt).
  pose proof (body_len_nonneg r'). pose proof (zlen_nonneg (enc_log l1)). rewrite length_app in Hfuel. cbn [length] in Hfuel.
  destruct (Z.ltb_spec (zlen (enc_log l1)) 0); [lia|]. rewrite u64_small by lia.
  destruct (IH c1 a1 l1 r' (r :: l2 ++ more) traffic1) as (c' & ws & -> & Hws); [done|done|done|lia|]. bsimpl.
  eexists _, _. split; [done|]. intros k Huk. destruct (Hk k Huk) as (Huk1 & Hm & _).
  rewrite ofKey_app, (Hws k Huk1), (visible_app a (l1 ++ [r']) [r] l2), reverse_app, ofKey_app, Hcalled. f_equal. unfold ofKey. rewrite !filter_reverse. f_equal.
  apply (visible_stable a a1 k more (l1 ++ [r']) (r :: l2) []); [apply Hwk|by rewrite <- app_assoc|done].
Qed.

(** The calls on a key at rest: one on its pair, if it has one. *)
Lemma visible_ofKey a k :
  abs_wf a → fresh (a_log a) →
  ofKey k (visible a (a_log a) []) = match a_map a !! k with Some v => [(k, v)] | None => [] end.
Proof using.
  intros Hw Hf. pose proof (visible_perm a Hw Hf) as Hp.
  assert (∀ w, w ∈ ofKey k (visible a (a_log a) []) ↔ w.1 = k ∧ a_map a !! k = Some w.2) as Hin.
  { intros [k' v]. unfold ofKey. rewrite list_elem_of_filter, Hp, elem_of_map_to_list. cbn. naive_solver. }
  assert (NoDup (ofKey k (visible a (a_log a) []))) as Hnd.
  { apply NoDup_filter. rewrite Hp. apply NoDup_map_to_list. }
  destruct (a_map a !! k) as [v|].
  - apply Permutation_singleton_r, NoDup_Permutation; [done|apply NoDup_singleton|].
    intros [k' v']. rewrite Hin, list_elem_of_singleton. cbn. naive_solver.
  - destruct (ofKey k _) as [|w ws]; [done|]. destruct (proj1 (Hin w)) as [_ E]; [by left|done].
Qed.

(** C30. An iteration over a chunk that others use at the same time terminates and
    does not panic, forwards and backwards, while during each callback any
    primitives run whose keys have hashes that are not reserved and whose
    deletions carry a timestamp; and it calls back exactly once on the pair of
    every key that they do not touch, and never on such a key that has none. At
    the beginning the keys of the chunk are not reserved and no earlier record of
    a key reads as the timestamp of a later one, as two writes of a key at one
    instant do. *)
Theorem iteration_under_traffic c a traffic fuel :
  walkable c a → fresh (a_log a) → Forall (Forall op_safe) traffic →
  (length (a_log a) + length (concat traffic) < fuel)%nat →
  ∃ c1 ws1 c2 ws2, trafficLoop fuel c 0 traffic = Ret (c1, ws1) ∧ trafficBackwards fuel c traffic = Ret (c2, ws2) ∧
    ∀ k, untouched k traffic →
      let calls := match a_map a !! k with Some v => [(k, v)] | None => [] end in ofKey k ws1 = calls ∧ ofKey k ws2 = calls.
Proof.
  intros Hwk Hf Hsafe Hfuel. destruct (trafficLoop_sim fuel c a [] (a_log a) traffic Hwk eq_refl Hsafe) as (c1 & ws1 & E1 & H1); [lia|].
  assert (∃ c2 ws2, trafficBackwards fuel c traffic = Ret (c2, ws2) ∧
    ∀ k, untouched k traffic → ofKey k ws2 = ofKey k (reverse (visible a (a_log a) []))) as (c2 & ws2 & E2 & H2).
  { unfold trafficBackwards. pose proof Hwk as [[d Hd] _ _]. pose proof (wf_length _ _ (pd_store _ _ _ Hd)) as Hlen.
    destruct (a_log a) as [|r l _] eqn:Hlog using rev_ind.
    - rewrite Hlen. by exists c, [].
    - rewrite Hlen. destruct (at_end c a d Hd l r [] Hlog) as (He & Hle & Hlt).
      pose proof (body_len_nonneg r). pose proof (zlen_nonneg (enc_log l)).
      destruct (Z.leb_spec (zlen (enc_log (l ++ [r]))) 0); [lia|]. rewrite (at_prev c a d Hd l r [] Hlog). bsimpl.
      rewrite u64_small by lia. rewrite length_app in Hfuel. apply trafficBack_sim; [done|done|done|lia]. }
  exists c1, ws1, c2, ws2. split_and!; [exact E1|done|]. intros k Hk calls.
  assert (ofKey k (visible a (a_log a) []) = calls) as Hv by (apply visible_ofKey; [apply Hwk|done]).
  split; [by rewrite H1|]. rewrite H2 by done. unfold ofKey in *. rewrite filter_reverse, Hv.
  unfold calls. by destruct (a_map a !! k).
Qed.
End traffic.

(** Two keys, of which one is deleted and a third written during the first call. *)
Definition sample_traffic : list (list op) := [[OpDel (str "b") (le_enc 8 9); OpSet (str "c") (sample_value 9 "n")]].

Lemma iteration_under_traffic_witness :
  let _ := plainGommap in
  ∃ fuel c c1 ws1, trafficLoop fuel c 0 sample_traffic = Ret (c1, ws1) ∧
    ofKey (str "a") ws1 = [(str "a", sample_value 7 "y")].
Proof.
  intros G. pose (ws := [(str "a", sample_value 5 "x"); (str "b", sample_value 6 "z"); (str "a", sample_value 7 "y")]).
  destruct (@delivered _ plainGommap_laws 300 ws) as (c & a & Hr & Hw & Hg & Hf & Hm).
  - by vm_compute.
  - repeat constructor; by vm_compute.
  - by vm_compute.
  - repeat constructor; by vm_compute.
  - destruct (@iteration_under_traffic G plainGommap_laws c a sample_traffic (S (length (a_log a) + 2)))
      as (c1 & ws1 & c2 & ws2 & E & _ & Hk).
    + by split.
    + exact Hf.
    + unfold sample_traffic. repeat constructor; by vm_compute.
    + cbn [length concat app sample_traffic]. lia.
    + eexists _, c, c1, ws1. split; [exact E|]. destruct (Hk (str "a")) as [-> _]; [by repeat constructor|].
      rewrite Hm. by vm_compute.
Defined.

(** ** A chunk that is closed under an iteration *)

(** The defragmenter closes the map of a chunk, and so does dropping the chunk.
    An iteration that is in a callback goes on with the closed map, and panics. *)
Lemma closed_record_panics s index : st_file s = [] → totalLen s index = Panic.
Proof.
  intros Hf. unfold totalLen, keyLen, slice_from. rewrite Hf. generalize (u64 (index + headerKeyOffset)). intros i.
  unfold slice. destruct (_ && _); [|done]. bsimpl. by rewrite drop_nil, take_nil.
Qed.
