(* ===== verification/PMapOpen.v ===== *)
(** * Opening a closed chunk ([Open] and [restorePair] of pmap.go)

    [Open] replays the records of the file into a new index.  It restores the
    map of the chunk that was closed, as long as every deletion reached the
    file, no key is empty (an empty key reads as the end of the log) and the
    4 bytes after the log exist. *)
From S2P Require Import Prelude.
From S2P Require Import Hashing.
From S2P Require Import SyncChecksum.
From S2P Require Import Store.
From S2P Require Import HashMap.
From S2P Require Import PMap.
From S2P Require Import PMapSpec.
From S2P Require Import Chunk.
From S2P Require Import Replicas.
From S2P Require Import PMapProps.
From S2P Require Import PMapIter.

(** ** Reading does not depend on the length *)

(** The state with the length counter [n]. *)
Definition at_length (n : Z) (c : PMap) : PMap := set_st c (set_length (st c) n).

Lemma ensureSpace_length n c :
  ensureSpace (at_length n c) = (λ r, (at_length n r.1, r.2)) <$> ensureSpace c.
Proof.
  unfold ensureSpace. change (hm (at_length n c)) with (hm c).
  destruct (_ <=? _); [|done]. by destruct (expand (hm c)) as [[m [e|]]| |].
Qed.

Lemma setBucket_length n c i h s :
  setBucket (at_length n c) i h s = at_length n <$> setBucket c i h s.
Proof.
  unfold setBucket. change (hm (at_length n c)) with (hm c).
  destruct (setHash (hm c) i h) as [m| |]; [bsimpl|done..].
  by destruct (setStoreIndex m i s).
Qed.

Lemma addDeleted_length n c x : addDeleted (at_length n c) x = at_length n (addDeleted c x).
Proof. done. Qed.

Lemma restorePair_length n c key v i :
  restorePair (at_length n c) key v i =
  (λ r, (at_length n r.1, r.2)) <$> restorePair c key v i.
Proof.
  unfold restorePair. rewrite ensureSpace_length.
  destruct (ensureSpace c) as [[c1 [e|]]| |]; bsimpl; [done| |done..].
  change (search (at_length n c1)) with (search c1).
  destruct (search c1 _ key) as [[j|j s]| |]; bsimpl; [| |done..].
  - rewrite setBucket_length. destruct (setBucket c1 j _ i) as [c2| |]; bsimpl; [|done..].
    change (mheader (st (incStored (at_length n c2))) v) with (mheader (st (incStored c2)) v).
    by destruct (mheader _ v).
  - change (val (st (at_length n c1)) s) with (val (st c1) s).
    destruct (val (st c1) s) as [w| |]; bsimpl; [|done..].
    change (mheader (st (at_length n c1))) with (mheader (st c1)).
    destruct (mheader (st c1) v) as [x| |]; bsimpl; [|done..].
    destruct (mheader (st c1) w) as [old| |]; bsimpl; [|done..].
    destruct (0 <? ms_len v).
    + set (c2 := addDeleted (set_cks c1 _) _).
      change (addDeleted (set_cks (at_length n c1) _) _) with (at_length n c2).
      rewrite setBucket_length. by destruct (setBucket c2 j _ i).
    + change (hm (addDeleted (set_cks (at_length n c1) _) _)) with (hm c1).
      change (hm (addDeleted (set_cks c1 _) _)) with (hm c1).
      by destruct (setHash (hm c1) j deletedBucket).
Qed.

Lemma pm_dir_deleted c a d n :
  pm_dir c a d → pm_dir (set_st c (set_deleted (st c) n)) a d.
Proof. intros [? ? ? ? ? ? ? ? ?]. split; try done. by apply set_deleted_wf. Qed.

(** ** Replaying one record *)

(** A tombstone follows a live pair of its key. *)
Definition tombs_ok (l : list rec) : Prop :=
  ∀ l1 r l2, l = l1 ++ r :: l2 → r_val r = [] → is_Some (replay l1 !! r_key r).

(** The state of the loop before the record at the end of [l1]: everything is
    as in a chunk with the whole log [l] and the map of [l1]. *)
Record opening (c : PMap) (l1 l : list rec) (sz : Z) (d : directory) : Prop := Opening {
  op_dir : pm_dir (at_length (zlen (enc_log l)) c) (Abs (replay l1) l sz 0) d;
  op_length : st_length (st c) = zlen (enc_log l1);
  op_below : ∀ k s, d !! k = Some s → s < zlen (enc_log l1);
  op_count : numStoredKeys (hm c) ≤ Z.of_nat (length l1)
}.

Section record.
Context (l1 : list rec) (r : rec) (l2 : list rec) (l : list rec) (sz : Z).
Context (Hl : l = l1 ++ r :: l2) (Hroom : zlen (enc_log l) + 4 ≤ sz).
Context (Hvals : Forall (λ r, r_val r = [] ∨ 8 ≤ zlen (r_val r)) l) (Htombs : tombs_ok l).

Let off := zlen (enc_log l1).
Let vs := MSlice (off + 8 + zlen (r_key r)) (zlen (r_val r)).

Section state.
Context (c : PMap) (d : directory) (Hd : pm_dir c (Abs (replay l1) l sz 0) d).
Context (Hbelow : ∀ k s, d !! k = Some s → s < off).

Lemma record_at : rec_at l off (Rec (r_key r) (r_val r)).
Proof using Hl. exists l1, l2. by destruct r. Qed.

Lemma record_fresh h : (h, off) ∉ dir_entries d.
Proof using Hbelow. intros (k & Hk & _)%elem_of_dir_entries. apply Hbelow in Hk. lia. Qed.

(** The 8 bytes from the start of the value are in the mapping. *)
Lemma record_header : ∃ x, mheader (st c) vs = Ret x ∧ (8 ≤ zlen (r_val r) → x = hdr (r_val r)).
Proof using Hd Hl Hroom.
  destruct (Z.le_gt_cases 8 (zlen (r_val r))) as [H8|H8].
  - exists (hdr (r_val r)). split; [|done].
    eapply rec_header; [apply (pd_store _ _ _ Hd)|apply record_at|done].
  - pose proof (pd_store _ _ _ Hd) as Hst. destruct (pd_size _ _ _ Hd) as [Hsz _].
    destruct (rec_end _ _ _ _ _ Hst record_at) as (? & Hend & _).
    unfold mheader, mhead8, vs. cbn [ms_off ms_len].
    cbn [a_log a_size] in *. pose proof (wf_length _ _ Hst). pose proof (wf_size _ _ Hst).
    destruct (slice_Ret (st_file (st c)) (off + 8 + zlen (r_key r))
                (off + 8 + zlen (r_key r) + 8)) as (b & -> & Hb); [zl|zl|].
    bsimpl. rewrite get_le_all by lia. eexists. split; [done|]. lia.
Qed.

(** A record with a value: the pair is added or replaced. *)
Lemma restore_write :
  8 ≤ zlen (r_val r) → numStoredKeys (hm c) < Z.of_nat (length l) →
  ∃ c' d', restorePair c (r_key r) vs off = Ret (c', None) ∧
    pm_dir c' (Abs (<[r_key r := r_val r]> (replay l1)) l sz 0) d' ∧
    (∀ k s, d' !! k = Some s → s ≤ off) ∧
    numStoredKeys (hm c') ≤ numStoredKeys (hm c) + 1 ∧ st_length (st c') = st_length (st c).
Proof using Hd Hl Hroom Hbelow.
  intros H8 Hn. unfold restorePair.
  destruct record_header as (x & Hx & Hxe). rewrite (Hxe H8) in Hx. clear x Hxe.
  destruct (ensureSpace_ok c _ d Hd) as (c1 & -> & Hd1 & Hst1 & Hck1 & Hle & Hlt). bsimpl.
  fold (khash (r_key r)). rewrite <- Hst1 in Hx.
  assert (∀ k s, <[r_key r := off]> d !! k = Some s → s ≤ off) as Hoff.
  { intros k s [[_ <-]|[_ Hs%Hbelow]]%lookup_insert_Some; lia. }
  destruct (search_found c1 _ d (r_key r) Hd1) as ([i|i s0] & -> & Hf); bsimpl.
  - destruct (point_empty c1 _ d (r_key r) (r_val r) i off (ts (r_val r)) Hd1 Hf)
      as (c2 & -> & Hck & Hst2 & Hns & Hd2); [done|done|cbn; lia|apply record_at|apply record_fresh|].
    bsimpl. change (st (incStored c2)) with (st c2). rewrite Hst2, Hx. bsimpl.
    change (cks (incStored c2)) with (cks c2). rewrite Hck.
    eexists _, _. split_and!; [done|exact Hd2|done| |cbn; by rewrite Hst2, Hst1].
    cbn. rewrite Hns. pose proof (Z.mod_le (numStoredKeys (hm c1) + 1) (2 ^ 32)).
    pose proof (inv_stored _ (rep_inv _ _ (pd_index _ _ _ Hd1))). unfold u32. lia.
  - pose proof Hf as (Hs & _).
    destruct (found_match _ _ _ _ _ Hd1 Hs) as (old & Hold & Ho8 & Hat).
    rewrite (rec_val _ _ _ _ _ (pd_store _ _ _ Hd1) Hat). bsimpl. rewrite Hx. bsimpl.
    rewrite (rec_header _ _ _ _ _ (pd_store _ _ _ Hd1) Hat) by done. bsimpl.
    unfold vs. cbn [ms_len]. destruct (Z.ltb_spec 0 (zlen (r_val r))); [|lia].
    destruct (point_match c1 _ d (r_key r) (r_val r) old i s0 off (ts (r_val r)) Hd1 Hf)
      as (c2 & E2 & Hst2 & Hns & Hd2); [done|done|apply record_at|apply record_fresh|].
    pose (n := u64 (st_deleted (st c1) + (12 + zlen (r_key r) + zlen old))).
    rewrite setBucket_at in E2; [|apply (inv_shape _ (rep_inv _ _ (pd_index _ _ _ Hd1)))|apply Hf].
    injection E2 as <-.
    rewrite setBucket_at; [|apply (inv_shape _ (rep_inv _ _ (pd_index _ _ _ Hd1)))|apply Hf].
    bsimpl. eexists _, _. split_and!; [done|apply (pm_dir_deleted _ _ _ n Hd2)|done|cbn in *; lia|].
    cbn. by rewrite Hst1.
Qed.

(** A tombstone: the pair, which exists, is removed. *)
Lemma restore_tomb :
  r_val r = [] →
  ∃ c' d', restorePair c (r_key r) vs off = Ret (c', None) ∧
    pm_dir c' (Abs (delete (r_key r) (replay l1)) l sz 0) d' ∧
    (∀ k s, d' !! k = Some s → s ≤ off) ∧
    numStoredKeys (hm c') ≤ numStoredKeys (hm c) ∧ st_length (st c') = st_length (st c).
Proof using Hd Hl Hroom Hbelow Htombs.
  intros Hnil. unfold restorePair. destruct record_header as (x & Hx & _).
  destruct (ensureSpace_ok c _ d Hd) as (c1 & -> & Hd1 & Hst1 & Hck1 & Hle & Hlt). bsimpl.
  fold (khash (r_key r)). rewrite <- Hst1 in Hx.
  destruct (search_found c1 _ d (r_key r) Hd1) as ([i|i s0] & -> & Hf); bsimpl.
  - exfalso. destruct Hf as (Hn & _). apply (pd_none _ _ _ Hd1) in Hn. cbn [a_map] in Hn.
    destruct (Htombs l1 r l2 Hl Hnil) as [v Hv]. congruence.
  - pose proof Hf as (Hs & Hlive).
    destruct (found_match _ _ _ _ _ Hd1 Hs) as (old & Hold & Ho8 & Hat).
    rewrite (rec_val _ _ _ _ _ (pd_store _ _ _ Hd1) Hat). bsimpl. rewrite Hx. bsimpl.
    rewrite (rec_header _ _ _ _ _ (pd_store _ _ _ Hd1) Hat) by done. bsimpl.
    unfold vs. cbn [ms_len]. rewrite Hnil. cbn [Z.ltb].
    rewrite setHash_at; cycle 1.
    { apply (inv_shape _ (rep_inv _ _ (pd_index _ _ _ Hd1))). } { apply Hlive. }
    bsimpl. pose (n := u64 (st_deleted (st c1) + (12 + zlen (r_key r) + zlen old))).
    pose proof (pm_dir_delete c1 _ d (r_key r) old i s0 n (time_of_header x) Hd1 Hf Hold) as Hd2.
    eexists _, _. split_and!; [done|exact Hd2| |done|cbn; by rewrite Hst1].
    intros k s [_ Hk%Hbelow]%lookup_delete_Some. lia.
Qed.
End state.
End record.

(** ** The loop *)

Section open.
Context (l : list rec) (sz : Z) (Hroom : zlen (enc_log l) + 4 ≤ sz).
Context (Hvals : Forall (λ r, r_val r = [] ∨ 8 ≤ zlen (r_val r)) l) (Htombs : tombs_ok l).
Context (Hkeys : Forall (λ r, r_key r ≠ []) l).

Local Abbreviation full c := (at_length (zlen (enc_log l)) c).

(** [restorePair] follows the replay of the record. *)
Lemma restore_record c d l1 r l2 :
  l = l1 ++ r :: l2 → opening c l1 l sz d →
  ∃ c' d', restorePair c (r_key r)
      (MSlice (zlen (enc_log l1) + 8 + zlen (r_key r)) (zlen (r_val r)))
      (zlen (enc_log l1)) = Ret (c', None) ∧
    pm_dir (full c') (Abs (replay (l1 ++ [r])) l sz 0) d' ∧
    (∀ k s, d' !! k = Some s → s ≤ zlen (enc_log l1)) ∧
    numStoredKeys (hm c') ≤ Z.of_nat (length l1) + 1.
Proof using Hroom Hvals Htombs.
  intros Hl [Hd Hlen Hbelow Hcnt]. rewrite replay_snoc. unfold apply_rec.
  pose proof (restorePair_length (zlen (enc_log l)) c (r_key r)
    (MSlice (zlen (enc_log l1) + 8 + zlen (r_key r)) (zlen (r_val r))) (zlen (enc_log l1))) as E.
  assert (r_val r = [] ∨ 8 ≤ zlen (r_val r)) as Hv.
  { rewrite Hl, Forall_app, Forall_cons in Hvals. tauto. }
  assert (∃ c' d', restorePair (full c) (r_key r)
      (MSlice (zlen (enc_log l1) + 8 + zlen (r_key r)) (zlen (r_val r)))
      (zlen (enc_log l1)) = Ret (c', None) ∧
    pm_dir c' (Abs (if decide (r_val r = []) then delete (r_key r) (replay l1)
                    else <[r_key r := r_val r]> (replay l1)) l sz 0) d' ∧
    (∀ k s, d' !! k = Some s → s ≤ zlen (enc_log l1)) ∧
    numStoredKeys (hm c') ≤ Z.of_nat (length l1) + 1) as (c' & d' & Hx & Hd' & Hle & Hn).
  { destruct Hv as [Hnil|H8].
    - rewrite decide_True by done.
      destruct (restore_tomb l1 r l2 l sz Hl Hroom Htombs (full c) d Hd Hbelow Hnil)
        as (c' & d' & ? & ? & ? & Hn & _). exists c', d'. split_and!; [done..|]. cbn in *. lia.
    - rewrite decide_False by (intros Hnil; rewrite Hnil in H8; by zlen_nil_simpl).
      destruct (restore_write l1 r l2 l sz Hl Hroom (full c) d Hd Hbelow H8)
        as (c' & d' & ? & ? & ? & Hn & _).
      { rewrite Hl, length_app. cbn in *. lia. }
      exists c', d'. split_and!; [done..|]. cbn in *. lia. }
  rewrite E in Hx. destruct (restorePair c _ _ _) as [[c1 e]| |]; [|done..].
  injection Hx as <- ->. by exists c1, d'.
Qed.

Lemma open_step c d l1 r l2 fuel :
  l = l1 ++ r :: l2 → opening c l1 l sz d →
  ∃ c' d', openLoop (S fuel) c (zlen (enc_log l1)) =
             openLoop fuel c' (zlen (enc_log (l1 ++ [r]))) ∧
    opening c' (l1 ++ [r]) l sz d'.
Proof using Hroom Hvals Htombs Hkeys.
  intros Hl Hop. pose proof Hop as [Hd Hlen Hbelow Hcnt].
  destruct (restore_record c d l1 r l2 Hl Hop) as (c1 & d1 & Hx & Hd1 & Hle & Hn).
  pose proof (record_at l1 r l2 l Hl) as Hat. pose proof (pd_store _ _ _ Hd) as Hst.
  destruct (at_end _ _ _ Hd l1 r l2 Hl) as (He & Hle2 & Hlt).
  pose proof (body_len_nonneg r). pose proof (zlen_nonneg (enc_log l1)).
  assert (0 < zlen (r_key r)) as Hk.
  { rewrite Hl, Forall_app, Forall_cons in Hkeys. destruct Hkeys as (_ & Hk & _).
    destruct (r_key r); [done|]. zl. }
  cbn [openLoop].
  change (keyLen (st c)) with (keyLen (st (full c))). rewrite (rec_keyLen _ _ _ _ _ Hst Hat). bsimpl.
  destruct (Z.leb_spec (zlen (r_key r)) 0); [lia|].
  change (Store.key (st c)) with (Store.key (st (full c))). rewrite (rec_key _ _ _ _ _ Hst Hat). bsimpl.
  change (val (st c)) with (val (st (full c))). rewrite (rec_val _ _ _ _ _ Hst Hat). bsimpl.
  rewrite u32_small by lia. rewrite Hx. bsimpl. cbn [ms_len].
  set (c2 := if 0 <? zlen (r_val r) then c1 else addDeleted c1 (12 + zlen (r_key r))).
  assert (pm_dir (full c2) (Abs (replay (l1 ++ [r])) l sz 0) d1 ∧ hm c2 = hm c1) as [Hd2 Hhm].
  { unfold c2. destruct (0 <? zlen (r_val r)); [done|]. split; [|done].
    exact (pm_dir_deleted _ _ _ _ Hd1). }
  change (totalLen (st c2)) with (totalLen (st (full c2))).
  rewrite (at_next _ _ _ Hd2 l1 r l2 Hl). bsimpl. rewrite (u64_small (12 + _)), u64_small by lia.
  replace (zlen (enc_log l1) + (12 + body_len r)) with (zlen (enc_log (l1 ++ [r]))) by lia.
  eexists _, d1. split; [done|]. split; [exact Hd2|done| |].
  - intros k s Hs. apply Hle in Hs. lia.
  - cbn [hm set_st]. rewrite Hhm, length_app. cbn [length]. lia.
Qed.

Lemma open_end c d fuel :
  opening c l l sz d → openLoop (S fuel) c (zlen (enc_log l)) = Ret c.
Proof using Hroom.
  intros [Hd Hlen _ _]. cbn [openLoop]. pose proof (pd_store _ _ _ Hd) as Hst.
  destruct (st_wf_file_app _ _ Hst) as (rest & Hf & Hz & Hrest & Hlen').
  destruct (pd_size _ _ _ Hd) as [Hsz _]. cbn [a_size a_log st st_file st_length st_size set_st
    set_length at_length] in *.
  assert (keyLen (st c) (zlen (enc_log l)) = Ret 0) as ->; [|done].
  pose proof (wf_addressable _ _ Hst). pose proof (wf_room _ _ Hst).
  cbn [st st_length st_size set_st set_length at_length] in *.
  unfold keyLen, headerKeyOffset. rewrite Z.add_0_r, u64_small by zl.
  rewrite Hf, slice_from_app by done. bsimpl.
  destruct (split_at rest 4) as (z & rest' & -> & Hz4); [lia|].
  rewrite get_le_app by done. apply Forall_app in Hz as [Hz _]. f_equal. clear -Hz.
  induction Hz as [|b z -> _ IH]; [done|]. change (0 + 256 * le_dec z = 0). lia.
Qed.

Lemma open_run l2 : ∀ l1 c d fuel,
  l = l1 ++ l2 → opening c l1 l sz d → (length l2 < fuel)%nat →
  ∃ c' d', openLoop fuel c (zlen (enc_log l1)) = Ret c' ∧ opening c' l l sz d'.
Proof using Hroom Hvals Htombs Hkeys.
  induction l2 as [|r l2 IH]; intros l1 c d fuel Hl Hop Hfuel;
    (destruct fuel as [|fuel]; [cbn in Hfuel; lia|]).
  - rewrite app_nil_r in Hl. subst l1. exists c, d. split; [by eapply open_end|done].
  - destruct (open_step c d l1 r l2 fuel Hl Hop) as (c1 & d1 & -> & Hop1).
    cbn [length] in Hfuel. eapply IH; [by rewrite <- app_assoc|done|lia].
Qed.
End open.

(** ** The properties *)

(** Everything the map holds is in the log, and nothing else. *)
Record durable (a : abs) : Prop := Durable {
  du_wf : abs_wf a;
  du_map : a_map a = replay (a_log a);
  du_tombs : tombs_ok (a_log a);
  du_drift : a_drift a = 0
}.

Lemma durable_new sz : durable (new_abs sz).
Proof. split; [apply abs_wf_new|done| |done]. intros [|] ? ?; discriminate 1. Qed.

Lemma tombs_ok_snoc l r :
  tombs_ok l → (r_val r = [] → is_Some (replay l !! r_key r)) → tombs_ok (l ++ [r]).
Proof.
  intros Ht Hr l1 r' l2 E Hnil. destruct l2 as [|r2 l2 _] using rev_ind.
  - apply app_inj_tail in E as [-> ->]. by apply Hr.
  - rewrite app_comm_cons, app_assoc in E. apply app_inj_tail in E as [-> _]. by eapply Ht.
Qed.

Lemma durable_append a r :
  durable a → r_val r = [] ∨ 8 ≤ zlen (r_val r) →
  (r_val r = [] → is_Some (a_map a !! r_key r)) →
  durable (Abs (apply_rec (a_map a) r) (a_log a ++ [r]) (a_size a) (a_drift a)).
Proof.
  intros [Hw Hm Ht H0] Hv Hr. split; cbn [a_map a_log a_drift].
  - by apply abs_wf_append.
  - by rewrite replay_snoc, Hm.
  - apply tombs_ok_snoc; [done|]. by rewrite <- Hm.
  - done.
Qed.

Lemma durable_write a k v : durable a → 8 ≤ zlen v → durable (spec_write a k v).1.
Proof.
  intros Hd H8. unfold spec_write. destruct (room a k v); [|done]. cbn [fst].
  rewrite <- apply_write by done. apply durable_append; [done|by right|].
  cbn. intros ->. by zlen_nil_simpl.
Qed.

Lemma durable_Set a k v : durable a → durable (spec_Set a k v).1.
Proof.
  intros Hd. unfold spec_Set. destruct (Z.ltb_spec (zlen v) 8); [done|].
  destruct (a_map a !! k); [destruct (_ <=? _); [done|]|]; by apply durable_write.
Qed.

Lemma durable_CAS a k x :
  durable a → (spec_CAS a k x).2 ≠ Some errStoreFull → durable (spec_CAS a k x).1.
Proof.
  intros Hd Hne. unfold spec_CAS in *. destruct (Z.ltb_spec (zlen x) 24); [done|].
  assert (8 ≤ zlen (drop 16 x)).
  { pose proof (zlen_drop 16 x ltac:(lia)) as E. change (Z.to_nat 16) with 16%nat in E. lia. }
  repeat case_match; try done; by apply durable_write.
Qed.

Lemma durable_Del a k x a' e :
  durable a → spec_Del a k x = Ret (a', e) → e ≠ Some errStoreFull → durable a'.
Proof.
  intros Hd. unfold spec_Del. destruct (a_map a !! k) as [old|] eqn:E; [|by intros [= <- <-]].
  destruct (8 <=? zlen x); [bsimpl; unfold check; bsimpl|done].
  destruct (ts x <? ts old); [by intros [= <- <-]|].
  destruct (room a k []); intros [= <- <-]; [|done]. intros _.
  apply (durable_append a (Rec k [])); [done|by left|]. cbn. by rewrite E.
Qed.

Lemma durable_step a o a' r :
  durable a → spec_step a o = Ret (a', r) → r ≠ RError (Some errStoreFull) → durable a'.
Proof.
  intros Hd. destruct o as [k|k v|k x|k x]; cbn [spec_step].
  - by intros [= <- <-].
  - intros [= <- <-] _. by apply durable_Set.
  - intros [= <- <-] Hne. apply durable_CAS; [done|]. congruence.
  - destruct (spec_Del a k x) as [[a1 e]| |] eqn:E; bsimpl; [|done..].
    intros [= <- <-] Hne. eapply durable_Del; [done..|]. cbn in Hne. congruence.
Qed.

Lemma durable_exec os : ∀ a a' rs,
  durable a → spec_exec a os = Ret (a', rs) → RError (Some errStoreFull) ∉ rs → durable a'.
Proof.
  induction os as [|o os IH]; intros a a' rs Hd; cbn [spec_exec]; [by intros [= <- <-]|].
  destruct (spec_step a o) as [[a1 r]| |] eqn:E1; bsimpl; [|done..].
  destruct (spec_exec a1 os) as [[a2 rs2]| |] eqn:E2; bsimpl; [|done..].
  intros [= <- <-] [Hne Hnin]%not_elem_of_cons.
  eapply (IH a1); [|done|done]. eapply durable_step; [done..|]. intros ->. by apply Hne.
Qed.

Lemma Open_sim `{GommapLaws} p c a :
  pm_rep c a → durable a → Forall (λ r, r_key r ≠ []) (a_log a) →
  zlen (enc_log (a_log a)) + 4 ≤ a_size a →
  ∃ c', Open p (st_file (st c)) = Ret c' ∧ pm_rep c' a.
Proof.
  intros [d Hd] [[Hv _] Hm Ht Hdr] Hk Hroom.
  pose proof (pd_store _ _ _ Hd) as Hst. destruct (pd_size _ _ _ Hd) as [Hsz Hmax].
  pose proof (wf_size _ _ Hst) as Hfile. pose proof (zlen_nonneg (enc_log (a_log a))).
  unfold Open, openStore. rewrite mapFile_ok by lia. cbn [orPanic]. bsimpl.
  match goal with |- context [openLoop _ ?c _] => set (c0 := c) end.
  assert (opening c0 [] (a_log a) (a_size a) ∅) as Hop.
  { destruct (newHashMap_shape defaultHashMapInitialLog2Size defaultHashMapSizeLimit)
      as (Hsh & Hz & _ & Hn & Hl); [by vm_compute..|].
    split; [split|..]; cbn [hm st cks a_map a_log a_size a_drift at_length set_st c0]; try done.
    - destruct Hst as [? ? ? ? ?]. split; cbn; [done..|lia|lia].
    - cbn. split; [lia|]. lia.
    - unfold dir_entries. rewrite map_to_set_empty. by apply rep_new; vm_compute.
    - rewrite Hn. lia. }
  destruct (open_run (a_log a) (a_size a) Hroom Hv Ht Hk (a_log a) [] c0 ∅
              (S (Z.to_nat (zlen (st_file (st c)))))) as (c' & d' & Hc' & Hop'); [done|done| |].
  - pose proof (log_count (a_log a)). lia.
  - exists c'. split; [exact Hc'|]. exists d'. destruct Hop' as [Hd' Hlen _ _].
    replace a with (Abs (replay (a_log a)) (a_log a) (a_size a) 0)
      by (destruct a; cbn in *; congruence).
    replace c' with (at_length (zlen (enc_log (a_log a))) c'); [done|].
    destruct c' as [m s k q]. unfold at_length, set_st, set_length. cbn in *. rewrite <- Hlen.
    by destruct s.
Qed.

(** Closing and opening a chunk gives the chunk back: after any history
    without a full store and without the empty key, if 4 bytes of the store
    are left, opening the bytes of the file returns a chunk with the same
    pairs, the same length and the same checksum of everything. *)
Theorem Open_restores `{GommapLaws} p sz os c0 c rs :
  0 < sz ≤ maxChunkSize → Forall op_ok os → Forall (λ o, op_key o ≠ []) os →
  New p sz = Ret c0 → exec c0 os = Ret (c, rs) → RError (Some errStoreFull) ∉ rs →
  st_length (st c) + 4 ≤ sz →
  ∃ c', Open p (st_file (st c)) = Ret c' ∧ st_length (st c') = st_length (st c) ∧
    newChecksum (cks c') = newChecksum (cks c) ∧
    ∀ k, good_key k → Get c' (FNV1a64 k) k = Get c (FNV1a64 k) k.
Proof.
  intros Hsz Hos Hkeys Hnew Hex Hrs Hroom.
  destruct (New_sim p sz Hsz) as (c0' & Hnew' & Hr0). rewrite Hnew in Hnew'. injection Hnew' as <-.
  pose proof (exec_sim os c0 _ Hr0 Hos) as Hs.
  destruct (spec_exec (new_abs sz) os) as [[a rs']| |] eqn:E; [|congruence..].
  destruct Hs as (c1 & Hex1 & Hr). rewrite Hex in Hex1. injection Hex1 as <- <-.
  pose proof (durable_exec os _ _ _ (durable_new sz) E Hrs) as Hdu.
  pose proof (exec_keys (λ k, k ≠ []) os _ _ _ E Hkeys (Forall_nil_2 _)) as HF.
  destruct (Hr) as [d Hd]. pose proof (wf_length _ _ (pd_store _ _ _ Hd)) as Hlen.
  assert (a_size a = sz) as Hasz by (by eapply spec_exec_size in E).
  destruct (Open_sim p c a Hr Hdu HF) as (c' & Ho & Hr'); [lia|].
  exists c'. split_and!; [done| | |].
  - destruct Hr' as [d' Hd']. rewrite (wf_length _ _ (pd_store _ _ _ Hd')). lia.
  - rewrite (Sum_sim c a), (Sum_sim c' a) by (done || apply Hdu). done.
  - intros k Hk. by rewrite (Get_sim c a), (Get_sim c' a).
Qed.

(** The state that a history leads to, with its replies. *)
Lemma reached `{GommapLaws} p sz os :
  0 < sz ≤ maxChunkSize → Forall op_ok os →
  match spec_exec (new_abs sz) os with
  | Ret (a, rs) => ∃ c0 c, New p sz = Ret c0 ∧ exec c0 os = Ret (c, rs) ∧ pm_rep c a
  | _ => True
  end.
Proof.
  intros Hsz Hos. destruct (New_sim p sz Hsz) as (c0 & Hnew & Hr0).
  pose proof (exec_sim os c0 _ Hr0 Hos) as Hs.
  destruct (spec_exec (new_abs sz) os) as [[a rs]| |]; [|done..].
  destruct Hs as (c & ? & ?). by exists c0, c.
Qed.

(** A chunk with a pair, a deleted pair and an overwritten one. *)
Lemma Open_restores_witness :
  let _ := plainGommap in
  let os := [OpSet (str "a") (sample_value 5 "x"); OpSet (str "b") (sample_value 6 "y");
             OpDel (str "a") (le_enc 8 7); OpSet (str "b") (sample_value 8 "z")] in
  ∃ c0 c rs c', New "chunk" 300 = Ret c0 ∧ exec c0 os = Ret (c, rs) ∧
    Open "chunk" (st_file (st c)) = Ret c' ∧ st_length (st c') = st_length (st c) ∧
    newChecksum (cks c') = newChecksum (cks c) ∧
    ∀ k, good_key k → Get c' (FNV1a64 k) k = Get c (FNV1a64 k) k.
Proof.
  intros G os.
  assert (Forall op_ok os) as Hos by (repeat constructor; by vm_compute).
  pose proof (@reached G plainGommap_laws "chunk" 300 os ltac:(by vm_compute) Hos) as Hr.
  assert (match spec_exec (new_abs 300) os with
          | Ret (a, rs) => forallb (λ r, match r with RError None => true | _ => false end) rs &&
                           (zlen (enc_log (a_log a)) + 4 <=? 300)
          | _ => false end = true) as Hspec by (vm_compute; reflexivity).
  destruct (spec_exec (new_abs 300) os) as [[a rs]| |]; [|done..].
  destruct Hr as (c0 & c & Hnew & Hex & d & Hd). apply andb_true_iff in Hspec as [Hrs Hlen].
  apply Z.leb_le in Hlen.
  destruct (@Open_restores G plainGommap_laws "chunk" 300 os c0 c rs) as (c' & H1 & H2 & H3 & H4);
    [by vm_compute|done|repeat constructor; done|done|done| | |].
  - intros Hin. rewrite forallb_forall in Hrs. apply list_elem_of_In, Hrs in Hin. done.
  - by rewrite (wf_length _ _ (pd_store _ _ _ Hd)).
  - by exists c0, c, rs, c'.
Defined.
