(* ===== verification/PMapLimits.v ===== *)
(** * Where the dictionary departs from its documentation

    Behaviours of [src/core/pmap/pmap.go] that its comments do not mention or
    contradict, each as a theorem about the model. *)
From S2P Require Import Prelude.
From S2P Require Import Hashing.
From S2P Require Import SyncChecksum.
From S2P Require Import Store.
From S2P Require Import HashMap.
From S2P Require Import PMap.
From S2P Require Import PMapSpec.
From S2P Require Import Chunk.
From S2P Require Import Replicas.
From S2P Require Import PMapProps.

(** ** Keys whose hash is reserved *)

(** Probing with the hash of a free bucket stops at the first free bucket. *)
Lemma search_zero c a k : pm_rep c a → ∃ i, search c 0 k = Ret (AtEmpty i).
Proof.
  intros [d Hd]. pose proof (rep_inv _ _ (pd_index _ _ _ Hd)) as Hinv.
  destruct (probe_spec (hm c) 0 (sameKey (st c) k) Hinv) as ([i|i s] & Hr & Hpost); [done|..].
  - by exists i.
  - cbn in Hpost. by destruct Hpost as (_ & _ & ? & _).
Qed.

(** [Get] does not remap the reserved hashes as [Set] does: a pair whose key
    hashes to 0 modulo [2^32] is stored and never read back. *)
Theorem reserved_key_never_read c a k v :
  pm_rep c a → u32 (FNV1a64 k) = 0 → a_map a !! k = Some v →
  Get c (FNV1a64 k) k = Ret None.
Proof.
  intros Hr H0 _. unfold Get. rewrite H0. destruct (search_zero c a k Hr) as [i ->]. done.
Qed.

(** The key [d1nnpv] has such a hash: it is written without an error. *)
Lemma reserved_key_never_read_witness :
  let k := str "d1nnpv" in
  ∃ c c', Set_ c (FNV1a64 k) k (sample_value 7 "lost") = Ret (c', None) ∧
    Get c' (FNV1a64 k) k = Ret None.
Proof.
  intros k. destruct sample_rep as [c Hr]. exists c.
  destruct (Set_sim c sample k (sample_value 7 "lost") Hr) as (c' & Hset & Hr'); [by vm_compute|].
  exists c'. split; [rewrite Hset; vm_compute; reflexivity|].
  apply (reserved_key_never_read c' _ k (sample_value 7 "lost") Hr').
  - vm_compute. reflexivity.
  - vm_compute. reflexivity.
Defined.

(** ** Compare and swap *)

(** A swap of an absent pair succeeds with any expected timestamp when the
    expected hash is that of the empty value, although the documentation asks
    for a zero timestamp. *)
Theorem CAS_absent_ignores_time c a k x :
  pm_rep c a → a_map a !! k = None → 24 ≤ zlen x → zlen k + zlen x < 2 ^ 63 →
  hdr (drop 8 x) = FNV1a64 [] → room a k (drop 16 x) = true →
  ∃ c', CAS c (FNV1a64 k) k x = Ret (c', None) ∧
        pm_rep c' (Abs (<[k := drop 16 x]> (a_map a)) (a_log a ++ [Rec k (drop 16 x)])
                       (a_size a) (a_drift a)).
Proof.
  intros Hr Hn H24 Hkx Hhv Hroom. pose proof (CAS_sim c a k x Hr Hkx) as H.
  unfold spec_CAS in H. destruct (Z.ltb_spec (zlen x) 24); [lia|].
  rewrite Hn, Hhv, Z.eqb_refl, andb_false_r in H. unfold spec_write in H. by rewrite Hroom in H.
Qed.

Lemma CAS_absent_ignores_time_witness :
  let k := str "new" in
  let x := le_enc 8 12345 ++ le_enc 8 (FNV1a64 []) ++ sample_value 20 "v" in
  ts x = 12345 ∧ ∃ c c', CAS c (FNV1a64 k) k x = Ret (c', None).
Proof.
  intros k x. split; [by vm_compute|]. destruct sample_rep as [c Hr]. exists c.
  destruct (CAS_absent_ignores_time c sample k x Hr) as (c' & H & _); [by vm_compute..|].
  by exists c'.
Defined.

(** A swap that fails because the store is full has already subtracted the
    stored pair from the checksum: the pairs are unchanged, the sum is not,
    and replicas with the same pairs then report different checksums. *)
Theorem CAS_full_store_spoils_checksum c a k x old :
  pm_rep c a → a_drift a = 0 → a_map a !! k = Some old → 24 ≤ zlen x →
  zlen k + zlen x < 2 ^ 63 →
  ts x = ts old → hdr (drop 8 x) = FNV1a64 (drop 8 old) → room a k (drop 16 x) = false →
  ∃ c', CAS c (FNV1a64 k) k x = Ret (c', Some errStoreFull) ∧
    (∀ k', good_key k' → Get c' (FNV1a64 k') k' = Get c (FNV1a64 k') k') ∧
    newChecksum (cks c) = u64 (csum (a_map a)) ∧
    newChecksum (cks c') = u64 (csum (a_map a) - el k old).
Proof.
  intros Hr H0 Hold H24 Hkx Ht Hhv Hroom. pose proof (CAS_sim c a k x Hr Hkx) as H.
  unfold spec_CAS in H. destruct (Z.ltb_spec (zlen x) 24); [lia|].
  rewrite Hold, Ht, Z.eqb_refl, Hhv, Z.eqb_refl, Hroom in H. cbn [negb] in H.
  destruct H as (c' & Hc & Hr'). exists c'. split_and!; [done| | |].
  - intros k' Hk'. by rewrite (Get_sim c a), (Get_sim c' _ k' Hr').
  - by apply Sum_sim.
  - destruct Hr' as [d Hd]. pose proof (pd_drift _ _ _ Hd) as E. cbn [fst a_drift a_map] in E.
    rewrite H0, Z.sub_0_l in E. rewrite <- (u64_small _ (so_new _ (pd_sum _ _ _ Hd))).
    replace (newChecksum (cks c')) with ((newChecksum (cks c') - csum (a_map a)) + csum (a_map a))
      by lia.
    rewrite <- u64_add_l, <- E, u64_add_l. f_equal. lia.
Qed.

(** A chunk of 60 bytes: the first pair fits, the swapped one does not. *)
Lemma CAS_full_store_spoils_checksum_witness :
  let k := str "k" in
  let x := le_enc 8 5 ++ le_enc 8 (FNV1a64 (str "value")) ++ sample_value 9 "a longer value" in
  ∃ c c', CAS c (FNV1a64 k) k x = Ret (c', Some errStoreFull) ∧
    newChecksum (cks c) ≠ newChecksum (cks c').
Proof.
  intros k x.
  destruct (@New_sim _ plainGommap_laws EmptyString 60) as (c0 & _ & Hr0); [by vm_compute|].
  destruct (Set_sim c0 _ k (sample_value 5 "value") Hr0) as (c & _ & Hr); [by vm_compute|].
  exists c.
  destruct (CAS_full_store_spoils_checksum c _ k x (sample_value 5 "value") Hr)
    as (c' & H1 & _ & H2 & H3); [by vm_compute..|].
  exists c'. split; [done|]. rewrite H2, H3. vm_compute. discriminate.
Defined.
