(* ===== verification/TcpMessage.v ===== *)
(** * Messages on a connection ([src/com/protocol/tcpMessage.go])

    The wire format of a message: its size, its identifier and the size of its
    key as 32-bit little-endian integers, its type as a byte, its key and its
    value. *)
From S2P Require Import Prelude.

(** ** Types of messages *)

Module Operation.
Definition OpGet : Z := 1.
Definition OpSet : Z := 2.
Definition OpAsyncSet : Z := 3.
Definition OpDel : Z := 4.
Definition OpCAS : Z := 5.
Definition OpAddServerToGroup : Z := 100.
Definition OpGetConf : Z := 101.
Definition OpGetChunkInfo : Z := 102.
Definition OpProtect : Z := 103.
Definition OpTransfer : Z := 104.
Definition OpSetBuffered : Z := 105.
Definition OpSetNoDelay : Z := 106.
Definition OpDefrag : Z := 107.
Definition OpForgetNode : Z := 108.
Definition OpOK : Z := 200.
Definition OpErr : Z := 201.
Definition OpResponse : Z := 202.
End Operation.

Record Message := Msg {
  mType : Z;
  mID : Z;
  mKey : list byte;
  mValue : list byte
}.

#[export] Instance Message_eq_dec : EqDecision Message.
Proof. solve_decision. Defined.

Definition MinimumMessageSize : Z := 13.

(** [size] of [Marshal]. *)
Definition msgSize (m : Message) : Z := zlen (mKey m) + zlen (mValue m) + 13.

(** The new contents of [dest], the size and [tooLong]. *)
Definition Marshal (m : Message) (dest : list byte) : outcome (list byte * (Z * bool)) :=
  let size := msgSize m in
  if zlen dest <? size then Ret (dest, (size, true))
  else
    dest ← put_le 4 dest 0 (u32 size);
    dest ← put_le 4 dest 4 (mID m);
    dest ← put_le 4 dest 8 (u32 (zlen (mKey m)));
    dest ← copy_into dest 12 13 [byte_of_Z (mType m)];
    dest ← copy_into dest 13 (zlen dest) (mKey m);
    dest ← copy_into dest (13 + zlen (mKey m)) (zlen dest) (mValue m);
    Ret (dest, (size, false)).

Definition Unmarshal (src : list byte) : outcome Message :=
  b ← slice src 4 8; id ← get_le 4 b;
  b ← slice src 8 12; keySize ← get_le 4 b;
  t ← index src 12;
  array ← slice_from src 13;
  k ← slice array 0 keySize;
  v ← slice_from array keySize;
  Ret (Msg (byte_to_Z t) id k v).

(** ** The format *)

(** The fields are within their machine widths. *)
Definition msg_ok (m : Message) : Prop :=
  0 ≤ mType m < 2 ^ 8 ∧ 0 ≤ mID m < 2 ^ 32 ∧ msgSize m < 2 ^ 32.
#[export] Instance msg_ok_dec m : Decision (msg_ok m).
Proof. unfold msg_ok. apply _. Defined.

(** The bytes after the size field. *)
Definition enc_rest (m : Message) : list byte :=
  le_enc 4 (mID m) ++ le_enc 4 (zlen (mKey m)) ++ byte_of_Z (mType m) :: mKey m ++ mValue m.

Definition enc_msg (m : Message) : list byte := le_enc 4 (msgSize m) ++ enc_rest m.

Lemma zlen_enc_msg m : zlen (enc_msg m) = msgSize m.
Proof. unfold enc_msg, enc_rest, msgSize. zl. Qed.
#[export] Hint Rewrite zlen_enc_msg : zlen.

Lemma msgSize_min m : MinimumMessageSize ≤ msgSize m.
Proof. unfold msgSize, MinimumMessageSize. zl. Qed.

(** ** Marshalling *)

Lemma Marshal_too_long m dest :
  zlen dest < msgSize m → Marshal m dest = Ret (dest, (msgSize m, true)).
Proof. intros H. unfold Marshal. destruct (Z.ltb_spec (zlen dest) (msgSize m)); [done|lia]. Qed.

(** The destination cut where the fields go. *)
Lemma cut_dest m dest :
  msgSize m ≤ zlen dest →
  ∃ a b c (t : byte) k v rest, dest = a ++ b ++ c ++ [t] ++ k ++ v ++ rest ∧
    zlen a = 4 ∧ zlen b = 4 ∧ zlen c = 4 ∧ zlen k = zlen (mKey m) ∧ zlen v = zlen (mValue m) ∧
    rest = drop (Z.to_nat (msgSize m)) dest.
Proof.
  intros H. unfold msgSize in H.
  destruct (split_at dest 4) as (a & r1 & E1 & Ha); [zl|].
  destruct (split_at r1 4) as (b & r2 & E2 & Hb); [subst; zl|].
  destruct (split_at r2 4) as (c & r3 & E3 & Hc); [subst; zl|].
  destruct (split_at r3 1) as (t & r4 & E4 & Ht); [subst; zl|].
  destruct (split_at r4 (zlen (mKey m))) as (k & r5 & E5 & Hk); [subst; zl|].
  destruct (split_at r5 (zlen (mValue m))) as (v & rest & E6 & Hv); [subst; zl|].
  destruct t as [|t [|t' t'']]; [by zlen_nil_simpl| |exfalso; zl].
  exists a, b, c, t, k, v, rest. subst r1 r2 r3 r4 r5. split_and!; try done.
  rewrite E1. replace (Z.to_nat (msgSize m)) with (length (a ++ b ++ c ++ [t] ++ k ++ v)).
  { by rewrite !(app_assoc _ _ rest), <- !app_assoc, !app_assoc, drop_app_length. }
  unfold msgSize. rewrite !length_app. unfold zlen in *. cbn [length]. lia.
Qed.

Lemma Marshal_ok m dest :
  msgSize m ≤ zlen dest → msgSize m < 2 ^ 32 →
  Marshal m dest =
  Ret (enc_msg m ++ drop (Z.to_nat (msgSize m)) dest, (msgSize m, false)).
Proof.
  intros Hfit H32. unfold Marshal. destruct (Z.ltb_spec (zlen dest) (msgSize m)); [lia|].
  destruct (cut_dest m dest Hfit) as (a&b&c&t&k&v&rest&E&Ha&Hb&Hc&Hk&Hv&<-).
  pose proof (zlen_nonneg (mKey m)). pose proof (zlen_nonneg (mValue m)).
  pose proof (msgSize_min m). unfold MinimumMessageSize in *.
  rewrite !u32_small by (unfold msgSize in *; lia). rewrite E.
  rewrite put_le_front by done. bsimpl.
  rewrite (put_le_app 4 (le_enc 4 (msgSize m)) b) by zl. bsimpl.
  rewrite (app_assoc (le_enc 4 _)), (put_le_app 4 _ c) by zl. bsimpl.
  rewrite (app_assoc (_ ++ _)), (copy_into_app _ [t]) by (change (zlen [_]) with 1; zl).
  bsimpl. rewrite (app_assoc (_ ++ _)), (copy_into_app _ k) by (change (zlen [_]) with 1; zl).
  bsimpl. rewrite (app_assoc (_ ++ _)), (copy_into_app _ v) by (change (zlen [_]) with 1; zl).
  bsimpl. unfold enc_msg, enc_rest. rewrite <- !app_assoc. cbn [app]. by rewrite <- !app_assoc.
Qed.

(** ** Unmarshalling *)

Lemma Unmarshal_fields sz m :
  zlen sz = 4 → 0 ≤ mType m < 2 ^ 8 → 0 ≤ mID m < 2 ^ 32 → zlen (mKey m) < 2 ^ 32 →
  Unmarshal (sz ++ enc_rest m) = Ret m.
Proof.
  intros Hsz Ht Hid Hk. unfold Unmarshal, enc_rest.
  rewrite (slice_app sz _ _ 4 8) by zl. bsimpl.
  rewrite <- (app_nil_r (le_enc 4 (mID m))) at 1. rewrite get_le_app by zl. bsimpl.
  rewrite (app_assoc sz), (slice_app (sz ++ _)) by zl. bsimpl.
  rewrite <- (app_nil_r (le_enc 4 (zlen (mKey m)))) at 1. rewrite get_le_app by zl. bsimpl.
  rewrite (app_assoc (sz ++ _)), (index_app (_ ++ _)) by zl. bsimpl.
  rewrite cons_middle, (app_assoc (_ ++ _)), slice_from_app by (change (zlen [_]) with 1; zl). bsimpl.
  rewrite !le_dec_enc. change (256 ^ Z.of_nat 4) with (2 ^ 32).
  rewrite !Z.mod_small by (zl || lia).
  rewrite slice_front by done. bsimpl. rewrite slice_from_app by done. bsimpl.
  rewrite byte_to_of_Z, u8_small by lia. by destruct m.
Qed.

Lemma Unmarshal_enc m : msg_ok m → Unmarshal (enc_msg m) = Ret m.
Proof.
  intros (Ht & Hid & Hs). unfold enc_msg. apply Unmarshal_fields; [zl|done..|].
  unfold msgSize in Hs. zl.
Qed.

(** The size of the key that a buffer announces. *)
Definition keySize (src : list byte) : Z := le_dec (take 4 (drop 8 src)).

(** C31. A message that fits in the destination is read back exactly, from the
    bytes that [Marshal] reports as written; the rest of the destination is
    untouched.  A message that does not fit leaves it unchanged. *)
Theorem Marshal_Unmarshal m dest :
  msg_ok m →
  if decide (msgSize m ≤ zlen dest) then
    ∃ d, Marshal m dest = Ret (d, (msgSize m, false)) ∧ zlen d = zlen dest ∧
         drop (Z.to_nat (msgSize m)) d = drop (Z.to_nat (msgSize m)) dest ∧
         Unmarshal (take (Z.to_nat (msgSize m)) d) = Ret m
  else Marshal m dest = Ret (dest, (msgSize m, true)).
Proof.
  intros Hok. case_decide as Hfit; [|apply Marshal_too_long; lia].
  pose proof (msgSize_min m). unfold MinimumMessageSize in *.
  assert (Z.to_nat (msgSize m) = length (enc_msg m)) as Elen.
  { rewrite <- zlen_enc_msg. unfold zlen. lia. }
  eexists. split; [apply Marshal_ok; [done|apply Hok]|]. split_and!.
  - rewrite zlen_app, zlen_enc_msg, zlen_drop; lia.
  - by rewrite Elen, drop_app_length.
  - rewrite Elen, take_app_length. by apply Unmarshal_enc.
Qed.

Lemma Marshal_Unmarshal_witness :
  let m := Msg Operation.OpSet 7 (str "key") (str "value") in
  ∃ d, Marshal m (replicate 100 x00) = Ret (d, (21, false)) ∧
       Unmarshal (take 21 d) = Ret m.
Proof.
  intros m. pose proof (Marshal_Unmarshal m (replicate 100 x00)) as H.
  rewrite decide_True in H by (vm_compute; discriminate).
  destruct H as (d & H1 & _ & _ & H4); [by vm_compute|].
  exists d. split; [exact H1|exact H4].
Defined.

(** [Unmarshal] panics exactly on a buffer shorter than 13 bytes or on one
    whose announced key does not fit in it; it never reports an error, so such
    a message from a peer stops the server. *)
Theorem Unmarshal_panics src :
  is_panic (Unmarshal src) = bool_decide (zlen src < 13 ∨ zlen src - 13 < keySize src).
Proof.
  unfold Unmarshal, keySize. pose proof (zlen_nonneg src).
  destruct (Z.le_gt_cases 8 (zlen src)).
  2:{ rewrite (slice_panic src 4 8), bool_decide_true by lia. done. }
  rewrite (slice_mid src 4 8) by lia. bsimpl. rewrite get_le_all.
  2:{ apply (zlen_take 4). rewrite zlen_drop; lia. }
  bsimpl. destruct (Z.le_gt_cases 12 (zlen src)).
  2:{ rewrite slice_panic, bool_decide_true by lia. done. }
  rewrite (slice_mid src 8 12) by lia. bsimpl. rewrite get_le_all.
  2:{ apply (zlen_take 4). rewrite zlen_drop; lia. }
  bsimpl. destruct (Z.le_gt_cases 13 (zlen src)).
  2:{ rewrite index_panic, bool_decide_true by lia. done. }
  destruct (lookup_lt_is_Some_2 src (Z.to_nat 12)) as [t Ht]; [unfold zlen in *; lia|].
  rewrite (index_lookup src 12 t) by (done || lia). bsimpl.
  rewrite slice_from_drop by lia. bsimpl.
  change (Z.to_nat (12 - 8)) with 4%nat. change (Z.to_nat 8) with 8%nat.
  set (k := le_dec (take 4 (drop 8 src))). pose proof (zlen_drop 13 src ltac:(lia)) as Hd.
  assert (0 ≤ k) by apply le_dec_range.
  destruct (Z.le_gt_cases k (zlen src - 13)).
  - rewrite slice_mid, bool_decide_false by lia. bsimpl. by rewrite slice_from_drop by lia.
  - by rewrite slice_panic, bool_decide_true by lia.
Qed.
