(* ===== verification/BuffConn.v ===== *)
(** * Buffered connections ([src/com/buffconn/buffconn.go])

    [Read] cuts the stream of bytes of a TCP connection into messages through a
    buffer of 2048 bytes; [Write] packs messages into segments of at most 1450
    bytes, flushed when they are full, at once when buffering is off, or by a
    ticker.

    The TCP connection is modelled by what the code sees of [net.TCPConn]: the
    bytes arrive in segments of any size, [Read] returns at most as many bytes
    as its buffer holds (none, without an error, for an empty buffer), and
    fails at the end of the stream. *)
From S2P Require Import Prelude.
From S2P Require Import TcpMessage.

Definition writeBufferSize : Z := 1450.
Definition readBufferSize : Z := 2048.

(** ** Reading *)

(** [tcp.Read(buf)] with [len(buf) = n]: the bytes read and the segments still
    to come, or an error. *)
Definition tcpRead (n : Z) (segs : list (list byte)) :
    option (list byte * list (list byte)) :=
  if n <=? 0 then Some ([], segs)
  else match segs with
       | [] => None
       | s :: segs =>
           if zlen s <=? n then Some (s, segs)
           else Some (take (Z.to_nat n) s, drop (Z.to_nat n) s :: segs)
       end.

Record rconn := RConn {
  readBuffer : list byte;
  readStart : Z;
  readEnd : Z
}.

Definition newRead : rconn := RConn (replicate 2048 x00) 0 0.

(** [n, err := c.tcp.Read(c.readBuffer[c.readEnd:]); c.readEnd += n]. *)
Definition readMore (c : rconn) (segs : list (list byte)) :
    outcome (option (rconn * list (list byte))) :=
  room ← slice_from (readBuffer c) (readEnd c);
  match tcpRead (zlen room) segs with
  | None => Ret None
  | Some (bs, segs) =>
      b ← copy_into (readBuffer c) (readEnd c) (zlen (readBuffer c)) bs;
      Ret (Some (RConn b (readStart c) (readEnd c + zlen bs), segs))
  end.

(** [for c.readEnd-c.readStart < need { read more }]. *)
Fixpoint fill (fuel : nat) (need : Z) (c : rconn) (segs : list (list byte)) :
    outcome (option (rconn * list (list byte))) :=
  if readEnd c - readStart c <? need then
    match fuel with
    | O => OutOfFuel
    | S fuel =>
        r ← readMore c segs;
        match r with
        | None => Ret None
        | Some (c, segs) => fill fuel need c segs
        end
    end
  else Ret (Some (c, segs)).

(** [for index < messageSize { read into bigBuffer[index:] }]. *)
Fixpoint fillBig (fuel : nat) (messageSize : Z) (big : list byte) (idx : Z)
    (segs : list (list byte)) : outcome (option (list byte * list (list byte))) :=
  if idx <? messageSize then
    match fuel with
    | O => OutOfFuel
    | S fuel =>
        room ← slice_from big idx;
        match tcpRead (zlen room) segs with
        | None => Ret None
        | Some (bs, segs) =>
            big ← copy_into big idx (zlen big) bs;
            fillBig fuel messageSize big (idx + zlen bs) segs
        end
    end
  else Ret (Some (big, segs)).

(** The message read, or [None] for an error. *)
Definition Read (fuel : nat) (c : rconn) (segs : list (list byte)) :
    outcome (option (Message * rconn * list (list byte))) :=
  r ← fill fuel MinimumMessageSize c segs;
  match r with
  | None => Ret None
  | Some (c, segs) =>
      h ← slice_from (readBuffer c) (readStart c);
      messageSize ← get_le 4 h;
      if readBufferSize - readStart c <? messageSize then
        part ← slice (readBuffer c) (readStart c) (readEnd c);
        big ← copy_into (replicate (Z.to_nat messageSize) x00) 0 messageSize part;
        r ← fillBig fuel messageSize big (readEnd c - readStart c) segs;
        match r with
        | None => Ret None
        | Some (big, segs) =>
            m ← Unmarshal big;
            Ret (Some (m, RConn (readBuffer c) 0 0, segs))
        end
      else
        r ← fill fuel messageSize c segs;
        match r with
        | None => Ret None
        | Some (c, segs) =>
            c ← (if 1400 <? readStart c then
                   part ← slice (readBuffer c) (readStart c) (readEnd c);
                   b ← copy_into (readBuffer c) 0 (zlen (readBuffer c)) part;
                   Ret (RConn b 0 (readEnd c - readStart c))
                 else Ret c);
            let c := RConn (readBuffer c) (readStart c + messageSize) (readEnd c) in
            b ← slice (readBuffer c) (readStart c - messageSize) (readStart c);
            m ← Unmarshal b;
            Ret (Some (m, c, segs))
        end
  end.

(** Read [n] messages. *)
Fixpoint readAll (n : nat) (fuel : nat) (c : rconn) (segs : list (list byte)) :
    outcome (option (list Message * rconn * list (list byte))) :=
  match n with
  | O => Ret (Some ([], c, segs))
  | S n =>
      r ← Read fuel c segs;
      match r with
      | None => Ret None
      | Some (m, c, segs) =>
          r ← readAll n fuel c segs;
          match r with
          | None => Ret None
          | Some (ms, c, segs) => Ret (Some (m :: ms, c, segs))
          end
      end
  end.

(** ** What [Read] returns *)

Definition nonempty (segs : list (list byte)) : Prop := Forall (λ s, s ≠ []) segs.

(** The buffer holds the unread bytes [w]. *)
Definition view (c : rconn) (w : list byte) : Prop :=
  ∃ pre post, readBuffer c = pre ++ w ++ post ∧ zlen pre = readStart c ∧
    readStart c + zlen w = readEnd c ∧ zlen (readBuffer c) = readBufferSize.

Lemma view_new : view newRead [].
Proof. exists [], (replicate 2048 x00). unfold zlen. cbn [readBuffer readStart readEnd newRead].
  rewrite length_replicate. done. Qed.

Lemma view_bounds c w : view c w → 0 ≤ readStart c ≤ readEnd c ∧ readEnd c ≤ readBufferSize.
Proof. intros (pre & post & E & H1 & H2 & H3). rewrite E in H3. zl. Qed.

Lemma tcpRead_some n segs :
  0 < n → nonempty segs → concat segs ≠ [] →
  ∃ bs segs', tcpRead n segs = Some (bs, segs') ∧ bs ≠ [] ∧ zlen bs ≤ n ∧
    concat segs = bs ++ concat segs' ∧ nonempty segs'.
Proof.
  intros Hn Hne Hc. unfold tcpRead. destruct (Z.leb_spec n 0); [lia|].
  destruct segs as [|s segs]; [done|]. apply Forall_cons in Hne as [Hs Hne].
  destruct (Z.leb_spec (zlen s) n); [by exists s, segs|].
  exists (take (Z.to_nat n) s), (drop (Z.to_nat n) s :: segs).
  pose proof (zlen_take n s ltac:(lia)) as Ht. pose proof (zlen_drop n s ltac:(lia)) as Hd.
  split_and!; [done| |lia| |].
  - intros E. rewrite E in Ht. zlen_nil_simpl. lia.
  - cbn [concat]. by rewrite (app_assoc (take _ _)), take_drop.
  - constructor; [|done]. intros E. rewrite E in Hd. zlen_nil_simpl. lia.
Qed.

Lemma readMore_some c w segs :
  view c w → readEnd c < readBufferSize → nonempty segs → concat segs ≠ [] →
  ∃ c' bs segs', readMore c segs = Ret (Some (c', segs')) ∧ view c' (w ++ bs) ∧
    readStart c' = readStart c ∧ bs ≠ [] ∧ concat segs = bs ++ concat segs' ∧ nonempty segs'.
Proof.
  intros (pre & post & E & Hpre & Hend & Hsz) Hlt Hne Hc. unfold readMore.
  assert (zlen post = readBufferSize - readEnd c) as Hpost by (rewrite E in Hsz; zl).
  rewrite E, (app_assoc pre), slice_from_app by zl. bsimpl.
  destruct (tcpRead_some (zlen post) segs) as (bs & segs' & -> & Hbs & Hle & Hcat & Hne');
    [lia|done..|].
  destruct (split_at post (zlen bs)) as (old & post' & -> & Hold); [zl|].
  rewrite copy_into_app by zl. bsimpl. eexists _, bs, segs'. split_and!; try done.
  exists pre, post'. cbn [readBuffer readStart readEnd]. rewrite <- !app_assoc.
  split_and!; [done|done|zl|]. rewrite <- Hsz, E. zl.
Qed.

Lemma fill_some need : ∀ fuel c w segs,
  view c w → readStart c + need ≤ readBufferSize → need ≤ zlen (w ++ concat segs) →
  nonempty segs → (length (concat segs) ≤ fuel)%nat →
  ∃ c' bs segs', fill fuel need c segs = Ret (Some (c', segs')) ∧ view c' (w ++ bs) ∧
    readStart c' = readStart c ∧ concat segs = bs ++ concat segs' ∧ nonempty segs' ∧
    need ≤ zlen (w ++ bs).
Proof.
  induction fuel as [|fuel IH]; intros c w segs Hv Hroom Hneed Hne Hfuel;
    pose proof Hv as (pre & post & E & Hpre & Hend & Hsz); cbn [fill];
    (destruct (Z.ltb_spec (readEnd c - readStart c) need) as [Hlt|Hge];
     [|exists c, [], segs; rewrite app_nil_r; split_and!; [done..|lia]]).
  - exfalso. assert (concat segs = []) as Hnil by (destruct (concat segs); [done|cbn in Hfuel; lia]).
    rewrite Hnil, app_nil_r in Hneed. lia.
  - assert (concat segs ≠ []) as Hc.
    { intros Hnil. rewrite Hnil, app_nil_r in Hneed. lia. }
    destruct (readMore_some c w segs) as (c1 & bs & segs1 & -> & Hv1 & Hs1 & Hbs & Hcat & Hne1);
      [done|lia|done..|]. bsimpl.
    destruct (IH c1 (w ++ bs) segs1) as (c2 & bs2 & segs2 & -> & Hv2 & Hs2 & Hcat2 & Hne2 & Hn2).
    + done.
    + by rewrite Hs1.
    + by rewrite <- app_assoc, <- Hcat.
    + done.
    + rewrite Hcat, length_app in Hfuel. destruct bs; [done|cbn in Hfuel; lia].
    + exists c2, (bs ++ bs2), segs2. rewrite app_assoc. split_and!; try done; [congruence|].
      by rewrite Hcat, Hcat2, app_assoc.
Qed.

Lemma fillBig_some size : ∀ fuel got rest segs,
  zlen (got ++ rest) = size → size ≤ zlen (got ++ concat segs) → nonempty segs →
  (length (concat segs) ≤ fuel)%nat →
  ∃ bs segs', fillBig fuel size (got ++ rest) (zlen got) segs = Ret (Some (got ++ bs, segs')) ∧
    zlen (got ++ bs) = size ∧ concat segs = bs ++ concat segs' ∧ nonempty segs'.
Proof.
  induction fuel as [|fuel IH]; intros got rest segs Hsz Hneed Hne Hfuel; cbn [fillBig];
    (destruct (Z.ltb_spec (zlen got) size) as [Hlt|Hge];
     [|assert (rest = []) as -> by (apply zlen_0_nil; zl); by exists [], segs]).
  - exfalso. assert (concat segs = []) as Hnil by (destruct (concat segs); [done|cbn in Hfuel; lia]).
    rewrite Hnil, app_nil_r in Hneed. lia.
  - assert (concat segs ≠ []) as Hc.
    { intros Hnil. rewrite Hnil, app_nil_r in Hneed. lia. }
    rewrite slice_from_app by done. bsimpl.
    destruct (tcpRead_some (zlen rest) segs) as (bs & segs1 & -> & Hbs & Hle & Hcat & Hne1);
      [zl|done..|].
    destruct (split_at rest (zlen bs)) as (old & rest' & -> & Hold); [zl|].
    rewrite copy_into_app by zl. bsimpl.
    destruct (IH (got ++ bs) rest' segs1) as (bs2 & segs2 & Hf & Hz2 & Hcat2 & Hne2).
    + zl.
    + by rewrite <- app_assoc, <- Hcat.
    + done.
    + rewrite Hcat, length_app in Hfuel. destruct bs; [done|cbn in Hfuel; lia].
    + exists (bs ++ bs2), segs2. rewrite zlen_app, <- app_assoc in Hf. rewrite Hf, app_assoc.
      split_and!; try done. by rewrite Hcat, Hcat2, app_assoc.
Qed.

(** The last position from which the header of a message can be read. *)
Definition maxStart : Z := readBufferSize - MinimumMessageSize.

Section read.
Context (m : Message) (rest : list byte) (Hok : msg_ok m).

(** The size that the code reads at the start of the message. *)
Lemma peek_size c w x :
  view c w → w ++ x = enc_msg m ++ rest → MinimumMessageSize ≤ zlen w →
  slice_from (readBuffer c) (readStart c) ≫= get_le 4 = Ret (msgSize m).
Proof using Hok.
  intros (pre & post & E & Hpre & _) Hw Hmin. unfold MinimumMessageSize in *.
  rewrite E, slice_from_app by done. bsimpl.
  destruct (prefix_split w x (le_enc 4 (msgSize m)) (enc_rest m ++ rest)) as (r & -> & _).
  { rewrite Hw. unfold enc_msg. by rewrite <- app_assoc. }
  { rewrite zlen_le_enc. lia. }
  rewrite <- app_assoc, get_le_app by zl. rewrite le_dec_enc, Z.mod_small; [done|].
  change (256 ^ Z.of_nat 4) with (2 ^ 32). destruct Hok as (_ & _ & ?).
  pose proof (msgSize_min m). unfold MinimumMessageSize in *. lia.
Qed.

(** A message that does not fit in the buffer is assembled apart. *)
Lemma read_big c w segs fuel :
  view c w → w ++ concat segs = enc_msg m ++ rest → nonempty segs →
  (length (concat segs) ≤ fuel)%nat → readBufferSize - readStart c < msgSize m →
  ∃ segs',
    (part ← slice (readBuffer c) (readStart c) (readEnd c);
     big ← copy_into (replicate (Z.to_nat (msgSize m)) x00) 0 (msgSize m) part;
     fillBig fuel (msgSize m) big (readEnd c - readStart c) segs) =
    Ret (Some (enc_msg m, segs')) ∧ concat segs' = rest ∧ nonempty segs' ∧
    (length (concat segs') ≤ length (concat segs))%nat.
Proof using Hok.
  intros Hv Hw Hne Hfuel Hbig. pose proof (view_bounds _ _ Hv) as Hb.
  destruct Hv as (pre & post & E & Hpre & Hend & Hsz).
  assert (zlen post = readBufferSize - readEnd c) as Hpost by (rewrite E in Hsz; zl).
  rewrite E, slice_app by zl. bsimpl.
  set (zeros := replicate (Z.to_nat (msgSize m)) x00).
  assert (zlen zeros = msgSize m) as Hz.
  { apply zlen_replicate. pose proof (msgSize_min m). unfold MinimumMessageSize in *. lia. }
  destruct (split_at zeros (zlen w)) as (old & tl & Hzeros & Hold); [zl|].
  assert (zlen old + zlen tl = msgSize m) by (rewrite <- Hz, Hzeros; zl).
  rewrite Hzeros, <- (app_nil_l (old ++ tl)), copy_into_app by zl. bsimpl.
  rewrite app_nil_l. replace (readEnd c - readStart c) with (zlen w) by lia.
  destruct (fillBig_some (msgSize m) fuel w tl segs) as (bs & segs' & -> & Hsz' & Hcat & Hne').
  - rewrite <- Hz, Hzeros. zl.
  - rewrite Hw, zlen_app, zlen_enc_msg. zl.
  - done.
  - done.
  - exists segs'. rewrite Hcat, app_assoc in Hw.
    apply app_inj_zlen in Hw as [-> <-]; [|by rewrite zlen_enc_msg].
    split_and!; [done..|]. rewrite Hcat, length_app. lia.
Qed.

(** The buffer after a message is consumed, with the unread bytes moved to the
    front when they start too late. *)
Lemma consume c w :
  view c (enc_msg m ++ w) →
  ∃ c', (if 1400 <? readStart c then
           part ← slice (readBuffer c) (readStart c) (readEnd c);
           b ← copy_into (readBuffer c) 0 (zlen (readBuffer c)) part;
           Ret (RConn b 0 (readEnd c - readStart c))
         else Ret c) = Ret c' ∧ view c' (enc_msg m ++ w) ∧
        readStart c' = (if 1400 <? readStart c then 0 else readStart c).
Proof using.
  intros Hv. destruct (1400 <? readStart c); [|by exists c].
  pose proof (msgSize_min m). unfold MinimumMessageSize in *.
  destruct Hv as (pre & post & E & Hpre & Hend & Hsz).
  assert (slice (readBuffer c) (readStart c) (readEnd c) = Ret (enc_msg m ++ w)) as ->
    by (rewrite E; apply slice_app; zl). bsimpl.
  destruct (split_at (readBuffer c) (zlen (enc_msg m ++ w))) as (old & tl & Hbuf & Hold).
  { rewrite E. zl. }
  assert (zlen tl = readBufferSize - zlen (enc_msg m ++ w)) by (rewrite Hbuf in Hsz; zl).
  rewrite Hbuf, <- (app_nil_l (old ++ tl)), copy_into_app by zl. bsimpl.
  rewrite app_nil_l. eexists. split; [done|]. split; [|done].
  exists [], tl. cbn [readBuffer readStart readEnd]. split_and!; [done..|lia|]. zl.
Qed.

Lemma view_consumed c w :
  view c (enc_msg m ++ w) →
  view (RConn (readBuffer c) (readStart c + msgSize m) (readEnd c)) w ∧
  slice (readBuffer c) (readStart c + msgSize m - msgSize m) (readStart c + msgSize m) =
  Ret (enc_msg m).
Proof using.
  intros (pre & post & E & Hpre & Hend & Hsz). split.
  - exists (pre ++ enc_msg m), post. cbn [readBuffer readStart readEnd]. rewrite E, <- !app_assoc.
    split_and!; [done|zl|zl|]. rewrite <- Hsz, E, <- !app_assoc. done.
  - rewrite E, <- !app_assoc. apply slice_app; zl.
Qed.

(** Where the next message starts. *)
Definition nextStart (start : Z) : Z :=
  if readBufferSize - start <? msgSize m then 0
  else (if 1400 <? start then 0 else start) + msgSize m.

Lemma Read_message c w segs fuel :
  view c w → readStart c ≤ maxStart → w ++ concat segs = enc_msg m ++ rest → nonempty segs →
  (length (concat segs) ≤ fuel)%nat →
  ∃ c' w' segs', Read fuel c segs = Ret (Some (m, c', segs')) ∧ view c' w' ∧
    readStart c' = nextStart (readStart c) ∧ w' ++ concat segs' = rest ∧ nonempty segs' ∧
    (length (concat segs') ≤ length (concat segs))%nat.
Proof using Hok.
  intros Hv Hstart Hw Hne Hfuel. pose proof (msgSize_min m) as Hmin. unfold maxStart in *.
  unfold Read, nextStart.
  destruct (fill_some MinimumMessageSize fuel c w segs)
    as (c1 & bs & segs1 & -> & Hv1 & Hs1 & Hcat & Hne1 & Hn1); [done|lia| |done..|].
  { rewrite Hw, zlen_app, zlen_enc_msg. zl. }
  bsimpl. rewrite Hcat, app_assoc in Hw. rewrite Hcat, length_app in Hfuel |- *.
  pose proof (peek_size _ _ _ Hv1 Hw Hn1) as Hpeek.
  apply bind_Ret_inv in Hpeek as (h & -> & Hh). bsimpl. rewrite Hh. bsimpl. rewrite Hs1.
  destruct (Z.ltb_spec (readBufferSize - readStart c) (msgSize m)) as [Hbig|Hsmall].
  - destruct (read_big c1 (w ++ bs) segs1 fuel) as (segs2 & Hr & Hrest & Hne2 & Hle2);
      [done..|lia|by rewrite Hs1|]. rewrite Hs1 in Hr.
    apply bind_Ret_inv in Hr as (part & -> & Hr). apply bind_Ret_inv in Hr as (big & E & Hr).
    bsimpl. rewrite E. bsimpl. rewrite Hr. bsimpl. rewrite Unmarshal_enc by done. bsimpl.
    eexists _, [], segs2. split_and!; try done; [|lia].
    destruct Hv1 as (pre & post & ? & ? & ? & Hsz).
    exists [], (readBuffer c1). cbn [readBuffer readStart readEnd]. by split_and!.
  - destruct (fill_some (msgSize m) fuel c1 (w ++ bs) segs1)
      as (c2 & bs2 & segs2 & -> & Hv2 & Hs2 & Hcat2 & Hne2 & Hn2); [done|lia| |done|lia|].
    { rewrite Hw, zlen_app, zlen_enc_msg. zl. }
    bsimpl. rewrite Hcat2, app_assoc in Hw. rewrite Hcat2, length_app.
    apply prefix_split in Hw as (w' & Hw' & Hrest); [|by rewrite zlen_enc_msg].
    rewrite Hw' in Hv2. destruct (consume c2 w' Hv2) as (c3 & -> & Hv3 & Hs3). bsimpl.
    destruct (view_consumed c3 w' Hv3) as [Hv4 Hsl]. cbn [readBuffer readStart]. rewrite Hsl. bsimpl.
    rewrite Unmarshal_enc by done. bsimpl.
    eexists _, w', segs2. split_and!; try done; [|lia].
    cbn [readStart]. by rewrite Hs3, Hs2, Hs1.
Qed.
End read.

(** ** Streams of messages *)

(** Sizes after which the buffer always has room for the next header: the
    message ends before the last 13 bytes of the buffer, or is read apart. *)
Definition safe_size (m : Message) : Prop := msgSize m ≤ 635 ∨ readBufferSize < msgSize m.
#[export] Instance safe_size_dec m : Decision (safe_size m).
Proof. unfold safe_size. apply _. Defined.

Lemma nextStart_safe m start :
  0 ≤ start ≤ maxStart → safe_size m → nextStart m start ≤ maxStart.
Proof.
  unfold safe_size, nextStart, maxStart, readBufferSize, MinimumMessageSize.
  intros. repeat bool_case; lia.
Qed.

Lemma readAll_stream ms : ∀ c w segs fuel,
  Forall msg_ok ms → Forall safe_size ms → view c w → readStart c ≤ maxStart →
  w ++ concat segs = concat (map enc_msg ms) → nonempty segs →
  (length (concat segs) ≤ fuel)%nat →
  ∃ c' segs', readAll (length ms) fuel c segs = Ret (Some (ms, c', segs')) ∧
    view c' [] ∧ readStart c' ≤ maxStart ∧ concat segs' = [] ∧ nonempty segs'.
Proof.
  induction ms as [|m ms IH]; intros c w segs fuel Hok Hsafe Hv Hs Hw Hne Hfuel.
  - cbn in Hw. apply app_nil in Hw as [-> Hc]. by exists c, segs.
  - apply Forall_cons in Hok as [Hm Hok]. apply Forall_cons in Hsafe as [Hsm Hsafe].
    cbn [length readAll].
    destruct (Read_message m _ Hm c w segs fuel Hv Hs Hw Hne Hfuel)
      as (c1 & w1 & segs1 & -> & Hv1 & Hs1 & Hw1 & Hne1 & Hle). bsimpl.
    pose proof (view_bounds _ _ Hv) as [[? _] _].
    destruct (IH c1 w1 segs1 fuel) as (c2 & segs2 & -> & H2); try done; [|lia|].
    + rewrite Hs1. by apply nextStart_safe.
    + by exists c2, segs2.
Qed.

Lemma nonempty_concat segs : nonempty segs → concat segs = [] → segs = [].
Proof. destruct 1 as [|[|b s] segs Hs _]; done. Qed.

(** C32. However the network cuts a stream of messages into segments, reading
    it returns exactly these messages, in order, and leaves nothing behind, as
    long as no message has a size between 636 and 2048 bytes. *)
Theorem Read_stream ms segs fuel :
  Forall msg_ok ms → Forall safe_size ms → nonempty segs →
  concat segs = concat (map enc_msg ms) → (length (concat segs) ≤ fuel)%nat →
  ∃ c, readAll (length ms) fuel newRead segs = Ret (Some (ms, c, [])) ∧ view c [].
Proof.
  intros Hok Hsafe Hne Hcat Hfuel.
  destruct (readAll_stream ms newRead [] segs fuel) as (c & segs' & Hr & Hv & _ & Hc & Hne');
    try done; [apply view_new|].
  apply nonempty_concat in Hc as ->; [|done]. by exists c.
Qed.

(** Two messages cut in the middle of a header and of a value. *)
Lemma Read_stream_witness :
  let m1 := Msg Operation.OpSet 1 (str "key") (str "value") in
  let m2 := Msg Operation.OpGet 2 (str "key") [] in
  let bs := enc_msg m1 ++ enc_msg m2 in
  ∃ c, readAll 2 100 newRead [take 5 bs; take 20 (drop 5 bs); drop 25 bs] =
       Ret (Some ([m1; m2], c, [])) ∧ view c [].
Proof.
  intros m1 m2 bs. apply (Read_stream [m1; m2]).
  - repeat constructor; by vm_compute.
  - apply Forall_cons. split; [by left; vm_compute|]. apply Forall_singleton. by left; vm_compute.
  - repeat constructor; by vm_compute.
  - vm_compute. reflexivity.
  - apply Nat.leb_le. vm_compute. reflexivity.
Defined.

(** ** A message that stops the reader *)

(** With less than a header of room after [readStart], the loop never ends. *)
Lemma fill_stuck fuel : ∀ c w segs,
  view c w → maxStart < readStart c → MinimumMessageSize ≤ zlen (w ++ concat segs) →
  nonempty segs → fill fuel MinimumMessageSize c segs = OutOfFuel.
Proof.
  induction fuel as [|fuel IH]; intros c w segs Hv Hs Hlen Hne;
    pose proof (view_bounds _ _ Hv) as Hb; unfold maxStart in *; cbn [fill];
    (destruct (Z.ltb_spec (readEnd c - readStart c) MinimumMessageSize); [|lia]); [done|].
  pose proof Hv as (pre & post & E & Hpre & Hend & Hsz).
  destruct (decide (readEnd c < readBufferSize)) as [Hlt|Hge].
  - destruct (readMore_some c w segs) as (c1 & bs & segs1 & -> & Hv1 & Hs1 & _ & Hcat & Hne1);
      [done..| |].
    { intros Hnil. rewrite Hnil, app_nil_r in Hlen. lia. }
    bsimpl. apply (IH c1 (w ++ bs)); [done|lia| |done]. by rewrite <- app_assoc, <- Hcat.
  - assert (post = []) as ->.
    { apply zlen_0_nil. rewrite E in Hsz. zl. }
    assert (readMore c segs = Ret (Some (c, segs))) as ->; [|bsimpl; by apply (IH c w)].
    assert (slice_from (readBuffer c) (readEnd c) = Ret []) as Hroom
      by (rewrite E, (app_assoc pre); apply slice_from_app; zl).
    unfold readMore. rewrite Hroom. bsimpl.
    change (tcpRead (zlen []) segs) with (Some ([] : list byte, segs)). cbv iota beta.
    rewrite copy_into_nil by lia. bsimpl. change (zlen []) with 0. rewrite Z.add_0_r.
    by destruct c.
Qed.

(** After a message of 2036 to 2048 bytes on a new connection, the next
    [Read] never returns, whatever follows on the connection: the buffer has
    no room for a header and the code asks the network for zero bytes. *)
Theorem Read_livelock m rest segs fuel :
  msg_ok m → maxStart < msgSize m ≤ readBufferSize → MinimumMessageSize ≤ zlen rest →
  nonempty segs → concat segs = enc_msg m ++ rest → (length (concat segs) ≤ fuel)%nat →
  ∃ c' segs', Read fuel newRead segs = Ret (Some (m, c', segs')) ∧
    ∀ fuel', Read fuel' c' segs' = OutOfFuel.
Proof.
  intros Hok Hsz Hrest Hne Hcat Hfuel.
  destruct (Read_message m rest Hok newRead [] segs fuel)
    as (c' & w' & segs' & Hr & Hv & Hs & Hw & Hne' & _); try done; [apply view_new|].
  exists c', segs'. split; [done|]. intros fuel'. unfold Read.
  rewrite (fill_stuck fuel' c' w' segs'); [done|done| |by rewrite Hw|done].
  rewrite Hs. unfold nextStart. cbn [newRead readStart]. rewrite Z.sub_0_r.
  destruct (Z.ltb_spec readBufferSize (msgSize m)); [lia|]. cbn. lia.
Qed.

(** A message of 2048 bytes followed by another one. *)
Lemma Read_livelock_witness :
  let m := Msg Operation.OpSet 1 (str "key") (replicate 2032 x00) in
  let next := Msg Operation.OpGet 2 (str "key") [] in
  ∃ c' segs', Read 3000 newRead [enc_msg m ++ enc_msg next] = Ret (Some (m, c', segs')) ∧
    ∀ fuel', Read fuel' c' segs' = OutOfFuel.
Proof.
  intros m next. apply (Read_livelock m (enc_msg next)).
  - by vm_compute.
  - by vm_compute.
  - by vm_compute.
  - repeat constructor. discriminate.
  - cbn [concat]. apply app_nil_r.
  - apply Nat.leb_le. vm_compute. reflexivity.
Defined.
