(* ===== verification/BuffWrite.v ===== *)
(** * Buffered writes and the flushing goroutine ([src/com/buffconn/buffconn.go])

    [Write] runs under a mutex, packs messages into a buffer and sends control
    values to the goroutine that flushes the buffer on a ticker.  The two are
    modelled as a transition system whose steps are the atomic sections of the
    code; the invariant is that the wire and the buffer together hold the
    messages written, in order. *)
From stdpp Require Import relations.
From S2P Require Import Prelude.
From S2P Require Import TcpMessage.
From S2P Require Import BuffConn.

(** ** The connection under the mutex *)

(** [wire] are the bytes that the network took.  A connection with the quota
    [Some n] breaks when it has taken [n] more bytes; one with [None] holds. *)
Record wconn := WConn {
  writeBuffer : list byte;
  writeIndex : Z;
  buffering : bool;
  wire : list byte;
  quota : option Z
}.

Definition set_buffer (w : wconn) (b : list byte) : wconn :=
  WConn b (writeIndex w) (buffering w) (wire w) (quota w).
Definition set_index (w : wconn) (i : Z) : wconn :=
  WConn (writeBuffer w) i (buffering w) (wire w) (quota w).
Definition set_buffering (w : wconn) (b : bool) : wconn :=
  WConn (writeBuffer w) (writeIndex w) b (wire w) (quota w).
Definition set_wire (w : wconn) (b : list byte) (q : option Z) : wconn :=
  WConn (writeBuffer w) (writeIndex w) (buffering w) b q.

Definition newWrite (q : option Z) : wconn := WConn (replicate 1450 x00) 0 true [] q.

(** [conn.Close()]: the network takes nothing more. *)
Definition closeTCP (w : wconn) : wconn := set_wire w (wire w) (Some 0).

(** The loop of [tcpWrite]; the flag says that there was no error.  A failed
    write closes the connection. *)
Definition tcpWrite (w : wconn) (buffer : list byte) : wconn * bool :=
  match quota w with
  | None => (set_wire w (wire w ++ buffer) None, true)
  | Some q =>
      if zlen buffer <=? q then (set_wire w (wire w ++ buffer) (Some (q - zlen buffer)), true)
      else (closeTCP (set_wire w (wire w ++ take (Z.to_nat q) buffer) (Some 0)), false)
  end.

(** [tcpWrite(c.tcp, c.writeBuffer[:c.writeIndex])]. *)
Definition sendBuffer (w : wconn) : outcome (wconn * bool) :=
  b ← slice (writeBuffer w) 0 (writeIndex w); Ret (tcpWrite w b).

(** The end of [Write]: send at once unless buffering. *)
Definition finish (w : wconn) (msgSize : Z) : outcome (wconn * bool) :=
  let w := set_index w (writeIndex w + msgSize) in
  if negb (buffering w) then
    r ← sendBuffer w; Ret (set_index r.1 0, r.2)
  else Ret (w, true).

(** The body of [Write], from the marshalling of the message on. *)
Definition appendMsg (w : wconn) (m : Message) : outcome (wconn * bool) :=
  dest ← slice_from (writeBuffer w) (writeIndex w);
  r ← Marshal m dest;
  let '(dest, (size, tooLong)) := r in
  let w := set_buffer w (take (Z.to_nat (writeIndex w)) (writeBuffer w) ++ dest) in
  if (tooLong : bool) then
    r ← sendBuffer w;
    let '(w, ok) := r in
    if negb ok then Ret (w, false)
    else
      let w := set_index w 0 in
      if writeBufferSize <? size then
        r ← Marshal m (replicate (Z.to_nat size) x00);
        Ret (tcpWrite w r.1)
      else
        r ← Marshal m (writeBuffer w);
        finish (set_buffer w r.1) size
  else finish w size.

(** The branch [case <-ticker.C] of the goroutine. *)
Definition flush (w : wconn) : outcome wconn :=
  r ← sendBuffer w; Ret (set_index r.1 0).

(** ** What the buffer holds *)

Abbreviation bytes ms := (concat (map enc_msg ms)).

Record shaped (w : wconn) : Prop := Shaped {
  sh_buffer : zlen (writeBuffer w) = writeBufferSize;
  sh_index : 0 ≤ writeIndex w ≤ writeBufferSize
}.

Definition buffered (w : wconn) : list byte := take (Z.to_nat (writeIndex w)) (writeBuffer w).

(** The wire and the buffer hold the messages. *)
Definition intact (w : wconn) (ms : list Message) : Prop := wire w ++ buffered w = bytes ms.

(** The connection broke, and the wire holds the beginning of the messages. *)
Definition torn (w : wconn) (ms : list Message) : Prop := quota w = Some 0 ∧ wire w `prefix_of` bytes ms.

Definition packed (w : wconn) (ms : list Message) : Prop := shaped w ∧ (intact w ms ∨ torn w ms).

Lemma packed_new q : packed (newWrite q) [].
Proof. split; [by split|by left]. Qed.

Lemma bytes_snoc ms m : bytes (ms ++ [m]) = bytes ms ++ enc_msg m.
Proof. rewrite map_app, concat_app. cbn. by rewrite app_nil_r. Qed.

(** A write of bytes that complete the wire to [all]. *)
Lemma tcpWrite_spec w b ms :
  wire w ++ b = bytes ms ∨ torn w ms →
  ∃ x q ok, tcpWrite w b = (set_wire w x q, ok) ∧
    (ok = true ∧ x = bytes ms ∧ (quota w = None → q = None) ∨ torn (set_wire w x q) ms ∧ quota w ≠ None).
Proof.
  intros Hw. unfold tcpWrite. destruct (quota w) as [q|] eqn:Hq; cycle 1.
  { destruct Hw as [Hw|[? _]]; [|congruence]. eexists _, _, _. split; [done|]. left. by split_and!. }
  assert (∀ x, x `prefix_of` bytes ms → ∃ y r ok, (set_wire w x (Some 0), false) = (set_wire w y r, ok) ∧
    (ok = true ∧ y = bytes ms ∧ (Some q = None → r = None) ∨ torn (set_wire w y r) ms ∧ Some q ≠ None)) as Htorn.
  { intros x Hx. exists x, (Some 0), false. split; [done|]. right. by split. }
  destruct Hw as [Hw|[Hz Hp]].
  - destruct (Z.leb_spec (zlen b) q).
    + eexists _, _, _. split; [done|]. left. by split_and!.
    + apply Htorn. rewrite <- Hw. apply prefix_app, prefix_take.
  - rewrite Hq in Hz. injection Hz as ->. destruct (Z.leb_spec (zlen b) 0).
    + assert (b = []) as -> by (apply zlen_0_nil; zl). rewrite app_nil_r.
      eexists _, _, _. split; [done|]. right. split; [|done]. by split.
    + cbn [take Z.to_nat]. change (take (Z.to_nat 0) b) with (@nil byte). rewrite app_nil_r. by apply Htorn.
Qed.

Lemma send_packed w ms :
  packed w ms →
  ∃ x q ok, sendBuffer w = Ret (set_wire w x q, ok) ∧
    (ok = true ∧ x = bytes ms ∧ (quota w = None → q = None) ∨ torn (set_wire w x q) ms ∧ quota w ≠ None).
Proof.
  intros [[Hb Hi] Hw]. unfold sendBuffer. rewrite slice_mid by lia. bsimpl. rewrite Z.sub_0_r, drop_0.
  destruct (tcpWrite_spec w (buffered w) ms Hw) as (x & q & ok & E & H). unfold buffered in E. rewrite E. by exists x, q, ok.
Qed.

(** After the buffer is sent and emptied. *)
Lemma emptied_packed w x q ms :
  shaped w → x = bytes ms ∨ torn (set_wire w x q) ms → packed (set_index (set_wire w x q) 0) ms.
Proof.
  intros [Hb Hi] H. split; [split; cbn; [done|unfold writeBufferSize; lia]|].
  destruct H as [->|H]; [left|by right]. unfold intact, buffered. cbn. by rewrite app_nil_r.
Qed.

Lemma flush_packed w ms :
  packed w ms → ∃ w', flush w = Ret w' ∧ packed w' ms ∧ (quota w = None → quota w' = None ∧ writeIndex w' = 0).
Proof.
  intros Hp. unfold flush. destruct (send_packed w ms Hp) as (x & q & ok & -> & H). bsimpl.
  eexists. split; [done|]. split; [apply emptied_packed; [apply Hp|naive_solver]|]. cbn. naive_solver.
Qed.

(** [finish] after the message was put behind the first [writeIndex] bytes. *)
Lemma finish_packed w ms m b rest :
  shaped w → writeBuffer w = b ++ enc_msg m ++ rest → zlen b = writeIndex w →
  wire w ++ b = bytes ms ∨ torn w ms →
  ∃ w' ok, finish w (msgSize m) = Ret (w', ok) ∧ packed w' (ms ++ [m]) ∧ (quota w = None → quota w' = None).
Proof.
  intros [Hb Hi] E Hlen Hw. pose proof (msgSize_min m). unfold MinimumMessageSize in *.
  assert (packed (set_index w (writeIndex w + msgSize m)) (ms ++ [m])) as Hp.
  { split; [split; cbn; [done|split; [lia|]; rewrite <- Hb, E; zl]|].
    destruct Hw as [Hw|[Hq Hw]]; [left|right].
    - unfold intact, buffered. cbn.
      assert (take (Z.to_nat (writeIndex w + msgSize m)) (writeBuffer w) = b ++ enc_msg m) as ->.
      { rewrite E, app_assoc. apply take_app_length'. rewrite <- zlen_enc_msg, <- Hlen.
        rewrite length_app. unfold zlen. lia. }
      by rewrite app_assoc, Hw, bytes_snoc.
    - split; [done|]. rewrite bytes_snoc. by apply prefix_app_r. }
  unfold finish. destruct (buffering (set_index w _)); cbn [negb].
  - by eexists _, _.
  - destruct (send_packed _ _ Hp) as (x & q & ok & -> & H'). bsimpl. eexists _, _. split; [done|].
    split; [apply emptied_packed; [apply Hp|naive_solver]|]. cbn in *. naive_solver.
Qed.

Lemma append_packed w ms m :
  packed w ms → msgSize m < 2 ^ 32 →
  ∃ w' ok, appendMsg w m = Ret (w', ok) ∧ packed w' (ms ++ [m]) ∧ (quota w = None → quota w' = None).
Proof.
  intros Hp H32. pose proof Hp as [[Hb Hi] Hw]. unfold appendMsg.
  rewrite slice_from_drop by lia. bsimpl. set (dest := drop _ _).
  assert (zlen dest = writeBufferSize - writeIndex w) as Hd.
  { unfold dest. rewrite zlen_drop; lia. }
  pose proof (msgSize_min m) as Hmin. unfold MinimumMessageSize in Hmin.
  destruct (Z.le_gt_cases (msgSize m) (zlen dest)) as [Hfit|Hlong].
  - rewrite Marshal_ok by done. bsimpl. set (w1 := set_buffer w _).
    destruct (finish_packed w1 ms m (buffered w) (drop (Z.to_nat (msgSize m)) dest))
      as (w' & ok & ? & ? & ?); [split; cbn; [|lia]|done|change (writeIndex w1) with (writeIndex w); apply zlen_take; lia|exact Hw|by exists w', ok].
    rewrite zlen_app, zlen_take, zlen_app, zlen_enc_msg, zlen_drop; lia.
  - rewrite Marshal_too_long by done. bsimpl. unfold dest. rewrite take_drop.
    replace (set_buffer w (writeBuffer w)) with w by (by destruct w).
    destruct (send_packed w ms Hp) as (x & q & ok & -> & Hs). bsimpl.
    destruct ok; cbn [negb]; cycle 1.
    { destruct Hs as [[? _]|[Ht Hq]]; [done|]. eexists _, _. split; [done|]. split; [|done].
      split; [by split|]. right. destruct Ht as [? Hpre]. split; [done|]. rewrite bytes_snoc. by apply prefix_app_r. }
    assert (x = bytes ms ∨ torn (set_wire w x q) ms) as Hx by naive_solver.
    assert (quota w = None → q = None) as Hq by naive_solver.
    destruct (Z.ltb_spec writeBufferSize (msgSize m)) as [Hbig|Hsmall].
    + rewrite Marshal_ok; [|rewrite zlen_replicate; unfold writeBufferSize in *; lia|done]. bsimpl.
      rewrite drop_ge, app_nil_r by (rewrite length_replicate; done).
      destruct (tcpWrite_spec (set_index (set_wire w x q) 0) (enc_msg m) (ms ++ [m])) as (y & q' & ok & -> & H').
      { rewrite bytes_snoc. destruct Hx as [->|[? Hpre]]; [by left|]. right. split; [done|]. rewrite bytes_snoc. by apply prefix_app_r. }
      eexists _, _. split; [done|]. split; [|cbn in *; naive_solver].
      apply (emptied_packed w y q'); [by split|]. destruct H' as [(_ & -> & _)|[[? ?] _]]; [by left|right; by split].
    + rewrite Marshal_ok by (cbn; lia || done). bsimpl. set (w1 := set_buffer (set_index _ 0) _).
      destruct (finish_packed w1 ms m [] (drop (Z.to_nat (msgSize m)) (writeBuffer w)))
        as (w' & ok & ? & ? & Hq1); [split; cbn|done|done| |exists w', ok; split_and!; try done; intros HN; apply Hq1, Hq, HN].
      * rewrite zlen_app, zlen_enc_msg, zlen_drop; lia.
      * unfold writeBufferSize. lia.
      * rewrite app_nil_r. exact Hx.
Qed.

(** ** The writer and the goroutine *)

(** The holder of the mutex: nobody, a writer about to send a value to the
    goroutine, or a writer in the rest of [Write]. *)
Inductive writer := WIdle | WSend (op : Z) (m : Message) | WBody (m : Message).

(** The goroutine: without a ticker, waiting on the channel and the ticker, or
    waiting for the mutex after a tick; or it returned. *)
Inductive ticker := TOff | TOn | TLock | TDone.

(** [hist] are the messages whose [Write] returned, in order. *)
Record system := System {
  conn : wconn;
  chan : list Z;
  wr : writer;
  tk : ticker;
  hist : list Message
}.

(** The channel has capacity 1, and [New] sends 1 on it. *)
Definition init (q : option Z) : system := System (newWrite q) [1] WIdle TOff [].

Inductive sys_step : system → system → Prop :=
  | s_begin w ch t h m :
      mType m ≠ Operation.OpSetBuffered → mType m ≠ Operation.OpSetNoDelay →
      msgSize m < 2 ^ 32 →
      sys_step (System w ch WIdle t h) (System w ch (WBody m) t h)
  | s_begin_buffered w ch t h m :
      mType m = Operation.OpSetBuffered → msgSize m < 2 ^ 32 →
      sys_step (System w ch WIdle t h) (System (set_buffering w true) ch (WSend 1 m) t h)
  | s_begin_nodelay w ch t h m :
      mType m = Operation.OpSetNoDelay → msgSize m < 2 ^ 32 →
      sys_step (System w ch WIdle t h) (System (set_buffering w false) ch (WSend 0 m) t h)
  | s_send w ch op m t h :
      (length ch < 1)%nat →
      sys_step (System w ch (WSend op m) t h) (System w (ch ++ [op]) (WBody m) t h)
  | s_write w ch m t h w' ok :
      appendMsg w m = Ret (w', ok) →
      sys_step (System w ch (WBody m) t h) (System w' ch WIdle t (h ++ [m]))
  | s_recv_off w op ch x h :
      sys_step (System w (op :: ch) x TOff h)
               (System w ch x (if op =? 1 then TOn else TOff) h)
  | s_recv_on w op ch x h :
      sys_step (System w (op :: ch) x TOn h)
               (System w ch x (if op =? 0 then TOff else TOn) h)
  | s_tick w ch x h :
      sys_step (System w ch x TOn h) (System w ch x TLock h)
  | s_flush w ch h w' :
      flush w = Ret w' →
      sys_step (System w ch WIdle TLock h) (System w' ch WIdle TOn h).

(** The message a writer holds fits in 32 bits. *)
Definition writer_ok (x : writer) : Prop :=
  match x with WIdle => True | WSend _ m | WBody m => msgSize m < 2 ^ 32 end.

Definition sys_inv (s : system) : Prop := packed (conn s) (hist s) ∧ writer_ok (wr s).

Lemma packed_buffering w ms b : packed w ms → packed (set_buffering w b) ms.
Proof. intros [[? ?] Hw]. split; [by split|exact Hw]. Qed.

Lemma sys_inv_step s s' : sys_inv s → sys_step s s' → sys_inv s'.
Proof.
  intros [Hp Hw] Hs. destruct Hs as [w ch t h m _ _ Hm|w ch t h m _ Hm|w ch t h m _ Hm
    |w ch op m t h Hl|w ch m t h w' ok E|w op ch x h|w op ch x h|w ch x h|w ch h w' E];
    cbn [conn hist wr writer_ok] in *; split; cbn; try done; try by apply packed_buffering.
  - destruct (append_packed w h m Hp Hw) as (w1 & ok1 & E1 & Hp1 & _). congruence.
  - destruct (flush_packed w h Hp) as (w1 & E1 & Hp1 & _). congruence.
Qed.

(** ** Closing *)

(** [closing] says that the channel is closed, [crashed] that a goroutine
    panicked. *)
Record channel := Channel { sys : system; closing : bool; crashed : bool }.

Definition set_conn (s : system) (w : wconn) : system := System w (chan s) (wr s) (tk s) (hist s).
Definition set_tk (s : system) (t : ticker) : system := System (conn s) (chan s) (wr s) t (hist s).

(** A writer sends on the channel in this step. *)
Definition sends (s s' : system) : Prop := ∃ op m, wr s = WSend op m ∧ wr s' = WBody m.

(** [Close] closes the channel and then the connection.  From then on a send
    panics, like a second [Close]; the goroutine receives what is left in the
    channel and returns. *)
Inductive close_step : channel → channel → Prop :=
  | c_run s s' : sys_step s s' → close_step (Channel s false false) (Channel s' false false)
  | c_late s s' : sys_step s s' → ¬ sends s s' → close_step (Channel s true false) (Channel s' true false)
  | c_close s : close_step (Channel s false false) (Channel s true false)
  | c_close_tcp s : close_step (Channel s true false) (Channel (set_conn s (closeTCP (conn s))) true false)
  | c_return s : chan s = [] → tk s = TOff ∨ tk s = TOn → close_step (Channel s true false) (Channel (set_tk s TDone) true false)
  | c_send_closed s op m : wr s = WSend op m → close_step (Channel s true false) (Channel s true true)
  | c_close_closed s : close_step (Channel s true false) (Channel s true true).

Definition reachable (q : option Z) (c : channel) : Prop := rtc close_step (Channel (init q) false false) c.

Lemma closeTCP_packed w ms : packed w ms → packed (closeTCP w) ms.
Proof.
  intros [[Hb Hi] Hw]. split; [by split|]. right. split; [done|]. cbn.
  destruct Hw as [<-|[_ Hw]]; [by apply prefix_app_r|done].
Qed.

Lemma close_inv_step c c' : sys_inv (sys c) → close_step c c' → sys_inv (sys c').
Proof.
  intros Hinv Hs. destruct Hs as [s s' H1|s s' H1 _|s|s|s _ _|s op m _|s]; cbn in *; try done; [by eapply sys_inv_step..|].
  destruct Hinv as [Hp Hw]. split; [by apply closeTCP_packed|done].
Qed.

Lemma reachable_inv q c : reachable q c → sys_inv (sys c).
Proof.
  unfold reachable. intros Hr. remember (Channel (init q) false false) as c0 eqn:E0. assert (sys_inv (sys c0)) as Hinv.
  { subst. split; [apply packed_new|done]. }
  clear E0. induction Hr as [|c0 c1 c2 Hs _ IH]; [done|]. by eapply IH, close_inv_step.
Qed.

(** A connection that does not break by itself holds until [Close]. *)
Lemma sys_quota s s' : sys_inv s → quota (conn s) = None → sys_step s s' → quota (conn s') = None.
Proof.
  intros [Hp Hw] Hq Hs. destruct Hs as [w ch t h m _ _ Hm|w ch t h m _ Hm|w ch t h m _ Hm
    |w ch op m t h Hl|w ch m t h w' ok E|w op ch x h|w op ch x h|w ch x h|w ch h w' E]; cbn [conn hist wr writer_ok] in *; try done.
  - destruct (append_packed w h m Hp Hw) as (w1 & ok1 & E1 & _ & Hq1). rewrite E1 in E. injection E as <- <-. auto.
  - destruct (flush_packed w h Hp) as (w1 & E1 & _ & Hq1). rewrite E1 in E. injection E as <-. by apply Hq1.
Qed.

Lemma quota_held c : reachable None c → closing c = false → quota (conn (sys c)) = None.
Proof.
  intros Hr. revert c Hr. unfold reachable.
  apply (rtc_ind_r (λ c, closing c = false → quota (conn (sys c)) = None)); [done|].
  intros c1 c2 Hr Hs IH. pose proof (reachable_inv None c1 Hr) as Hinv.
  destruct Hs as [s s' H1| | | | | |]; cbn in *; try done. intros _. eapply sys_quota; [done|by apply IH|done].
Qed.

(** C33. In every interleaving of writers, of the flushing goroutine and of
    [Close], whenever the network breaks the connection, what was sent is the
    beginning of the messages written, in the order of the calls: nothing is
    duplicated or reordered.  While the connection holds and is open, what is
    missing is exactly what the buffer still has: nothing is lost. *)
Theorem Write_fifo q c :
  reachable q c →
  let w := conn (sys c) in
  wire w `prefix_of` concat (map enc_msg (hist (sys c))) ∧ 0 ≤ writeIndex w ≤ writeBufferSize ∧
  (q = None → closing c = false →
   wire w ++ take (Z.to_nat (writeIndex w)) (writeBuffer w) = concat (map enc_msg (hist (sys c)))).
Proof.
  intros Hr w. pose proof (reachable_inv q c Hr) as [[[Hb Hi] Hw] _]. fold w in Hb, Hi, Hw.
  split_and!; [|lia..|].
  - destruct Hw as [<-|[_ Hw]]; [by apply prefix_app_r|done].
  - intros -> Hc. destruct Hw as [Hw|[Hq _]]; [exact Hw|]. unfold w in Hq. by rewrite (quota_held c Hr Hc) in Hq.
Qed.

(** A message written and flushed by a tick. *)
Lemma Write_fifo_witness :
  let m := Msg Operation.OpGet 1 (str "key") [] in
  ∃ w, reachable None (Channel (System w [] WIdle TOn [m]) false false) ∧ wire w = enc_msg m ∧ writeIndex w = 0.
Proof.
  intros m.
  assert (∃ w1 w2, appendMsg (newWrite None) m = Ret (w1, true) ∧ flush w1 = Ret w2 ∧
                   writeIndex w2 = 0) as (w1 & w2 & E1 & E2 & E3)
    by (eexists _, _; split_and!; vm_compute; reflexivity).
  assert (reachable None (Channel (System w2 [] WIdle TOn [m]) false false)) as Hr.
  { eapply rtc_l; [apply c_run, s_recv_off|]. eapply rtc_l; [apply c_run, (s_begin _ _ _ _ m); by vm_compute|].
    eapply rtc_l; [by eapply c_run, s_write|]. eapply rtc_l; [apply c_run, s_tick|].
    eapply rtc_l; [by apply c_run, s_flush|]. apply rtc_refl. }
  exists w2. split; [exact Hr|]. split; [|done].
  destruct (Write_fifo _ _ Hr) as (_ & _ & H). specialize (H eq_refl eq_refl). cbn in H. rewrite E3 in H.
  change (take (Z.to_nat 0) (writeBuffer w2)) with (@nil byte) in H. by rewrite app_nil_r in H.
Defined.

(** A closed connection, with [x] on the wire for ever. *)
Record closed_inv (c : channel) (x : list byte) : Prop := ClosedInv {
  ci_sys : sys_inv (sys c);
  ci_closing : closing c = true;
  ci_quota : quota (conn (sys c)) = Some 0;
  ci_wire : wire (conn (sys c)) = x
}.

Lemma tcpWrite_closed w b : quota w = Some 0 → quota (tcpWrite w b).1 = Some 0 ∧ wire (tcpWrite w b).1 = wire w.
Proof.
  intros Hq. unfold tcpWrite. rewrite Hq. destruct (Z.leb_spec (zlen b) 0).
  - assert (b = []) as -> by (apply zlen_0_nil; zl). cbn. by rewrite app_nil_r.
  - split; [done|]. cbn. change (take (Z.to_nat 0) b) with (@nil byte). by rewrite app_nil_r.
Qed.

(** Nothing is sent on a closed connection. *)
Lemma closed_sys s s' : quota (conn s) = Some 0 → sys_step s s' → quota (conn s') = Some 0 ∧ wire (conn s') = wire (conn s).
Proof.
  assert (∀ w r, sendBuffer w = Ret r → quota w = Some 0 → quota r.1 = Some 0 ∧ wire r.1 = wire w) as Hsend.
  { intros w r E Hq. unfold sendBuffer in E. outcome_inv. subst r. by apply tcpWrite_closed. }
  assert (∀ w n r, finish w n = Ret r → quota w = Some 0 → quota r.1 = Some 0 ∧ wire r.1 = wire w) as Hfinish.
  { intros w n r E Hq. unfold finish in E. destruct (negb _); [|by injection E as <-]. outcome_inv. subst r.
    by apply (Hsend _ _ E0). }
  intros Hq Hs. destruct Hs as [w ch t h m _ _ Hm|w ch t h m _ Hm|w ch t h m _ Hm
    |w ch op m t h Hl|w ch m t h w' ok E|w op ch x h|w op ch x h|w ch x h|w ch h w' E]; cbn [conn] in *; try done.
  - unfold appendMsg in E. outcome_inv. destruct a0 as [dest [size tooLong]].
    destruct tooLong; [|by apply (Hfinish _ _ _ E)].
    destruct (sendBuffer _) as [[w1 ok1]| |] eqn:E2; [|done..]. cbn [mbind outcome_bind] in E.
    destruct (Hsend _ _ E2 Hq) as [Hq1 Hw1]. cbn [fst wire set_buffer] in Hq1, Hw1. rewrite <- Hw1.
    destruct ok1; cbn [negb] in E; [|by injection E as <- _].
    clear E0 E1. destruct (_ <? _); destruct (Marshal m _) as [r| |]; try done; cbn [mbind outcome_bind] in E.
    + pose proof (tcpWrite_closed (set_index w1 0) r.1 Hq1) as Ht. assert (tcpWrite (set_index w1 0) r.1 = (w', ok)) as E' by congruence. by rewrite E' in Ht.
    + by apply (Hfinish _ _ _ E).
  - unfold flush in E. outcome_inv. subst w'. by apply (Hsend _ _ E0).
Qed.

Lemma closed_forever c c' x : closed_inv c x → rtc close_step c c' → wire (conn (sys c')) = x.
Proof.
  intros Hinv Hr. induction Hr as [c|c c1 c2 Hs _ IH]; [apply Hinv|]. apply IH. destruct Hinv as [Hi Hc Hq Hw].
  pose proof (close_inv_step _ _ Hi Hs) as Hi1.
  destruct Hs as [s s' H1|s s' H1 _|s|s|s _ _|s op m _|s]; cbn in *; try done.
  destruct (closed_sys _ _ Hq H1) as [Hq1 Hw1]. split; cbn; congruence.
Qed.

(** [Close] drops what is in the buffer, and can crash a writer.  A message
    whose [Write] returned without an error is still in the buffer when the
    connection is closed, and then no continuation sends a byte more; and a
    writer that has to tell the goroutine about a change of mode panics on the
    closed channel. *)
Theorem Close_drops_buffer :
  ∃ c m, reachable None c ∧ hist (sys c) = [m] ∧ closing c = true ∧ wire (conn (sys c)) = [] ∧
    (∀ c', rtc close_step c c' → wire (conn (sys c')) = []) ∧
    ∃ c', rtc close_step c c' ∧ crashed c' = true.
Proof.
  set (m := Msg Operation.OpGet 1 (str "key") []).
  assert (∃ w, appendMsg (newWrite None) m = Ret (w, true) ∧ wire w = []) as (w & E & Hw)
    by (eexists; split; vm_compute; reflexivity).
  set (s := System (closeTCP w) [] WIdle TOn [m]).
  exists (Channel s true false), m. split_and!; [|done|done|exact Hw| |].
  - eapply rtc_l; [apply c_run, s_recv_off|]. eapply rtc_l; [apply c_run, (s_begin _ _ _ _ m); by vm_compute|].
    eapply rtc_l; [by eapply c_run, s_write|]. eapply rtc_l; [apply c_close|].
    eapply rtc_l; [apply c_close_tcp|]. apply rtc_refl.
  - assert (closed_inv (Channel s true false) []) as Hinv.
    { split; [|done..]. split; [|done]. apply closeTCP_packed.
      destruct (append_packed (newWrite None) [] m (packed_new None)) as (w1 & ok & E1 & Hp & _); [by vm_compute|].
      rewrite E in E1. by injection E1 as <- _. }
    intros c' Hr. apply (closed_forever _ _ _ Hinv Hr).
  - set (m2 := Msg Operation.OpSetBuffered 2 [] []).
    exists (Channel (System (set_buffering (closeTCP w) true) [] (WSend 1 m2) TOn [m]) true true). split; [|done].
    eapply rtc_l; [apply c_late; [by apply (s_begin_buffered _ _ _ _ m2)|]|].
    { intros (op & m3 & [=] & _). }
    eapply rtc_l; [by eapply c_send_closed|]. apply rtc_refl.
Qed.

(** The mutex and the channel can deadlock: a writer that holds the mutex
    waits for room in the channel while the goroutine that would empty it
    waits for the mutex.  Only [Close] can follow, and then the writer panics. *)
Theorem Write_deadlock :
  ∃ s, reachable None (Channel s false false) ∧ (∀ s', ¬ sys_step s s') ∧
       wr s = WSend 1 (Msg Operation.OpSetBuffered 2 [] []) ∧ tk s = TLock.
Proof.
  pose (m1 := Msg Operation.OpSetBuffered 1 [] []). pose (m2 := Msg Operation.OpSetBuffered 2 [] []).
  destruct (append_packed (set_buffering (newWrite None) true) [] m1) as (w1 & ok & E1 & _);
    [apply packed_buffering, packed_new|done|].
  exists (System (set_buffering w1 true) [1] (WSend 1 m2) TLock [m1]). split_and!; [| |reflexivity|reflexivity].
  - eapply rtc_l; [apply c_run, s_recv_off|]. cbn.
    eapply rtc_l; [by apply c_run, (s_begin_buffered _ _ _ _ m1)|].
    eapply rtc_l; [apply c_run, s_send; cbn; lia|].
    eapply rtc_l; [by eapply c_run, s_write|]. eapply rtc_l; [apply c_run, s_tick|].
    eapply rtc_l; [by apply c_run, (s_begin_buffered _ _ _ _ m2)|]. apply rtc_refl.
  - intros s' Hs. inversion Hs; subst. cbn in *. lia.
Qed.
