(* ===== verification/UdpHeartbeat.v ===== *)
(** * Heartbeat messages ([src/com/protocol/udpHeartbeat.go])

    A heartbeat lists the chunks a server holds with their checksums and the
    servers that were recently added or found dead, in a packet of 1400 bytes. *)
From S2P Require Import Prelude.

Definition MaxHeartbeatSize : Z := 1400.

Record AmAliveChunk := AAChunk { aID : Z; aChecksum : Z }.

(** Addresses are the bytes of their strings. *)
Record AmAlive := AmAliveMsg {
  KnownChunks : list AmAliveChunk;
  RecentlyAddedServers : list (list byte);
  RecentlyDeadServers : list (list byte)
}.

(** ** Marshalling

    The slice [m := msg[off:]] that moves along the packet is the pair of the
    packet and the offset. *)
Definition packet := (list byte * Z)%type.

(** [m = m[n:]]. *)
Definition advance (p : packet) (n : Z) : outcome packet :=
  _ ← slice_from p.1 (p.2 + n); Ret (p.1, p.2 + n).

Fixpoint putChunks (cs : list AmAliveChunk) (p : packet) : outcome packet :=
  match cs with
  | [] => Ret p
  | c :: cs =>
      msg ← put_le 4 p.1 p.2 (u32 (aID c));
      msg ← put_le 8 msg (p.2 + 4) (aChecksum c);
      p ← advance (msg, p.2) 12;
      putChunks cs p
  end.

(** The loops over addresses stop when fewer than [margin] bytes would be left
    after the address. *)
Fixpoint putServers (margin : Z) (addrs : list (list byte)) (p : packet) : outcome packet :=
  match addrs with
  | [] => Ret p
  | addr :: addrs =>
      m ← slice_from p.1 p.2;
      if zlen m <=? zlen addr + margin then Ret p
      else
        msg ← put_le 2 p.1 p.2 (u16 (zlen addr));
        msg ← copy_into msg (p.2 + 2) (zlen msg) addr;
        p ← advance (msg, p.2) (2 + zlen addr);
        putServers margin addrs p
  end.

Definition AmAliveMarshal (aa : AmAlive) : outcome (list byte) :=
  let msg := replicate (Z.to_nat MaxHeartbeatSize) x00 in
  msg ← put_le 2 msg 0 (u16 (zlen (KnownChunks aa)));
  p ← advance (msg, 0) 2;
  p ← putChunks (KnownChunks aa) p;
  p ← putServers 64 (RecentlyAddedServers aa) p;
  msg ← put_le 2 p.1 p.2 0;
  p ← advance (msg, p.2) 2;
  p ← putServers 4 (RecentlyDeadServers aa) p;
  put_le 2 p.1 p.2 0.

(** ** Unmarshalling *)

Definition errFormat1 : string := "Bad formatting, error 1".
Definition errFormat2 : string := "Bad formatting, error 2".
Definition errFormat3 : string := "Bad formatting, error 3".

Fixpoint getChunks (n : nat) (m : list byte) :
    outcome (string + list AmAliveChunk * list byte) :=
  match n with
  | O => Ret (inr ([], m))
  | S n =>
      if zlen m <? 16 then Ret (inl errFormat1)
      else
        id ← get_le 4 m;
        b ← slice_from m 4; sum ← get_le 8 b;
        m ← slice_from m 12;
        r ← getChunks n m;
        match r with
        | inl e => Ret (inl e)
        | inr (cs, m) => Ret (inr (AAChunk id sum :: cs, m))
        end
  end.

(** The two loops over addresses; [2+lenAddr] is a 16-bit sum.  The slice is
    not moved past the terminating zero length. *)
Fixpoint getServers (fuel : nat) (least : Z) (err : string) (m : list byte) :
    outcome (string + list (list byte) * list byte) :=
  match fuel with
  | O => OutOfFuel
  | S fuel =>
      if zlen m <? least then Ret (inl err)
      else
        lenAddr ← get_le 2 m;
        if lenAddr =? 0 then Ret (inr ([], m))
        else
          addr ← slice m 2 (u16 (2 + lenAddr));
          m ← slice_from m (u16 (2 + lenAddr));
          r ← getServers fuel least err m;
          match r with
          | inl e => Ret (inl e)
          | inr (addrs, m) => Ret (inr (addr :: addrs, m))
          end
  end.

Definition AmAliveUnMarshal (msg : list byte) : outcome (string + AmAlive) :=
  n ← get_le 2 msg;
  m ← slice_from msg 2;
  r ← getChunks (Z.to_nat n) m;
  match r with
  | inl e => Ret (inl e)
  | inr (chunks, m) =>
      r ← getServers (S (length msg)) 4 errFormat2 m;
      match r with
      | inl e => Ret (inl e)
      | inr (added, m) =>
          r ← getServers (S (length msg)) 2 errFormat3 m;
          match r with
          | inl e => Ret (inl e)
          | inr (dead, _) => Ret (inr (AmAliveMsg chunks added dead))
          end
      end
  end.

(** ** The format *)

Definition enc_chunk (c : AmAliveChunk) : list byte := le_enc 4 (aID c) ++ le_enc 8 (aChecksum c).
Definition enc_chunks (cs : list AmAliveChunk) : list byte := concat (map enc_chunk cs).
Definition enc_addr (a : list byte) : list byte := le_enc 2 (zlen a) ++ a.
Definition enc_addrs (l : list (list byte)) : list byte := concat (map enc_addr l).

Lemma zlen_enc_chunks cs : zlen (enc_chunks cs) = 12 * zlen cs.
Proof.
  induction cs as [|c cs IH]; [done|]. unfold enc_chunks in *. cbn [map concat].
  rewrite zlen_app, IH. unfold enc_chunk. zl.
Qed.

Lemma enc_chunks_cons c cs : enc_chunks (c :: cs) = enc_chunk c ++ enc_chunks cs.
Proof. done. Qed.
Lemma enc_addrs_cons a l : enc_addrs (a :: l) = enc_addr a ++ enc_addrs l.
Proof. done. Qed.

(** The addresses that fit in [n] bytes. *)
Fixpoint fitting (margin n : Z) (addrs : list (list byte)) : list (list byte) :=
  match addrs with
  | [] => []
  | a :: addrs =>
      if n <=? zlen a + margin then [] else a :: fitting margin (n - 2 - zlen a) addrs
  end.

Definition chunk_ok (c : AmAliveChunk) : Prop := 0 ≤ aID c < 2 ^ 32 ∧ 0 ≤ aChecksum c < 2 ^ 64.

Lemma advance_ok pre post msg off n :
  msg = pre ++ post → zlen pre = off + n → advance (msg, off) n = Ret (msg, off + n).
Proof. intros -> H. unfold advance. cbn [fst snd]. by rewrite slice_from_app by done. Qed.

Lemma putChunks_ok cs : ∀ pre rest,
  Forall chunk_ok cs → 12 * zlen cs ≤ zlen rest →
  ∃ rest', putChunks cs (pre ++ rest, zlen pre) =
    Ret (pre ++ enc_chunks cs ++ rest', zlen pre + 12 * zlen cs) ∧
    zlen rest' = zlen rest - 12 * zlen cs.
Proof.
  induction cs as [|c cs IH]; intros pre rest Hok Hfit.
  - exists rest. zlen_nil_simpl. rewrite Z.mul_0_r, Z.add_0_r, Z.sub_0_r. done.
  - apply Forall_cons in Hok as [[Hid _] Hok]. rewrite zlen_cons in *. pose proof (zlen_nonneg cs).
    destruct (split_at rest 4) as (a & r1 & -> & Ha); [lia|].
    destruct (split_at r1 8) as (b & r2 & -> & Hb); [zl|].
    cbn [putChunks fst snd]. rewrite u32_small by lia.
    rewrite put_le_app by (done || lia). bsimpl.
    rewrite (app_assoc pre), put_le_app by zl. bsimpl.
    rewrite (advance_ok (pre ++ enc_chunk c) r2) by (unfold enc_chunk; rewrite <- ?app_assoc; done || zl).
    bsimpl.
    destruct (IH (pre ++ enc_chunk c) r2) as (rest' & E & Hr); [done|zl|].
    exists rest'. split; [|zl].
    replace (zlen pre + 12) with (zlen (pre ++ enc_chunk c)) by (unfold enc_chunk; zl).
    replace ((pre ++ le_enc 4 (aID c)) ++ le_enc 8 (aChecksum c) ++ r2)
      with ((pre ++ enc_chunk c) ++ r2) by (unfold enc_chunk; by rewrite <- !app_assoc).
    rewrite E, enc_chunks_cons, <- !app_assoc. do 2 f_equal. unfold enc_chunk. zl.
Qed.

Lemma putServers_ok margin addrs : ∀ pre rest,
  2 ≤ margin → zlen rest < 2 ^ 16 →
  ∃ rest', putServers margin addrs (pre ++ rest, zlen pre) =
    Ret (pre ++ enc_addrs (fitting margin (zlen rest) addrs) ++ rest',
         zlen pre + zlen (enc_addrs (fitting margin (zlen rest) addrs))) ∧
    zlen rest' = zlen rest - zlen (enc_addrs (fitting margin (zlen rest) addrs)) ∧
    (zlen rest' = zlen rest ∨ margin - 2 < zlen rest').
Proof.
  induction addrs as [|addr addrs IH]; intros pre rest Hm H16; cbn [putServers fitting].
  - exists rest. change (enc_addrs []) with (@nil byte). zlen_nil_simpl.
    rewrite Z.add_0_r, Z.sub_0_r. split_and!; [done..|by left].
  - cbn [fst snd]. rewrite slice_from_app by done. bsimpl.
    destruct (Z.leb_spec (zlen rest) (zlen addr + margin)) as [Hstop|Hgo].
    + exists rest. change (enc_addrs []) with (@nil byte). zlen_nil_simpl.
      rewrite Z.add_0_r, Z.sub_0_r. split_and!; [done..|by left].
    + pose proof (zlen_nonneg addr).
      destruct (split_at rest 2) as (a & r1 & -> & Ha); [lia|].
      destruct (split_at r1 (zlen addr)) as (b & r2 & -> & Hb); [zl|].
      rewrite u16_small by zl. rewrite put_le_app by (done || lia). bsimpl.
      rewrite (app_assoc pre), copy_into_app by zl. bsimpl.
      rewrite (advance_ok (pre ++ enc_addr addr) r2)
        by (unfold enc_addr; rewrite <- ?app_assoc; done || zl). bsimpl.
      destruct (IH (pre ++ enc_addr addr) r2) as (rest' & E & Hr & Hbig); [done|zl|].
      replace (zlen (a ++ b ++ r2) - 2 - zlen addr) with (zlen r2) by zl.
      exists rest'. rewrite enc_addrs_cons. split_and!.
      * replace (zlen pre + (2 + zlen addr)) with (zlen (pre ++ enc_addr addr))
          by (unfold enc_addr; zl).
        replace ((pre ++ le_enc 2 (zlen addr)) ++ addr ++ r2)
          with ((pre ++ enc_addr addr) ++ r2) by (unfold enc_addr; by rewrite <- !app_assoc).
        rewrite E, <- !app_assoc. do 2 f_equal. zl.
      * rewrite Hr. unfold enc_addr. zl.
      * right. destruct Hbig as [->|?]; [zl|done].
Qed.

Lemma putChunks_panic cs : ∀ pre rest,
  zlen rest < 12 * zlen cs → putChunks cs (pre ++ rest, zlen pre) = Panic.
Proof.
  induction cs as [|c cs IH]; intros pre rest Hfit.
  - zlen_nil_simpl. pose proof (zlen_nonneg rest). lia.
  - rewrite zlen_cons in Hfit. cbn [putChunks fst snd].
    destruct (Z.lt_ge_cases (zlen rest) 4); [by rewrite put_le_panic by (done || lia)|].
    destruct (split_at rest 4) as (a & r1 & -> & Ha); [lia|].
    rewrite put_le_app by (done || lia). bsimpl. rewrite app_assoc.
    destruct (Z.lt_ge_cases (zlen r1) 8); [by rewrite put_le_panic by zl|].
    destruct (split_at r1 8) as (b & r2 & -> & Hb); [lia|].
    rewrite put_le_app by zl. bsimpl. pose (head := le_enc 4 (u32 (aID c)) ++ le_enc 8 (aChecksum c)).
    replace ((pre ++ le_enc 4 (u32 (aID c))) ++ le_enc 8 (aChecksum c) ++ r2)
      with ((pre ++ head) ++ r2) by (unfold head; by rewrite <- !app_assoc).
    rewrite (advance_ok (pre ++ head) r2) by (done || unfold head; zl). bsimpl.
    replace (zlen pre + 12) with (zlen (pre ++ head)) by (unfold head; zl). apply IH. zl.
Qed.

(** The bytes of a heartbeat. *)
Definition enc_aa (aa : AmAlive) (rest : list byte) : list byte :=
  le_enc 2 (zlen (KnownChunks aa)) ++ enc_chunks (KnownChunks aa) ++
  enc_addrs (RecentlyAddedServers aa) ++ le_enc 2 0 ++
  enc_addrs (RecentlyDeadServers aa) ++ le_enc 2 0 ++ rest.

(** What a packet has room for. *)
Definition kept (aa : AmAlive) : AmAlive :=
  let n := MaxHeartbeatSize - 2 - 12 * zlen (KnownChunks aa) in
  let added := fitting 64 n (RecentlyAddedServers aa) in
  AmAliveMsg (KnownChunks aa) added
    (fitting 4 (n - zlen (enc_addrs added) - 2) (RecentlyDeadServers aa)).

Lemma AmAliveMarshal_ok aa :
  Forall chunk_ok (KnownChunks aa) → zlen (KnownChunks aa) ≤ 116 →
  ∃ rest, AmAliveMarshal aa = Ret (enc_aa (kept aa) rest) ∧
          zlen (enc_aa (kept aa) rest) = MaxHeartbeatSize.
Proof.
  intros Hok H116. pose proof (zlen_nonneg (KnownChunks aa)). unfold AmAliveMarshal.
  set (msg := replicate _ x00).
  assert (zlen msg = 1400) as Hmsg by (apply zlen_replicate; done).
  destruct (split_at msg 2) as (a & r0 & -> & Ha); [lia|]. assert (zlen r0 = 1398) as H0 by zl.
  rewrite put_le_front by lia. bsimpl. rewrite u16_small by lia.
  set (p0 := le_enc 2 (zlen (KnownChunks aa))).
  assert (zlen p0 = 2) as Hp0 by (unfold p0; zl).
  rewrite (advance_ok p0 r0) by (done || lia). bsimpl. replace (0 + 2) with (zlen p0) by lia.
  destruct (putChunks_ok (KnownChunks aa) p0 r0 Hok) as (r1 & -> & H1); [lia|]. bsimpl.
  set (p1 := enc_chunks (KnownChunks aa)). pose proof (zlen_enc_chunks (KnownChunks aa)) as Hp1. fold p1 in Hp1.
  rewrite (app_assoc p0). replace (zlen p0 + 12 * zlen (KnownChunks aa)) with (zlen (p0 ++ p1))
    by zl.
  destruct (putServers_ok 64 (RecentlyAddedServers aa) (p0 ++ p1) r1) as (r2 & -> & H2 & H2');
    [lia|lia|]. bsimpl.
  replace (zlen r1) with (MaxHeartbeatSize - 2 - 12 * zlen (KnownChunks aa)) in *
    by (unfold MaxHeartbeatSize; lia).
  set (p2 := enc_addrs (fitting 64 _ _)) in *. unfold MaxHeartbeatSize in H2, H2'.
  rewrite (app_assoc (p0 ++ p1)), <- (zlen_app (p0 ++ p1) p2).
  destruct (split_at r2 2) as (b & r3 & -> & Hb); [zl|].
  rewrite put_le_app by (done || lia). bsimpl.
  rewrite (advance_ok (((p0 ++ p1) ++ p2) ++ le_enc 2 0) r3) by first [by rewrite <- !app_assoc | zl].
  bsimpl. rewrite app_assoc.
  replace (zlen ((p0 ++ p1) ++ p2) + 2) with (zlen (((p0 ++ p1) ++ p2) ++ le_enc 2 0)) by zl.
  assert (zlen r3 = MaxHeartbeatSize - 2 - 12 * zlen (KnownChunks aa) - zlen p2 - 2) as H3
    by (unfold MaxHeartbeatSize; zl).
  destruct (putServers_ok 4 (RecentlyDeadServers aa) (((p0 ++ p1) ++ p2) ++ le_enc 2 0) r3)
    as (r4 & -> & H4 & H4'); [lia|zl|]. bsimpl. rewrite H3 in *.
  set (p3 := enc_addrs (fitting 4 _ _)) in *.
  destruct (split_at r4 2) as (d & r5 & -> & Hd); [zl|].
  rewrite (app_assoc _ p3), <- (zlen_app _ p3), put_le_app by (done || lia).
  exists r5. unfold enc_aa, kept. cbn [KnownChunks RecentlyAddedServers RecentlyDeadServers].
  fold p0 p1 p2 p3. split; [by rewrite <- !app_assoc|]. unfold MaxHeartbeatSize in *. zl.
Qed.

(** ** Decoding *)

Lemma getChunks_ok cs : ∀ rest,
  Forall chunk_ok cs → 4 ≤ zlen rest →
  getChunks (length cs) (enc_chunks cs ++ rest) = Ret (inr (cs, rest)).
Proof.
  induction cs as [|[id sum] cs IH]; intros rest Hok Hrest; [done|].
  apply Forall_cons in Hok as [[Hid Hsum] Hok]. cbn [aID aChecksum] in *.
  cbn [length getChunks]. rewrite enc_chunks_cons. unfold enc_chunk. cbn [aID aChecksum].
  rewrite <- !app_assoc. pose proof (zlen_enc_chunks cs). pose proof (zlen_nonneg cs).
  destruct (Z.ltb_spec (zlen (le_enc 4 id ++ le_enc 8 sum ++ enc_chunks cs ++ rest)) 16); [zl|].
  rewrite get_le_app by zl. bsimpl. rewrite (slice_from_app _ _ 4) by zl. bsimpl.
  rewrite get_le_app by zl. bsimpl. rewrite app_assoc, slice_from_app by zl. bsimpl.
  rewrite IH by done. bsimpl. rewrite !le_dec_enc.
  change (256 ^ Z.of_nat 4) with (2 ^ 32). change (256 ^ Z.of_nat 8) with (2 ^ 64).
  by rewrite !Z.mod_small by lia.
Qed.

Lemma getServers_ok least err l : ∀ fuel rest,
  Forall (λ a, a ≠ [] ∧ zlen a < 2 ^ 16 - 2) l → (length l < fuel)%nat →
  2 ≤ least ≤ zlen (le_enc 2 0 ++ rest) →
  getServers fuel least err (enc_addrs l ++ le_enc 2 0 ++ rest) =
  Ret (inr (l, le_enc 2 0 ++ rest)).
Proof.
  induction l as [|a l IH]; intros [|fuel] rest Hl Hfuel Hrest; cbn [length] in *; try lia;
    cbn [getServers].
  - change (enc_addrs []) with (@nil byte). rewrite app_nil_l.
    destruct (Z.ltb_spec (zlen (le_enc 2 0 ++ rest)) least); [lia|].
    rewrite get_le_app by zl. bsimpl. done.
  - apply Forall_cons in Hl as [[Hne H16] Hl]. rewrite enc_addrs_cons. unfold enc_addr.
    rewrite <- !app_assoc.
    assert (0 < zlen a) by (destruct a; [done|zl]).
    destruct (Z.ltb_spec (zlen (le_enc 2 (zlen a) ++ a ++ enc_addrs l ++ le_enc 2 0 ++ rest)) least);
      [zl|].
    rewrite get_le_app by zl. bsimpl. rewrite le_dec_enc. change (256 ^ Z.of_nat 2) with (2 ^ 16).
    rewrite Z.mod_small by lia. destruct (Z.eqb_spec (zlen a) 0); [lia|].
    rewrite u16_small by lia. rewrite slice_app by zl. bsimpl.
    rewrite (app_assoc (le_enc 2 _)), slice_from_app by zl. bsimpl.
    rewrite IH; [done|done|lia|done].
Qed.

Lemma fitting_Forall (P : list byte → Prop) margin l : ∀ n,
  0 ≤ margin → n ≤ MaxHeartbeatSize → Forall P l →
  Forall (λ a, P a ∧ zlen a < MaxHeartbeatSize) (fitting margin n l).
Proof.
  induction l as [|a l IH]; intros n Hm Hn Hl; cbn [fitting]; [constructor|].
  apply Forall_cons in Hl as [Ha Hl]. destruct (Z.leb_spec n (zlen a + margin)); [constructor|].
  pose proof (zlen_nonneg a). constructor; [split; [done|lia]|]. apply IH; [done|lia|done].
Qed.

Lemma count_addrs l : 2 * Z.of_nat (length l) ≤ zlen (enc_addrs l).
Proof.
  induction l as [|a l IH]; [done|]. rewrite enc_addrs_cons. unfold enc_addr. cbn [length].
  rewrite !zlen_app, zlen_le_enc. pose proof (zlen_nonneg a). lia.
Qed.

(** A heartbeat with at most 116 chunks is encoded in 1400 bytes without a
    panic, and its decoding returns the chunks and checksums and the added
    servers that fit.  The dead servers, although encoded, are never decoded:
    the decoder does not skip the terminator of the first list. *)
Theorem heartbeat_roundtrip aa :
  Forall chunk_ok (KnownChunks aa) → zlen (KnownChunks aa) ≤ 116 →
  Forall (λ a, a ≠ []) (RecentlyAddedServers aa) →
  ∃ msg, AmAliveMarshal aa = Ret msg ∧ zlen msg = MaxHeartbeatSize ∧
    AmAliveUnMarshal msg =
    Ret (inr (AmAliveMsg (KnownChunks aa)
                (fitting 64 (MaxHeartbeatSize - 2 - 12 * zlen (KnownChunks aa))
                   (RecentlyAddedServers aa)) [])).
Proof.
  intros Hok H116 Hne. destruct (AmAliveMarshal_ok aa Hok H116) as (rest & Hm & Hlen).
  exists (enc_aa (kept aa) rest). split; [done|]. split; [done|].
  unfold kept in *. set (added := fitting 64 _ _) in *.
  assert (Forall (λ a, a ≠ [] ∧ zlen a < 2 ^ 16 - 2) added) as Hadd.
  { pose proof (zlen_nonneg (KnownChunks aa)).
    eapply Forall_impl; [apply (fitting_Forall (λ a, a ≠ []) 64 (RecentlyAddedServers aa)); [done|lia|done]|].
    unfold MaxHeartbeatSize. cbn. intros x [Hx Hl]. split; [done|lia]. }
  pose proof (count_addrs added) as Hcount.
  assert (S (length added) ≤ S (length (enc_aa (AmAliveMsg (KnownChunks aa) added
    (fitting 4 (MaxHeartbeatSize - 2 - 12 * zlen (KnownChunks aa) - zlen (enc_addrs added) - 2)
       (RecentlyDeadServers aa))) rest)))%nat as Hfuel.
  { unfold zlen in Hlen. unfold zlen at 1 in Hcount. unfold enc_aa.
    cbn [KnownChunks RecentlyAddedServers RecentlyDeadServers].
    rewrite !length_app. lia. }
  set (msg := enc_aa _ _) in *. unfold AmAliveUnMarshal.
  set (fuel := S (length msg)) in *. unfold msg, enc_aa.
  cbn [KnownChunks RecentlyAddedServers RecentlyDeadServers].
  rewrite get_le_app by zl. bsimpl. rewrite le_dec_enc. change (256 ^ Z.of_nat 2) with (2 ^ 16).
  rewrite Z.mod_small by (pose proof (zlen_nonneg (KnownChunks aa)); lia).
  rewrite slice_from_app by zl. bsimpl. unfold zlen at 1. rewrite Nat2Z.id.
  rewrite getChunks_ok by (done || zl). bsimpl.
  rewrite getServers_ok; [bsimpl|done|unfold fuel; lia|zl].
  change (le_enc 2 0 ++ ?x) with (enc_addrs [] ++ le_enc 2 0 ++ x).
  rewrite (getServers_ok 2 errFormat3 []); [done|constructor|unfold fuel; cbn; lia|zl].
Qed.

Lemma heartbeat_roundtrip_witness :
  let aa := AmAliveMsg [AAChunk 3 77; AAChunk 5 (2 ^ 63)] [str "10.0.0.1:9876"] [str "10.0.0.2:9876"] in
  ∃ msg, AmAliveMarshal aa = Ret msg ∧
    AmAliveUnMarshal msg =
    Ret (inr (AmAliveMsg [AAChunk 3 77; AAChunk 5 (2 ^ 63)] [str "10.0.0.1:9876"] [])).
Proof.
  intros aa. destruct (heartbeat_roundtrip aa) as (msg & H1 & _ & H2).
  - repeat constructor; by vm_compute.
  - by vm_compute.
  - repeat constructor. discriminate.
  - exists msg. split; [exact H1|exact H2].
Defined.

(** [AmAliveUnMarshal] never returns a dead server, whatever it is given:
    the gossip about failures is lost. *)
Theorem heartbeat_dead_lost msg aa :
  AmAliveUnMarshal msg = Ret (inr aa) → RecentlyDeadServers aa = [].
Proof.
  unfold AmAliveUnMarshal. intros H. outcome_inv.
  destruct a1 as [e|[cs m]]; [by simplify_eq|]. outcome_inv.
  destruct a1 as [e|[added m']]; [by simplify_eq|]. outcome_inv.
  assert (get_le 2 m' = Ret 0) as Hz.
  { clear -E2. revert m added m' E2. generalize (S (length msg)) as fuel.
    induction fuel as [|fuel IH]; intros m added m' H; cbn [getServers] in H; [done|].
    destruct (zlen m <? 4); [by simplify_eq|]. outcome_inv.
    destruct (Z.eqb_spec a 0) as [->|]; [by simplify_eq|]. outcome_inv.
    destruct a2 as [e|[l m2]]; [by simplify_eq|]. simplify_eq. by eapply IH. }
  cbn [getServers] in E3. destruct (zlen m' <? 2).
  - injection E3 as <-. done.
  - rewrite Hz in E3. injection E3 as <-. by injection H as <-.
Qed.

Lemma heartbeat_dead_lost_witness :
  ∃ msg aa, AmAliveUnMarshal msg = Ret (inr aa) ∧ RecentlyDeadServers aa = [].
Proof.
  exists (le_enc 2 0 ++ le_enc 2 0 ++ enc_addr (str "dead") ++ le_enc 2 0).
  eexists. split; [vm_compute; reflexivity|].
  apply (heartbeat_dead_lost (le_enc 2 0 ++ le_enc 2 0 ++ enc_addr (str "dead") ++ le_enc 2 0)).
  vm_compute. reflexivity.
Defined.

(** C40. A server that holds more than 116 chunks cannot send heartbeats: the
    encoding runs out of the packet and panics. *)
Theorem heartbeat_too_many_chunks aa :
  116 < zlen (KnownChunks aa) → AmAliveMarshal aa = Panic.
Proof.
  intros H. unfold AmAliveMarshal. set (msg := replicate _ x00).
  assert (zlen msg = 1400) as Hmsg by (apply zlen_replicate; done).
  destruct (split_at msg 2) as (a & r0 & -> & Ha); [lia|].
  rewrite put_le_front by lia. bsimpl.
  rewrite (advance_ok (le_enc 2 (u16 (zlen (KnownChunks aa)))) r0) by (done || zl). bsimpl.
  pose proof (putChunks_panic (KnownChunks aa) (le_enc 2 (u16 (zlen (KnownChunks aa)))) r0) as Hp.
  rewrite zlen_le_enc in Hp. change (0 + 2) with (Z.of_nat 2). by rewrite Hp by zl.
Qed.

Lemma heartbeat_too_many_chunks_witness :
  AmAliveMarshal (AmAliveMsg (replicate 117 (AAChunk 0 0)) [] []) = Panic.
Proof. apply heartbeat_too_many_chunks. by vm_compute. Defined.
