(* ===== verification/TimeoutQueue.v ===== *)
(** * The queue of pending requests ([queue] of src/com/comclient.go)

    A client connection keeps the deadlines of its requests in a doubly linked
    list, latest at the tail and earliest at the head.  The nodes live in a
    heap, since the code mutates them through shared pointers. *)
From Stdlib Require Import Sorting.Sorted.
From S2P Require Import Prelude.

(** A pointer is the address of a node; nil is [None]. *)
Abbreviation ptr := Z.

Record timeoutMsg := TimeoutMsg {
  tm_t : time;
  tm_tid : Z;
  tm_prev : option ptr;
  tm_next : option ptr
}.

Abbreviation heap := (gmap ptr timeoutMsg).

Record queue := Queue {
  q_head : option ptr;
  q_tail : option ptr;
  q_l : Z;
  q_mem : heap
}.

Definition createQueue : queue := Queue None None 0 ∅.

(** Dereference: nil and dangling pointers panic. *)
Definition load (h : heap) (p : option ptr) : outcome (ptr * timeoutMsg) :=
  match p with
  | None => Panic
  | Some a => match h !! a with Some n => Ret (a, n) | None => Panic end
  end.

Definition set_prev (n : timeoutMsg) (p : option ptr) : timeoutMsg :=
  TimeoutMsg (tm_t n) (tm_tid n) p (tm_next n).
Definition set_next (n : timeoutMsg) (p : option ptr) : timeoutMsg :=
  TimeoutMsg (tm_t n) (tm_tid n) (tm_prev n) p.

(** [p->prev = v] and [p->next = v]. *)
Definition store_prev (h : heap) (p v : option ptr) : outcome heap :=
  r ← load h p; Ret (<[r.1 := set_prev r.2 v]> h).
Definition store_next (h : heap) (p v : option ptr) : outcome heap :=
  r ← load h p; Ret (<[r.1 := set_next r.2 v]> h).

(** [for x.next != nil && x.t.After(t) { x = x.next }]. *)
Fixpoint seek (fuel : nat) (h : heap) (x : option ptr) (t : time) : outcome (ptr * timeoutMsg) :=
  r ← load h x;
  if bool_decide (tm_next r.2 ≠ None) && (t <? tm_t r.2) then
    match fuel with O => OutOfFuel | S fuel => seek fuel h (tm_next r.2) t end
  else Ret r.

(** [push] of the node at [p], whose fields [t] and [tid] are set. *)
Definition push (q : queue) (p : ptr) : outcome queue :=
  tm ← load (q_mem q) (Some p);
  let tm := tm.2 in
  let q := Queue (q_head q) (q_tail q) (q_l q + 1) (q_mem q) in
  if q_l q =? 1 then Ret (Queue (Some p) (Some p) (q_l q) (q_mem q))
  else
    x ← seek (Z.to_nat (q_l q)) (q_mem q) (q_tail q) (tm_t tm);
    q ← (if bool_decide (tm_next x.2 = None) && (tm_t tm <? tm_t x.2) then
           h ← store_next (q_mem q) (Some x.1) (Some p);
           h ← store_prev h (Some p) (Some x.1);
           Ret (Queue (Some p) (q_tail q) (q_l q) h)
         else Ret q);
    x ← load (q_mem q) (Some x.1);
    let prev := tm_prev x.2 in
    h ← store_prev (q_mem q) (Some x.1) (Some p);
    h ← store_next h (Some p) (Some x.1);
    h ← store_prev h (Some p) prev;
    match prev with
    | Some _ => h ← store_next h prev (Some p); Ret (Queue (q_head q) (q_tail q) (q_l q) h)
    | None => Ret (Queue (q_head q) (Some p) (q_l q) h)
    end.

(** The body of [clean] for a timed out head; the node is returned for the
    callback. *)
Definition popHead (q : queue) : outcome (queue * (ptr * timeoutMsg)) :=
  f ← load (q_mem q) (q_head q);
  let q := Queue (tm_prev f.2) (q_tail q) (q_l q - 1) (q_mem q) in
  q ← (if q_l q =? 1 then
         h ← store_next (q_mem q) (q_head q) None;
         Ret (Queue (q_head q) (q_head q) (q_l q) h)
       else if 1 <? q_l q then
         h ← store_next (q_mem q) (q_head q) None;
         Ret (Queue (q_head q) (q_tail q) (q_l q) h)
       else Ret (Queue None None (q_l q) (q_mem q)));
  h ← store_next (q_mem q) (Some f.1) None;
  h ← store_prev h (Some f.1) None;
  Ret (Queue (q_head q) (q_tail q) (q_l q) h, f).

(** [clean], with the nodes passed to the callback, in order. *)
Fixpoint cleanLoop (fuel : nat) (q : queue) (now : time) : outcome (queue * list timeoutMsg) :=
  if 0 <? q_l q then
    f ← load (q_mem q) (q_head q);
    if tm_t f.2 <? now then
      match fuel with
      | O => OutOfFuel
      | S fuel =>
          r ← popHead q;
          rs ← cleanLoop fuel r.1 now;
          Ret (rs.1, r.2.2 :: rs.2)
      end
    else Ret (q, [])
  else Ret (q, []).

Definition clean (q : queue) (now : time) : outcome (queue * list timeoutMsg) :=
  cleanLoop (Z.to_nat (q_l q)) q now.

(** [forall] takes every node from the head. *)
Fixpoint forallLoop (fuel : nat) (q : queue) : outcome (queue * list timeoutMsg) :=
  if 0 <? q_l q then
    match fuel with
    | O => OutOfFuel
    | S fuel =>
        f ← load (q_mem q) (q_head q);
        h ← store_next (q_mem q) (Some f.1) None;
        h ← store_prev h (Some f.1) None;
        rs ← forallLoop fuel (Queue (tm_prev f.2) (q_tail q) (q_l q - 1) h);
        Ret (rs.1, f.2 :: rs.2)
    end
  else Ret (Queue None None (q_l q) (q_mem q), []).

Definition forall_ (q : queue) : outcome (queue * list timeoutMsg) :=
  forallLoop (Z.to_nat (q_l q)) q.

(** ** Doubly linked segments *)

Fixpoint seg (h : heap) (pr : option ptr) (ps : list ptr) (nx : option ptr) : Prop :=
  match ps with
  | [] => True
  | p :: ps' =>
      ∃ n, h !! p = Some n ∧ tm_prev n = pr ∧
           tm_next n = (match ps' with [] => nx | p' :: _ => Some p' end) ∧
           seg h (Some p) ps' nx
  end.

(** The last address of a list, or a default. *)
Definition last_or (d : option ptr) (ps : list ptr) : option ptr :=
  match last ps with Some p => Some p | None => d end.
Definition head_or (ps : list ptr) (d : option ptr) : option ptr :=
  match ps with [] => d | p :: _ => Some p end.

Lemma last_or_snoc d ps p : last_or d (ps ++ [p]) = Some p.
Proof. unfold last_or. by rewrite last_snoc. Qed.
Lemma last_or_cons d p ps : last_or d (p :: ps) = last_or (Some p) ps.
Proof. unfold last_or. destruct ps as [|q ps]; [done|]. rewrite last_cons. by destruct (last (q :: ps)). Qed.

Lemma seg_app h a : ∀ pr b nx,
  seg h pr (a ++ b) nx ↔ seg h pr a (head_or b nx) ∧ seg h (last_or pr a) b nx.
Proof.
  induction a as [|p a IH]; intros pr b nx; cbn [app seg].
  - change (last_or pr []) with pr. tauto.
  - rewrite last_or_cons. split.
    + intros (n & Hn & Hp & Hx & Hs). apply IH in Hs as [Hs1 Hs2]. split; [|done].
      exists n. split_and!; try done. rewrite Hx. by destruct a, b.
    + intros [(n & Hn & Hp & Hx & Hs1) Hs2]. exists n. split_and!; try done.
      * rewrite Hx. by destruct a, b.
      * apply IH. done.
Qed.

(** A segment depends on its own nodes only. *)
Lemma seg_ext h h' ps : ∀ pr nx,
  (∀ q, q ∈ ps → h' !! q = h !! q) → seg h pr ps nx → seg h' pr ps nx.
Proof.
  induction ps as [|q ps IH]; intros pr nx E; [done|].
  intros (m & Hm & ? & ? & Hs). exists m. split_and!; try done.
  - rewrite E; [done|by left].
  - apply IH; [|done]. intros r Hr. apply E. by right.
Qed.

Lemma seg_lookup h pr ps nx p : seg h pr ps nx → p ∈ ps → is_Some (h !! p).
Proof.
  revert pr. induction ps as [|q ps IH]; intros pr Hs Hin; [by apply not_elem_of_nil in Hin|].
  destruct Hs as (n & Hn & _ & _ & Hs). apply elem_of_cons in Hin as [->|Hin]; [by rewrite Hn|].
  by eapply IH.
Qed.

(** The time of a node. *)
Definition time_at (h : heap) (p : ptr) : time := match h !! p with Some n => tm_t n | None => 0 end.
Definition tid_at (h : heap) (p : ptr) : Z := match h !! p with Some n => tm_tid n | None => 0 end.

(** The queue holds the nodes [ps], from the tail to the head, latest first. *)
Record q_rep (q : queue) (ps : list ptr) : Prop := QRep {
  qr_seg : seg (q_mem q) None ps None;
  qr_nodup : NoDup ps;
  qr_tail : q_tail q = head_or ps None;
  qr_head : q_head q = last_or None ps;
  qr_len : q_l q = zlen ps;
  qr_sorted : StronglySorted (λ p p', time_at (q_mem q) p' ≤ time_at (q_mem q) p) ps
}.

Lemma q_rep_new : q_rep createQueue [].
Proof. split; try done; constructor. Qed.

Lemma load_some h p n : h !! p = Some n → load h (Some p) = Ret (p, n).
Proof. intros H. unfold load. by rewrite H. Qed.

Lemma store_prev_some h p n v :
  h !! p = Some n → store_prev h (Some p) v = Ret (<[p := set_prev n v]> h).
Proof. intros H. unfold store_prev. by rewrite (load_some h p n). Qed.

Lemma store_next_some h p n v :
  h !! p = Some n → store_next h (Some p) v = Ret (<[p := set_next n v]> h).
Proof. intros H. unfold store_next. by rewrite (load_some h p n). Qed.

(** Rewriting the links of a node keeps all times and identifiers. *)
Lemma time_at_insert h p n n' q :
  h !! p = Some n → tm_t n' = tm_t n → time_at (<[p := n']> h) q = time_at h q.
Proof.
  intros H E. unfold time_at. destruct (decide (q = p)) as [->|].
  - by rewrite lookup_insert_eq, H.
  - by rewrite lookup_insert_ne.
Qed.

Lemma tid_at_insert h p n n' q :
  h !! p = Some n → tm_tid n' = tm_tid n → tid_at (<[p := n']> h) q = tid_at h q.
Proof.
  intros H E. unfold tid_at. destruct (decide (q = p)) as [->|].
  - by rewrite lookup_insert_eq, H.
  - by rewrite lookup_insert_ne.
Qed.

Lemma sorted_ext (f g : ptr → time) ps :
  (∀ p, f p = g p) → StronglySorted (λ p p', f p' ≤ f p) ps → StronglySorted (λ p p', g p' ≤ g p) ps.
Proof.
  intros E. induction 1 as [|p ps _ IH HF]; constructor; [done|].
  eapply Forall_impl; [exact HF|]. intros q. by rewrite !E.
Qed.

(** ** Pushing *)

Lemma seek_stop h t x b : ∀ a pr fuel,
  seg h pr (a ++ x :: b) None → Forall (λ p, t < time_at h p) a → time_at h x ≤ t →
  (length a ≤ fuel)%nat →
  ∃ n, seek fuel h (head_or (a ++ x :: b) None) t = Ret (x, n) ∧ h !! x = Some n ∧
       tm_prev n = last_or pr a.
Proof.
  induction a as [|p a IH]; intros pr fuel Hs Ha Hx Hf.
  - destruct Hs as (n & Hn & Hp & _). exists n. split_and!; try done.
    assert (tm_t n ≤ t) by (unfold time_at in Hx; by rewrite Hn in Hx).
    cbn [app head_or]. destruct fuel; cbn [seek]; rewrite (load_some h x n Hn); bsimpl;
      destruct (Z.ltb_spec t (tm_t n)); try lia; by rewrite andb_false_r.
  - destruct fuel as [|fuel]; cbn [length] in Hf; [lia|]. apply Forall_cons in Ha as [Hp Ha].
    destruct Hs as (n & Hn & Hpr & Hnx & Hs). rewrite last_or_cons. cbn [app head_or seek].
    rewrite (load_some h p n Hn). bsimpl. unfold time_at in Hp. rewrite Hn in Hp.
    destruct (Z.ltb_spec t (tm_t n)); [|lia].
    assert (tm_next n = head_or (a ++ x :: b) None) as -> by (rewrite Hnx; by destruct a).
    rewrite bool_decide_true by (by destruct a). cbn [andb].
    destruct (IH (Some p) fuel Hs Ha Hx) as (n' & -> & ?); [lia|]. by exists n'.
Qed.

(** Linking [p] before [x] in a segment. *)
Section link.
Context (h : heap) (a : list ptr) (x : ptr) (b : list ptr) (p : ptr) (tm nx : timeoutMsg).
Context (Hs : seg h None (a ++ x :: b) None) (Hnd : NoDup (a ++ x :: b)).
Context (Hp : p ∉ a ++ x :: b) (Htm : h !! p = Some tm) (Hx : h !! x = Some nx).

Let pv := last_or None a.
Let h3 := <[p := set_prev (set_next tm (Some x)) pv]>
            (<[p := set_next tm (Some x)]> (<[x := set_prev nx (Some p)]> h)).

Lemma link_disjoint : p ≠ x ∧ (x ∉ a) ∧ (x ∉ b) ∧ (p ∉ a) ∧ (p ∉ b).
Proof using Hnd Hp.
  apply NoDup_app in Hnd as (_ & Hd & Hnd2). apply NoDup_cons in Hnd2 as [Hxb _].
  rewrite elem_of_app, elem_of_cons in Hp. split_and!; try tauto; try (intros ?; tauto).
  intros Hxa. apply (Hd x Hxa). by left.
Qed.

(** The part from the new node on. *)
Lemma link_tail h4 :
  (∀ q, q ∉ a → h4 !! q = h3 !! q) → seg h4 pv (p :: x :: b) None.
Proof using All.
  intros Hh4. destruct link_disjoint as (Hpx & Hxa & Hxb & Hpa & Hpb).
  apply seg_app in Hs as [_ (n & Hn & Hpr & Hnx & Hsb)].
  rewrite Hx in Hn. injection Hn as <-.
  assert (∀ q, q ∈ b → q ∉ a) as Hba.
  { apply NoDup_app in Hnd as (_ & Hd & _). intros q Hq Hqa. apply (Hd q Hqa). by right. }
  exists (set_prev (set_next tm (Some x)) pv). split_and!; try done.
  { rewrite Hh4 by done. unfold h3. by rewrite lookup_insert_eq. }
  exists (set_prev nx (Some p)). split_and!; try done.
  { rewrite Hh4 by done. unfold h3. do 2 rewrite lookup_insert_ne by done.
    by rewrite lookup_insert_eq. }
  eapply seg_ext; [|exact Hsb]. intros q Hq. rewrite Hh4 by auto. unfold h3.
  by rewrite !lookup_insert_ne by (intros ->; done).
Qed.

(** The whole segment, when the node before [x] points at the new one. *)
Lemma link_seg :
  ∃ h4, (match pv with
         | Some _ => store_next h3 pv (Some p)
         | None => Ret h3
         end) = Ret h4 ∧
    seg h4 None (a ++ p :: x :: b) None ∧
    (∀ q, time_at h4 q = time_at h q) ∧ (∀ q, tid_at h4 q = tid_at h q).
Proof using All.
  destruct link_disjoint as (Hpx & Hxa & Hxb & Hpa & Hpb).
  assert ((∀ q, time_at h3 q = time_at h q) ∧ (∀ q, tid_at h3 q = tid_at h q)) as [Ht Hi].
  { unfold h3. rewrite insert_insert_eq.
    split; intros q.
    - erewrite time_at_insert; [|by rewrite lookup_insert_ne|done].
      by eapply time_at_insert.
    - erewrite tid_at_insert; [|by rewrite lookup_insert_ne|done].
      by eapply tid_at_insert. }
  assert (a = [] ∨ ∃ a' z, a = a' ++ [z]) as [Ea|(a' & z & Ea)].
  { destruct a as [|z a'] using rev_ind; eauto. }
  - assert (pv = None) as Hpv by (unfold pv; by rewrite Ea).
    exists h3. rewrite Hpv. split_and!; try done.
    apply seg_app. split; [by rewrite Ea|]. by apply link_tail.
  - assert (pv = Some z) as Hpv by (unfold pv; by rewrite Ea, last_or_snoc). rewrite Hpv.
    pose proof Hs as Hs'. rewrite Ea in Hs'.
    apply seg_app in Hs' as [Hs1 Hs2]. apply seg_app in Hs1 as [Hsa (nz & Hnz & Hprz & Hnxz & _)].
    assert (z ∉ a') as Hza.
    { rewrite Ea in Hnd. apply NoDup_app in Hnd as (Hnd1 & _ & _).
      apply NoDup_app in Hnd1 as (_ & Hd & _). intros Hz. apply (Hd z Hz). by left. }
    rewrite Ea in Hpa, Hxa.
    assert (z ≠ p ∧ z ≠ x) as [Hzp Hzx] by (split; intros ->; [apply Hpa|apply Hxa]; set_solver).
    assert (h3 !! z = Some nz) as Hz3 by (unfold h3; by rewrite !lookup_insert_ne).
    rewrite (store_next_some h3 z nz) by done. eexists. split; [done|]. split_and!.
    + apply seg_app. split.
      * rewrite Ea. apply seg_app. split; [|eexists; by rewrite lookup_insert_eq].
        eapply seg_ext; [|exact Hsa]. intros q Hq. unfold h3.
        rewrite !lookup_insert_ne; [done|..]; intros ->; set_solver.
      * apply link_tail. intros q Hq. apply lookup_insert_ne. rewrite Ea in Hq. set_solver.
    + intros q. erewrite time_at_insert; [apply Ht|done|done].
    + intros q. erewrite tid_at_insert; [apply Hi|done|done].
Qed.
End link.

(** Where a deadline goes in a sorted queue: before the first one that is not
    later. *)
Lemma split_sorted h t ps f :
  last ps = Some f → time_at h f ≤ t →
  ∃ a x b, ps = a ++ x :: b ∧ Forall (λ p, t < time_at h p) a ∧ time_at h x ≤ t.
Proof.
  induction ps as [|p ps IH]; intros Hl Hf; [done|].
  destruct (Z.le_gt_cases (time_at h p) t) as [Hle|Hgt]; [by exists [], p, ps|].
  destruct ps as [|p' ps]; [injection Hl as ->; lia|].
  destruct (IH Hl Hf) as (a & x & b & E & Ha & Hx). exists (p :: a), x, b.
  rewrite E. split_and!; [done| |done]. by constructor.
Qed.

Lemma sorted_insert {A} (R : A → A → Prop) p b : ∀ a,
  StronglySorted R (a ++ b) → Forall (λ q, R q p) a → Forall (R p) b →
  StronglySorted R (a ++ p :: b).
Proof.
  induction a as [|q a IH]; intros Hs Ha Hb; cbn [app] in *; [by constructor|].
  apply Forall_cons in Ha as [Hq Ha]. apply StronglySorted_inv in Hs as [Hs HF].
  constructor; [by apply IH|]. apply Forall_app in HF as [HF1 HF2].
  apply Forall_app. split; [done|]. by constructor.
Qed.

Lemma sorted_below h ps q b a :
  StronglySorted (λ p p', time_at h p' ≤ time_at h p) ps → ps = a ++ q :: b →
  Forall (λ r, time_at h r ≤ time_at h q) b.
Proof.
  intros Hs ->. induction a as [|p a IH]; cbn [app] in Hs;
    apply StronglySorted_inv in Hs as [Hs HF]; [done|by apply IH].
Qed.

(** A node from the pool. *)
Definition fresh_node (h : heap) (p : ptr) (tm : timeoutMsg) : Prop :=
  h !! p = Some tm ∧ tm_prev tm = None ∧ tm_next tm = None.

(** A deadline that is not the earliest of all is put in its place. *)
Lemma push_ok q ps p tm :
  q_rep q ps → p ∉ ps → fresh_node (q_mem q) p tm →
  (∀ f, last ps = Some f → time_at (q_mem q) f ≤ tm_t tm) →
  ∃ q' a b, push q p = Ret q' ∧ ps = a ++ b ∧ q_rep q' (a ++ p :: b) ∧
    Forall (λ r, tm_t tm < time_at (q_mem q) r) a ∧
    (∀ r, time_at (q_mem q') r = time_at (q_mem q) r) ∧
    (∀ r, tid_at (q_mem q') r = tid_at (q_mem q) r).
Proof.
  intros [Hs Hnd Htail Hhead Hlen Hsort] Hnin (Htm & Hprev & Hnext) Hlast. unfold push.
  rewrite (load_some _ p tm Htm). bsimpl. cbn [q_l q_head q_tail q_mem].
  destruct (Z.eqb_spec (q_l q + 1) 1) as [E1|E1].
  - assert (ps = []) as -> by (apply zlen_0_nil; lia).
    eexists _, [], []. split; [done|]. split_and!; try done.
    split; cbn [q_mem q_head q_tail q_l app]; try done; [by exists tm|apply NoDup_singleton|by constructor].
  - destruct (last ps) as [f|] eqn:El.
    2:{ apply last_None in El as ->. zlen_nil_simpl. lia. }
    destruct (split_sorted (q_mem q) (tm_t tm) ps f El (Hlast f eq_refl)) as (a & x & b & -> & Ha & Hx).
    destruct (seek_stop (q_mem q) (tm_t tm) x b a None (Z.to_nat (q_l q + 1))) as (nx & Hseek & Hnx & Hpv);
      [done..| |].
    { rewrite Hlen, zlen_app. unfold zlen. cbn [length]. lia. }
    rewrite Htail, Hseek. bsimpl.
    assert (tm_t nx ≤ tm_t tm) by (unfold time_at in Hx; by rewrite Hnx in Hx).
    destruct (Z.ltb_spec (tm_t tm) (tm_t nx)); [lia|]. rewrite andb_false_r. bsimpl.
    cbn [q_mem q_head q_tail q_l]. rewrite (load_some _ x nx Hnx). bsimpl. rewrite Hpv.
    assert (p ≠ x) as Hpx by (intros ->; apply Hnin; set_solver).
    rewrite (store_prev_some _ x nx) by done. bsimpl.
    rewrite (store_next_some _ p tm) by (by rewrite lookup_insert_ne). bsimpl.
    rewrite (store_prev_some _ p (set_next tm (Some x))) by (by rewrite lookup_insert_eq). bsimpl.
    destruct (link_seg (q_mem q) a x b p tm nx Hs Hnd Hnin Htm Hnx) as (h4 & Hh4 & Hs4 & Ht4 & Hi4).
    assert (q_rep (Queue (q_head q) (if decide (a = []) then Some p else q_tail q) (q_l q + 1) h4)
              (a ++ p :: x :: b)) as Hrep.
    { split; cbn [q_mem q_head q_tail q_l]; try done.
      - rewrite <- Permutation_middle. by constructor.
      - by destruct a.
      - rewrite Hhead. unfold last_or. rewrite !last_app. by destruct b.
      - rewrite Hlen. zl.
      - eapply sorted_ext; [intros r; symmetry; apply Ht4|].
        assert (time_at (q_mem q) p = tm_t tm) as Hpt by (unfold time_at; by rewrite Htm).
        apply sorted_insert; [done|eapply Forall_impl; [exact Ha|cbn; intros; lia]|].
        constructor; [lia|]. eapply Forall_impl; [by eapply sorted_below|]. cbn. intros. lia. }
    eexists _, a, (x :: b). split_and!; [|done|exact Hrep|done|done|done].
    destruct (last_or None a) as [z|] eqn:Ez.
    + rewrite Hh4. bsimpl. rewrite decide_False by (by intros ->). by rewrite Htail.
    + injection Hh4 as <-. assert (a = []) as ->; [|done].
      destruct a as [|z a _] using rev_ind; [done|]. by rewrite last_or_snoc in Ez.
Qed.

(** ** Taking from the head *)

Lemma sorted_app_l {A} (R : A → A → Prop) a b : StronglySorted R (a ++ b) → StronglySorted R a.
Proof.
  induction a as [|p a IH]; intros Hs; [constructor|]. cbn [app] in Hs.
  apply StronglySorted_inv in Hs as [Hs HF]. apply Forall_app in HF as [HF _].
  constructor; [by apply IH|done].
Qed.

(** Cutting the last node of a segment off. *)
Lemma cut_last h ps f n :
  seg h None (ps ++ [f]) None → NoDup (ps ++ [f]) → h !! f = Some n →
  ∃ h', (match last_or None ps with
         | Some _ => store_next h (last_or None ps) None
         | None => Ret h
         end) = Ret h' ∧ seg h' None ps None ∧ h' !! f = Some n ∧
    (∀ q, time_at h' q = time_at h q) ∧ (∀ q, tid_at h' q = tid_at h q).
Proof.
  intros Hs Hnd Hf. destruct ps as [|z ps _] using rev_ind; [by exists h|].
  rewrite last_or_snoc. apply seg_app in Hs as [Hs _].
  apply seg_app in Hs as [Hs1 (nz & Hnz & Hpz & _)].
  assert (z ∉ ps) as Hz.
  { apply NoDup_app in Hnd as (Hnd & _ & _). apply NoDup_app in Hnd as (_ & Hd & _).
    intros Hz. apply (Hd z Hz). by left. }
  assert (z ≠ f) as Hzf.
  { apply NoDup_app in Hnd as (_ & Hd & _). intros ->. apply (Hd f); set_solver. }
  rewrite (store_next_some h z nz) by done. eexists. split; [done|]. split_and!.
  - apply seg_app. split; [|eexists; by rewrite lookup_insert_eq].
    eapply seg_ext; [|exact Hs1]. intros q Hq. rewrite lookup_insert_ne; [done|]. set_solver.
  - by rewrite lookup_insert_ne.
  - intros q. by eapply time_at_insert.
  - intros q. by eapply tid_at_insert.
Qed.

(** Clearing the links of a node outside a segment. *)
Lemma clear_links h ps f n :
  seg h None ps None → f ∉ ps → h !! f = Some n →
  ∃ h', (h ← store_next h (Some f) None; store_prev h (Some f) None) = Ret h' ∧
    seg h' None ps None ∧ fresh_node h' f (set_prev (set_next n None) None) ∧
    (∀ q, time_at h' q = time_at h q) ∧ (∀ q, tid_at h' q = tid_at h q).
Proof.
  intros Hs Hnin Hf. rewrite (store_next_some h f n) by done. bsimpl.
  rewrite (store_prev_some _ f (set_next n None)) by (by rewrite lookup_insert_eq).
  rewrite insert_insert_eq. eexists. split; [done|]. split_and!.
  - eapply seg_ext; [|exact Hs]. intros q Hq. rewrite lookup_insert_ne; [done|]. set_solver.
  - split_and!; try done. apply lookup_insert_eq.
  - intros q. by eapply time_at_insert.
  - intros q. by eapply tid_at_insert.
Qed.

Lemma popHead_ok q ps f :
  q_rep q (ps ++ [f]) →
  ∃ q' n, popHead q = Ret (q', (f, n)) ∧ q_mem q !! f = Some n ∧ q_rep q' ps ∧
    fresh_node (q_mem q') f (set_prev (set_next n None) None) ∧
    (∀ r, time_at (q_mem q') r = time_at (q_mem q) r) ∧
    (∀ r, tid_at (q_mem q') r = tid_at (q_mem q) r).
Proof.
  intros [Hs Hnd Htail Hhead Hlen Hsort]. rewrite last_or_snoc in Hhead.
  pose proof Hs as Hs'. apply seg_app in Hs' as [_ (n & Hn & Hprev & _)].
  unfold popHead. rewrite Hhead, (load_some _ f n Hn). bsimpl. cbn [q_l q_head q_tail q_mem].
  rewrite Hprev. rewrite zlen_app in Hlen. change (zlen [f]) with 1 in Hlen.
  destruct (cut_last (q_mem q) ps f n Hs Hnd Hn) as (h1 & Hh1 & Hs1 & Hn1 & Ht1 & Hi1).
  assert (f ∉ ps) as Hf.
  { apply NoDup_app in Hnd as (_ & Hd & _). intros Hf. apply (Hd f Hf). by left. }
  destruct (clear_links h1 ps f n Hs1 Hf Hn1) as (h2 & Hh2 & Hs2 & Hfr & Ht2 & Hi2).
  apply bind_Ret_inv in Hh2 as (h1' & Hh1' & Hh2).
  assert (q_rep (Queue (last_or None ps) (head_or ps None) (q_l q - 1) h2) ps) as Hrep.
  { split; cbn [q_mem q_head q_tail q_l]; try done.
    - by apply NoDup_app in Hnd as [? _].
    - lia.
    - eapply sorted_ext; [intros r; by rewrite <- Ht1, <- Ht2|]. by eapply sorted_app_l. }
  eexists (Queue (last_or None ps) (head_or ps None) (q_l q - 1) h2), n.
  split; [|split_and!; [done|done|done|by intros r; cbn; rewrite Ht2|by intros r; cbn; rewrite Hi2]].
  destruct (last_or None ps) as [z|] eqn:Ez.
  - assert (ps ≠ []) as Hne by (by intros ->).
    assert (0 < zlen ps) by (destruct ps; [done|zl]).
    destruct (Z.eqb_spec (q_l q - 1) 1) as [E1|E1].
    + rewrite Hh1. bsimpl. cbn [q_mem q_head q_tail q_l]. rewrite Hh1'. bsimpl. rewrite Hh2. bsimpl.
      assert (head_or ps None = Some z) as ->; [|done].
      destruct ps as [|p [|p' ps]]; [done| |exfalso; zl].
      unfold last_or in Ez. cbn in Ez. by injection Ez as ->.
    + destruct (Z.ltb_spec 1 (q_l q - 1)); [|lia]. rewrite Hh1. bsimpl. cbn [q_mem q_head q_tail q_l].
      rewrite Hh1'. bsimpl. rewrite Hh2. bsimpl. rewrite Htail. by destruct ps.
  - assert (ps = []) as ->.
    { destruct ps as [|z ps _] using rev_ind; [done|]. by rewrite last_or_snoc in Ez. }
    zlen_nil_simpl. destruct (Z.eqb_spec (q_l q - 1) 1); [lia|].
    destruct (Z.ltb_spec 1 (q_l q - 1)); [lia|]. bsimpl. cbn [q_mem q_head q_tail q_l].
    injection Hh1 as <-. rewrite Hh1'. bsimpl. by rewrite Hh2.
Qed.

(** The deadline and identifier of a node. *)
Definition entry_of (n : timeoutMsg) : time * Z := (tm_t n, tm_tid n).
Definition entry_at (h : heap) (p : ptr) : time * Z := (time_at h p, tid_at h p).

Lemma entry_of_at h p n : h !! p = Some n → entry_of n = entry_at h p.
Proof. intros H. unfold entry_of, entry_at, time_at, tid_at. by rewrite H. Qed.

Lemma cleanLoop_ok now : ∀ fuel q ps,
  q_rep q ps → (length ps ≤ fuel)%nat →
  ∃ q' ps' gone out, cleanLoop fuel q now = Ret (q', out) ∧ ps = ps' ++ gone ∧ q_rep q' ps' ∧
    map entry_of out = map (entry_at (q_mem q)) (reverse gone) ∧
    Forall (λ p, time_at (q_mem q) p < now) gone ∧
    Forall (λ p, now ≤ time_at (q_mem q) p) ps' ∧
    (∀ r, time_at (q_mem q') r = time_at (q_mem q) r) ∧
    (∀ r, tid_at (q_mem q') r = tid_at (q_mem q) r).
Proof.
  induction fuel as [|fuel IH]; intros q ps Hq Hfuel;
    destruct ps as [|f ps _] using rev_ind.
  - exists q, [], [], []. cbn [cleanLoop]. rewrite (qr_len _ _ Hq). by split_and!.
  - rewrite length_app in Hfuel. cbn in Hfuel. lia.
  - exists q, [], [], []. cbn [cleanLoop]. rewrite (qr_len _ _ Hq). by split_and!.
  - destruct (popHead_ok q ps f Hq) as (q1 & n & Hpop & Hn & Hq1 & _ & Ht1 & Hi1).
    pose proof Hq as [Hs Hnd Htail Hhead Hlen Hsort]. rewrite last_or_snoc in Hhead.
    assert (time_at (q_mem q) f = tm_t n) as Htf by (unfold time_at; by rewrite Hn).
    cbn [cleanLoop]. rewrite Hlen. destruct (Z.ltb_spec 0 (zlen (ps ++ [f]))); [|zl].
    rewrite Hhead, (load_some _ f n Hn). bsimpl.
    destruct (Z.ltb_spec (tm_t n) now) as [Hlt|Hge].
    + rewrite Hpop. bsimpl.
      destruct (IH q1 ps Hq1) as (q2 & ps' & gone & out & -> & -> & Hq2 & Hout & Hg & Hp & Ht2 & Hi2).
      { rewrite length_app in Hfuel. cbn in Hfuel. lia. }
      bsimpl. exists q2, ps', (gone ++ [f]), (n :: out). split_and!; try done.
      * by rewrite app_assoc.
      * rewrite reverse_snoc. cbn [map]. rewrite Hout, (entry_of_at (q_mem q) f n Hn). f_equal.
        apply map_ext. intros r. unfold entry_at. by rewrite Ht1, Hi1.
      * apply Forall_app. split; [|by apply Forall_singleton; lia].
        eapply Forall_impl; [exact Hg|]. intros r Hr. by rewrite <- Ht1.
      * eapply Forall_impl; [exact Hp|]. intros r Hr. by rewrite <- Ht1.
      * intros r. by rewrite Ht2.
      * intros r. by rewrite Hi2.
    + exists q, (ps ++ [f]), [], []. rewrite app_nil_r. split_and!; try done.
      apply Forall_app. split; [|by apply Forall_singleton; lia].
      apply Forall_forall. intros r Hr. apply list_elem_of_split in Hr as (a & b & ->).
      pose proof (sorted_below (q_mem q) _ r (b ++ [f]) a Hsort) as HF.
      rewrite <- app_assoc in HF. specialize (HF eq_refl). apply Forall_app in HF as [_ HF].
      rewrite Forall_singleton in HF. lia.
Qed.

(** [forall] visits every node, whatever the head points forward to. *)
Lemma forallLoop_ok : ∀ fuel q ps nx,
  seg (q_mem q) None ps nx → NoDup ps → q_head q = last_or None ps → q_l q = zlen ps →
  (length ps ≤ fuel)%nat →
  ∃ q' out, forallLoop fuel q = Ret (q', out) ∧ q_rep q' [] ∧
    map entry_of out = map (entry_at (q_mem q)) (reverse ps).
Proof.
  induction fuel as [|fuel IH]; intros q ps nx Hs Hnd Hhead Hlen Hfuel;
    destruct ps as [|f ps _] using rev_ind; cbn [forallLoop]; rewrite Hlen;
    try (eexists _, []; split_and!; [done| |done]; split; cbn; try done; constructor).
  - rewrite length_app in Hfuel. cbn in Hfuel. lia.
  - rewrite zlen_app. change (zlen [f]) with 1. destruct (Z.ltb_spec 0 (zlen ps + 1)); [|zl].
    rewrite last_or_snoc in Hhead. apply NoDup_app in Hnd as (Hnd & Hf & _).
    apply seg_app in Hs as [Hs (n & Hn & Hprev & _)].
    rewrite Hhead, (load_some _ f n Hn). bsimpl. rewrite (store_next_some _ f n) by done. bsimpl.
    erewrite store_prev_some by apply lookup_insert_eq. bsimpl.
    rewrite insert_insert_eq. set (n' := set_prev _ _).
    assert (∀ r, r ∈ ps → <[f := n']> (q_mem q) !! r = q_mem q !! r) as Hsame.
    { intros r Hr. apply lookup_insert_ne. intros ->. apply (Hf r Hr). set_solver. }
    destruct (IH (Queue (tm_prev n) (q_tail q) (zlen ps + 1 - 1) (<[f := n']> (q_mem q))) ps (Some f))
      as (q' & out & -> & Hq' & Hout).
    { eapply seg_ext; [exact Hsame|exact Hs]. } { done. } { done. } { cbn. lia. }
    { rewrite length_app in Hfuel. cbn in Hfuel. lia. }
    bsimpl. exists q', (n :: out). split_and!; try done.
    rewrite reverse_snoc. cbn [map]. rewrite Hout, (entry_of_at _ f n Hn). f_equal.
    apply map_ext_in. intros r Hr. unfold entry_at, time_at, tid_at. cbn [q_mem].
    rewrite Hsame; [done|]. by apply elem_of_reverse, list_elem_of_In.
Qed.

(** ** The properties *)

(** The deadlines of the queue, earliest first. *)
Definition deadlines (q : queue) (ps : list ptr) : list (time * Z) :=
  map (entry_at (q_mem q)) (reverse ps).

Lemma forall_ok q ps :
  q_rep q ps → ∃ q' out, forall_ q = Ret (q', out) ∧ q_rep q' [] ∧ map entry_of out = deadlines q ps.
Proof.
  intros [Hs Hnd _ Hhead Hlen _]. eapply forallLoop_ok; try done. rewrite Hlen. unfold zlen. lia.
Qed.

(** [clean] takes the expired entries off the front. *)
Lemma clean_ok q ps now :
  q_rep q ps →
  ∃ q' ps' out, clean q now = Ret (q', out) ∧ q_rep q' ps' ∧
    deadlines q ps = map entry_of out ++ deadlines q' ps' ∧
    Forall (λ e : time * Z, e.1 < now) (map entry_of out) ∧
    Forall (λ e : time * Z, now ≤ e.1) (deadlines q' ps').
Proof.
  intros Hq. unfold clean.
  destruct (cleanLoop_ok now (Z.to_nat (q_l q)) q ps Hq)
    as (q' & ps' & gone & out & Hc & -> & Hq' & Hout & Hg & Hp & Ht & Hi).
  { rewrite (qr_len _ _ Hq). unfold zlen. lia. }
  exists q', ps', out. split_and!; [done..| | |].
  - unfold deadlines. rewrite reverse_app, map_app, Hout. f_equal. apply map_ext.
    intros r. unfold entry_at. by rewrite Ht, Hi.
  - rewrite Hout. apply Forall_map, Forall_reverse. exact Hg.
  - unfold deadlines. apply Forall_map, Forall_reverse. eapply Forall_impl; [exact Hp|].
    cbn. intros r Hr. by rewrite Ht.
Qed.

(** A request: a node that is not in the queue, pushed with its deadline. *)
Definition pushNew (q : queue) (p : ptr) (t : time) (tid : Z) : outcome queue :=
  push (Queue (q_head q) (q_tail q) (q_l q) (<[p := TimeoutMsg t tid None None]> (q_mem q))) p.

Lemma q_rep_alloc q ps p n :
  q_rep q ps → p ∉ ps →
  q_rep (Queue (q_head q) (q_tail q) (q_l q) (<[p := n]> (q_mem q))) ps.
Proof.
  intros [Hs Hnd Htail Hhead Hlen Hsort] Hp. split; cbn [q_mem q_head q_tail q_l]; try done.
  - eapply seg_ext; [|exact Hs]. intros r Hr. rewrite lookup_insert_ne; [done|]. set_solver.
  - clear -Hp Hsort. induction Hsort as [|x ps _ IH HF]; constructor.
    + apply IH. set_solver.
    + rewrite Forall_forall in HF |- *. intros r Hr. specialize (HF r Hr). unfold time_at in *.
      rewrite !lookup_insert_ne by set_solver. done.
Qed.

Lemma pushNew_ok q ps p t tid :
  q_rep q ps → p ∉ ps → (∀ f, last ps = Some f → time_at (q_mem q) f ≤ t) →
  ∃ q' a b, pushNew q p t tid = Ret q' ∧ ps = a ++ b ∧ q_rep q' (a ++ p :: b) ∧
    entry_at (q_mem q') p = (t, tid) ∧
    (∀ r, r ≠ p → entry_at (q_mem q') r = entry_at (q_mem q) r).
Proof.
  intros Hq Hp Hlast. unfold pushNew.
  pose (tm := TimeoutMsg t tid None None).
  destruct (push_ok _ ps p tm (q_rep_alloc q ps p tm Hq Hp) Hp)
    as (q' & a & b & Hpush & Hab & Hq' & _ & Ht & Hi).
  - split_and!; try done. cbn. apply lookup_insert_eq.
  - cbn [tm_t q_mem tm]. intros f Hf. unfold time_at. rewrite lookup_insert_ne.
    + by apply Hlast.
    + intros ->. apply Hp. by apply last_Some_elem_of.
  - exists q', a, b. split_and!; try done.
    + unfold entry_at. rewrite Ht, Hi. unfold time_at, tid_at. cbn. by rewrite lookup_insert_eq.
    + intros r Hr. unfold entry_at. rewrite Ht, Hi. unfold time_at, tid_at. cbn.
      by rewrite lookup_insert_ne.
Qed.

(** The order of the nodes is the order of the deadlines. *)
Lemma deadlines_sorted q ps :
  q_rep q ps → StronglySorted (λ e e' : time * Z, e.1 ≤ e'.1) (deadlines q ps).
Proof.
  intros Hq. pose proof (qr_sorted _ _ Hq) as Hs. clear Hq. unfold deadlines.
  induction Hs as [|p ps _ IH HF]; [constructor|]. rewrite reverse_cons, map_app.
  assert (∀ l, StronglySorted (λ e e' : time * Z, e.1 ≤ e'.1) l →
    Forall (λ e : time * Z, e.1 ≤ time_at (q_mem q) p) l →
    StronglySorted (λ e e' : time * Z, e.1 ≤ e'.1) (l ++ map (entry_at (q_mem q)) [p])) as Hsnoc.
  { intros l Hl HFl. rewrite <- (app_nil_r l) in Hl. by apply sorted_insert. }
  apply Hsnoc; [exact IH|]. apply Forall_map, Forall_reverse. exact HF.
Qed.

Lemma push_sorted_ok q ps p t tid :
  q_rep q ps → p ∉ ps → (∀ f, last ps = Some f → time_at (q_mem q) f ≤ t) →
  ∃ q' ps', pushNew q p t tid = Ret q' ∧ q_rep q' ps' ∧
    deadlines q' ps' ≡ₚ (t, tid) :: deadlines q ps ∧
    StronglySorted (λ e e' : time * Z, e.1 ≤ e'.1) (deadlines q' ps').
Proof.
  intros Hq Hp Hlast.
  destruct (pushNew_ok q ps p t tid Hq Hp Hlast) as (q' & a & b & Hpush & -> & Hq' & Hnew & Hold).
  exists q', (a ++ p :: b). split_and!; [done..| |].
  - unfold deadlines. rewrite !reverse_Permutation. rewrite <- Permutation_middle. cbn [map].
    rewrite Hnew. apply Permutation_cons; [done|].
    rewrite (map_ext_in (entry_at (q_mem q')) (entry_at (q_mem q))); [done|].
    intros r Hr. apply Hold. intros ->. apply Hp, list_elem_of_In, Hr.
  - apply deadlines_sorted. done.
Qed.

(** [clean] terminates, reports exactly the requests whose deadline has
    passed, earliest first, and keeps the others in order. *)
Theorem clean_expires q ps now :
  q_rep q ps →
  ∃ q' ps' out, clean q now = Ret (q', out) ∧ q_rep q' ps' ∧
    deadlines q ps = map entry_of out ++ deadlines q' ps' ∧
    Forall (λ e : time * Z, e.1 < now) (map entry_of out) ∧
    Forall (λ e : time * Z, now ≤ e.1) (deadlines q' ps').
Proof. apply clean_ok. Qed.

(** [push] keeps the queue sorted for every deadline that is not earlier
    than all the others: the new request is added and the order kept. *)
Theorem push_sorted q ps p t tid :
  q_rep q ps → p ∉ ps → (∀ f, last ps = Some f → time_at (q_mem q) f ≤ t) →
  ∃ q' ps', pushNew q p t tid = Ret q' ∧ q_rep q' ps' ∧
    deadlines q' ps' ≡ₚ (t, tid) :: deadlines q ps ∧
    StronglySorted (λ e e' : time * Z, e.1 ≤ e'.1) (deadlines q' ps').
Proof. apply push_sorted_ok. Qed.

(** A queue with one request, and one with two. *)
Lemma one_request : ∃ q, pushNew createQueue 1 100 7 = Ret q ∧ q_rep q [1] ∧
  entry_at (q_mem q) 1 = (100, 7).
Proof.
  destruct (pushNew_ok createQueue [] 1 100 7 q_rep_new) as (q & a & b & Hp & Hab & Hq & He & _);
    [set_solver|done|]. symmetry in Hab. apply app_nil in Hab as [-> ->]. by exists q.
Qed.

Lemma push_sorted_witness :
  ∃ q q' ps', q_rep q [1] ∧ pushNew q 2 150 8 = Ret q' ∧ q_rep q' ps' ∧
    deadlines q' ps' ≡ₚ [(150, 8); (100, 7)].
Proof.
  destruct one_request as (q & _ & Hq & He).
  destruct (push_sorted q [1] 2 150 8 Hq) as (q' & ps' & H1 & H2 & H3 & _).
  - set_solver.
  - intros f [= <-]. unfold entry_at in He. injection He as -> _. lia.
  - exists q, q', ps'. split_and!; [done..|]. rewrite H3. unfold deadlines. cbn. by rewrite He.
Defined.

Lemma clean_expires_witness :
  ∃ q q' out, q_rep q [1] ∧ clean q 200 = Ret (q', out) ∧ map entry_of out = [(100, 7)].
Proof.
  destruct one_request as (q & _ & Hq & He).
  destruct (clean_expires q [1] 200 Hq) as (q' & ps' & out & H1 & _ & H3 & _ & H5).
  exists q, q', out. split_and!; [done..|].
  unfold deadlines at 1 in H3. cbn in H3. rewrite He in H3.
  destruct (map entry_of out) as [|e l].
  - cbn in H3. rewrite <- H3 in H5. apply Forall_cons in H5 as [H5 _]. cbn in H5. lia.
  - injection H3 as <- H3. symmetry in H3. by apply app_nil in H3 as [-> _].
Defined.

(** A request whose deadline is before the only pending one corrupts the
    queue: the branch that should put it at the head falls through into the
    general insertion, the links form a cycle without a way back, and the next
    [clean] after that deadline dereferences nil. *)
Theorem push_earliest_corrupts q x p t tid now :
  q_rep q [x] → p ≠ x → t < time_at (q_mem q) x → t < now →
  ∃ q', pushNew q p t tid = Ret q' ∧ clean q' now = Panic.
Proof.
  intros [Hs _ Htail Hhead Hlen _] Hpx Ht Hnow. cbn in Htail, Hhead.
  destruct Hs as (nx & Hnx & Hprev & Hnext & _). unfold time_at in Ht. rewrite Hnx in Ht.
  change (zlen [x]) with 1 in Hlen.
  unfold pushNew, push. cbn [q_mem q_head q_tail q_l].
  rewrite (load_some _ p (TimeoutMsg t tid None None)) by apply lookup_insert_eq.
  bsimpl. cbn [tm_t]. rewrite Hlen, Htail. cbn [head_or].
  change (1 + 1 =? 1) with false. cbv iota. change (Z.to_nat (1 + 1)) with 2%nat.
  assert (<[p := TimeoutMsg t tid None None]> (q_mem q) !! x = Some nx) as Hx
    by (by rewrite lookup_insert_ne).
  cbn [seek]. rewrite (load_some _ x nx Hx). bsimpl. rewrite Hnext. cbn [andb].
  rewrite bool_decide_false by naive_solver. cbn [andb]. bsimpl. rewrite Hnext.
  rewrite bool_decide_true by done. destruct (Z.ltb_spec t (tm_t nx)); [|lia]. cbn [andb].
  rewrite (store_next_some _ x nx) by done. bsimpl.
  rewrite (store_prev_some _ p (TimeoutMsg t tid None None))
    by (by rewrite lookup_insert_ne, lookup_insert_eq). bsimpl. cbn [q_mem q_head q_tail q_l].
  rewrite (load_some _ x (set_next nx (Some p)))
    by (by rewrite lookup_insert_ne, lookup_insert_eq). bsimpl.
  cbn [tm_prev set_next]. rewrite Hprev.
  rewrite (store_prev_some _ x (set_next nx (Some p)))
    by (by rewrite lookup_insert_ne, lookup_insert_eq). bsimpl.
  rewrite (store_next_some _ p (set_prev (TimeoutMsg t tid None None) (Some x)))
    by (by rewrite lookup_insert_ne, lookup_insert_eq). bsimpl.
  erewrite (store_prev_some _ p) by apply lookup_insert_eq. bsimpl.
  eexists. split; [done|]. unfold clean. cbn [q_l]. change (Z.to_nat (1 + 1)) with 2%nat. cbn [cleanLoop q_l].
  change (0 <? 1 + 1) with true. cbv iota. cbn [q_mem q_head].
  erewrite (load_some _ p) by apply lookup_insert_eq. bsimpl. cbn [tm_t set_prev set_next].
  destruct (Z.ltb_spec t now); [|lia].
  unfold popHead. cbn [q_mem q_head q_tail q_l].
  erewrite (load_some _ p) by apply lookup_insert_eq. bsimpl. cbn [tm_prev set_prev set_next]. done.
Qed.

Lemma push_earliest_corrupts_witness :
  ∃ q q', q_rep q [1] ∧ pushNew q 2 50 8 = Ret q' ∧ clean q' 60 = Panic.
Proof.
  destruct one_request as (q & _ & Hq & He).
  destruct (push_earliest_corrupts q 1 2 50 8 60 Hq) as (q' & H1 & H2).
  - lia.
  - unfold entry_at in He. injection He as -> _. lia.
  - lia.
  - by exists q, q'.
Defined.
