(* ===== verification/Broker.v ===== *)
(** * The broker of a client connection ([broker] of src/com/comclient.go)

    Requests are numbered, wait for their response under that number, and are
    answered with an error when their deadline passes or the connection is
    closed.  The operations below are the critical sections of the three
    goroutines; their interleavings, with the hand-shake that wakes the
    ticker, are a transition system. *)
From stdpp Require Import pretty.
From S2P Require Import Prelude.
From S2P Require Import TcpMessage.
From S2P Require Import TimeoutQueue.

Record result := Result { r_value : list byte; r_err : option string }.

(** A channel is named by a number.  [out] are the results sent, in order,
    with the identifier of the request they answer. *)
Record broker := mkBroker {
  pq : queue;
  waits : gmap Z Z;
  tid : Z;
  out : list (Z * Z * result)
}.

Definition newBroker : broker := mkBroker createQueue ∅ 0 [].

Definition set_pq (b : broker) (q : queue) : broker := mkBroker q (waits b) (tid b) (out b).

(** [w, ok := waits[id]; if ok { delete(waits, id); w <- r }]. *)
Definition deliver (b : broker) (id : Z) (r : result) : broker :=
  match waits b !! id with
  | Some ch => mkBroker (pq b) (delete id (waits b)) (tid b) (out b ++ [(id, ch, r)])
  | None => b
  end.

(** The callback of [clean] and [forall] on each node. *)
Definition deliverAll (b : broker) (tms : list timeoutMsg) (r : result) : broker :=
  foldl (λ b tm, deliver b (tm_tid tm) r) b tms.

Definition response (m : Message) : result :=
  if mType m =? Operation.OpResponse then Result (mValue m) None
  else if mType m =? Operation.OpOK then Result [] None
  else if mType m =? Operation.OpErr then
    Result [] (Some ("Response error: " +:+ String.string_of_list_byte (mValue m)))
  else Result [] (Some ("Invalid response operation code: " +:+ pretty (mType m))).

Section broker.
(** The addresses of the connection, as they are printed. *)
Context (local remote : string).

Definition addresses : string := "Local" +:+ local +:+ "Remote" +:+ remote.
Definition timeoutResult : result := Result [] (Some ("Timeout" +:+ addresses)).
Definition closedResult : result :=
  Result [] (Some ("Connection closed => fast timeout" +:+ addresses)).

(** The ticker at [now]. *)
Definition brokerTick (b : broker) (now : time) : outcome broker :=
  r ← clean (pq b) now; Ret (deliverAll (set_pq b r.1) r.2 timeoutResult).

(** The sender when the channel of requests is closed. *)
Definition brokerClose (b : broker) : outcome broker :=
  r ← forall_ (pq b); Ret (deliverAll (set_pq b r.1) r.2 closedResult).

(** The sender on a message; the node comes from the pool, with both links
    nil.  The message to write is returned. *)
Definition brokerSend (b : broker) (now : time) (m : Message) (timeout : Z) (rch : option Z) :
    outcome (broker * Message) :=
  let msg := Msg (mType m) (tid b) (mKey m) (mValue m) in
  let next := u32 (tid b + 1) in
  match rch with
  | Some ch =>
      if 0 <? timeout then
        q ← pushNew (pq b) (fresh (dom (q_mem (pq b)))) (now + timeout) (tid b);
        Ret (mkBroker q (<[tid b := ch]> (waits b)) next (out b), msg)
      else Panic
  | None =>
      if 0 <? timeout then Panic else Ret (mkBroker (pq b) (waits b) next (out b), msg)
  end.

Definition brokerReceive (b : broker) (m : Message) : broker := deliver b (mID m) (response m).

(** ** The goroutines *)

(** The ticker: not yet at the receive, waiting in it, or ticking. *)
Inductive ticker := TkStarting | TkIdle | TkActive.

(** The sender: at the receive, before the [select] that wakes the ticker, or
    returned. *)
Inductive sender := SdReady | SdWake | SdDone.

(** [sent] are the deadlines of the messages sent so far, [None] for one that
    expects no response. *)
Record system := Sys {
  sb : broker;
  clock : time;
  tk : ticker;
  sd : sender;
  sent : list (option time)
}.

Definition init (now : time) : system := Sys newBroker now TkStarting SdReady [].

(** [CreateConnection], given what dialling the address returns. *)
Definition CreateConnection (dialed : option string) (now : time) : string + system :=
  match dialed with Some err => inl err | None => inr (init now) end.

Inductive label := LTime | LSend | LReceive | LClose.

(** [timeouts] are those that the callers give to their requests. *)
Inductive bstep (timeouts : Z → Prop) : label → system → system → Prop :=
  | b_clock b now now' t s l :
      now ≤ now' → bstep timeouts LTime (Sys b now t s l) (Sys b now' t s l)
  | b_ready b now s l :
      bstep timeouts LTime (Sys b now TkStarting s l) (Sys b now TkIdle s l)
  | b_wake b now t l :
      (* the channel has no buffer: only a waiting ticker takes the value *)
      bstep timeouts LTime (Sys b now t SdWake l)
        (Sys b now (match t with TkIdle => TkActive | _ => t end) SdReady l)
  | b_tick b now at_ s l b' :
      at_ ≤ now → brokerTick b at_ = Ret b' →
      bstep timeouts LTime (Sys b now TkActive s l)
        (Sys b' now (if q_l (pq b') =? 0 then TkStarting else TkActive) s l)
  | b_send b now t l m d ch b' m' :
      timeouts d → 0 < d → brokerSend b now m d (Some ch) = Ret (b', m') →
      bstep timeouts LSend (Sys b now t SdReady l) (Sys b' now t SdWake (l ++ [Some (now + d)]))
  | b_send_only b now t l m timeout b' m' :
      timeout ≤ 0 → brokerSend b now m timeout None = Ret (b', m') →
      bstep timeouts LSend (Sys b now t SdReady l) (Sys b' now t SdReady (l ++ [None]))
  | b_receive b now t s l m :
      bstep timeouts LReceive (Sys b now t s l) (Sys (brokerReceive b m) now t s l)
  | b_close b now t l b' :
      brokerClose b = Ret b' →
      bstep timeouts LClose (Sys b now t SdReady l) (Sys b' now t SdDone l).

Definition reached (timeouts : Z → Prop) (s : system) : Prop :=
  ∃ now c, CreateConnection None now = inr c ∧ rtc (λ s s', ∃ l, bstep timeouts l s s') c s.

(** No request has an earlier deadline than one that was sent before it. *)
Definition in_order (l : list (option time)) : Prop :=
  ∀ (i j : nat) (di dj : time), (i < j)%nat → l !! i = Some (Some di) → l !! j = Some (Some dj) → di ≤ dj.

Lemma in_order_prefix l l' : in_order (l ++ l') → in_order l.
Proof. intros H i j di dj Hij Hi Hj. by eapply (H i j); [|apply lookup_app_l_Some..]. Qed.

Lemma in_order_snoc (l : list (option time)) (o : option time) :
  in_order l → (∀ (i : nat) (di dj : time), l !! i = Some (Some di) → o = Some dj → di ≤ dj) → in_order (l ++ [o]).
Proof.
  intros Hl Ho i j di dj Hij Hi Hj. assert (j < length (l ++ [o]))%nat as Hlt by (by eapply lookup_lt_Some).
  rewrite length_app in Hlt. change (length [o]) with 1%nat in Hlt. rewrite lookup_app_l in Hi by lia.
  destruct (decide (j < length l)%nat) as [Hlj|Hlj].
  - rewrite lookup_app_l in Hj by done. by eapply (Hl i j).
  - rewrite lookup_app_r in Hj by lia. replace (j - length l)%nat with 0%nat in Hj by lia. by eapply Ho; [|injection Hj].
Qed.

(** ** What is waiting and what is answered *)

Definition answered (b : broker) : list Z := map (λ e, e.1.1) (out b).

(** Request number [i] of [l], with its deadline. *)
Definition request (l : list (option time)) (i : Z) (dl : time) : Prop :=
  0 ≤ i ∧ l !! Z.to_nat i = Some (Some dl).

(** Every request is either waiting or answered, and answered once. *)
Record settled (b : broker) (l : list (option time)) : Prop := Settled {
  se_range : ∀ id ch, waits b !! id = Some ch → 0 ≤ id < zlen l;
  se_once : NoDup (answered b);
  se_split : ∀ id, id ∈ answered b → waits b !! id = None ∧ 0 ≤ id < zlen l;
  se_all : ∀ id dl, request l id dl → is_Some (waits b !! id) ∨ id ∈ answered b
}.

Lemma deliver_settled b l id r : settled b l → settled (deliver b id r) l.
Proof.
  intros [Hr Ho Hs Ha]. unfold deliver. destruct (waits b !! id) as [ch|] eqn:E; [|done].
  split; unfold answered in *; cbn [waits out].
  - intros id' ch' [_ H]%lookup_delete_Some. by eapply Hr.
  - rewrite map_app. apply NoDup_app. split_and!; [done| |apply NoDup_singleton].
    cbn. intros x Hx ->%list_elem_of_singleton. apply Hs in Hx as [Hx _]. congruence.
  - intros id' Hid'. rewrite map_app, elem_of_app in Hid'. destruct Hid' as [Hid'|Hid'].
    + destruct (Hs id' Hid') as [Hn Hb]. rewrite lookup_delete_None. by auto.
    + apply list_elem_of_singleton in Hid' as ->. cbn. split; [apply lookup_delete_eq|by eapply Hr].
  - intros id' dl Hreq. rewrite map_app, elem_of_app. destruct (decide (id = id')) as [<-|Hne].
    + right. right. by left.
    + destruct (Ha id' dl Hreq); [left; by rewrite lookup_delete_ne|right; by left].
Qed.

Lemma deliver_fixed b id r :
  pq (deliver b id r) = pq b ∧ tid (deliver b id r) = tid b ∧
  waits (deliver b id r) = delete id (waits b).
Proof.
  unfold deliver. destruct (waits b !! id) eqn:E; [done|]. split_and!; try done.
  by rewrite delete_id.
Qed.

Lemma deliverAll_ok tms r : ∀ b l,
  settled b l →
  settled (deliverAll b tms r) l ∧ pq (deliverAll b tms r) = pq b ∧
  tid (deliverAll b tms r) = tid b ∧
  ∀ id ch, waits (deliverAll b tms r) !! id = Some ch ↔
           waits b !! id = Some ch ∧ id ∉ map tm_tid tms.
Proof.
  induction tms as [|tm tms IH]; intros b l Hs; cbn [deliverAll foldl map].
  - split_and!; try done. set_solver.
  - destruct (IH (deliver b (tm_tid tm) r) l) as (H1 & H2 & H3 & H4); [by apply deliver_settled|].
    destruct (deliver_fixed b (tm_tid tm) r) as (Hq & Ht & Hw).
    fold (deliverAll (deliver b (tm_tid tm) r) tms r). rewrite H2, H3. split_and!; try done.
    intros id ch. rewrite H4, Hw, lookup_delete_Some, not_elem_of_cons. naive_solver.
Qed.

(** ** The invariant *)

Record binv (s : system) (ps : list ptr) : Prop := BInv {
  bi_queue : q_rep (pq (sb s)) ps;
  bi_tid : tid (sb s) = u32 (zlen (sent s));
  bi_entry : ∀ dl id, (dl, id) ∈ deadlines (pq (sb s)) ps → request (sent s) id dl;
  bi_waits : ∀ id ch, waits (sb s) !! id = Some ch →
    ∃ dl, (dl, id) ∈ deadlines (pq (sb s)) ps;
  bi_settled : settled (sb s) (sent s)
}.

Lemma binv_init now : binv (init now) [].
Proof.
  split; cbn; try done.
  - apply q_rep_new.
  - by intros dl id ?%not_elem_of_nil.
  - split; cbn; try done; [constructor|by intros id ?%not_elem_of_nil|].
    intros id dl [_ H]. by rewrite lookup_nil in H.
Qed.

Lemma entries_tids tms : map snd (map entry_of tms) = map tm_tid tms.
Proof. rewrite map_map. done. Qed.

(** Delivering the entries taken from the front of the queue. *)
Lemma binv_delivered s ps q' ps' tms r t' sd' :
  binv s ps → q_rep q' ps' →
  deadlines (pq (sb s)) ps = map entry_of tms ++ deadlines q' ps' →
  binv (Sys (deliverAll (set_pq (sb s) q') tms r) (clock s) t' sd' (sent s)) ps'.
Proof.
  intros [Hq Ht He Hw Hs] Hq' Hd.
  destruct (deliverAll_ok tms r (set_pq (sb s) q') (sent s)) as (H1 & H2 & H3 & H4).
  { by destruct Hs. }
  split; cbn [sb clock sent]; rewrite ?H2, ?H3; cbn [pq tid set_pq]; try done.
  - intros dl id Hin. apply He. rewrite Hd. apply elem_of_app. by right.
  - intros id ch [Hid Hn]%H4. destruct (Hw id ch Hid) as (dl & Hdl).
    rewrite Hd in Hdl. apply elem_of_app in Hdl as [Hdl|Hdl]; [|by exists dl].
    exfalso. apply Hn. rewrite <- entries_tids.
    apply (list_elem_of_fmap_2 snd) in Hdl. done.
Qed.

Lemma request_snoc l o id dl :
  request (l ++ [o]) id dl ↔ request l id dl ∨ (id = zlen l ∧ o = Some dl).
Proof.
  unfold request, zlen. rewrite lookup_app_Some, list_lookup_singleton_Some. split.
  - intros [Hid [H|(Hle & Hn & <-)]]; [by left|]. right. split; [lia|done].
  - intros [[Hid H]|[-> ->]]; [by auto|]. split; [lia|]. right. split_and!; [lia|lia|done].
Qed.

Lemma request_bound l id dl : request l id dl → 0 ≤ id < zlen l.
Proof. intros [Hid H]. apply lookup_lt_Some in H. unfold zlen. lia. Qed.

Lemma binv_send d s ps m ch :
  binv s ps → 0 < d → zlen (sent s) < 2 ^ 32 → in_order (sent s ++ [Some (clock s + d)]) →
  ∃ b' m' ps', brokerSend (sb s) (clock s) m d (Some ch) = Ret (b', m') ∧
    binv (Sys b' (clock s) (tk s) SdWake (sent s ++ [Some (clock s + d)])) ps' ∧
    waits b' = <[tid (sb s) := ch]> (waits (sb s)).
Proof.
  intros [Hq Ht He Hw [Sr So Ss Sa]] Hd Hlen Hord. unfold brokerSend.
  destruct (Z.ltb_spec 0 d); [|lia]. set (p := fresh _).
  assert (p ∉ ps) as Hp.
  { intros Hin. destruct (seg_lookup _ _ _ _ _ (qr_seg _ _ Hq) Hin) as [n Hn].
    apply (is_fresh (dom (q_mem (pq (sb s))))). by apply elem_of_dom_2 in Hn. }
  pose proof (zlen_nonneg (sent s)). rewrite u32_small in Ht by lia.
  destruct (push_sorted_ok (pq (sb s)) ps p (clock s + d) (tid (sb s)) Hq Hp)
    as (q' & ps' & -> & Hq' & Hperm & _).
  { intros f Hf. assert (request (sent s) (tid_at (q_mem (pq (sb s))) f) (time_at (q_mem (pq (sb s))) f)) as Hreq.
    2:{ destruct Hreq as [_ Hreq]. assert (Z.to_nat (tid_at (q_mem (pq (sb s))) f) < length (sent s))%nat by (by eapply lookup_lt_Some).
        eapply (Hord _ (length (sent s))); [done|by rewrite lookup_app_l|by rewrite lookup_app_r, Nat.sub_diag by lia]. }
    apply He. unfold deadlines. apply (list_elem_of_fmap_2 (entry_at _)), elem_of_reverse.
    by apply last_Some_elem_of. }
  bsimpl. eexists _, _, ps'. split; [done|]. split; [|done].
  assert (waits (sb s) !! tid (sb s) = None) as Hfree.
  { destruct (waits (sb s) !! tid (sb s)) as [c|] eqn:E; [|done]. apply Sr in E. lia. }
  split; cbn [sb clock sent pq tid waits]; try done.
  - rewrite zlen_app, Ht. done.
  - intros dl id. rewrite Hperm, elem_of_cons, request_snoc. intros [[= -> ->]|Hin].
    + right. by rewrite Ht.
    + left. by apply He.
  - intros id c. rewrite lookup_insert_Some. intros [[<- _]|[_ H']].
    + exists (clock s + d). rewrite Hperm. by left.
    + destruct (Hw _ _ H') as [dl Hdl]. exists dl. rewrite Hperm. by right.
  - split; cbn [waits]; change (answered _) with (answered (sb s)); rewrite ?zlen_app.
    + intros id c. rewrite lookup_insert_Some. intros [[<- _]|[_ H']].
      * change (zlen [_]) with 1. lia.
      * apply Sr in H'. change (zlen [_]) with 1. lia.
    + done.
    + intros id Hid. destruct (Ss id Hid) as [Hn Hb]. change (zlen [_]) with 1. split; [|lia].
      rewrite lookup_insert_ne; [done|lia].
    + intros id dl [Hr|[-> _]]%request_snoc.
      * destruct (Sa id dl Hr) as [[c Hc]|]; [left|by right].
        rewrite lookup_insert_is_Some. destruct (decide (tid (sb s) = id)); eauto.
      * left. rewrite <- Ht, lookup_insert_eq. eauto.
Qed.

(** A message without a response uses up a number. *)
Lemma binv_send_only s ps m timeout b' m' :
  binv s ps → timeout ≤ 0 → brokerSend (sb s) (clock s) m timeout None = Ret (b', m') →
  binv (Sys b' (clock s) (tk s) SdReady (sent s ++ [None])) ps.
Proof.
  intros [Hq Ht He Hw [Sr So Ss Sa]] Hd. unfold brokerSend. destruct (Z.ltb_spec 0 timeout); [lia|].
  intros [= <- <-].
  split; cbn [sb clock sent pq tid waits]; try done.
  - rewrite Ht, zlen_app. change (zlen [_]) with 1. unfold u32.
    by rewrite Zplus_mod_idemp_l.
  - intros dl id Hin. rewrite request_snoc. left. by apply He.
  - split; cbn [waits]; change (answered _) with (answered (sb s)); rewrite ?zlen_app;
      change (zlen [_]) with 1; try done.
    + intros id c Hc. apply Sr in Hc. lia.
    + intros id Hid. destruct (Ss id Hid). split; [done|lia].
    + intros id dl [Hr|[_ ?]]%request_snoc; [by eapply Sa|done].
Qed.

Lemma brokerTick_ok s ps t :
  binv s ps →
  ∃ q' ps' tms, brokerTick (sb s) t = Ret (deliverAll (set_pq (sb s) q') tms timeoutResult) ∧
    q_rep q' ps' ∧ deadlines (pq (sb s)) ps = map entry_of tms ++ deadlines q' ps' ∧
    Forall (λ e : time * Z, t ≤ e.1) (deadlines q' ps').
Proof.
  intros Hi. destruct (clean_ok (pq (sb s)) ps t (bi_queue _ _ Hi))
    as (q' & ps' & tms & Hc & Hq' & Hd & _ & Hge).
  exists q', ps', tms. unfold brokerTick. rewrite Hc. done.
Qed.

Lemma brokerClose_ok s ps :
  binv s ps →
  ∃ q' tms, brokerClose (sb s) = Ret (deliverAll (set_pq (sb s) q') tms closedResult) ∧
    q_rep q' [] ∧ deadlines (pq (sb s)) ps = map entry_of tms ++ deadlines q' [].
Proof.
  intros Hi. destruct (forall_ok (pq (sb s)) ps (bi_queue _ _ Hi)) as (q' & tms & Hc & Hq' & Hd).
  exists q', tms. unfold brokerClose. rewrite Hc, <- Hd. split_and!; try done.
  by rewrite app_nil_r.
Qed.

Lemma binv_step timeouts l s s' ps :
  binv s ps → zlen (sent s') ≤ 2 ^ 32 → in_order (sent s') → bstep timeouts l s s' → ∃ ps', binv s' ps'.
Proof.
  intros Hi Hlen Hord Hs. destruct Hs as [b now now' t x l Hle|b now x l|b now t l|b now at_ x l b' _ E
    |b now t l m d ch b' m' _ Hd E|b now t l m timeout b' m' Hd E|b now t x l m|b now t l b' E].
  - exists ps. by destruct Hi.
  - exists ps. by destruct Hi.
  - exists ps. by destruct Hi.
  - destruct (brokerTick_ok _ ps at_ Hi) as (q' & ps' & tms & E' & Hq' & Hd & _).
    cbn [sb] in E'. rewrite E in E'. injection E' as ->. exists ps'.
    by apply (binv_delivered _ ps q' ps' tms timeoutResult _ x Hi).
  - cbn [sent] in Hlen. rewrite zlen_app in Hlen. change (zlen [_]) with 1 in Hlen.
    destruct (binv_send d _ ps m ch Hi Hd) as (b1 & m1 & ps' & E1 & Hi1 & _); [cbn; lia|done|].
    cbn [sb clock tk sent] in *. rewrite E in E1. injection E1 as <- _. by exists ps'.
  - exists ps. by apply (binv_send_only (Sys b now t SdReady l) ps m timeout b' m').
  - exists ps. destruct Hi as [Hq Ht He Hw Hs]. unfold brokerReceive.
    destruct (deliver_fixed b (mID m) (response m)) as (Eq & Et & Ew).
    split; cbn [sb clock sent] in *; rewrite ?Eq, ?Et, ?Ew; try done.
    + intros id ch [_ H]%lookup_delete_Some. by eapply Hw.
    + by apply deliver_settled.
  - destruct (brokerClose_ok _ ps Hi) as (q' & tms & E' & Hq' & Hd).
    cbn [sb] in E'. rewrite E in E'. injection E' as ->. exists [].
    by apply (binv_delivered _ ps q' [] tms closedResult t SdDone Hi).
Qed.

Lemma sent_grows timeouts l s s' : bstep timeouts l s s' → ∃ more, sent s' = sent s ++ more.
Proof. destruct 1; cbn [sent]; first [by eexists|by exists []; rewrite app_nil_r]. Qed.

Lemma binv_reached timeouts s :
  reached timeouts s → zlen (sent s) ≤ 2 ^ 32 → in_order (sent s) → ∃ ps, binv s ps.
Proof.
  intros (now & c & [= <-] & Hr). revert Hr.
  apply (rtc_ind_r (λ s, zlen (sent s) ≤ 2 ^ 32 → in_order (sent s) → ∃ ps, binv s ps)).
  - intros _ _. exists []. apply binv_init.
  - intros s1 s2 _ [l Hs] IH Hlen Hord. destruct (sent_grows _ _ _ _ Hs) as [more E].
    destruct IH as [ps Hi]; [|by eapply in_order_prefix; rewrite <- E|by eapply binv_step].
    rewrite E, zlen_app in Hlen. pose proof (zlen_nonneg more). lia.
Qed.

(** With one timeout for all requests the deadlines are in order. *)
Lemma one_timeout_in_order d s : reached (.= d) s → in_order (sent s).
Proof.
  intros (now & c & [= <-] & Hr).
  assert (in_order (sent s) ∧ ∀ i dl, sent s !! i = Some (Some dl) → dl ≤ clock s + d) as [? _]; [|done].
  revert Hr. apply (rtc_ind_r (λ s, in_order (sent s) ∧ ∀ i dl, sent s !! i = Some (Some dl) → dl ≤ clock s + d)).
  - split; [by intros i j di dj _ ?|by intros i dl ?].
  - intros s1 s2 _ [l Hs] [Hord Hle]. destruct Hs; cbn [sent clock] in *; try done.
    + split; [done|]. intros i dl Hi. specialize (Hle i dl Hi). lia.
    + subst. split; [apply in_order_snoc; [done|]; intros i di dj Hi [= <-]; by eapply Hle|].
      intros i dl [Hi|(_ & Hi)]%lookup_app_Some; [by eapply Hle|]. apply list_lookup_singleton_Some in Hi as [_ [= <-]]. lia.
    + split; [by apply in_order_snoc|]. intros i dl [Hi|(_ & Hi)]%lookup_app_Some; [by eapply Hle|].
      by apply list_lookup_singleton_Some in Hi as [_ ?].
Qed.

(** ** The properties *)

(** C28. In every interleaving of the goroutines of a connection on which no
    request has an earlier deadline than one sent before it, no request is answered
    twice, and every request is either still waiting or has been answered: exactly
    one of the two; and sending another request that keeps this order never fails.
    At most 2^32 messages are sent.  (With one timeout for all requests the order
    always holds: [one_timeout_in_order].) *)
Theorem broker_answers_once timeouts s :
  reached timeouts s → in_order (sent s) → zlen (sent s) ≤ 2 ^ 32 →
  NoDup (answered (sb s)) ∧
  (∀ id dl, request (sent s) id dl →
    (is_Some (waits (sb s) !! id) ∧ id ∉ answered (sb s)) ∨
    (waits (sb s) !! id = None ∧ id ∈ answered (sb s))) ∧
  ∀ m timeout ch, 0 < timeout → in_order (sent s ++ [Some (clock s + timeout)]) → zlen (sent s) < 2 ^ 32 →
    ∃ b' m', brokerSend (sb s) (clock s) m timeout (Some ch) = Ret (b', m') ∧ is_Some (waits b' !! mID m').
Proof.
  intros Hr Hord Hlen. destruct (binv_reached timeouts s Hr Hlen Hord) as [ps Hi].
  pose proof Hi as [_ _ _ _ [Sr So Ss Sa]]. split; [done|]. split; cycle 1.
  { intros m timeout ch Ht Hord' Hlt. destruct (binv_send timeout s ps m ch Hi Ht Hlt Hord') as (b' & m' & ps' & E & _ & Hw).
    exists b', m'. split; [done|]. rewrite Hw. assert (mID m' = tid (sb s)) as ->; [|rewrite lookup_insert_eq; by eexists].
    revert E. unfold brokerSend. destruct (0 <? timeout); [|done]. intros (q & _ & [= _ <-])%bind_Ret_inv. done. }
  intros id dl Hreq. destruct (Sa id dl Hreq) as [[ch Hch]|Hin].
  - left. split; [eauto|]. intros Hin. apply Ss in Hin as [? _]. congruence.
  - right. split; [|done]. by apply Ss.
Qed.

(** C27. When no request of a connection has an earlier deadline than one sent
    before it, as when all have the same timeout ([one_timeout_in_order]), a tick at
    time [t] never fails and leaves no request waiting whose deadline has
    passed; closing the connection never fails and answers every request. *)
Theorem broker_answers_in_time timeouts s t :
  reached timeouts s → in_order (sent s) → zlen (sent s) ≤ 2 ^ 32 →
  ∃ b1 b2, brokerTick (sb s) t = Ret b1 ∧ brokerClose (sb s) = Ret b2 ∧
    ∀ id dl, request (sent s) id dl →
      (dl < t → id ∈ answered b1) ∧ id ∈ answered b2.
Proof.
  intros Hr Hord Hlen. destruct (binv_reached timeouts s Hr Hlen Hord) as [ps Hi].
  destruct (brokerTick_ok s ps t Hi) as (q1 & ps1 & tms1 & E1 & Hq1 & Hd1 & Hge).
  destruct (brokerClose_ok s ps Hi) as (q2 & tms2 & E2 & Hq2 & Hd2).
  eexists _, _. split_and!; [done..|]. intros id dl Hreq. split.
  - intros Hlt. pose proof (binv_delivered s ps q1 ps1 tms1 timeoutResult (tk s) (sd s) Hi Hq1 Hd1) as H1.
    destruct (se_all _ _ (bi_settled _ _ H1) id dl Hreq) as [[ch Hch]|]; [exfalso|done].
    destruct (bi_waits _ _ H1 id ch Hch) as [dl' Hin].
    destruct (bi_entry _ _ H1 dl' id Hin) as [_ Hdl'].
    destruct Hreq as [_ Hdl]. cbn [sent] in Hdl'. rewrite Hdl in Hdl'. injection Hdl' as <-.
    cbn [sb] in Hin. destruct (deliverAll_ok tms1 timeoutResult (set_pq (sb s) q1) (sent s))
      as (_ & Hpq & _); [by destruct (bi_settled _ _ Hi)|].
    rewrite Hpq in Hin. rewrite Forall_forall in Hge. specialize (Hge _ Hin). cbn in Hge. lia.
  - pose proof (binv_delivered s ps q2 [] tms2 closedResult (tk s) (sd s) Hi Hq2 Hd2) as H2.
    destruct (se_all _ _ (bi_settled _ _ H2) id dl Hreq) as [[ch Hch]|]; [exfalso|done].
    destruct (bi_waits _ _ H2 id ch Hch) as [dl' Hin]. by apply not_elem_of_nil in Hin.
Qed.

(** A wake-up can be lost: the sender offers it without waiting, and a
    ticker that is not yet waiting for it misses it.  Then the request is never
    timed out, however much time passes, until another message is sent or
    received. *)
Theorem broker_lost_wakeup (timeouts : Z → Prop) d now ch :
  timeouts d → 0 < d →
  ∃ s, reached timeouts s ∧ request (sent s) 0 (now + d) ∧
    ∀ s', rtc (bstep timeouts LTime) s s' → waits (sb s') !! 0 = Some ch.
Proof.
  intros Hto Hd. destruct (binv_send d (init now) [] (Msg Operation.OpGet 0 [] []) ch (binv_init now) Hd)
    as (b & m' & ps & E & _ & Hw); [by vm_compute|by apply in_order_snoc|].
  exists (Sys b now TkIdle SdReady [Some (now + d)]). split_and!.
  - exists now, (init now). split; [done|]. eapply rtc_l; [eexists; by eapply b_send|].
    eapply rtc_l; [eexists; apply b_wake|]. cbv iota.
    eapply rtc_l; [eexists; apply b_ready|]. apply rtc_refl.
  - done.
  - intros s' Hr.
    assert (∃ now', s' = Sys b now' TkIdle SdReady [Some (now + d)]) as [now' ->].
    { revert Hr. apply (rtc_ind_r (λ s', ∃ now', s' = Sys b now' TkIdle SdReady [Some (now + d)])).
      - by exists now.
      - intros s1 s2 _ Hs [now1 ->]. inversion Hs; subst; eauto. }
    cbn [sb]. rewrite Hw. apply lookup_insert_eq.
Qed.
End broker.

(** ** Witnesses *)

Definition sample_request : Message := Msg Operation.OpGet 0 (str "key") [].

(** A request that waits since time 100 with a timeout of 50. *)
Lemma sample_waiting :
  ∃ b, reached "" "" (.= 50) (Sys b 100 TkStarting SdWake [Some 150]) ∧ waits b !! 0 = Some 7.
Proof.
  destruct (binv_send 50 (init 100) [] sample_request 7 (binv_init 100))
    as (b & m' & ps & E & _ & Hw); [by vm_compute|by vm_compute|by apply in_order_snoc|].
  exists b. split; [|rewrite Hw; apply lookup_insert_eq].
  exists 100, (init 100). split; [done|]. apply rtc_once. exists LSend.
  by apply (b_send "" "" (.= 50) newBroker 100 TkStarting [] sample_request 50 7 b m').
Qed.

Lemma broker_answers_once_witness :
  ∃ b, waits b !! 0 = Some 7 ∧ NoDup (answered b) ∧ 0 ∉ answered b.
Proof.
  destruct sample_waiting as (b & Hr & Hw).
  destruct (broker_answers_once "" "" _ _ Hr) as (Hnd & H & _); [by eapply one_timeout_in_order|by vm_compute|].
  destruct (H 0 150) as [[_ Hn]|[Hn _]]; [done|..]; cbn [sb] in *; [|congruence].
  by exists b.
Defined.

Lemma broker_answers_in_time_witness :
  ∃ b b1, waits b !! 0 = Some 7 ∧ brokerTick "" "" b 151 = Ret b1 ∧ 0 ∈ answered b1.
Proof.
  destruct sample_waiting as (b & Hr & Hw).
  destruct (broker_answers_in_time "" "" _ _ 151 Hr) as (b1 & b2 & E1 & _ & H); [by eapply one_timeout_in_order|by vm_compute|].
  exists b, b1. split_and!; [done..|]. by apply (H 0 150).
Defined.

Lemma broker_lost_wakeup_witness :
  ∃ s, reached "" "" (.= 50) s ∧ request (sent s) 0 150 ∧
    ∀ s', rtc (bstep "" "" (.= 50) LTime) s s' → waits (sb s') !! 0 = Some 7.
Proof. apply (broker_lost_wakeup "" "" (.= 50) 50 100 7); by vm_compute. Defined.
