(* ===== verification/Core.v ===== *)
(** * The local chunks of a server ([src/core/core.go], [src/core/defrag.go])

    A core owns the chunks of the database; a chunk is present when this server
    holds it.  Each operation below is one critical section of the code: the
    mutex of the chunk, or the global one, is held throughout.  The operations
    with a callback ([Iterate], [BackwardsIterate]) release the mutex around
    it; [Traffic] lets other operations run meanwhile. *)
From stdpp Require Import pretty.
From S2P Require Import Prelude.
From S2P Require Import Hashing.
From S2P Require Import SyncChecksum.
From S2P Require Import Store.
From S2P Require Import PMap.
From S2P Require Import UdpHeartbeat.

(** [var protectionTime = time.Second * 10]. *)
Definition protectionPeriod : Z := 10 * second.

Record metaChunk := MetaChunk {
  pm : option PMap;
  present : bool;
  protected : bool;
  revision : Z;
  protectionTime : time
}.

Record Core := mkCore {
  dbpath : string;
  chunkSize : Z;
  knownChunks : Z;
  chunks : list metaChunk;
  (** The operations waiting in [defragChannel]. *)
  defragOps : list Z
}.

Definition newMetaChunk : metaChunk := MetaChunk None false false 0 zero_time.

Definition set_pm (k : metaChunk) (p : option PMap) : metaChunk :=
  MetaChunk p (present k) (protected k) (revision k) (protectionTime k).
Definition set_protection (k : metaChunk) (b : bool) (t : time) : metaChunk :=
  MetaChunk (pm k) (present k) b (revision k) t.
Definition setChunk (c : Core) (id : Z) (k : metaChunk) : Core :=
  mkCore (dbpath c) (chunkSize c) (knownChunks c) (<[Z.to_nat id := k]> (chunks c)) (defragOps c).
Definition set_known (c : Core) (n : Z) : Core :=
  mkCore (dbpath c) (chunkSize c) n (chunks c) (defragOps c).

(** [make([]*metaChunk, numChunks)] panics on a negative length. *)
Definition CoreNew (dbpath : string) (chunkSize numChunks : Z) : outcome Core :=
  _ ← check (0 <=? numChunks);
  Ret (mkCore dbpath chunkSize 0 (replicate (Z.to_nat numChunks) newMetaChunk) []).

Definition chunkPath (c : Core) (chunkID revision : Z) : string :=
  if decide (dbpath c = EmptyString) then EmptyString
  else dbpath c +:+ "/chunks/" +:+ pretty chunkID +:+ "_rev" +:+ pretty revision.

(** [files] is the directory [chunks/] as [ioutil.ReadDir] returns it: the
    names in order, with the contents of the files. *)
Definition findChunk (c : Core) (files : list (string * list byte)) (chunkID : Z) :
    option (string * list byte) :=
  if decide (dbpath c = EmptyString) then None
  else
    f ← List.find (λ f, String.prefix (pretty chunkID +:+ "_rev") f.1) files;
    Some (dbpath c +:+ "/chunks/" +:+ f.1, f.2).

(** The field [pm], which panics when it is nil. *)
Definition pmOf (k : metaChunk) : outcome PMap := orPanic (pm k).

Definition errNotPresent : error := "ChunkNotPresent".
Definition errNotSynced : error := "ChunkNotSynced".
Definition errProtect : error := "Not present".

Section core.
Context {G : Gommap}.

(** The loop of [Open] over the chunks from [id] on. *)
Fixpoint openChunks (c : Core) (files : list (string * list byte)) (id : Z)
    (ks : list metaChunk) : outcome (list metaChunk) :=
  match ks with
  | [] => Ret []
  | k :: ks =>
      k ← (match findChunk c files id with
           | Some (path, contents) =>
               p ← PMap.Open path contents;
               Ret (MetaChunk (Some p) true (protected k) (revision k) (protectionTime k))
           | None => Ret k
           end);
      ks ← openChunks c files (id + 1) ks;
      Ret (k :: ks)
  end.

Definition CoreOpen (c : Core) (files : list (string * list byte)) : outcome Core :=
  ks ← openChunks c files 0 (chunks c);
  Ret (mkCore (dbpath c) (chunkSize c) (knownChunks c) ks (defragOps c)).

Fixpoint closeChunks (ks : list metaChunk) : outcome (list metaChunk) :=
  match ks with
  | [] => Ret []
  | k :: ks =>
      k ← (match pm k with
           | Some p => p ← PMap.Close p; Ret (set_pm k (Some p))
           | None => Ret k
           end);
      ks ← closeChunks ks;
      Ret (k :: ks)
  end.

Definition CoreClose (c : Core) : outcome Core :=
  ks ← closeChunks (chunks c);
  Ret (mkCore (dbpath c) (chunkSize c) (knownChunks c) ks (defragOps c)).

(** ** Getters *)

Definition PresentChunks (c : Core) : Z := knownChunks c.

Fixpoint presentList (now : time) (id : Z) (ks : list metaChunk) :
    outcome (list AmAliveChunk * list metaChunk) :=
  match ks with
  | [] => Ret ([], [])
  | k :: ks =>
      if present k then
        p ← pmOf k;
        let s := PMap.Checksum p now in
        r ← presentList now (id + 1) ks;
        Ret (AAChunk id s.1 :: r.1, set_pm k (Some s.2) :: r.2)
      else
        r ← presentList now (id + 1) ks;
        Ret (r.1, k :: r.2)
  end.

(** [make(_, 0, c.knownChunks)] panics on a negative capacity. *)
Definition PresentChunksList (c : Core) (now : time) : outcome (list AmAliveChunk * Core) :=
  _ ← check (0 <=? knownChunks c);
  r ← presentList now 0 (chunks c);
  Ret (r.1, mkCore (dbpath c) (chunkSize c) (knownChunks c) r.2 (defragOps c)).

Definition IsPresent (c : Core) (id : Z) : outcome bool := k ← index (chunks c) id; Ret (present k).
Definition IsProtected (c : Core) (id : Z) : outcome bool :=
  k ← index (chunks c) id; Ret (protected k).

(** ** Setters *)

Definition ChunkSetPresent (c : Core) (cid : Z) : outcome Core :=
  k ← index (chunks c) cid;
  if negb (present k) then
    p ← PMap.New (chunkPath c cid 0) (chunkSize c);
    Ret (setChunk (set_known c (knownChunks c + 1)) cid
           (MetaChunk (Some p) true (protected k) (revision k) (protectionTime k)))
  else Ret c.

Definition ChunkSetNoPresent (c : Core) (cid : Z) : outcome Core :=
  k ← index (chunks c) cid;
  if present k then
    p ← pmOf k;
    _ ← PMap.CloseAndDelete p;
    Ret (setChunk (set_known c (knownChunks c - 1)) cid
           (MetaChunk None false false (revision k) (protectionTime k)))
  else Ret c.

(** At clock reading [now]; on success a goroutine calls [protectionExpired]
    with that time after [protectionPeriod]. *)
Definition ChunkSetProtected (c : Core) (cid : Z) (now : time) : outcome (Core * option error) :=
  k ← index (chunks c) cid;
  if negb (present k) then Ret (c, Some errProtect)
  else Ret (setChunk c cid (set_protection k true now), None).

Definition protectionExpired (c : Core) (cid : Z) (t : time) : outcome Core :=
  k ← index (chunks c) cid;
  if protectionTime k =? t then Ret (setChunk c cid (set_protection k false zero_time))
  else Ret c.

(** ** Primitives *)

(** The chunk of a key. *)
Definition chunkOf (c : Core) (key : list byte) : outcome (Z * metaChunk) :=
  id ← GetChunkID key (zlen (chunks c)); k ← index (chunks c) id; Ret (id, k).

Definition CoreGet (c : Core) (key : list byte) : outcome (error + option (list byte)) :=
  r ← chunkOf c key;
  if negb (present r.2) then Ret (inl errNotPresent)
  else p ← pmOf r.2; v ← PMap.Get p (u32 (FNV1a64 key)) key; Ret (inr v).

Definition CoreSet (c : Core) (key value : list byte) : outcome (Core * option error) :=
  r ← chunkOf c key;
  if negb (present r.2) then Ret (c, Some errNotPresent)
  else
    p ← pmOf r.2; s ← PMap.Set_ p (FNV1a64 key) key value;
    Ret (setChunk c r.1 (set_pm r.2 (Some s.1)), s.2).

(** [float64(a) / float64(b) > 0.1] for integers of at most 53 bits.  The
    rounded quotient is above the double nearest to 0.1, which is
    7205759403792794 / 2^56, exactly when the quotient is above the midpoint to
    the next double.  A division by zero gives an infinity or no number. *)
Definition aboveTenth (a b : Z) : bool :=
  if b =? 0 then 0 <? a else b * 14411518807585589 <? a * 2 ^ 57.

Definition CoreDelete (c : Core) (key value : list byte) : outcome (Core * option error) :=
  r ← chunkOf c key;
  if negb (present r.2) then Ret (c, Some errNotPresent)
  else
    p ← pmOf r.2; s ← PMap.Del p (FNV1a64 key) key value;
    let c := setChunk c r.1 (set_pm r.2 (Some s.1)) in
    if aboveTenth (PMap.Deleted s.1) (PMap.Used s.1) && aboveTenth (PMap.Used s.1) (PMap.Size s.1)
    then Ret (mkCore (dbpath c) (chunkSize c) (knownChunks c) (chunks c) (defragOps c ++ [r.1]), s.2)
    else Ret (c, s.2).

Definition CoreCAS (c : Core) (key value : list byte) (isSynced : Z → outcome bool) :
    outcome (Core * option error) :=
  r ← chunkOf c key;
  if negb (present r.2) then Ret (c, Some errNotPresent)
  else
    synced ← isSynced r.1;
    if negb synced then Ret (c, Some errNotSynced)
    else
    p ← pmOf r.2; s ← PMap.CAS p (FNV1a64 key) key value;
    Ret (setChunk c r.1 (set_pm r.2 (Some s.1)), s.2).

Definition CoreIterate {A} (foreach : A → list byte → list byte → outcome (A * bool))
    (c : Core) (chunkIndex : Z) (a : A) : outcome (error + A) :=
  k ← index (chunks c) chunkIndex;
  if negb (present k) then Ret (inl errNotPresent)
  else p ← pmOf k; a ← PMap.Iterate foreach p a; Ret (inr a).

Definition CoreBackwardsIterate {A} (foreach : A → list byte → list byte → outcome (A * bool))
    (c : Core) (chunkIndex : Z) (a : A) : outcome (error + A) :=
  k ← index (chunks c) chunkIndex;
  if negb (present k) then Ret (inl errNotPresent)
  else p ← pmOf k; a ← PMap.BackwardsIterate foreach p a; Ret (inr a).

Definition LengthOfChunk (c : Core) (chunkIndex : Z) : outcome Z :=
  k ← index (chunks c) chunkIndex;
  if negb (present k) then Ret (2 ^ 64 - 1)
  else p ← pmOf k; Ret (u64 (PMap.Used p)).

(** ** Defragmentation *)

(** The callback: set the pair in the new map; an error panics. *)
Definition defragSet (p : PMap) (key value : list byte) : outcome (PMap * bool) :=
  s ← PMap.Set_ p (FNV1a64 key) key value;
  match s.2 with Some _ => Panic | None => Ret (s.1, true) end.

(** What creating a file does to a map that has the same file mapped: the
    shared mapping reads as zero, and as nothing past the end of the file. *)
Definition truncate (p : PMap) (path : string) (size : Z) : PMap :=
  if decide (st_osFile (PMap.st p) = Some path)
  then set_st p (set_file (PMap.st p)
                   (replicate (Z.to_nat (Z.min size (zlen (st_file (PMap.st p))))) x00))
  else p.

(** One turn of the loop of the defragmenter. *)
Definition defrag (c : Core) (chunkID : Z) : outcome Core :=
  k ← index (chunks c) chunkID;
  (* the log line reads the map before the lock *)
  old ← pmOf k;
  let revision := s64 (revision k + 1) in
  let path := chunkPath c chunkID revision in
  new ← PMap.New path (chunkSize c);
  let old := truncate old path (chunkSize c) in
  new ← PMap.Iterate defragSet old new;
  _ ← PMap.CloseAndDelete old;
  Ret (setChunk c chunkID
         (MetaChunk (Some new) (present k) (protected k) revision (protectionTime k))).
End core.
