(* ===== verification/CoreProps.v ===== *)
(** * What the core guarantees

    The abstract state of a core is the list of its chunks, each absent or the
    abstract state of a chunk.  The primitives act on the chunk of the key and
    leave the others alone; the setters keep the count of present chunks. *)
From S2P Require Import Prelude.
From S2P Require Import Hashing.
From S2P Require Import SyncChecksum.
From S2P Require Import Store.
From S2P Require Import HashMap.
From S2P Require Import PMap.
From S2P Require Import PMapSpec.
From S2P Require Import Chunk.
From S2P Require Import Replicas.
From S2P Require Import PMapProps.
From S2P Require Import PMapIter.
From S2P Require Import PMapOpen.
From S2P Require Import UdpHeartbeat.
From S2P Require Import Core.

Definition chunk_rep (size : Z) (k : metaChunk) (o : option abs) : Prop :=
  match o with
  | None => present k = false ∧ pm k = None
  | Some a => present k = true ∧ a_size a = size ∧ abs_wf a ∧ ∃ p, pm k = Some p ∧ pm_rep p a
  end.

(** The number of present chunks. *)
Fixpoint count (As : list (option abs)) : Z :=
  match As with
  | [] => 0
  | Some _ :: As => 1 + count As
  | None :: As => count As
  end.

Record core_rep (c : Core) (As : list (option abs)) : Prop := CoreRep {
  cr_chunks : Forall2 (chunk_rep (chunkSize c)) (chunks c) As;
  cr_size : 0 < chunkSize c ≤ maxChunkSize;
  cr_number : 0 < zlen As < 2 ^ 63
}.

(** The core knows how many chunks it has. *)
Definition counted (c : Core) (As : list (option abs)) : Prop := knownChunks c = count As.

Lemma count_range As : 0 ≤ count As ≤ zlen As.
Proof. induction As as [|[a|] As IH]; cbn [count]; [by vm_compute|rewrite zlen_cons; lia..]. Qed.

Definition present_in (o : option abs) : Z := match o with Some _ => 1 | None => 0 end.

Lemma count_insert As : ∀ (i : nat) o o',
  As !! i = Some o → count (<[i := o']> As) = count As - present_in o + present_in o'.
Proof.
  induction As as [|x As IH]; intros [|i] o o' H; try done; cbn in H.
  - injection H as ->. cbn. destruct o, o'; cbn; lia.
  - change (<[S i := o']> (x :: As)) with (x :: <[i := o']> As).
    specialize (IH i o o' H). destruct x; cbn [count]; lia.
Qed.

(** The index of the chunk of a key. *)
Definition chunkIndex (n : Z) (key : list byte) : nat :=
  Z.to_nat (Z.shiftr (FNV1a64 key) 32 mod n).

(** One primitive on a core; every chunk is in sync for [CAS]. *)
Definition core_step (c : Core) (o : op) : outcome (Core * reply) :=
  match o with
  | OpGet k =>
      r ← CoreGet c k;
      Ret (c, match r with inl e => RError (Some e) | inr v => RValue v end)
  | OpSet k v => r ← CoreSet c k v; Ret (r.1, RError r.2)
  | OpCAS k x => r ← CoreCAS c k x (λ _, Ret true); Ret (r.1, RError r.2)
  | OpDel k x => r ← CoreDelete c k x; Ret (r.1, RError r.2)
  end.

Definition spec_core (As : list (option abs)) (o : op) :
    outcome (list (option abs) * reply) :=
  let i := chunkIndex (zlen As) (op_key o) in
  match As !! i with
  | Some (Some a) => r ← spec_step a o; Ret (<[i := Some r.1]> As, r.2)
  | _ => Ret (As, RError (Some errNotPresent))
  end.

Section core.
Context (c : Core) (As : list (option abs)) (Hc : core_rep c As).

Lemma core_length : zlen (chunks c) = zlen As.
Proof using Hc. unfold zlen. by rewrite (Forall2_length _ _ _ (cr_chunks _ _ Hc)). Qed.

Lemma index_range key : (chunkIndex (zlen As) key < length As)%nat.
Proof using Hc.
  pose proof (cr_number _ _ Hc). unfold chunkIndex, zlen in *.
  pose proof (Z.mod_pos_bound (Z.shiftr (FNV1a64 key) 32) (Z.of_nat (length As))). lia.
Qed.

Lemma chunk_at i o :
  As !! i = Some o → ∃ k, chunks c !! i = Some k ∧ index (chunks c) (Z.of_nat i) = Ret k ∧
    chunk_rep (chunkSize c) k o.
Proof using Hc.
  intros Hi. destruct (Forall2_lookup_r _ _ _ _ _ (cr_chunks _ _ Hc) Hi) as (k & Hk & Hr).
  exists k. split_and!; [done| |done]. apply index_lookup; [lia|]. by rewrite Nat2Z.id.
Qed.

Lemma chunkOf_at key o :
  As !! chunkIndex (zlen As) key = Some o →
  ∃ k, chunkOf c key = Ret (Z.of_nat (chunkIndex (zlen As) key), k) ∧
       chunks c !! chunkIndex (zlen As) key = Some k ∧ chunk_rep (chunkSize c) k o.
Proof using Hc.
  intros Hi. destruct (chunk_at _ _ Hi) as (k & Hk & Hix & Hr). exists k. split; [|done].
  pose proof (cr_number _ _ Hc). unfold chunkOf. rewrite core_length, GetChunkID_Ret by done.
  bsimpl. unfold chunkIndex in *.
  pose proof (Z.mod_pos_bound (Z.shiftr (FNV1a64 key) 32) (zlen As)).
  rewrite Z2Nat.id in * by lia. by rewrite Hix.
Qed.

(** The chunk [i] is replaced by one that represents [a]. *)
Lemma core_rep_update i k o p a :
  As !! i = Some (Some o) → chunks c !! i = Some k → present k = true →
  pm_rep p a → abs_wf a → a_size a = chunkSize c →
  core_rep (setChunk c (Z.of_nat i) (set_pm k (Some p))) (<[i := Some a]> As).
Proof using Hc.
  intros Hi Hk Hp Hr Hw Hsz. destruct Hc as [H1 H3 H4].
  split; cbn [chunks knownChunks chunkSize setChunk]; try done.
  - rewrite Nat2Z.id. apply Forall2_insert; [done|]. cbn. split_and!; try done. by exists p.
  - unfold zlen. by rewrite length_insert.
Qed.

Lemma core_rep_defrag q : core_rep (mkCore (dbpath c) (chunkSize c) (knownChunks c) (chunks c) q) As.
Proof using Hc. by destruct Hc as [H1 H3 H4]. Qed.
End core.

(** The primitive of a core is the primitive of its chunk. *)
Lemma core_sim c As o :
  core_rep c As → op_ok o →
  match spec_core As o with
  | Ret (As', r) => ∃ c', core_step c o = Ret (c', r) ∧ core_rep c' As'
  | _ => core_step c o = Panic
  end.
Proof.
  intros Hc Ho. unfold spec_core. pose proof (index_range c As Hc (op_key o)) as Hix.
  destruct (As !! chunkIndex (zlen As) (op_key o)) as [oa|] eqn:Hi;
    [|apply lookup_ge_None_1 in Hi; lia].
  destruct (chunkOf_at c As Hc (op_key o) oa Hi) as (k & Hof & Hk & Hr).
  destruct oa as [a|]; cycle 1.
  { destruct Hr as [Hp _]. exists c. split; [|done].
    destruct o as [key|key v|key x|key x]; cbn [core_step op_key] in *;
      unfold CoreGet, CoreSet, CoreCAS, CoreDelete; rewrite Hof; bsimpl; by rewrite Hp. }
  destruct Hr as (Hp & Hsz & Hw & p & Hpm & Hrep).
  assert (∀ p' a' r, spec_step a o = Ret (a', r) → pm_rep p' a' →
    core_rep (setChunk c (Z.of_nat (chunkIndex (zlen As) (op_key o))) (set_pm k (Some p')))
             (<[chunkIndex (zlen As) (op_key o) := Some a']> As)) as Hup.
  { intros p' a' r E Hr'. eapply core_rep_update; try done.
    - by eapply abs_wf_step.
    - by rewrite (spec_step_size _ _ _ _ E). }
  destruct o as [key|key v|key x|key x]; cbn [core_step op_key op_ok spec_step] in *;
    unfold CoreGet, CoreSet, CoreCAS, CoreDelete, pmOf; rewrite Hof; bsimpl;
    rewrite Hp, Hpm; cbn [negb orPanic]; bsimpl.
  - exists c. split; [|by rewrite list_insert_id].
    assert (Get p (u32 (FNV1a64 key)) key = Get p (FNV1a64 key) key) as ->.
    { unfold Get. by rewrite (u32_small (u32 _)) by apply u32_range. }
    by rewrite (Get_sim p a).
  - destruct (Set_sim p a key v) as (p' & -> & Hr'); [done..|]. bsimpl.
    eexists. split; [done|]. by eapply Hup.
  - destruct (CAS_sim p a key x) as (p' & -> & Hr'); [done..|]. bsimpl.
    eexists. split; [done|]. by eapply Hup.
  - pose proof (Del_sim p a key x Hrep ltac:(zl)) as Hd.
    destruct (spec_Del a key x) as [[a' e]| |] eqn:E; bsimpl; [|by rewrite Hd..].
    destruct Hd as (p' & -> & Hr'). bsimpl. specialize (Hup p' a' _ eq_refl Hr').
    destruct (_ && _); eexists; split; try done. by apply core_rep_defrag.
Qed.

(** ** Commands

    The primitives and the two setters that add and drop chunks, as one
    alphabet. *)
Inductive command :=
  | Primitive (o : op)
  | SetPresent (cid : Z)
  | SetNoPresent (cid : Z).

Definition command_ok (x : command) : Prop :=
  match x with Primitive o => op_ok o | _ => True end.
#[export] Instance command_ok_dec x : Decision (command_ok x).
Proof. destruct x; apply _. Defined.

Definition done_reply : reply := RError None.

(** A chunk is added empty and dropped with everything it holds; an index out
    of range panics. *)
Definition spec_command (size : Z) (As : list (option abs)) (x : command) :
    outcome (list (option abs) * reply) :=
  match x with
  | Primitive o => spec_core As o
  | SetPresent cid =>
      o ← index As cid;
      Ret (match o with None => <[Z.to_nat cid := Some (new_abs size)]> As | Some _ => As end, done_reply)
  | SetNoPresent cid =>
      o ← index As cid;
      Ret (match o with Some _ => <[Z.to_nat cid := None]> As | None => As end, done_reply)
  end.

Fixpoint spec_commands (size : Z) (As : list (option abs)) (xs : list command) :
    outcome (list (option abs) * list reply) :=
  match xs with
  | [] => Ret (As, [])
  | x :: xs =>
      r ← spec_command size As x; rs ← spec_commands size r.1 xs; Ret (rs.1, r.2 :: rs.2)
  end.

Section commands.
Context {G : Gommap}.

Definition run_command (c : Core) (x : command) : outcome (Core * reply) :=
  match x with
  | Primitive o => core_step c o
  | SetPresent cid => c ← ChunkSetPresent c cid; Ret (c, done_reply)
  | SetNoPresent cid => c ← ChunkSetNoPresent c cid; Ret (c, done_reply)
  end.

Fixpoint run_commands (c : Core) (xs : list command) : outcome (Core * list reply) :=
  match xs with
  | [] => Ret (c, [])
  | x :: xs => r ← run_command c x; rs ← run_commands r.1 xs; Ret (rs.1, r.2 :: rs.2)
  end.

Context {GL : GommapLaws}.

Lemma close_mapped c : 0 < zlen (st_file (st c)) → ∃ r, CloseAndDelete c = Ret r.
Proof using GL.
  intros Hpos. unfold CloseAndDelete, close, deleteStore. rewrite unsafeUnmap_ok by done.
  apply Z.ltb_lt in Hpos as ->. by eexists.
Qed.

Lemma close_ok c a : pm_rep c a → ∃ r, CloseAndDelete c = Ret r.
Proof using GL.
  intros [d Hd]. destruct (pd_store _ _ _ Hd) as [_ Hlen Hsz Hroom _].
  apply close_mapped. pose proof (zlen_nonneg (enc_log (a_log a))). lia.
Qed.

(** Closing a core closes all its files. *)
Lemma CoreClose_ok c As :
  core_rep c As → ∃ c', CoreClose c = Ret c' ∧ Forall (λ k, ∀ p, pm k = Some p → zlen (st_file (st p)) = 0) (chunks c').
Proof using GL.
  intros Hc. unfold CoreClose.
  assert (∃ ks, closeChunks (chunks c) = Ret ks ∧ Forall (λ k, ∀ p, pm k = Some p → zlen (st_file (st p)) = 0) ks) as (ks & -> & Hks).
  { generalize (cr_chunks _ _ Hc). generalize (chunks c), (chunkSize c). clear Hc.
    induction 1 as [|k o ks os Hk _ (ks' & IH & Hall)]; [by exists []|]. cbn [closeChunks]. rewrite IH.
    destruct o as [a|].
    - destruct Hk as (_ & _ & _ & p & -> & Hp). destruct (close_ok p a Hp) as [r Hr]. unfold CloseAndDelete in Hr.
      apply bind_Ret_inv in Hr as (s & Es & _). unfold PMap.Close. rewrite Es. bsimpl. eexists. split; [done|].
      constructor; [|done]. cbn. intros q [= <-]. cbn. unfold close in Es. outcome_inv. by subst.
    - destruct Hk as [_ Hk]. rewrite Hk. bsimpl. eexists. split; [done|]. constructor; [|done]. by rewrite Hk. }
  bsimpl. by eexists.
Qed.

(** A core with a different chunk [i]. *)
Lemma core_rep_set c As i o k n :
  core_rep c As → chunk_rep (chunkSize c) k o →
  core_rep (setChunk (set_known c n) (Z.of_nat i) k) (<[i := o]> As).
Proof.
  intros [H1 H3 H4] Hk.
  split; cbn [chunks knownChunks chunkSize setChunk set_known]; try done.
  - rewrite Nat2Z.id. by apply Forall2_insert.
  - unfold zlen. by rewrite length_insert.
Qed.

Lemma counted_set c As i o o' k n :
  counted c As → As !! i = Some o → n = knownChunks c - present_in o + present_in o' →
  counted (setChunk (set_known c n) (Z.of_nat i) k) (<[i := o']> As).
Proof. unfold counted. intros Hc Hi ->. rewrite (count_insert As i o) by done. cbn. lia. Qed.

Lemma index_both c As cid :
  core_rep c As →
  (∃ o k, cid = Z.of_nat (Z.to_nat cid) ∧ index As cid = Ret o ∧ index (chunks c) cid = Ret k ∧
     As !! Z.to_nat cid = Some o ∧ chunk_rep (chunkSize c) k o) ∨
  (index As cid = Panic ∧ index (chunks c) cid = Panic).
Proof.
  intros Hc. pose proof (core_length c As Hc) as Hlen.
  destruct (decide (0 ≤ cid < zlen As)) as [Hr|Hr]; [left|right].
  - destruct (lookup_lt_is_Some_2 As (Z.to_nat cid)) as [o Ho]; [unfold zlen in Hr; lia|].
    destruct (chunk_at c As Hc _ _ Ho) as (k & _ & Hk & Hrep).
    rewrite Z2Nat.id in Hk by lia. exists o, k. rewrite (index_lookup As cid o) by (done || lia).
    split_and!; (done || lia).
  - rewrite !index_panic by lia. done.
Qed.

Lemma core_step_fixed c o c' r :
  core_step c o = Ret (c', r) → chunkSize c' = chunkSize c ∧ knownChunks c' = knownChunks c.
Proof.
  destruct o as [k|k v|k x|k x]; cbn [core_step]; unfold CoreGet, CoreSet, CoreCAS, CoreDelete;
    destruct (chunkOf c k) as [[i m]| |]; bsimpl; try done;
    destruct (negb (Core.present m)); bsimpl; try (by intros [= <- <-]);
    destruct (pmOf m) as [p| |]; bsimpl; try done.
  - destruct (Get _ _ _); bsimpl; try done; by intros [= <- <-].
  - destruct (Set_ _ _ _ _) as [[? ?]| |]; bsimpl; try done; by intros [= <- <-].
  - destruct (CAS _ _ _ _) as [[? ?]| |]; bsimpl; try done; by intros [= <- <-].
  - destruct (Del _ _ _ _) as [[? ?]| |]; bsimpl; [destruct (_ && _); by intros [= <- <-]|done..].
Qed.

Lemma spec_core_count As o As' r : spec_core As o = Ret (As', r) → count As' = count As.
Proof.
  unfold spec_core. generalize (chunkIndex (zlen As) (op_key o)). intros i.
  destruct (As !! i) as [[a|]|] eqn:E; [|by intros [= <- <-]..].
  destruct (spec_step a o) as [[a' r']| |]; bsimpl; [|done..]. intros [= <- <-].
  rewrite (count_insert As _ (Some a)) by exact E. cbn [present_in]. lia.
Qed.

Lemma command_sim c As x :
  core_rep c As → command_ok x →
  match spec_command (chunkSize c) As x with
  | Ret (As', r) => ∃ c', run_command c x = Ret (c', r) ∧ core_rep c' As' ∧
                          chunkSize c' = chunkSize c ∧ (counted c As → counted c' As')
  | _ => run_command c x = Panic
  end.
Proof using GL.
  intros Hc Hx. destruct x as [o|cid|cid]; cbn [spec_command run_command].
  - pose proof (core_sim c As o Hc Hx) as Hs. destruct (spec_core As o) as [[As' r]| |] eqn:Ess; try done.
    destruct Hs as (c' & E & Hc'). destruct (core_step_fixed _ _ _ _ E) as [? Hk].
    exists c'. split_and!; [done..|]. unfold counted. by rewrite Hk, (spec_core_count _ _ _ _ Ess).
  - unfold ChunkSetPresent.
    destruct (index_both c As cid Hc) as [(o & k & Hcid & -> & -> & Ho & Hrep)|[-> ->]]; bsimpl; [|done].
    destruct o as [a|]; cbn in Hrep.
    { destruct Hrep as [-> _]. by exists c. }
    destruct Hrep as [-> _]. cbn [negb].
    destruct (New_sim (chunkPath c cid 0) (chunkSize c)) as (p & -> & Hp); [apply Hc|]. bsimpl.
    eexists. split_and!; [done| |done|].
    + rewrite Hcid at 1. apply core_rep_set; [done|]. cbn.
      split_and!; [done..|apply abs_wf_new|by exists p].
    + intros Hn. rewrite Hcid at 1. eapply counted_set; [done..|]. cbn. lia.
  - unfold ChunkSetNoPresent.
    destruct (index_both c As cid Hc) as [(o & k & Hcid & -> & -> & Ho & Hrep)|[-> ->]]; bsimpl; [|done].
    destruct o as [a|]; cbn in Hrep; [|destruct Hrep as [-> _]; by exists c].
    destruct Hrep as (-> & _ & _ & p & Hpm & Hp). unfold pmOf. rewrite Hpm. cbn [orPanic]. bsimpl.
    destruct (close_ok p a Hp) as [r ->]. bsimpl.
    eexists. split_and!; [done| |done|].
    + rewrite Hcid at 1. by apply core_rep_set.
    + intros Hn. rewrite Hcid at 1. eapply counted_set; [done..|]. cbn. lia.
Qed.

Lemma commands_sim xs : ∀ c As,
  core_rep c As → Forall command_ok xs →
  match spec_commands (chunkSize c) As xs with
  | Ret (As', rs) => ∃ c', run_commands c xs = Ret (c', rs) ∧ core_rep c' As' ∧
                           (counted c As → counted c' As')
  | _ => run_commands c xs = Panic
  end.
Proof using GL.
  induction xs as [|x xs IH]; intros c As Hc Hxs; [by exists c|].
  apply Forall_cons in Hxs as [Hx Hxs]. cbn [spec_commands run_commands].
  pose proof (command_sim c As x Hc Hx) as Hs.
  destruct (spec_command (chunkSize c) As x) as [[As1 r]| |]; bsimpl; [|by rewrite Hs..].
  destruct Hs as (c1 & -> & Hc1 & Hsz & Hn1). bsimpl. specialize (IH c1 As1 Hc1 Hxs). rewrite Hsz in IH.
  destruct (spec_commands (chunkSize c) As1 xs) as [[As2 rs]| |]; bsimpl; [|by rewrite IH..].
  destruct IH as (c2 & -> & Hc2 & Hn2). exists c2. split_and!; auto.
Qed.
End commands.

Lemma core_new_rep path sz n :
  0 < sz ≤ maxChunkSize → 0 < n < 2 ^ 63 →
  ∃ c, CoreNew path sz n = Ret c ∧ chunkSize c = sz ∧
       core_rep c (replicate (Z.to_nat n) None).
Proof.
  intros Hsz Hn. unfold CoreNew. rewrite check_true by (apply Z.leb_le; lia). bsimpl.
  eexists. split_and!; [done..|]. split; cbn [chunks knownChunks chunkSize].
  - apply Forall2_replicate. done.
  - done.
  - rewrite zlen_replicate; lia.
Qed.

Lemma core_new_counted path sz n c :
  CoreNew path sz n = Ret c → counted c (replicate (Z.to_nat n) None).
Proof.
  unfold CoreNew. intros (_ & _ & E)%bind_Ret_inv. injection E as <-. unfold counted. cbn.
  by induction (Z.to_nat n).
Qed.

(** C4. A new core behaves as a list of chunks, each absent or a map where the
    last write wins: every sequence of primitives and of additions and removals of
    chunks, from [CoreNew] on, returns the replies of the model, where a primitive
    acts on the chunk that the hash of its key selects and on no other, and is
    refused when that chunk is absent; the core counts its present chunks exactly,
    and it panics only on a chunk number out of range or a deletion of a present
    key that carries no timestamp. No key with a reserved hash is read, a CAS is
    one that the server lets through (its holders are synchronised), and the
    folder is not opened: [CoreOpen] miscounts the chunks
    ([Open_miscounts_chunks]). *)
Theorem core_refines `{GommapLaws} path sz n xs :
  0 < sz ≤ maxChunkSize → 0 < n < 2 ^ 63 → Forall command_ok xs →
  ∃ c0, CoreNew path sz n = Ret c0 ∧
    match spec_commands sz (replicate (Z.to_nat n) None) xs with
    | Ret (As, rs) =>
        ∃ c, run_commands c0 xs = Ret (c, rs) ∧ core_rep c As ∧ PresentChunks c = count As
    | _ => run_commands c0 xs = Panic
    end.
Proof.
  intros Hsz Hn Hxs. destruct (core_new_rep path sz n Hsz Hn) as (c0 & Hnew & Hcs & Hc0).
  exists c0. split; [done|]. pose proof (commands_sim xs c0 _ Hc0 Hxs) as Hs. rewrite Hcs in Hs.
  destruct (spec_commands _ _ _) as [[As rs]| |]; [|done..].
  destruct Hs as (c & Hr & Hc & Hn'). exists c. split_and!; [done..|].
  by apply Hn', (core_new_counted path sz n).
Qed.

(** Two chunks of which one is added, written, read, dropped and added again;
    the key falls in chunk 1. *)
Lemma core_refines_witness :
  let _ := plainGommap in
  let k := sample_key in
  let v := sample_value 5 "a" in
  let xs := [Primitive (OpSet k v); SetPresent 1; Primitive (OpSet k v); Primitive (OpGet k);
             SetPresent 0; SetNoPresent 1; Primitive (OpGet k);
             SetPresent 1; Primitive (OpGet k)] in
  ∃ c0 c, CoreNew EmptyString 300 2 = Ret c0 ∧
    run_commands c0 xs =
      Ret (c, [RError (Some errNotPresent); done_reply; RError None; RValue (Some v);
               done_reply; done_reply; RError (Some errNotPresent);
               done_reply; RValue None]) ∧
    PresentChunks c = 2.
Proof.
  intros G k v xs. destruct (@core_refines G plainGommap_laws EmptyString 300 2 xs) as (c0 & H0 & H).
  - by vm_compute.
  - by vm_compute.
  - repeat constructor; by vm_compute.
  - destruct (spec_commands 300 (replicate (Z.to_nat 2) None) xs) as [[As rs]| |] eqn:E;
      vm_compute in E; [|done..].
    injection E as <- <-. destruct H as (c & Hr & _ & Hn). exists c0, c. split_and!; done.
Defined.

(** ** The list of present chunks *)

(** The numbers of the present chunks, counting from [i]. *)
Fixpoint present_ids (i : Z) (As : list (option abs)) : list Z :=
  match As with
  | [] => []
  | Some _ :: As => i :: present_ids (i + 1) As
  | None :: As => present_ids (i + 1) As
  end.

Lemma present_ids_count As : ∀ i, zlen (present_ids i As) = count As.
Proof.
  induction As as [|[a|] As IH]; intros i; cbn [present_ids count]; rewrite ?zlen_cons, ?IH; done.
Qed.

Lemma Checksum_rep p a now : pm_rep p a → pm_rep (Checksum p now).2 a.
Proof.
  intros [d Hd]. exists d. pose proof (pd_sum _ _ _ Hd) as Hs.
  pose proof (pd_drift _ _ _ Hd) as Hdr.
  pose proof (pm_dir_cks p a d (checksum (cks p) now).2 Hd) as H.
  rewrite newChecksum_checksum, (u64_small (newChecksum (cks p))), <- Hdr in H by apply Hs. specialize (H (sum_ok _ _ _ Hs)).
  by destruct a.
Qed.

(** The checksum of a chunk is a 64-bit number. *)
Lemma Checksum_range p a now : pm_rep p a → 0 ≤ (Checksum p now).1 < 2 ^ 64.
Proof. intros [d Hd]. exact (so_old _ (sum_ok _ 0 now (pd_sum _ _ _ Hd))). Qed.

Lemma presentList_spec sz now ks As : Forall2 (chunk_rep sz) ks As → ∀ id,
  ∃ l ks', presentList now id ks = Ret (l, ks') ∧ map aID l = present_ids id As ∧
           Forall2 (chunk_rep sz) ks' As.
Proof.
  induction 1 as [|k o ks As Hk _ IH]; intros id; [by exists [], []|]. cbn [presentList present_ids].
  destruct (IH (id + 1)) as (l & ks' & E & Hl & Hks). destruct o as [a|]; cbn in Hk.
  - destruct Hk as (Hp & Hsz & Hw & p & Hpm & Hr). rewrite Hp. unfold pmOf. rewrite Hpm.
    cbn [orPanic]. bsimpl. rewrite E. bsimpl. eexists _, _. split_and!; [done|cbn; by rewrite Hl|].
    constructor; [|done]. cbn. split_and!; try done. eexists. split; [done|]. by apply Checksum_rep.
  - destruct Hk as [Hp Hpm]. rewrite Hp, E. bsimpl. exists l, (k :: ks'). split_and!; try done.
    by constructor.
Qed.

Lemma PresentChunksList_sim c As now :
  core_rep c As → counted c As →
  ∃ l c', PresentChunksList c now = Ret (l, c') ∧ map aID l = present_ids 0 As ∧
    zlen l = PresentChunks c ∧ core_rep c' As.
Proof.
  intros [H1 H3 H4] H2. unfold counted in H2. unfold PresentChunksList. pose proof (count_range As).
  rewrite check_true by (apply Z.leb_le; lia). bsimpl.
  destruct (presentList_spec _ now _ _ H1 0) as (l & ks & -> & Hl & Hks). bsimpl.
  eexists _, _. split_and!; [done|done| |done].
  unfold PresentChunks. rewrite H2, <- (present_ids_count As 0), <- Hl. unfold zlen.
  by rewrite length_map.
Qed.

Lemma IsPresent_sim c As i o :
  core_rep c As → 0 ≤ i → As !! Z.to_nat i = Some o → IsPresent c i = Ret (bool_decide (is_Some o)).
Proof.
  intros Hc Hi Ho. unfold IsPresent.
  destruct (index_both c As i Hc) as [(o' & k & _ & _ & -> & Ho' & Hk)|[E _]]; cycle 1.
  { by rewrite (index_lookup As i o) in E. }
  rewrite Ho in Ho'. injection Ho' as <-. bsimpl. f_equal. destruct o as [x|]; cbn in Hk.
  - destruct Hk as [-> _]. symmetry. apply bool_decide_true. by eexists.
  - destruct Hk as [-> _]. symmetry. apply bool_decide_false. by intros [? [=]].
Qed.

Lemma present_ids_spec As : ∀ i j,
  j ∈ present_ids i As → i ≤ j ∧ ∃ x, As !! Z.to_nat (j - i) = Some (Some x).
Proof.
  induction As as [|o As IH]; intros i j; cbn [present_ids]; [by intros ?%not_elem_of_nil|].
  assert (j ∈ present_ids (i + 1) As → i ≤ j ∧ ∃ x, (o :: As) !! Z.to_nat (j - i) = Some (Some x)) as Htail.
  { intros (Hj & x & Hx)%IH. split; [lia|]. exists x. by replace (Z.to_nat (j - i)) with (S (Z.to_nat (j - (i + 1)))) by lia. }
  destruct o as [x|]; [|exact Htail]. intros [->|Hj]%elem_of_cons; [|by apply Htail].
  split; [lia|]. exists x. by replace (Z.to_nat (i - i)) with 0%nat by lia.
Qed.

Lemma present_ids_intro As : ∀ i j x,
  i ≤ j → As !! Z.to_nat (j - i) = Some (Some x) → j ∈ present_ids i As.
Proof.
  induction As as [|o As IH]; intros i j x Hj; cbn [present_ids]; [done|].
  destruct (decide (i = j)) as [->|Hne].
  - rewrite Z.sub_diag. cbn. intros [= ->]. by left.
  - replace (Z.to_nat (j - i)) with (S (Z.to_nat (j - (i + 1)))) by lia. cbn. intros Hx.
    assert (j ∈ present_ids (i + 1) As) by (eapply IH; [lia|done]). destruct o; [by right|done].
Qed.

(** The list of chunks that a server announces names exactly its present
    chunks, in order, as many as it counts; making it does not change what the
    core holds. *)
Theorem PresentChunksList_exact c As now :
  core_rep c As → counted c As →
  ∃ l c', PresentChunksList c now = Ret (l, c') ∧ map aID l = present_ids 0 As ∧
    zlen l = PresentChunks c ∧ core_rep c' As.
Proof. apply PresentChunksList_sim. Qed.

(** Of three chunks the first and the last are present. *)
Lemma PresentChunksList_exact_witness :
  ∃ c l c', PresentChunksList c 0 = Ret (l, c') ∧ map aID l = [0; 2] ∧ zlen l = PresentChunks c.
Proof.
  destruct (@core_new_rep EmptyString 300 3) as (c0 & Hnew & Hsz & Hc0); [by vm_compute..|].
  pose proof (@commands_sim _ plainGommap_laws [SetPresent 0; SetPresent 2] c0 _ Hc0) as Hs.
  specialize (Hs ltac:(by repeat constructor)). rewrite Hsz in Hs.
  destruct (spec_commands _ _ _) as [[As rs]| |] eqn:E; vm_compute in E; [|done..].
  injection E as <- <-. destruct Hs as (c & _ & Hc & Hn).
  specialize (Hn (core_new_counted _ _ _ _ Hnew)).
  destruct (PresentChunksList_exact c _ 0 Hc Hn) as (l & c' & H1 & H2 & H3 & _).
  exists c, l, c'. split_and!; done.
Defined.

(** ** Reopening loses the count *)

(** The file of a chunk that was never written. *)
Lemma Open_zeros `{GommapLaws} p sz :
  4 ≤ sz ≤ maxChunkSize →
  ∃ c, Open p (replicate (Z.to_nat sz) x00) = Ret c ∧ pm_rep c (new_abs sz).
Proof.
  intros Hsz. destruct (New_sim p sz ltac:(lia)) as (c & _ & Hr). pose proof Hr as [d Hd].
  destruct (pd_store _ _ _ Hd) as [(rest & Hf & Hz) _ Hlen _ _].
  destruct (pd_size _ _ _ Hd) as [Hs _]. cbn in Hf, Hs.
  assert (st_file (st c) = replicate (Z.to_nat sz) x00) as <-.
  { rewrite Hf. rewrite Hf in Hlen. unfold zlen in Hlen. replace (Z.to_nat sz) with (length rest) by lia.
    symmetry. apply replicate_as_Forall_2; [done|].
    eapply Forall_impl; [exact Hz|]. by intros ? ->. }
  apply (Open_sim p c (new_abs sz)); [done|apply durable_new|constructor|].
  cbn [a_log a_size new_abs]. change (zlen (enc_log [])) with 0. lia.
Qed.

(** [Open] marks the chunks it finds as present and does not count them:
    dropping such a chunk makes the count negative, and the next heartbeat,
    which lists the present chunks, panics. *)
Theorem Open_miscounts_chunks `{GommapLaws} sz now :
  4 ≤ sz ≤ maxChunkSize →
  ∃ c0 c1 c2, CoreNew "db" sz 1 = Ret c0 ∧
    CoreOpen c0 [("0_rev0", replicate (Z.to_nat sz) x00)] = Ret c1 ∧
    IsPresent c1 0 = Ret true ∧ PresentChunks c1 = 0 ∧
    ChunkSetNoPresent c1 0 = Ret c2 ∧ PresentChunks c2 = -1 ∧ PresentChunksList c2 now = Panic.
Proof.
  intros Hsz. destruct (Open_zeros "db/chunks/0_rev0" sz Hsz) as (p & Hp & Hr).
  destruct (close_ok p _ Hr) as [r Hcl].
  eexists _, _, _. split; [done|]. split.
  { unfold CoreOpen. change (replicate (Z.to_nat 1) newMetaChunk) with [newMetaChunk]. cbn [chunks openChunks].
    change (findChunk _ _ _) with (Some ("db/chunks/0_rev0", replicate (Z.to_nat sz) x00)).
    cbv iota. rewrite Hp. bsimpl. done. }
  split; [done|]. split; [done|].
  split; [|split].
  - unfold ChunkSetNoPresent. rewrite (index_lookup _ 0 (MetaChunk (Some p) true false 0 zero_time)) by done.
    bsimpl. unfold pmOf. cbn [present pm orPanic]. bsimpl. rewrite Hcl. bsimpl. done.
  - done.
  - done.
Qed.

Lemma Open_miscounts_chunks_witness :
  let _ := plainGommap in
  ∃ c0 c1 c2, CoreNew "db" 300 1 = Ret c0 ∧
    CoreOpen c0 [("0_rev0", replicate 300 x00)] = Ret c1 ∧
    IsPresent c1 0 = Ret true ∧ PresentChunks c1 = 0 ∧
    ChunkSetNoPresent c1 0 = Ret c2 ∧ PresentChunks c2 = -1 ∧ PresentChunksList c2 0 = Panic.
Proof.
  intros G. apply (@Open_miscounts_chunks G plainGommap_laws 300 0). by vm_compute.
Defined.
