(* ===== verification/Defrag.v ===== *)
(** * Defragmentation ([src/core/defrag.go])

    The defragmenter copies the current pairs of a chunk into a new file and
    drops the old one.  It keeps the contents of the chunk when the new file
    is not the file of the chunk itself, and loses them when it is. *)
From S2P Require Import Prelude.
From S2P Require Import Hashing.
From S2P Require Import SyncChecksum.
From S2P Require Import Store.
From S2P Require Import HashMap.
From S2P Require Import PMap.
From S2P Require Import PMapSpec.
From S2P Require Import Chunk.
From S2P Require Import Replicas.
From S2P Require Import PMapProps.
From S2P Require Import PMapIter.
From S2P Require Import PMapOpen.
From S2P Require Import Core.
From S2P Require Import CoreProps.

(** ** Copying the visible pairs *)

(** The pairs visited take no more room than the log. *)
Lemma space_visible a l : ∀ suffix, space (visible a l suffix) ≤ zlen (enc_log l).
Proof.
  induction l as [|r l IH]; intros suffix; [done|]. cbn [visible].
  specialize (IH suffix). pose proof (zlen_enc_rec r) as Hr. unfold body_len in Hr.
  change (enc_log (r :: l)) with (enc_rec r ++ enc_log l). rewrite zlen_app.
  destruct (PMapIter.present _ _ _); cbn [app]; rewrite ?space_cons; cbn [fst snd]; zl.
Qed.

Lemma enc_log_grows a k v :
  zlen (enc_log (a_log (spec_Set a k v).1)) ≤ zlen (enc_log (a_log a)) + (12 + zlen k + zlen v).
Proof.
  assert (zlen (enc_log (a_log (spec_write a k v).1)) ≤
          zlen (enc_log (a_log a)) + (12 + zlen k + zlen v)).
  { unfold spec_write. destruct (room a k v); cbn [fst a_log]; [|zl].
    rewrite enc_log_snoc, zlen_app, zlen_enc_rec. unfold body_len. cbn [r_key r_val]. lia. }
  unfold spec_Set. repeat case_match; cbn [fst]; try done; zl.
Qed.

Lemma sets_length ws : ∀ a a' rs,
  spec_exec a (sets ws) = Ret (a', rs) →
  zlen (enc_log (a_log a')) ≤ zlen (enc_log (a_log a)) + space ws.
Proof.
  induction ws as [|[k v] ws IH]; intros a a' rs; cbn [sets map spec_exec spec_step fst snd]; bsimpl.
  - intros [= <- <-]. cbn. lia.
  - fold (sets ws). destruct (spec_exec _ (sets ws)) as [[a2 rs2]| |] eqn:E; bsimpl; [|done..].
    intros [= <- <-]. apply IH in E. pose proof (enc_log_grows a k v). rewrite space_cons.
    cbn [fst snd]. lia.
Qed.

(** Iterating with the callback of the defragmenter is a sequence of writes. *)
Lemma defrag_iterate a l : ∀ new b,
  pm_rep new b → stamped (visible a l []) →
  zlen (enc_log (a_log b)) + space (visible a l []) < a_size b →
  ∃ new' b' rs, spec_iterate defragSet a l new = Ret new' ∧ pm_rep new' b' ∧
    spec_exec b (sets (visible a l [])) = Ret (b', rs).
Proof.
  induction l as [|r l IH]; intros new b Hr Hst Hsp; [by exists new, b, []|].
  cbn [spec_iterate visible] in *. unfold spec_visit. rewrite app_nil_r in *.
  destruct (PMapIter.present a r l); cbn [app] in *; [|bsimpl; by apply IH].
  apply Forall_cons in Hst as [H8 Hst]. rewrite space_cons in Hsp. cbn [fst snd] in *.
  pose proof (space_nonneg (visible a l [])). pose proof Hr as [d Hd].
  destruct (pd_size _ _ _ Hd) as [Hsz Hmax]. unfold maxChunkSize in Hmax.
  destruct (spec_Set_lww b (r_key r) (r_val r)) as (b1 & E1 & _ & _ & Hs1 & Hl1); [done|lia|].
  destruct (Set_sim new b (r_key r) (r_val r) Hr) as (new1 & E & Hr1); [zl|].
  unfold defragSet. rewrite E, E1. bsimpl. rewrite E1 in Hr1. cbn [fst] in Hr1.
  destruct (IH new1 b1 Hr1 Hst) as (new' & b' & rs & Hx & Hr' & Hspec); [lia|].
  exists new', b', (RError None :: rs). cbn [sets map spec_exec spec_step fst snd].
  rewrite E1. bsimpl. fold (sets (visible a l [])). rewrite Hspec. done.
Qed.

(** Writing the pairs of a map to an empty one gives the map back. *)
Lemma lwws_map (ws : list write) (m : kvmap) : ws ≡ₚ map_to_list m → lwws ∅ ws = m.
Proof.
  intros Hp. apply map_eq. intros k. pose proof (lwws_latest ws k) as Hl.
  assert (∀ v, (k, v) ∈ ws ↔ m !! k = Some v) as Hin.
  { intros v. by rewrite Hp, elem_of_map_to_list. }
  destruct (lwws ∅ ws !! k) as [v|]; cbn in Hl.
  - symmetry. by apply Hin, Hl.
  - destruct (m !! k) as [v|] eqn:E; [|done]. exfalso. by apply (Hl v), Hin.
Qed.

(** The records that sets append are theirs. *)
Lemma sets_records (P : rec → Prop) ws : ∀ a a' rs,
  spec_exec a (sets ws) = Ret (a', rs) → Forall (λ w : write, P (Rec w.1 w.2)) ws → Forall P (a_log a) → Forall P (a_log a').
Proof.
  induction ws as [|[k v] ws IH]; intros a a' rs; cbn [sets map spec_exec spec_step fst snd]; bsimpl; [by intros [= <- <-]|].
  fold (sets ws). destruct (spec_exec _ (sets ws)) as [[a2 rs2]| |] eqn:E; bsimpl; [|done..].
  intros [= <- <-] [Hw Hws]%Forall_cons Ha. eapply IH; [done..|]. unfold spec_Set, spec_write.
  repeat case_match; try done; apply Forall_app; by repeat constructor.
Qed.

(** The chunk after the copy. *)
Record compacted (a a' : abs) : Prop := Compacted {
  co_map : a_map a' = a_map a;
  co_drift : a_drift a' = 0;
  co_size : a_size a' = a_size a;
  co_durable : durable a';
  co_writes : write_only a';
  co_pairs : Forall (λ r, a_map a !! r_key r = Some (r_val r)) (a_log a');
  co_length : zlen (enc_log (a_log a')) ≤ zlen (enc_log (a_log a))
}.

Lemma stamped_visible a :
  abs_wf a → fresh (a_log a) → (∀ k v, a_map a !! k = Some v → 8 ≤ zlen v) →
  stamped (visible a (a_log a) []).
Proof.
  intros Hw Hf H8. apply Forall_forall. intros [k v] Hin. cbn.
  destruct (elem_of_visible a Hw Hf (a_log a) k v [] eq_refl Hin) as [Hm _]. by eapply H8.
Qed.

Lemma copy_compacts old new a :
  pm_rep old a → pm_rep new (new_abs (a_size a)) → abs_wf a →
  Forall (λ r, good_key (r_key r)) (a_log a) → fresh (a_log a) →
  ∃ new' a', Iterate defragSet old new = Ret new' ∧ pm_rep new' a' ∧ compacted a a'.
Proof.
  intros Hr Hn Hw Hg Hf. pose proof Hr as [d Hd]. set (ws := visible a (a_log a) []).
  assert (space ws < a_size a) as Hsp.
  { pose proof (space_visible a (a_log a) []). destruct (pd_store _ _ _ Hd) as [_ ? _ ? _].
    destruct (pd_size _ _ _ Hd). unfold ws. lia. }
  assert (stamped ws) as Hst.
  { apply stamped_visible; [done..|]. intros k v Hv. destruct (d !! k) as [s|] eqn:E.
    - destruct (pd_some _ _ _ Hd _ _ E) as (v' & Hv' & _ & H8). congruence.
    - rewrite (pd_none _ _ _ Hd _ E) in Hv. done. }
  rewrite (Iterate_sim _ old a) by done.
  destruct (defrag_iterate a (a_log a) new (new_abs (a_size a))) as (new' & a' & rs & E & Hr' & Hx);
    [done..|].
  exists new', a'. split_and!; [done..|].
  destruct (spec_sets_lwws ws (new_abs (a_size a))) as (a2 & Hx2 & Hm & Hdr & Hsz); [done..|].
  fold ws in Hx. rewrite Hx in Hx2. assert (a' = a2) as <- by congruence.
  assert (rs = replicate (length ws) (RError None)) as -> by congruence.
  split; [|done|done|..].
  - rewrite Hm. apply lwws_map. by apply visible_perm.
  - eapply durable_exec; [apply durable_new|exact Hx|]. intros Hin. by apply elem_of_replicate in Hin as [[=] _].
  - exact (write_only_sets _ _ _ _ (write_only_new _) Hx).
  - eapply (sets_records _ ws); [exact Hx| |constructor]. apply Forall_forall. intros [k v] Hin. cbn.
    by destruct (elem_of_visible a Hw Hf (a_log a) k v [] eq_refl Hin) as [? _].
  - pose proof (sets_length _ _ _ _ Hx) as H. change (zlen (enc_log (a_log (new_abs _)))) with 0 in H.
    pose proof (space_visible a (a_log a) []). unfold ws in H. lia.
Qed.

(** The path of the file that the next defragmentation of a chunk creates. *)
Definition nextPath (c : Core) (id : Z) (k : metaChunk) : string :=
  chunkPath c id (s64 (revision k + 1)).

(** The store of the chunk is in another file. *)
Definition other_file (c : Core) (id : Z) (k : metaChunk) : Prop :=
  ∀ p, pm k = Some p → st_osFile (st p) ≠ Some (nextPath c id k).

Lemma core_rep_replace c As i k a' p :
  core_rep c As →
  present k = true → pm k = Some p → pm_rep p a' → abs_wf a' → a_size a' = chunkSize c →
  core_rep (setChunk c (Z.of_nat i) k) (<[i := Some a']> As).
Proof.
  intros Hc Hp Hpm Hr Hw Hsz.
  change (setChunk c (Z.of_nat i)) with (setChunk (set_known c (knownChunks c)) (Z.of_nat i)).
  apply (core_rep_set c As i (Some a')); [done|]. split_and!; try done. by exists p.
Qed.

(** A defragmentation replaces the chunk by its compacted form. *)
Lemma defrag_sim `{GommapLaws} c As i k a :
  core_rep c As → As !! i = Some (Some a) → chunks c !! i = Some k →
  other_file c (Z.of_nat i) k →
  Forall (λ r, good_key (r_key r)) (a_log a) → fresh (a_log a) →
  ∃ c' a', defrag c (Z.of_nat i) = Ret c' ∧ core_rep c' (<[i := Some a']> As) ∧ compacted a a'.
Proof.
  intros Hc Hi Hk Hfile Hg Hf. destruct (chunk_at c As Hc _ _ Hi) as (k' & Hk' & Hix & Hrep).
  rewrite Hk in Hk'. injection Hk' as <-. destruct Hrep as (Hp & Hsz & Hw & p & Hpm & Hr).
  unfold defrag. rewrite Hix. bsimpl. unfold pmOf. rewrite Hpm. cbn [orPanic]. bsimpl.
  fold (nextPath c (Z.of_nat i) k).
  destruct (New_sim (nextPath c (Z.of_nat i) k) (chunkSize c)) as (new & -> & Hn); [apply Hc|]. bsimpl.
  unfold truncate. rewrite decide_False by (by apply Hfile). rewrite <- Hsz in Hn.
  destruct (copy_compacts p new a) as (new' & a' & -> & Hr' & Hco); [done..|]. bsimpl.
  destruct (close_ok p a Hr) as [r ->]. bsimpl. eexists _, a'. split_and!; [done| |done].
  destruct Hco. eapply core_rep_replace; try done; [by apply du_wf|congruence].
Qed.

(** ** A chunk that is defragmented into its own file *)

Section zeros.
Context (n : nat).
Let zeros := replicate n x00.

Lemma zeros_read i : 0 ≤ i → i + 4 ≤ Z.of_nat n → (b ← slice_from zeros i; get_le 4 b) = Ret 0.
Proof.
  intros Hi Hn. unfold zeros.
  rewrite slice_from_drop by (unfold zlen; rewrite length_replicate; lia). bsimpl.
  rewrite drop_replicate. replace (n - Z.to_nat i)%nat with (4 + (n - Z.to_nat i - 4))%nat by lia.
  rewrite replicate_add. by rewrite get_le_app.
Qed.

Context (c : PMap) (a : abs) (d : directory) (Hd : pm_dir c a d).
Context (Hempty : ∀ k s, d !! k = Some s → khash k ≠ khash []).
Let zc := set_st c (set_file (st c) zeros).

Lemma zeros_Get : Get zc (u32 (FNV1a64 [])) [] = Ret None.
Proof using Hd Hempty.
  unfold Get. change (u32 (u32 (FNV1a64 []))) with (khash []).
  assert (∀ i, 0 ≤ i < size (hm c) → hash_at (hm c) i ≠ khash []) as Hno.
  { intros i Hi Hh. pose proof (khash_range []).
    destruct (live_dir c a d i (khash []) (idx_at (hm c) i) Hd) as (k & Hk & E);
      [split_and!; [lia..|done|lia|done]|]. symmetry in E. by apply (Hempty _ _ Hk). }
  destruct (probe_spec (hm c) (khash []) (sameKey (st zc) [])) as (r & Hr & Hpost).
  { apply (pd_index _ _ _ Hd). }
  { intros i Hi Hh. by destruct (Hno i Hi). }
  unfold search. change (hm zc) with (hm c). rewrite Hr. bsimpl.
  destruct r as [i|i s]; [done|]. destruct Hpost as (Hi & Hh & _). by destruct (Hno i Hi).
Qed.

(** Every step over a file of zeros reads the empty key, which is not there. *)
Lemma zeros_iterate {A} foreach (acc : A) fuel : ∀ i,
  0 ≤ i → st_length (st c) + 8 ≤ Z.of_nat n < 2 ^ 63 → st_length (st c) - i ≤ Z.of_nat fuel →
  iterateLoop foreach fuel zc i acc = Ret acc.
Proof using Hd Hempty.
  induction fuel as [|fuel IH]; intros i Hi Hn Hfuel; cbn [iterateLoop];
    change (st_length (st zc)) with (st_length (st c));
    destruct (Z.ltb_spec i (st_length (st c))) as [Hlt|]; try done; try lia.
  assert (keyLen (st zc) i = Ret 0) as Hkl.
  { unfold keyLen, headerKeyOffset. rewrite Z.add_0_r, u64_small by lia. apply zeros_read; lia. }
  assert (totalLen (st zc) i = Ret 0) as Htl.
  { unfold totalLen. rewrite Hkl. bsimpl. unfold valLen, headerValueOffset.
    rewrite u64_small by lia. change (st_file (st zc)) with zeros.
    by rewrite zeros_read by lia. }
  assert (Store.key (st zc) i = Ret []) as Hkey.
  { unfold Store.key, key_slice. rewrite Hkl. bsimpl. unfold headerSize. rewrite Z.add_0_r.
    rewrite u64_small by lia. unfold map_slice. change (st_file (st zc)) with zeros.
    assert (zlen zeros = Z.of_nat n) as Hz by (unfold zlen, zeros; by rewrite length_replicate).
    rewrite check_true by (rewrite Hz, Z.leb_refl; cbn; apply Z.leb_le; lia). bsimpl.
    unfold mbytes. cbn [ms_off ms_len]. change (st_file (st zc)) with zeros.
    rewrite slice_mid by lia. replace (_ - _) with 0 by lia. done. }
  unfold visit, isPresent. rewrite Hkey. bsimpl. rewrite zeros_Get. bsimpl. rewrite Htl. bsimpl.
  rewrite u64_small by (rewrite u64_small; lia). rewrite u64_small by lia.
  apply IH; lia.
Qed.
End zeros.

(** A defragmentation into the file of the chunk empties it. *)
Lemma defrag_own_sim `{GommapLaws} c As i k a p :
  core_rep c As → As !! i = Some (Some a) → chunks c !! i = Some k →
  pm k = Some p → st_osFile (st p) = Some (nextPath c (Z.of_nat i) k) →
  zlen (enc_log (a_log a)) + 8 ≤ chunkSize c →
  (∀ key v, a_map a !! key = Some v → khash key ≠ khash []) →
  ∃ c', defrag c (Z.of_nat i) = Ret c' ∧ core_rep c' (<[i := Some (new_abs (chunkSize c))]> As).
Proof.
  intros Hc Hi Hk Hpm Hfile Hroom Hempty.
  destruct (chunk_at c As Hc _ _ Hi) as (k' & Hk' & Hix & Hrep).
  rewrite Hk in Hk'. injection Hk' as <-. destruct Hrep as (Hp & Hsz & Hw & p' & Hpm' & Hr).
  rewrite Hpm in Hpm'. injection Hpm' as <-. pose proof Hr as [d Hd].
  pose proof (cr_size _ _ Hc) as Hcs. unfold maxChunkSize in *.
  destruct (pd_size _ _ _ Hd) as [Hs1 Hs2].
  unfold defrag. rewrite Hix. bsimpl. unfold pmOf. rewrite Hpm. cbn [orPanic]. bsimpl.
  fold (nextPath c (Z.of_nat i) k).
  destruct (New_sim (nextPath c (Z.of_nat i) k) (chunkSize c)) as (new & -> & Hn); [apply Hc|]. bsimpl.
  unfold truncate. rewrite decide_True by done.
  replace (Z.min _ _) with (chunkSize c) by (rewrite <- (wf_size _ _ (pd_store _ _ _ Hd)); lia).
  unfold Iterate. rewrite (zeros_iterate _ p a d Hd); cycle 1.
  { intros key s Hs. destruct (pd_some _ _ _ Hd _ _ Hs) as (v & Hv & _). by eapply Hempty. }
  { lia. }
  { rewrite (wf_length _ _ (pd_store _ _ _ Hd)). lia. }
  { cbn. lia. }
  bsimpl.
  destruct (close_mapped (set_st p (set_file (st p) (replicate (Z.to_nat (chunkSize c)) x00))))
    as [r ->]; [cbn; rewrite zlen_replicate; lia|].
  bsimpl. eexists. split; [done|]. by eapply core_rep_replace.
Qed.
