(* ===== verification/Locks.v ===== *)
(** * The two locks of a chunk ([src/core/core.go], [src/core/defrag.go])

    A chunk has a lock and a mutex of defragmentation.  [BackwardsIterate] takes
    the lock and then the mutex, and releases the lock around each callback; the
    defragmenter takes the mutex and then the lock; every other operation takes
    the lock alone.  The steps below are the acquisitions and releases of one
    iteration, one turn of the defragmenter and one other operation, on a chunk
    that is present. *)
From stdpp Require Import relations.
From S2P Require Import Prelude.

(** Who holds a lock. *)
Inductive thread := Walker | Defragmenter | Primitive.

(** Where [BackwardsIterate] is: before the lock, before the mutex, in the loop,
    in a callback, past the lock, past the mutex. *)
Inductive walker := W_start | W_locked | W_loop | W_callback | W_unlocked | W_done.

(** Where a turn of the defragmenter is. *)
Inductive defragmenter := D_start | D_mutex | D_work | D_unlocked | D_done.

(** Where another operation on the chunk is. *)
Inductive primitive := P_start | P_work | P_done.

#[export] Instance walker_eq_dec : EqDecision walker.
Proof. solve_decision. Defined.
#[export] Instance defragmenter_eq_dec : EqDecision defragmenter.
Proof. solve_decision. Defined.
#[export] Instance primitive_eq_dec : EqDecision primitive.
Proof. solve_decision. Defined.

Record locks := Locks {
  lock : option thread;
  defragMutex : option thread;
  walking : walker;
  defragmenting : defragmenter;
  operating : primitive
}.

Inductive lock_step : locks → locks → Prop :=
  | w_lock m d p : lock_step (Locks None m W_start d p) (Locks (Some Walker) m W_locked d p)
  | w_mutex l d p : lock_step (Locks l None W_locked d p) (Locks l (Some Walker) W_loop d p)
  | w_call l m d p : lock_step (Locks l m W_loop d p) (Locks None m W_callback d p)
  | w_back m d p : lock_step (Locks None m W_callback d p) (Locks (Some Walker) m W_loop d p)
  | w_end l m d p : lock_step (Locks l m W_loop d p) (Locks None m W_unlocked d p)
  | w_release l m d p : lock_step (Locks l m W_unlocked d p) (Locks l None W_done d p)
  | d_mutex l w p : lock_step (Locks l None w D_start p) (Locks l (Some Defragmenter) w D_mutex p)
  | d_lock m w p : lock_step (Locks None m w D_mutex p) (Locks (Some Defragmenter) m w D_work p)
  | d_unlock l m w p : lock_step (Locks l m w D_work p) (Locks None m w D_unlocked p)
  | d_release l m w p : lock_step (Locks l m w D_unlocked p) (Locks l None w D_done p)
  | p_lock m w d : lock_step (Locks None m w d P_start) (Locks (Some Primitive) m w d P_work)
  | p_unlock l m w d : lock_step (Locks l m w d P_work) (Locks None m w d P_done).

Definition idle : locks := Locks None None W_start D_start P_start.

(** Each lock is held by the thread that is between its acquisition and its
    release. *)
Record owned (s : locks) : Prop := Owned {
  ow_walker : lock s = Some Walker ↔ walking s = W_locked ∨ walking s = W_loop;
  ow_defrag : lock s = Some Defragmenter ↔ defragmenting s = D_work;
  ow_primitive : lock s = Some Primitive ↔ operating s = P_work;
  ow_mutex_walker : defragMutex s = Some Walker ↔ walking s = W_loop ∨ walking s = W_callback ∨ walking s = W_unlocked;
  ow_mutex_defrag : defragMutex s = Some Defragmenter ↔
    defragmenting s = D_mutex ∨ defragmenting s = D_work ∨ defragmenting s = D_unlocked;
  ow_mutex_primitive : defragMutex s ≠ Some Primitive
}.

Lemma owned_idle : owned idle.
Proof. split; cbn; naive_solver. Qed.

Lemma owned_step s s' : lock_step s s' → owned s → owned s'.
Proof. intros Hs [H1 H2 H3 H4 H5 H6]. destruct Hs; cbn in *; split; cbn; naive_solver. Qed.

Lemma owned_reached s : rtc lock_step idle s → owned s.
Proof.
  intros Hr. assert (∀ s1 s2, rtc lock_step s1 s2 → owned s1 → owned s2) as H; [|by eapply H, owned_idle].
  induction 1; eauto using owned_step.
Qed.

(** The locks exclude: the defragmenter replaces the map of a chunk neither while
    a primitive works on it nor while the loop of [BackwardsIterate] does, in or
    out of a callback. *)
Theorem locks_exclude s :
  rtc lock_step idle s → defragmenting s = D_work →
  operating s ≠ P_work ∧ walking s ≠ W_loop ∧ walking s ≠ W_callback.
Proof.
  intros [H1 H2 H3 H4 H5 _]%owned_reached Hd. assert (lock s = Some Defragmenter) as El by tauto.
  assert (defragMutex s = Some Defragmenter) as Em by tauto. rewrite El, Em in *.
  split_and!; intros E; naive_solver.
Qed.

(** The order of the locks is not the same on both sides: an iteration and a
    defragmentation of a chunk can wait for each other for ever, and from then
    on every operation on the chunk waits as well. *)
Theorem locks_deadlock :
  ∃ s, rtc lock_step idle s ∧ walking s = W_locked ∧ defragmenting s = D_mutex ∧ operating s = P_start ∧
    ∀ s', ¬ lock_step s s'.
Proof.
  exists (Locks (Some Walker) (Some Defragmenter) W_locked D_mutex P_start). split_and!; try done.
  - unfold idle. eapply rtc_l; [apply w_lock|]. eapply rtc_l; [apply d_mutex|]. apply rtc_refl.
  - intros s' Hs. inversion Hs.
Qed.

(** Nothing else blocks: as long as the iteration does not wait for the mutex,
    some thread can go on until all have finished. *)
Theorem locks_progress s :
  rtc lock_step idle s → walking s ≠ W_locked →
  (∃ s', lock_step s s') ∨ (walking s = W_done ∧ defragmenting s = D_done ∧ operating s = P_done).
Proof.
  intros [H1 H2 H3 H4 H5 H6]%owned_reached Hw. destruct s as [l m w d p]. cbn in *.
  destruct (decide (p = P_work)) as [->|Hp]; [left; eexists; apply p_unlock|].
  destruct (decide (d = D_work)) as [->|Hd]; [left; eexists; apply d_unlock|].
  destruct (decide (w = W_loop)) as [->|Hl]; [left; eexists; apply w_call|].
  assert (l = None) as -> by (destruct l as [[]|]; naive_solver).
  destruct w; try done; try (left; eexists; first [apply w_lock|apply w_back|apply w_release]).
  destruct p; try done; [left; eexists; apply p_lock|].
  destruct d; try done; try (left; eexists; first [apply d_lock|apply d_release]); [|by right].
  assert (m = None) as -> by (destruct m as [[]|]; naive_solver). left. eexists. apply d_mutex.
Qed.
