(* ===== verification/CoreFiles.v ===== *)
(** * The files of the chunks

    Each chunk of a core is in a file named after the chunk and a revision.
    As long as the core is not opened from old files, the revision of a file is
    at most the one of its chunk, so a defragmentation always creates a file
    that the chunk is not in. *)
From stdpp Require Import pretty.
From S2P Require Import Prelude.
From S2P Require Import Hashing.
From S2P Require Import SyncChecksum.
From S2P Require Import Store.
From S2P Require Import HashMap.
From S2P Require Import PMap.
From S2P Require Import PMapSpec.
From S2P Require Import Chunk.
From S2P Require Import Replicas.
From S2P Require Import PMapProps.
From S2P Require Import PMapIter.
From S2P Require Import PMapOpen.
From S2P Require Import Core.
From S2P Require Import CoreProps.
From S2P Require Import Defrag.

(** Take a computation that returned apart. *)
Ltac inv_ret :=
  repeat match goal with
  | H : _ ≫= _ = Ret _ |- _ => apply bind_Ret_inv in H as (? & ? & H)
  | H : Ret _ = Ret _ |- _ => injection H as H
  | H : (_, _) = (_, _) |- _ => injection H as ? ?
  | H : (if ?b then _ else _) = Ret _ |- _ => destruct b
  | H : Panic = Ret _ |- _ => discriminate H
  | H : match ?x with _ => _ end = Ret _ |- _ => destruct x
  end.

(** ** The primitives of a map stay in its file *)

Abbreviation fileOf p := (st_osFile (PMap.st p)).

Lemma put_file s k v s' r : put s k v = Ret (s', r) → st_osFile s' = st_osFile s.
Proof.
  unfold put, setKeyLen, setValLen, mcopy. intros H. inv_ret; simplify_eq/=; done.
Qed.

Lemma setBucket_st c i h s c' : setBucket c i h s = Ret c' → PMap.st c' = PMap.st c.
Proof. unfold setBucket. intros H. inv_ret. by subst. Qed.

Lemma ensureSpace_st c c' e : ensureSpace c = Ret (c', e) → PMap.st c' = PMap.st c.
Proof. unfold ensureSpace. intros H. inv_ret; by simplify_eq. Qed.

(** Forward the file through each call. *)
Ltac follow_file :=
  repeat match goal with
  | H : put _ _ _ = Ret (_, _) |- _ => apply put_file in H; cbn in H
  | H : setBucket _ _ _ _ = Ret _ |- _ => apply setBucket_st in H; cbn in H
  | H : ensureSpace _ = Ret (_, _) |- _ => apply ensureSpace_st in H
  end.

Lemma Set_file c h k v c' e : Set_ c h k v = Ret (c', e) → fileOf c' = fileOf c.
Proof.
  unfold Set_. intros H. inv_ret; simplify_eq/=; try done; follow_file; congruence.
Qed.

Lemma CAS_file c h k x c' e : CAS c h k x = Ret (c', e) → fileOf c' = fileOf c.
Proof.
  unfold CAS. intros H. inv_ret; simplify_eq/=; try done; follow_file; congruence.
Qed.

Lemma Del_file c h k x c' e : Del c h k x = Ret (c', e) → fileOf c' = fileOf c.
Proof.
  unfold Del. intros H. inv_ret; simplify_eq/=; try done; follow_file; congruence.
Qed.

(** ** The file of a chunk *)

(** The file that a store has at [path]. *)
Definition file_at (path : string) : option string :=
  if decide (path = EmptyString) then None else Some path.

Lemma New_file `{Gommap} path sz c : New path sz = Ret c → fileOf c = file_at path.
Proof.
  unfold New, newStore, file_at. intros H'. inv_ret; simplify_eq/=; repeat case_decide; try done;
    inv_ret; by simplify_eq/=.
Qed.

(** Two revisions of a chunk have different names. *)
Lemma chunkPath_inj c id r r' :
  dbpath c ≠ EmptyString → chunkPath c id r = chunkPath c id r' → r = r'.
Proof.
  intros Hne. unfold chunkPath. rewrite !decide_False by done.
  intros E. do 4 apply (inj _) in E. by apply (inj pretty) in E.
Qed.

(** The chunk [i] is in the file of one of its revisions up to the current
    one, which is at most [n]. *)
Definition own_file (c : Core) (n : Z) (i : nat) (k : metaChunk) : Prop :=
  0 ≤ revision k ≤ n ∧
  ∀ p, pm k = Some p →
    ∃ r, 0 ≤ r ≤ revision k ∧ fileOf p = file_at (chunkPath c (Z.of_nat i) r).

Definition own_files (c : Core) (n : Z) : Prop :=
  ∀ i k, chunks c !! i = Some k → own_file c n i k.

Lemma own_file_other c n i k : own_file c n i k → n + 1 < 2 ^ 63 → other_file c (Z.of_nat i) k.
Proof.
  intros [Hr Hp] Hn p Hpm E. destruct (Hp p Hpm) as (r & Hle & Hf). rewrite E in Hf.
  unfold nextPath in Hf. rewrite s64_small in Hf by lia. unfold file_at in Hf.
  destruct (decide (dbpath c = EmptyString)) as [Hd|Hd].
  - unfold chunkPath in Hf. rewrite !(decide_True _ _ Hd) in Hf. done.
  - case_decide; [done|]. injection Hf as Hf. apply chunkPath_inj in Hf; [lia|done].
Qed.

(** Replacing a chunk by one that is in order. *)
Lemma own_files_set c n m id k k' :
  own_files c n → n ≤ m → index (chunks c) id = Ret k →
  own_file c m (Z.to_nat id) k' → own_files (setChunk c id k') m.
Proof.
  intros Ho Hm Hix Hk i k1 Hi. cbn [chunks setChunk] in Hi.
  apply list_lookup_insert_Some in Hi as [(<- & -> & _)|[_ Hi]]; [done|].
  destruct (Ho i k1 Hi) as [Hr Hf]. split; [lia|done].
Qed.

Lemma index_Ret_inv {A} (l : list A) i x : index l i = Ret x → 0 ≤ i ∧ l !! Z.to_nat i = Some x.
Proof.
  unfold index. destruct (Z.leb_spec 0 i); [|done]. destruct (l !! Z.to_nat i); [|done].
  by intros [= ->].
Qed.

(** The map of a chunk is replaced by one in the same file. *)
Lemma own_files_update c n id k p p' :
  own_files c n → index (chunks c) id = Ret k → pm k = Some p → fileOf p' = fileOf p →
  own_files (setChunk c id (set_pm k (Some p'))) n.
Proof.
  intros Ho Hix Hpm Hf. eapply own_files_set; [done|lia|done|].
  destruct (index_Ret_inv _ _ _ Hix) as [_ Hk]. destruct (Ho _ _ Hk) as [Hr Hp].
  split; [done|]. cbn. intros q [= <-]. rewrite Hf. by apply Hp.
Qed.

Lemma chunkOf_inv c key id k : chunkOf c key = Ret (id, k) → index (chunks c) id = Ret k.
Proof. unfold chunkOf. intros H. inv_ret. by simplify_eq. Qed.

Lemma pmOf_inv k p : pmOf k = Ret p → pm k = Some p.
Proof. unfold pmOf, orPanic. destruct (pm k); [|done]. by intros [= ->]. Qed.

Lemma own_files_step c n o c' r : own_files c n → core_step c o = Ret (c', r) → own_files c' n.
Proof.
  intros Ho H.
  destruct o as [k|k v|k x|k x]; cbn [core_step] in H;
    unfold CoreGet, CoreSet, CoreCAS, CoreDelete in H; inv_ret; simplify_eq/=; try done.
  all: match goal with
    | H1 : chunkOf _ _ = Ret ?r, H2 : pmOf _ = Ret _ |- _ =>
        destruct r; apply chunkOf_inv in H1; apply pmOf_inv in H2; cbn in * end.
  all: match goal with
    | H1 : _ = Ret ?r |- context [fst ?r] => destruct r end.
  all: try (eapply own_files_update; [done..|]).
  all: first [by eapply Set_file | by eapply CAS_file | by eapply Del_file].
Qed.

(** ** Commands and defragmentations *)

Inductive event :=
  | Command (x : command)
  | Defragment (id : Z).

Section events.
Context {G : Gommap}.

Definition run_event (c : Core) (e : event) : outcome Core :=
  match e with
  | Command x => r ← run_command c x; Ret r.1
  | Defragment id => defrag c id
  end.

Fixpoint run_events (c : Core) (es : list event) : outcome Core :=
  match es with
  | [] => Ret c
  | e :: es => c ← run_event c e; run_events c es
  end.

Lemma iterate_file old fuel : ∀ i new new',
  iterateLoop defragSet fuel old i new = Ret new' → fileOf new' = fileOf new.
Proof.
  induction fuel as [|fuel IH]; intros i new new' H; cbn [iterateLoop] in H;
    destruct (_ <? _); try (by injection H as <-); try done.
  apply bind_Ret_inv in H as ([acc b] & Hv & H). cbn [fst snd] in H.
  assert (fileOf acc = fileOf new) as <-.
  { unfold visit, defragSet in Hv. inv_ret; simplify_eq/=; try done.
    match goal with H : Set_ _ _ _ _ = Ret ?r |- _ => destruct r; by eapply Set_file end. }
  destruct b; [|by injection H as <-]. apply bind_Ret_inv in H as (t & _ & H). by eapply IH.
Qed.

Lemma own_files_event c n e c' :
  own_files c n → 0 ≤ n → n + 1 < 2 ^ 63 → run_event c e = Ret c' → own_files c' (n + 1).
Proof.
  intros Ho Hn Hb H.
  assert (own_files c (n + 1)) as Ho1.
  { intros i k Hi. destruct (Ho i k Hi). split; [lia|done]. }
  destruct e as [[o|id|id]|id]; cbn [run_event run_command] in H.
  - apply bind_Ret_inv in H as ([c1 r] & H & E). injection E as <-. by eapply own_files_step.
  - unfold ChunkSetPresent in H. inv_ret; simplify_eq/=; try done.
    match goal with H1 : index _ _ = Ret ?k |- _ =>
      destruct (index_Ret_inv _ _ _ H1) as [Hid Hk]; destruct (Ho _ _ Hk) as [Hr _];
      eapply (own_files_set c n (n + 1)); [done|lia|done|] end.
    split; cbn; [lia|]. intros p [= <-]. exists 0. rewrite Z2Nat.id by done.
    split; [lia|]. by eapply New_file.
  - unfold ChunkSetNoPresent in H. inv_ret; simplify_eq/=; try done.
    match goal with H1 : index _ _ = Ret ?k |- _ =>
      destruct (index_Ret_inv _ _ _ H1) as [Hid Hk]; destruct (Ho _ _ Hk) as [Hr _];
      eapply (own_files_set c n (n + 1)); [done|lia|done|] end.
    split; cbn; [lia|done].
  - unfold defrag in H. inv_ret; simplify_eq/=.
    match goal with H1 : index _ _ = Ret ?k |- _ =>
      destruct (index_Ret_inv _ _ _ H1) as [Hid Hk]; destruct (Ho _ _ Hk) as [Hr _];
      eapply (own_files_set c n (n + 1)); [done|lia|done|];
      rewrite !(s64_small (revision k + 1)) in * by lia;
      split; cbn; [lia|]; intros p [= <-]; exists (revision k + 1) end.
    split; [lia|]. rewrite Z2Nat.id by done.
    match goal with H1 : Iterate _ _ _ = Ret _ |- _ => rewrite (iterate_file _ _ _ _ _ H1) end.
    by eapply New_file.
Qed.

Lemma own_files_events es : ∀ c n c',
  own_files c n → 0 ≤ n → n + zlen es < 2 ^ 63 → run_events c es = Ret c' →
  own_files c' (n + zlen es).
Proof.
  induction es as [|e es IH]; intros c n c' Ho Hn Hb H; cbn [run_events] in H.
  - injection H as <-. change (zlen []) with 0. by rewrite Z.add_0_r.
  - apply bind_Ret_inv in H as (c1 & H1 & H). rewrite zlen_cons in *.
    replace (n + (1 + zlen es)) with (n + 1 + zlen es) by lia.
    eapply IH; [|lia|lia|done]. eapply own_files_event; [done|done|zl|done].
Qed.

Lemma own_files_new path sz n c : CoreNew path sz n = Ret c → own_files c 0.
Proof.
  unfold CoreNew. intros H. inv_ret. subst c. intros i k Hk. cbn in Hk.
  apply lookup_replicate in Hk as [-> _]. split; [done|]. by intros p.
Qed.

(** No defragmentation writes over the file of its own chunk in a core
    that starts empty: whatever chunks are added, dropped, written and
    defragmented, the file a defragmentation creates is not the one its chunk
    is in. *)
Theorem defrag_file_is_new path sz n c0 es c i k :
  CoreNew path sz n = Ret c0 → run_events c0 es = Ret c → zlen es < 2 ^ 63 - 1 →
  chunks c !! i = Some k → other_file c (Z.of_nat i) k.
Proof.
  intros Hnew Hrun Hlen Hk. eapply (own_file_other c (zlen es)); [|lia].
  apply (own_files_events es c0 0 c); [by eapply own_files_new|lia|lia|done|done].
Qed.
End events.

(** ** What defragmentation guarantees *)

(** The pairs of a core: the reply of [Get], or the absence of the chunk. *)
Definition spec_get (As : list (option abs)) (key : list byte) : error + option (list byte) :=
  match As !! chunkIndex (zlen As) key with
  | Some (Some a) => inr (a_map a !! key)
  | _ => inl errNotPresent
  end.

Lemma CoreGet_sim c As key : core_rep c As → good_key key → CoreGet c key = Ret (spec_get As key).
Proof.
  intros Hc Hk. pose proof (core_sim c As (OpGet key) Hc Hk) as Hs.
  unfold spec_core, spec_get in *. cbn [op_key spec_step core_step] in Hs.
  destruct (As !! _) as [[a|]|]; cbn [mbind outcome_bind] in Hs.
  all: destruct Hs as (c' & E & _); apply bind_Ret_inv in E as (r & -> & E).
  all: destruct r; by simplify_eq/=.
Qed.

Lemma spec_get_same As i a a' key :
  As !! i = Some (Some a) → a_map a' = a_map a →
  spec_get (<[i := Some a']> As) key = spec_get As key.
Proof.
  intros Hi Hm. unfold spec_get, zlen. rewrite length_insert.
  destruct (decide (i = chunkIndex (Z.of_nat (length As)) key)) as [<-|Hne].
  - rewrite list_lookup_insert_eq, Hi, Hm by (by eapply lookup_lt_Some). done.
  - by rewrite list_lookup_insert_ne.
Qed.

Lemma LengthOfChunk_sim c As i a :
  core_rep c As → As !! i = Some (Some a) →
  LengthOfChunk c (Z.of_nat i) = Ret (zlen (enc_log (a_log a))).
Proof.
  intros Hc Hi. destruct (chunk_at c As Hc i _ Hi) as (k & _ & Hix & Hp & _ & _ & p & Hpm & d & Hd).
  unfold LengthOfChunk, pmOf, Used. rewrite Hix. bsimpl. rewrite Hp, Hpm. cbn [negb orPanic]. bsimpl.
  destruct (pd_store _ _ _ Hd) as [_ Hl _ Hroom Had]. pose proof (zlen_nonneg (enc_log (a_log a))).
  rewrite Hl in *. by rewrite s64_small, u64_small by lia.
Qed.

(** Defragmenting a present chunk whose file is not the one it creates
    never panics, changes no value that the core returns, and never makes the
    chunk longer. *)
Theorem defrag_keeps_contents `{GommapLaws} c As i k a :
  core_rep c As → As !! i = Some (Some a) → chunks c !! i = Some k →
  other_file c (Z.of_nat i) k →
  Forall (λ r, good_key (r_key r)) (a_log a) → fresh (a_log a) →
  ∃ c' l l', defrag c (Z.of_nat i) = Ret c' ∧
    (∀ key, good_key key → CoreGet c' key = CoreGet c key) ∧
    LengthOfChunk c (Z.of_nat i) = Ret l ∧ LengthOfChunk c' (Z.of_nat i) = Ret l' ∧ l' ≤ l.
Proof.
  intros Hc Hi Hk Hfile Hg Hf.
  destruct (defrag_sim c As i k a) as (c' & a' & E & Hc' & Hco); [done..|].
  eexists c', _, _. split_and!; [done| | | |apply (co_length _ _ Hco)].
  - intros key Hkey. rewrite (CoreGet_sim c As), (CoreGet_sim c' _ _ Hc') by done.
    f_equal. eapply spec_get_same; [done|apply Hco].
  - by eapply LengthOfChunk_sim.
  - eapply LengthOfChunk_sim; [done|]. apply list_lookup_insert_eq. by eapply lookup_lt_Some.
Qed.

(** Defragmenting a chunk into its own file loses every pair: creating
    the file truncates the one the old chunk is read from. *)
Theorem defrag_own_file_loses `{GommapLaws} c As i k a p :
  core_rep c As → As !! i = Some (Some a) → chunks c !! i = Some k →
  pm k = Some p → st_osFile (st p) = Some (nextPath c (Z.of_nat i) k) →
  zlen (enc_log (a_log a)) + 8 ≤ chunkSize c →
  (∀ key v, a_map a !! key = Some v → khash key ≠ khash []) →
  ∃ c', defrag c (Z.of_nat i) = Ret c' ∧ LengthOfChunk c' (Z.of_nat i) = Ret 0 ∧
    ∀ key, good_key key → chunkIndex (zlen As) key = i → CoreGet c' key = Ret (inr None).
Proof.
  intros Hc Hi Hk Hpm Hfile Hroom Hempty.
  destruct (defrag_own_sim c As i k a p) as (c' & E & Hc'); [done..|].
  assert (<[i := Some (new_abs (chunkSize c))]> As !! i = Some (Some (new_abs (chunkSize c)))) as Hi'.
  { apply list_lookup_insert_eq. by eapply lookup_lt_Some. }
  exists c'. split_and!; [done| |].
  - by rewrite (LengthOfChunk_sim c' _ i _ Hc' Hi').
  - intros key Hkey Hix. rewrite (CoreGet_sim c' _ _ Hc') by done.
    unfold spec_get, zlen in *. by rewrite length_insert, Hix, Hi'.
Qed.

(** ** A sample core: one chunk on disk, two keys written and one deleted *)

Lemma run_events_commands `{Gommap} xs : ∀ c c' rs,
  run_commands c xs = Ret (c', rs) → run_events c (map Command xs) = Ret c'.
Proof.
  induction xs as [|x xs IH]; intros c c' rs E; cbn [run_commands] in E; [by injection E as <- _|].
  apply bind_Ret_inv in E as ([c1 r] & E1 & E). apply bind_Ret_inv in E as ([c2 rs2] & E2 & E).
  cbn [fst snd] in *. injection E as <- _. cbn [map run_events run_event]. rewrite E1. bsimpl.
  by eapply IH.
Qed.

Definition sample_commands : list command :=
  [SetPresent 0; Primitive (OpSet (str "a") (sample_value 5 "x"));
   Primitive (OpSet (str "b") (sample_value 6 "z")); Primitive (OpDel (str "a") (le_enc 8 7))].

Definition sample_abs : abs :=
  Abs {[str "b" := sample_value 6 "z"]}
    [Rec (str "a") (sample_value 5 "x"); Rec (str "b") (sample_value 6 "z"); Rec (str "a") []] 300 0.

Definition sample_replies : list reply := [done_reply; RError None; RError None; RError None].

Lemma sample_run `{GommapLaws} :
  ∃ c0 c, CoreNew "db" 300 1 = Ret c0 ∧ run_commands c0 sample_commands = Ret (c, sample_replies) ∧
    core_rep c [Some sample_abs].
Proof.
  destruct (core_new_rep "db" 300 1) as (c0 & Hnew & Hsz & Hc0); [by vm_compute..|].
  pose proof (commands_sim sample_commands c0 _ Hc0 ltac:(repeat constructor; by vm_compute)) as Hs.
  rewrite Hsz in Hs.
  assert (spec_commands 300 (replicate (Z.to_nat 1) None) sample_commands = Ret ([Some sample_abs], sample_replies)) as E
    by (by vm_compute).
  rewrite E in Hs. destruct Hs as (c & Hr & Hc & _). eexists c0, c. split_and!; eassumption.
Qed.

Lemma sample_core `{GommapLaws} :
  ∃ c0 c rs, CoreNew "db" 300 1 = Ret c0 ∧ run_commands c0 sample_commands = Ret (c, rs) ∧
    core_rep c [Some sample_abs].
Proof. destruct sample_run as (c0 & c & H'). by exists c0, c, sample_replies. Qed.

Lemma fresh_cons r l :
  Forall (λ r', r_key r = r_key r' → head8 r l ≠ take 8 (r_val r')) l → fresh l → fresh (r :: l).
Proof.
  intros HF Hl l1 r1 l2 r' l3 E Hk. destruct l1 as [|x l1]; injection E as -> ->.
  - rewrite Forall_app, Forall_cons in HF. by apply HF.
  - by eapply Hl.
Qed.

Lemma fresh_nil : fresh [].
Proof. intros l1 r l2 r' l3 E. by destruct l1. Qed.

Lemma sample_fresh : fresh (a_log sample_abs).
Proof.
  repeat (apply fresh_cons; [repeat constructor; by vm_compute|]). apply fresh_nil.
Qed.

Lemma sample_good : Forall (λ r, good_key (r_key r)) (a_log sample_abs).
Proof. repeat constructor; by vm_compute. Qed.

(** The chunk of a core that represents one chunk. *)
Lemma sample_chunk c a : core_rep c [Some a] → ∃ k, chunks c !! 0%nat = Some k.
Proof. intros Hc. destruct (chunk_at c _ Hc 0 _ eq_refl) as (k & Hk & _). by exists k. Qed.

(** The deleted key leaves room when the chunk is defragmented. *)
Lemma defrag_keeps_contents_witness :
  let _ := plainGommap in
  ∃ c c', defrag c 0 = Ret c' ∧ LengthOfChunk c 0 = Ret 57 ∧
    CoreGet c' (str "b") = CoreGet c (str "b") ∧ CoreGet c' (str "a") = CoreGet c (str "a").
Proof.
  intros G. destruct (@sample_core G plainGommap_laws) as (c0 & c & rs & Hnew & Hrun & Hc).
  destruct (sample_chunk c _ Hc) as [k Hk].
  assert (other_file c (Z.of_nat 0) k) as Hfile.
  { apply (own_file_other c 4); [|lia].
    apply (own_files_events (map Command sample_commands) c0 0 c); [by eapply own_files_new|done..| |done].
    by eapply run_events_commands. }
  destruct (@defrag_keeps_contents G plainGommap_laws c _ 0 k _ Hc eq_refl Hk Hfile
              sample_good sample_fresh) as (c' & l & l' & E & Hget & Hl & _).
  exists c, c'. split_and!; [done| |apply Hget; by vm_compute..].
  etrans; [exact (LengthOfChunk_sim c _ 0 _ Hc eq_refl)|by vm_compute].
Defined.

Lemma run_events_app `{Gommap} es es' : ∀ c c',
  run_events c es = Ret c' → run_events c (es ++ es') = run_events c' es'.
Proof.
  induction es as [|e es IH]; intros c c' E; cbn [run_events app] in *; [by injection E as <-|].
  apply bind_Ret_inv in E as (c1 & -> & E). bsimpl. by apply IH.
Qed.

(** After a first defragmentation, the second one creates a third file. *)
Lemma defrag_file_is_new_witness :
  let _ := plainGommap in
  ∃ c0 c k, run_events c0 (map Command sample_commands ++ [Defragment 0]) = Ret c ∧
    chunks c !! 0%nat = Some k ∧ other_file c 0 k.
Proof.
  intros G. destruct (@sample_core G plainGommap_laws) as (c0 & c & rs & Hnew & Hrun & Hc).
  destruct (sample_chunk c _ Hc) as [k Hk]. apply run_events_commands in Hrun.
  assert (other_file c (Z.of_nat 0) k) as Hfile.
  { apply (own_file_other c 4); [|lia].
    apply (own_files_events (map Command sample_commands) c0 0 c); [by eapply own_files_new|done..]. }
  destruct (@defrag_sim G plainGommap_laws c _ 0 k _ Hc eq_refl Hk Hfile sample_good sample_fresh)
    as (c' & a' & E & Hc' & _).
  destruct (sample_chunk c' a' Hc') as [k' Hk'].
  assert (run_events c0 (map Command sample_commands ++ [Defragment 0]) = Ret c') as Hrun'.
  { rewrite (run_events_app _ _ _ _ Hrun). cbn [run_events run_event].
    change (Z.of_nat 0) with 0 in E. by rewrite E. }
  exists c0, c', k'. split_and!; [done..|].
  apply (@defrag_file_is_new G "db" 300 1 c0 _ c' 0 k' Hnew Hrun'); [by vm_compute|done].
Defined.

(** ** Reopening the sample core from a file of revision 1 *)

Lemma restorePair_file c key v i c' e :
  restorePair c key v i = Ret (c', e) → fileOf c' = fileOf c.
Proof.
  unfold restorePair. intros H. inv_ret; simplify_eq/=; try done; follow_file; try congruence.
  match goal with E : _ = set_deleted _ _ |- _ => rewrite E end. cbn. congruence.
Qed.

Lemma openLoop_file fuel : ∀ c i c', openLoop fuel c i = Ret c' → fileOf c' = fileOf c.
Proof.
  induction fuel as [|fuel IH]; intros c i c' H; cbn [openLoop] in H; [done|].
  apply bind_Ret_inv in H as (kl & _ & H). destruct (kl <=? 0); [by injection H as <-|].
  apply bind_Ret_inv in H as (key & _ & H). apply bind_Ret_inv in H as (v & _ & H).
  apply bind_Ret_inv in H as ([c1 e] & Hr & H). apply bind_Ret_inv in H as (t & _ & H).
  apply IH in H. rewrite H. cbn [fst]. apply restorePair_file in Hr. rewrite <- Hr.
  by destruct (_ <? _).
Qed.

Lemma Open_file `{Gommap} path contents c : Open path contents = Ret c → fileOf c = Some path.
Proof.
  unfold Open, openStore. intros H'.
  apply bind_Ret_inv in H' as (s & Hs & H'). apply bind_Ret_inv in Hs as (f & _ & Hs).
  injection Hs as <-. by apply openLoop_file in H'.
Qed.

(** A core of one chunk that is opened from a file of revision 1: it counts no
    revision, and its next defragmentation creates that file. *)
Lemma sample_reopened `{GommapLaws} :
  ∃ c p k, core_rep c [Some sample_abs] ∧ chunks c !! 0%nat = Some k ∧ pm k = Some p ∧
    st_osFile (st p) = Some (nextPath c (Z.of_nat 0) k) ∧ chunkSize c = 300 ∧
    ∃ c0 contents, CoreNew "db" 300 1 = Ret c0 ∧ CoreOpen c0 [("0_rev1", contents)] = Ret c.
Proof.
  destruct sample_core as (c0 & c & rs & Hnew & _ & Hc).
  destruct (chunk_at c _ Hc 0 _ eq_refl) as (k & _ & _ & _ & _ & Hw & p & _ & Hr).
  destruct (Open_sim "db/chunks/0_rev1" p sample_abs Hr) as (p' & Ho & Hr').
  { eapply (durable_exec [OpSet (str "a") (sample_value 5 "x"); OpSet (str "b") (sample_value 6 "z");
      OpDel (str "a") (le_enc 8 7)] (new_abs 300) _ [RError None; RError None; RError None]);
      [apply durable_new|by vm_compute|].
    rewrite !not_elem_of_cons. split_and!; try done. apply not_elem_of_nil. }
  { by repeat constructor. }
  { by vm_compute. }
  injection Hnew as <-.
  eexists _, p', _. split_and!; [..|eexists _, (st_file (st p)); split; [done|]].
  6: { unfold CoreOpen. change (replicate (Z.to_nat 1) newMetaChunk) with [newMetaChunk].
       cbn [chunks openChunks].
       change (findChunk _ _ _) with (Some ("db/chunks/0_rev1", st_file (st p))).
       cbv iota. rewrite Ho. bsimpl. done. }
  - split; cbn [chunks chunkSize]; [|by vm_compute..]. constructor; [|constructor].
    cbn. split_and!; try done. by exists p'.
  - done.
  - done.
  - rewrite (Open_file _ _ _ Ho). done.
  - done.
Qed.

Lemma defrag_own_file_loses_witness :
  let _ := plainGommap in
  ∃ c0 c c' contents, CoreNew "db" 300 1 = Ret c0 ∧ CoreOpen c0 [("0_rev1", contents)] = Ret c ∧
    CoreGet c (str "b") = Ret (inr (Some (sample_value 6 "z"))) ∧
    defrag c 0 = Ret c' ∧ CoreGet c' (str "b") = Ret (inr None).
Proof.
  intros G.
  destruct (@sample_reopened G plainGommap_laws)
    as (c & p & k & Hc & Hk & Hpm & Hfile & Hsz & c0 & contents & Hnew & Hopen).
  destruct (@defrag_own_file_loses G plainGommap_laws c _ 0 k _ p Hc eq_refl Hk Hpm Hfile)
    as (c' & E & _ & Hget).
  - rewrite Hsz. by vm_compute.
  - intros key v Hv. cbn [a_map sample_abs] in Hv.
    apply lookup_singleton_Some in Hv as [<- _]. by vm_compute.
  - exists c0, c, c', contents. split_and!; [done..| |done|].
    + by rewrite (CoreGet_sim c _ _ Hc) by (by vm_compute).
    + apply Hget; by vm_compute.
Defined.
