(* ===== verification/CoreHistory.v ===== *)
(** * Histories of a core with defragmentations

    The background goroutine of [src/core/defrag.go] replaces the files of the
    chunks while the primitives of [src/core/core.go] run.  When the writes carry
    times of this age and no two writes of a key carry the same time, this cannot
    be seen: every primitive replies as if there were no defragmenter. *)
From S2P Require Import Prelude.
From S2P Require Import Hashing.
From S2P Require Import Store.
From S2P Require Import PMap.
From S2P Require Import PMapSpec.
From S2P Require Import Chunk.
From S2P Require Import PMapIter.
From S2P Require Import PMapOpen.
From S2P Require Import Core.
From S2P Require Import CoreProps.
From S2P Require Import Defrag.
From S2P Require Import CoreFiles.

#[local] Opaque chunkIndex.

(** ** Logs that an iteration reads right *)

(** A record is dated: its key is of a length below 64 MB, and its value is a
    tombstone or carries a time after 1988 (2^59 nanoseconds). *)
Definition dated (r : rec) : Prop :=
  good_key (r_key r) ∧ r_key r ≠ [] ∧ zlen (r_key r) < 2 ^ 26 ∧
  (r_val r = [] ∨ (8 ≤ zlen (r_val r) ∧ 2 ^ 59 ≤ hdr (r_val r))).

(** The key and the time of a write; a tombstone has none. *)
Definition tag (r : rec) : option (list byte * list byte) :=
  if decide (r_val r = []) then None else Some (r_key r, take 8 (r_val r)).
Definition tags (l : list rec) : list (list byte * list byte) := omap tag l.

Lemma head8_value r l : 8 ≤ zlen (r_val r) → head8 r l = take 8 (r_val r).
Proof. intros H8. unfold head8. rewrite take_app_le; [done|]. unfold zlen in H8. lia. Qed.

(** After a tombstone the loop reads the length of its record and of the next key. *)
Lemma head8_tombstone r r' l :
  r_val r = [] → zlen (r_key r) < 2 ^ 26 → zlen (r_key r') < 2 ^ 26 → le_dec (head8 r (r' :: l)) < 2 ^ 59.
Proof.
  intros Hv Hk Hk'. unfold head8. rewrite Hv, enc_log_cons, app_nil_l. unfold enc_rec.
  rewrite <- app_assoc, app_assoc, take_app_le, take_ge by (rewrite length_app, !le_enc_length; lia).
  rewrite le_dec_app, !le_dec_enc, zlen_le_enc. change (256 ^ Z.of_nat 4) with (2 ^ 32).
  assert (body_len r < 2 ^ 26) by (unfold body_len; rewrite Hv; zlen_nil_simpl; lia).
  pose proof (body_len_nonneg r). pose proof (zlen_nonneg (r_key r')). rewrite !Z.mod_small by lia. lia.
Qed.

Lemma dated_fresh l : Forall dated l → NoDup (tags l) → fresh l.
Proof.
  intros Hd Hnd l1 r l2 r' l3 -> Hk E. rewrite !Forall_app, !Forall_cons, !Forall_app, !Forall_cons in Hd.
  destruct Hd as (_ & Hr & Hl2 & Hr' & Hl3).
  destruct Hr as (_ & _ & Hlen & Hv), Hr' as (_ & _ & Hlen' & Hv').
  assert (length (head8 r (l2 ++ r' :: l3)) = 8%nat) as H8.
  { unfold head8. rewrite length_take_le; [done|]. rewrite !length_app, le_enc_length.
    destruct l2; cbn [app]; rewrite enc_log_cons; unfold enc_rec; rewrite !length_app, le_enc_length; lia. }
  destruct Hv' as [Hv'|[Hv' Hh']]; [rewrite E, Hv' in H8; done|].
  destruct Hv as [Hv|[Hv _]].
  - assert (∃ r2 l4, l2 ++ r' :: l3 = r2 :: l4 ∧ zlen (r_key r2) < 2 ^ 26) as (r2 & l4 & El & Hlen2).
    { destruct l2 as [|r2 l2]; [by exists r', l3|]. exists r2, (l2 ++ r' :: l3). split; [done|].
      apply Forall_cons in Hl2 as [Hr2 _]. apply Hr2. }
    rewrite El in E. pose proof (head8_tombstone r r2 l4 Hv Hlen Hlen2) as Hlt. unfold hdr in Hh'. rewrite E in Hlt. lia.
  - rewrite head8_value in E by done. unfold tags in Hnd. rewrite omap_app in Hnd. apply NoDup_app in Hnd as (_ & _ & Hnd).
    assert (r_val r ≠ [] ∧ r_val r' ≠ []) as [Hn Hn'] by (split; intros Hx; rewrite Hx in *; done).
    cbn [omap list_omap] in Hnd. unfold tag at 1 in Hnd. rewrite decide_False in Hnd by done.
    apply NoDup_cons in Hnd as [Hnin _]. apply Hnin, list_elem_of_omap. exists r'.
    split; [apply elem_of_app; right; by left|]. unfold tag. rewrite decide_False by done. by rewrite Hk, E.
Qed.

(** ** Chunks whose writes are all different *)

(** The log is dated, and its writes are different ones of [seen]. *)
Record tidy (seen : list (list byte * list byte)) (a : abs) : Prop := Tidy {
  ti_durable : durable a;
  ti_dated : Forall dated (a_log a);
  ti_NoDup : NoDup (tags (a_log a));
  ti_seen : ∀ x, x ∈ tags (a_log a) → x ∈ seen
}.

Lemma tidy_new seen sz : tidy seen (new_abs sz).
Proof. split; [apply durable_new|constructor|constructor|]. by intros x ?%not_elem_of_nil. Qed.

Lemma tidy_more seen seen' a : tidy seen a → (∀ x, x ∈ seen → x ∈ seen') → tidy seen' a.
Proof. intros [] Hs. split; auto. Qed.

Lemma tidy_fresh seen a : tidy seen a → fresh (a_log a) ∧ Forall (λ r, good_key (r_key r)) (a_log a).
Proof.
  intros [_ Hd Hn _]. split; [by apply dated_fresh|]. eapply Forall_impl; [exact Hd|]. by intros r (? & _).
Qed.

(** The write of a primitive, and primitives with dated writes. *)
Definition op_tag (o : op) : option (list byte * list byte) :=
  match o with
  | OpSet k v => Some (k, take 8 v)
  | OpCAS k x => Some (k, take 8 (drop 16 x))
  | _ => None
  end.

Definition op_dated (o : op) : Prop :=
  good_key (op_key o) ∧ op_key o ≠ [] ∧ zlen (op_key o) < 2 ^ 26 ∧
  match o with
  | OpSet _ v => 2 ^ 59 ≤ hdr v
  | OpCAS _ x => 2 ^ 59 ≤ hdr (drop 16 x)
  | _ => True
  end.

#[export] Instance op_dated_dec o : Decision (op_dated o).
Proof. unfold op_dated. destruct o; apply _. Defined.

(** A primitive appends one record at most. *)
Lemma step_log a o a' r :
  spec_step a o = Ret (a', r) →
  a_log a' = a_log a ∨ ∃ v, a_log a' = a_log a ++ [Rec (op_key o) v] ∧
    (v = [] ∨ (8 ≤ zlen v ∧ op_tag o = Some (op_key o, take 8 v) ∧ (op_dated o → 2 ^ 59 ≤ hdr v))).
Proof.
  destruct o as [k|k v|k x|k x]; cbn [spec_step op_key op_tag].
  - intros [= <- _]. by left.
  - intros [= <- _]. unfold spec_Set, spec_write. destruct (Z.ltb_spec (zlen v) 8); [by left|].
    assert (8 ≤ zlen v ∧ Some (k, take 8 v) = Some (k, take 8 v) ∧ (op_dated (OpSet k v) → 2 ^ 59 ≤ hdr v)) as Hv.
    { split_and!; [done|done|]. by intros (_ & _ & _ & ?). }
    repeat case_match; try (by left); right; exists v; (split; [done|by right]).
  - intros [= <- _]. unfold spec_CAS, spec_write. destruct (Z.ltb_spec (zlen x) 24); [by left|].
    assert (8 ≤ zlen (drop 16 x) ∧ Some (k, take 8 (drop 16 x)) = Some (k, take 8 (drop 16 x)) ∧
      (op_dated (OpCAS k x) → 2 ^ 59 ≤ hdr (drop 16 x))) as Hv.
    { split_and!; [unfold zlen in *; rewrite length_drop; lia|done|]. by intros (_ & _ & _ & ?). }
    repeat case_match; try (by left); right; exists (drop 16 x); (split; [done|by right]).
  - intros (r' & E & [= <- _])%bind_Ret_inv. unfold spec_Del in E. destruct (a_map a !! k); [|injection E as <-; by left].
    apply bind_Ret_inv in E as (_ & _ & E). repeat case_match; injection E as <-; cbn; try (by left).
    right. exists []. split; [done|by left].
Qed.

Lemma tidy_step seen a o a' r :
  tidy seen a → op_dated o → (∀ x, op_tag o = Some x → x ∉ seen) →
  spec_step a o = Ret (a', r) → r ≠ RError (Some errStoreFull) → tidy (option_list (op_tag o) ++ seen) a'.
Proof.
  intros Ht Ho Htag E Hr. pose proof Ht as [Hdu Hda Hnd Hse].
  assert (durable a') as Hdu' by (by eapply durable_step).
  assert (∀ x, x ∈ seen → x ∈ option_list (op_tag o) ++ seen) as Hsub by (intros x Hx; apply elem_of_app; by right).
  destruct (step_log a o a' r E) as [El|(v & El & Hv)]; [split; rewrite ?El; auto|].
  assert (dated (Rec (op_key o) v)) as Hd.
  { pose proof Ho as (Hg & Hne & Hlen & _). split_and!; cbn; try done. destruct Hv as [->|(H8 & _ & Hh)]; [by left|].
    right. split; [done|]. by apply Hh. }
  assert (tags (a_log a') = tags (a_log a) ++ option_list (tag (Rec (op_key o) v))) as Et.
  { rewrite El. unfold tags. rewrite omap_app. f_equal. }
  assert (option_list (tag (Rec (op_key o) v)) = [] ∨ tag (Rec (op_key o) v) = op_tag o) as Hcase.
  { unfold tag. cbn. destruct Hv as [->|(H8 & Hop & _)]; [by left|]. right.
    rewrite decide_False by (intros ->; done). done. }
  split; [done|rewrite El; apply Forall_app; split; [done|by apply Forall_singleton]|..]; rewrite Et.
  - destruct Hcase as [->| ->]; [by rewrite app_nil_r|]. apply NoDup_app. split_and!; [done| |].
    + intros x Hx Hin. apply (Htag x); [|by apply Hse]. destruct (op_tag o); cbn in Hin; [|by apply not_elem_of_nil in Hin].
      by apply list_elem_of_singleton in Hin as ->.
    + destruct (op_tag o); cbn; [apply NoDup_singleton|constructor].
  - intros x [Hx|Hx]%elem_of_app; [by apply Hsub, Hse|]. destruct Hcase as [Hc|Hc]; rewrite Hc in Hx;
      [by apply not_elem_of_nil in Hx|]. apply elem_of_app. by left.
Qed.

(** ** A chunk and its defragmented form *)

Lemma increasing_tags l : Forall (λ r, 8 ≤ zlen (r_val r)) l → increasing l → NoDup (tags l).
Proof.
  induction l as [|r l IH]; intros H8 Hi; [constructor|]. apply Forall_cons in H8 as [Hr H8].
  assert (NoDup (tags l)) as Hnd.
  { apply IH; [done|]. intros l1 r1 l2 r2 l3 -> Hk. by apply (Hi (r :: l1) r1 l2 r2 l3). }
  unfold tags. cbn [omap list_omap]. unfold tag at 1. case_decide; [done|]. apply NoDup_cons. split; [|done].
  intros (r' & Hin & Ht)%list_elem_of_omap. unfold tag in Ht. case_decide; [done|]. injection Ht as Hk Ht.
  apply list_elem_of_split in Hin as (l1 & l2 & ->).
  pose proof (Hi [] r l1 r' l2 eq_refl (eq_sym Hk)) as Hlt. unfold ts, hdr in Hlt. rewrite Ht in Hlt. lia.
Qed.

Lemma tidy_compacted seen a a' : tidy seen a → compacted a a' → tidy seen a'.
Proof.
  intros [Hdu Hda Hnd Hse] [_ _ _ Hdu' Hw Hp _].
  assert (∀ r, r ∈ a_log a' → r ∈ a_log a) as Hsub.
  { intros r Hr. rewrite Forall_forall in Hp. specialize (Hp r Hr). rewrite (du_map _ Hdu) in Hp.
    apply replay_split in Hp as (l1 & l2 & -> & _). destruct r. apply elem_of_app. right. by left. }
  split; [done| |by apply increasing_tags; apply Hw|].
  - apply Forall_forall. intros r Hr. rewrite Forall_forall in Hda. by apply Hda, Hsub.
  - intros x (r & Hr & Ht)%list_elem_of_omap. apply Hse, list_elem_of_omap. exists r. by split; [apply Hsub|].
Qed.

(** [a'] has the pairs of [a] and takes no more room. *)
Record lighter (a a' : abs) : Prop := Lighter {
  li_map : a_map a' = a_map a;
  li_size : a_size a' = a_size a;
  li_length : zlen (enc_log (a_log a')) ≤ zlen (enc_log (a_log a))
}.

Lemma lighter_compacted a a' b : lighter a a' → compacted a' b → lighter a b.
Proof. intros [H1 H2 H3] [H4 _ H5 _ _ _ H6]. split; [congruence|congruence|lia]. Qed.

Lemma lighter_room a a' k v : lighter a a' → room a k v = true → room a' k v = true.
Proof. intros [_ Hs Hl]. unfold room. rewrite !Z.ltb_lt, Hs. lia. Qed.

Lemma lighter_append a a' m k v d d' :
  lighter a a' → lighter (Abs m (a_log a ++ [Rec k v]) (a_size a) d) (Abs m (a_log a' ++ [Rec k v]) (a_size a') d').
Proof. intros [_ Hs Hl]. split; cbn [a_map a_log a_size]; [done|done|]. rewrite !enc_log_snoc. zl. Qed.

Lemma lighter_write a a' k v b :
  lighter a a' → spec_write a k v = (b, None) → ∃ b', spec_write a' k v = (b', None) ∧ lighter b b'.
Proof.
  intros Hl. unfold spec_write. destruct (room a k v) eqn:Hr; [|done]. rewrite (lighter_room a a') by done.
  intros [= <-]. eexists. split; [done|]. rewrite (li_map _ _ Hl). by apply lighter_append.
Qed.

(** A primitive that finds room replies the same on both. *)
Lemma lighter_step a a' o b r :
  lighter a a' → spec_step a o = Ret (b, r) → r ≠ RError (Some errStoreFull) →
  ∃ b', spec_step a' o = Ret (b', r) ∧ lighter b b'.
Proof.
  intros Hl. assert (∀ k v e, e ≠ Some errStoreFull → (spec_write a k v) = (b, e) →
    ∃ b', spec_write a' k v = (b', e) ∧ lighter b b') as Hw.
  { intros k v e He E. assert (e = None) as -> by (unfold spec_write in E; destruct (room a k v); congruence).
    by eapply lighter_write. }
  destruct o as [k|k v|k x|k x]; cbn [spec_step].
  - intros [= <- <-] _. rewrite (li_map _ _ Hl). by eexists.
  - intros E Hr. assert (∃ b', spec_Set a' k v = (b', (spec_Set a k v).2) ∧ lighter b b') as (b' & -> & Hb); [|exists b'; by injection E as _ <-].
    injection E as Eb Er. assert ((spec_Set a k v).2 ≠ Some errStoreFull) as He by congruence. revert Eb He.
    unfold spec_Set. rewrite (li_map _ _ Hl). destruct (zlen v <? 8); [intros <- _; by eexists|].
    destruct (a_map a !! k) as [old|]; [destruct (ts v <=? ts old); [intros <- _; by eexists|]|];
      intros Eb He; apply Hw; try done; rewrite <- Eb; by destruct (spec_write a k v).
  - intros E Hr. assert (∃ b', spec_CAS a' k x = (b', (spec_CAS a k x).2) ∧ lighter b b') as (b' & -> & Hb); [|exists b'; by injection E as _ <-].
    injection E as Eb Er. assert ((spec_CAS a k x).2 ≠ Some errStoreFull) as He by congruence. revert Eb He.
    unfold spec_CAS. rewrite (li_map _ _ Hl). destruct (zlen x <? 24); [intros <- _; by eexists|].
    destruct (a_map a !! k) as [old|]; [|destruct (_ && _); [intros <- _; by eexists|]].
    + do 2 (destruct (negb _); [intros <- _; by eexists|]). destruct (room a k (drop 16 x)) eqn:Hroom; [|done].
      rewrite (lighter_room a a' _ _ Hl Hroom). intros Eb He; apply Hw; try done; rewrite <- Eb; by destruct (spec_write _ _ _).
    + intros Eb He; apply Hw; try done; rewrite <- Eb; by destruct (spec_write _ _ _).
  - intros E Hr. apply bind_Ret_inv in E as ([b1 e] & E & [= -> <-]). cbn [fst snd] in *. revert E. unfold spec_Del. rewrite (li_map _ _ Hl).
    destruct (a_map a !! k) as [old|]; [|intros [= <- <-]; by eexists]. destruct (8 <=? zlen x); cbn [check]; bsimpl; [|done].
    destruct (ts x <? ts old); [intros [= <- <-]; by eexists|]. destruct (room a k []) eqn:Hroom; [|intros [= <- <-]; done].
    rewrite (lighter_room a a' _ _ Hl Hroom). intros [= <- <-]. bsimpl. eexists. split; [done|]. by apply lighter_append.
Qed.

(** ** A core and its defragmenter *)

(** The specification: a defragmentation of a chunk that is there does nothing. *)
Fixpoint spec_events (size : Z) (As : list (option abs)) (es : list event) : outcome (list (option abs) * list reply) :=
  match es with
  | [] => Ret (As, [])
  | Command x :: es => r ← spec_command size As x; s ← spec_events size r.1 es; Ret (s.1, r.2 :: s.2)
  | Defragment id :: es => o ← index As id; _ ← orPanic o; spec_events size As es
  end.

(** The code: the replies of the commands. *)
Fixpoint run_mixed `{Gommap} (c : Core) (es : list event) : outcome (Core * list reply) :=
  match es with
  | [] => Ret (c, [])
  | Command x :: es => r ← run_command c x; s ← run_mixed r.1 es; Ret (s.1, r.2 :: s.2)
  | Defragment id :: es => c ← defrag c id; run_mixed c es
  end.

Definition event_tag (e : event) : option (list byte * list byte) :=
  match e with Command (Primitive o) => op_tag o | _ => None end.
Definition event_dated (e : event) : Prop :=
  match e with Command (Primitive o) => op_dated o ∧ op_ok o | _ => True end.

#[export] Instance event_dated_dec e : Decision (event_dated e).
Proof. destruct e as [[o|cid|cid]|id]; apply _. Defined.

(** The chunks of the specification and those of the code. *)
Definition matches (seen : list (list byte * list byte)) (o o' : option abs) : Prop :=
  match o, o' with
  | None, None => True
  | Some a, Some a' => lighter a a' ∧ tidy seen a'
  | _, _ => False
  end.

Lemma matches_more seen seen' As As' :
  Forall2 (matches seen) As As' → (∀ x, x ∈ seen → x ∈ seen') → Forall2 (matches seen') As As'.
Proof.
  intros HF Hs. eapply Forall2_impl; [exact HF|]. intros [a|] [a'|]; cbn; try done. intros [? ?]. split; [done|by eapply tidy_more].
Qed.

Lemma matches_index seen As As' id o :
  Forall2 (matches seen) As As' → index As id = Ret o → ∃ o', index As' id = Ret o' ∧ matches seen o o' ∧ As' !! Z.to_nat id = Some o'.
Proof.
  intros HF [Hid Ho]%index_Ret_inv. destruct (Forall2_lookup_l _ _ _ _ _ HF Ho) as (o' & Ho' & Hm).
  exists o'. split_and!; [by apply index_lookup|done|done].
Qed.

Lemma matches_command size seen As As' x Bs r :
  Forall2 (matches seen) As As' → event_dated (Command x) → (∀ t, event_tag (Command x) = Some t → t ∉ seen) →
  spec_command size As x = Ret (Bs, r) → r ≠ RError (Some errStoreFull) →
  ∃ Bs', spec_command size As' x = Ret (Bs', r) ∧
    Forall2 (matches (option_list (event_tag (Command x)) ++ seen)) Bs Bs'.
Proof.
  intros HF Hd Ht E Hr. assert (zlen As' = zlen As) as Hz by (unfold zlen; by rewrite (Forall2_length _ _ _ HF)).
  destruct x as [o|cid|cid]; cbn [spec_command event_tag event_dated] in *.
  - unfold spec_core in *. rewrite Hz. set (i := chunkIndex (zlen As) (op_key o)) in *.
    assert (∀ y, y ∈ seen → y ∈ option_list (op_tag o) ++ seen) as Hsub by (intros y Hy; apply elem_of_app; by right).
    pose proof (proj1 (Forall2_lookup (matches seen) As As') HF i) as Hlk.
    inversion Hlk as [oa oa' Hm Ea Ea'|Ea Ea']; cycle 1.
    { rewrite <- Ea in E. injection E as <- <-. eexists. split; [done|]. by eapply matches_more. }
    rewrite <- Ea in E. destruct oa as [a|], oa' as [a'|]; cbn in Hm; try done; cycle 1.
    { injection E as <- <-. eexists. split; [done|]. by eapply matches_more. }
    destruct Hm as [Hl Hti]. apply bind_Ret_inv in E as ([b r'] & E & [= <- <-]). cbn [fst snd] in *.
    destruct (lighter_step a a' o b r' Hl E Hr) as (b' & E' & Hb). rewrite E'. bsimpl. eexists. split; [done|].
    apply Forall2_insert; [by eapply matches_more|]. split; [done|]. eapply tidy_step; try done. apply Hd.
  - apply bind_Ret_inv in E as (o & E & [= <- <-]). destruct (matches_index _ _ _ _ _ HF E) as (o' & -> & Hm & _).
    bsimpl. eexists. split; [done|]. destruct o as [a|], o' as [a'|]; cbn in Hm; try done.
    apply Forall2_insert; [done|]. split; [by split|apply tidy_new].
  - apply bind_Ret_inv in E as (o & E & [= <- <-]). destruct (matches_index _ _ _ _ _ HF E) as (o' & -> & Hm & _).
    bsimpl. eexists. split; [done|]. destruct o as [a|], o' as [a'|]; cbn in Hm; try done. by apply Forall2_insert.
Qed.

(** Commands leave the directory, the size and the number of the chunks of a core alone. *)
Definition same_config (c c' : Core) : Prop := dbpath c' = dbpath c ∧ chunkSize c' = chunkSize c ∧ length (chunks c') = length (chunks c).

Lemma command_config `{Gommap} c x c' r : run_command c x = Ret (c', r) → same_config c c'.
Proof.
  unfold same_config. destruct x as [o|cid|cid]; cbn [run_command]; [destruct o; cbn [core_step]|..];
    unfold CoreGet, CoreSet, CoreCAS, CoreDelete, ChunkSetPresent, ChunkSetNoPresent; intros E; inv_ret;
    simplify_eq/=; by rewrite ?length_insert.
Qed.

(** The core [c] stands for [As], with [m] files at most for each chunk. *)
Record follows (seen : list (list byte * list byte)) (m : Z) (As : list (option abs)) (c : Core) : Prop := Follows {
  fo_own : own_files c m;
  fo_rep : ∃ As', core_rep c As' ∧ Forall2 (matches seen) As As'
}.

Lemma follows_command `{GommapLaws} c As x As1 r seen m :
  follows seen m As c → 0 ≤ m → m + 1 < 2 ^ 63 → event_dated (Command x) → (∀ t, event_tag (Command x) = Some t → t ∉ seen) →
  spec_command (chunkSize c) As x = Ret (As1, r) → r ≠ RError (Some errStoreFull) →
  ∃ c1, run_command c x = Ret (c1, r) ∧ follows (option_list (event_tag (Command x)) ++ seen) (m + 1) As1 c1 ∧ same_config c c1.
Proof.
  intros [Hown (As' & Hc & HF)] Hm Hlt He Ht E Hr.
  destruct (matches_command _ seen As As' x As1 r HF He Ht E Hr) as (As1' & E' & HF1).
  pose proof (command_sim c As' x Hc ltac:(destruct x; [apply He|done..])) as Hs. rewrite E' in Hs.
  destruct Hs as (c1 & Er & Hc1 & _). exists c1. split_and!; [done| |by eapply command_config].
  split; [|by exists As1']. eapply (own_files_event c m (Command x)); [done|done|done|]. cbn [run_event]. by rewrite Er.
Qed.

Lemma follows_defrag `{GommapLaws} c As id a seen m :
  follows seen m As c → 0 ≤ m → m + 1 < 2 ^ 63 → index As id = Ret (Some a) →
  ∃ c1, defrag c id = Ret c1 ∧ follows seen (m + 1) As c1 ∧ same_config c c1.
Proof.
  intros [Hown (As' & Hc & HF)] Hm Hlt Eo.
  destruct (matches_index _ _ _ _ _ HF Eo) as (o' & _ & Hma & Ho'). destruct o' as [a'|]; cbn in Hma; [|done].
  destruct Hma as [Hl Hti]. apply index_Ret_inv in Eo as [Hid Eo].
  destruct (chunk_at c As' Hc _ _ Ho') as (k & Hk & _). destruct (tidy_fresh _ _ Hti) as [Hfr Hg].
  destruct (defrag_sim c As' (Z.to_nat id) k a' Hc Ho' Hk) as (c1 & a1 & Ed & Hc1 & Hco); [|done|done|].
  { eapply own_file_other; [by apply Hown|lia]. }
  rewrite Z2Nat.id in Ed by done. exists c1. split_and!; [done| |].
  - split; [by eapply (own_files_event c m (Defragment id))|]. eexists. split; [exact Hc1|].
    rewrite <- (list_insert_id As (Z.to_nat id) (Some a)) by done. apply Forall2_insert; [done|].
    split; [by eapply lighter_compacted|by eapply tidy_compacted].
  - unfold defrag in Ed. inv_ret. subst c1. unfold same_config. cbn. by rewrite length_insert.
Qed.

(** The tags that are still to come. *)
Lemma tags_next e es seen :
  NoDup (omap event_tag (e :: es)) → (∀ t, t ∈ omap event_tag (e :: es) → t ∉ seen) →
  (∀ t, event_tag e = Some t → t ∉ seen) ∧ NoDup (omap event_tag es) ∧
  ∀ t, t ∈ omap event_tag es → t ∉ option_list (event_tag e) ++ seen.
Proof.
  cbn [omap list_omap]. destruct (event_tag e) as [t|]; cbn [option_list app].
  - intros [Hn Hnd]%NoDup_cons Hnin. split_and!; [intros ? [= <-]; apply Hnin; by left|done|].
    intros t' Ht'. apply not_elem_of_cons. split; [by intros ->|]. apply Hnin. by right.
  - intros Hnd Hnin. by split_and!.
Qed.

(** Both return, with the same replies. *)
Lemma mixed_sim `{GommapLaws} es : ∀ c As Bs rs seen m,
  follows seen m As c → 0 ≤ m → m + zlen es < 2 ^ 63 →
  Forall event_dated es → NoDup (omap event_tag es) → (∀ t, t ∈ omap event_tag es → t ∉ seen) →
  spec_events (chunkSize c) As es = Ret (Bs, rs) → RError (Some errStoreFull) ∉ rs →
  ∃ c' seen', run_mixed c es = Ret (c', rs) ∧ follows seen' (m + zlen es) Bs c' ∧ same_config c c'.
Proof.
  induction es as [|e es IH]; intros c As Bs rs seen m Hc Hm Hlen Hd Hnd Hnin E Hrs.
  { cbn in E. injection E as <- <-. exists c, seen. rewrite zlen_nil, Z.add_0_r. by split_and!. }
  apply Forall_cons in Hd as [He Hd]. rewrite zlen_cons in *. pose proof (zlen_nonneg es).
  destruct (tags_next e es seen Hnd Hnin) as (Ht & Hnd' & Hnin').
  replace (m + (1 + zlen es)) with (m + 1 + zlen es) by lia. destruct e as [x|id]; cbn [spec_events run_mixed] in *.
  - apply bind_Ret_inv in E as ([As1 r] & E1 & E). apply bind_Ret_inv in E as ([As2 rs2] & E2 & E). cbn [fst snd] in *.
    injection E as <- <-. apply not_elem_of_cons in Hrs as [Hr Hrs].
    destruct (follows_command c As x As1 r seen m Hc Hm ltac:(lia) He Ht E1 ltac:(congruence)) as (c1 & -> & Hc1 & Hp & Hz & Hl).
    rewrite <- Hz in E2. bsimpl. cbn [fst snd].
    destruct (IH c1 As1 As2 rs2 _ (m + 1) Hc1 ltac:(lia) ltac:(lia) Hd Hnd' Hnin' E2 Hrs) as (c' & seen' & -> & Hc' & Hp' & Hz' & Hl').
    bsimpl. exists c', seen'. split_and!; [done|done|]. split_and!; congruence.
  - apply bind_Ret_inv in E as (o & Eo & E). apply bind_Ret_inv in E as (a & Ea & E).
    destruct o as [a0|]; cbn in Ea; [injection Ea as <-|done].
    destruct (follows_defrag c As id a0 seen m Hc Hm ltac:(lia) Eo) as (c1 & -> & Hc1 & Hp & Hz & Hl).
    rewrite <- Hz in E. bsimpl.
    destruct (IH c1 As Bs rs seen (m + 1) Hc1 ltac:(lia) ltac:(lia) Hd Hnd' Hnin' E Hrs) as (c' & seen' & -> & Hc' & Hp' & Hz' & Hl').
    exists c', seen'. split_and!; [done|done|]. split_and!; congruence.
Qed.

Lemma matches_get seen As As' key : Forall2 (matches seen) As As' → spec_get As' key = spec_get As key.
Proof.
  intros HF. unfold spec_get. assert (zlen As' = zlen As) as -> by (unfold zlen; by rewrite (Forall2_length _ _ _ HF)).
  pose proof (proj1 (Forall2_lookup (matches seen) As As') HF (chunkIndex (zlen As) key)) as Hl.
  destruct Hl as [o o' Hm|]; [|done]. destruct o as [a|], o' as [a'|]; cbn in Hm; try done.
  by rewrite (li_map _ _ (proj1 Hm)).
Qed.

Lemma follows_get seen m As c key : follows seen m As c → good_key key → CoreGet c key = Ret (spec_get As key).
Proof. intros [_ (As' & Hc & HF)] Hk. by rewrite (CoreGet_sim c As' key Hc Hk), (matches_get seen As As'). Qed.

Lemma follows_new `{GommapLaws} path sz n c :
  0 < sz ≤ maxChunkSize → 0 < n < 2 ^ 63 → CoreNew path sz n = Ret c →
  follows [] 0 (replicate (Z.to_nat n) None) c ∧ chunkSize c = sz ∧ dbpath c = path.
Proof.
  intros Hsz Hn Hnew. destruct (core_new_rep path sz n Hsz Hn) as (c' & Hnew' & Hcs & Hc).
  rewrite Hnew in Hnew'. injection Hnew' as <-. split_and!; [|done|].
  - split; [by eapply own_files_new|]. eexists. split; [exact Hc|]. by apply Forall2_replicate.
  - revert Hnew. unfold CoreNew. intros (_ & _ & E)%bind_Ret_inv. by injection E as <-.
Qed.

(** C10. The defragmenter cannot be seen. A sequence of primitives and of
    additions, removals and defragmentations of chunks that the specification runs
    (no chunk out of range, no delete without a time of a present key, no
    defragmentation of an absent chunk) runs to its end on a new core; every
    primitive replies as on a list of maps that a defragmentation does not touch,
    and afterwards every key reads as there. The keys are not empty, shorter than
    64 MB and of a hash that is not reserved; the writes carry times after 1988,
    different ones for the same key; and no chunk may fill up in the sequence
    without the defragmentations. *)
Theorem defrag_is_invisible `{GommapLaws} path sz n c0 es As rs :
  0 < sz ≤ maxChunkSize → 0 < n < 2 ^ 63 → zlen es < 2 ^ 63 → Forall event_dated es → NoDup (omap event_tag es) →
  CoreNew path sz n = Ret c0 → spec_events sz (replicate (Z.to_nat n) None) es = Ret (As, rs) →
  RError (Some errStoreFull) ∉ rs →
  ∃ c, run_mixed c0 es = Ret (c, rs) ∧ ∀ key, good_key key → CoreGet c key = Ret (spec_get As key).
Proof.
  intros Hsz Hn Hlen Hd Hnd Hnew E Hrs. destruct (follows_new path sz n c0 Hsz Hn Hnew) as (Hc & Hcs & _). rewrite <- Hcs in E.
  destruct (mixed_sim es c0 _ As rs [] 0 Hc ltac:(lia) ltac:(lia) Hd Hnd) as (c & seen & Er & Hc' & _); [|done|done|].
  { intros t _. apply not_elem_of_nil. }
  exists c. split; [done|]. intros key Hk. by eapply follows_get.
Qed.

(** ** A sample history: two writes, a deletion and two defragmentations *)

Definition late (t : Z) (v : string) : list byte := le_enc 8 (2 ^ 60 + t) ++ str v.

Definition sample_events : list event :=
  [Command (SetPresent 0); Command (Primitive (OpSet (str "a") (late 5 "x"))); Defragment 0;
   Command (Primitive (OpSet (str "b") (late 6 "z"))); Command (Primitive (OpDel (str "a") (late 7 ""))); Defragment 0].

Lemma sample_events_ok :
  Forall event_dated sample_events ∧ NoDup (omap event_tag sample_events) ∧
  (∃ a rs, spec_events 300 [None] sample_events = Ret ([Some a], rs) ∧ (RError (Some errStoreFull) ∉ rs) ∧
    spec_get [Some a] (str "b") = inr (Some (late 6 "z")) ∧ zlen (enc_log (a_log a)) + 4 ≤ 300).
Proof.
  split_and!.
  - apply (bool_decide_eq_true_1 _). by vm_compute.
  - vm_compute. apply NoDup_cons. split; [|apply NoDup_singleton]. intros H%list_elem_of_singleton. discriminate H.
  - eexists _, _. split; [vm_compute; reflexivity|]. split; [|split; by vm_compute].
    rewrite !not_elem_of_cons. split_and!; try discriminate. apply not_elem_of_nil.
Qed.

Lemma defrag_is_invisible_witness :
  let _ := plainGommap in
  ∃ c0 c rs, run_mixed c0 sample_events = Ret (c, rs) ∧ CoreGet c (str "b") = Ret (inr (Some (late 6 "z"))).
Proof.
  intros G. assert (0 < 300 ≤ maxChunkSize ∧ zlen sample_events < 2 ^ 63 ∧ good_key (str "b")) as (Hsz & Hlen & Hk) by (by vm_compute).
  destruct (core_new_rep "db" 300 1 Hsz ltac:(lia)) as (c0 & Hnew & _).
  destruct sample_events_ok as (Hd & Hnd & a & rs & E & Hrs & Hb & _).
  destruct (@defrag_is_invisible G plainGommap_laws "db" 300 1 c0 sample_events [Some a] rs) as (c & Er & Hget).
  - exact Hsz.
  - lia.
  - exact Hlen.
  - exact Hd.
  - exact Hnd.
  - exact Hnew.
  - exact E.
  - exact Hrs.
  - exists c0, c, rs. split; [exact Er|]. rewrite (Hget _ Hk). by rewrite Hb.
Defined.
