(* ===== verification/Defragmenter.v ===== *)
(** * The goroutine of the defragmenter ([newDefragmenter] of [src/core/defrag.go])

    A deletion that finds more than a tenth of its chunk deleted, and more than a
    tenth of it used, sends the chunk to the defragmenter over a channel.  The
    goroutine takes the chunks one by one.  The list [defragOps] of a core is the
    channel with its 256 places, followed by the chunks of the deletions that wait
    for a place; these have released the lock of the chunk, so that all they delay
    is their own reply.

    As long as no chunk is dropped, the turns of the goroutine may fall anywhere
    between the primitives and cannot be seen.  A chunk that is dropped while it
    waits in the channel ends the program. *)
From S2P Require Import Prelude.
From S2P Require Import Hashing.
From S2P Require Import Store.
From S2P Require Import PMap.
From S2P Require Import PMapSpec.
From S2P Require Import Chunk.
From S2P Require Import Core.
From S2P Require Import CoreProps.
From S2P Require Import CoreFiles.
From S2P Require Import CoreHistory.

#[local] Opaque chunkIndex.

Definition set_ops (c : Core) (ops : list Z) : Core :=
  mkCore (dbpath c) (chunkSize c) (knownChunks c) (chunks c) ops.

(** One turn of [for op := range inputChannel].  The goroutine waits at an empty
    channel. *)
Definition defragTurn `{Gommap} (c : Core) : outcome Core :=
  match defragOps c with
  | [] => Ret c
  | id :: ops => defrag (set_ops c ops) id
  end.

(** A command on the core, or a turn of the goroutine. *)
Inductive turn := Does (x : command) | Turn.

Fixpoint run_turns `{Gommap} (c : Core) (ts : list turn) : outcome (Core * list reply) :=
  match ts with
  | [] => Ret (c, [])
  | Does x :: ts => r ← run_command c x; s ← run_turns r.1 ts; Ret (s.1, r.2 :: s.2)
  | Turn :: ts => c ← defragTurn c; run_turns c ts
  end.

Definition commands (ts : list turn) : list command := omap (λ t, match t with Does x => Some x | Turn => None end) ts.

Definition drops (x : command) : bool := match x with SetNoPresent _ => true | _ => false end.

(** ** The chunks in the channel *)

(** They are there. *)
Definition waiting (As : list (option abs)) (c : Core) : Prop := ∀ id, id ∈ defragOps c → ∃ a, index As id = Ret (Some a).

(** A command adds chunks that are there, if any. *)
Lemma command_asks `{Gommap} c x c' r :
  run_command c x = Ret (c', r) →
  ∃ l, defragOps c' = defragOps c ++ l ∧ ∀ id, id ∈ l → ∃ k, index (chunks c) id = Ret k ∧ present k = true.
Proof.
  destruct x as [o|cid|cid]; cbn [run_command]; [destruct o as [k|k v|k v|k v]; cbn [core_step]|..]; cycle 3.
  { unfold CoreDelete, chunkOf. intros ([c1 e] & E & [= <- _])%bind_Ret_inv. cbn [fst].
    apply bind_Ret_inv in E as ([id m] & (id' & _ & (m' & Em & [= <- <-])%bind_Ret_inv)%bind_Ret_inv & E). cbn [fst snd] in E.
    destruct (present m') eqn:Hp; cbn [negb] in E; [inv_ret; simplify_eq/=|injection E as <- _]; cycle 1.
    1,2: exists []; split; [by rewrite app_nil_r|by intros ? ?%not_elem_of_nil].
    exists [id']. split; [done|]. intros id ->%list_elem_of_singleton. by exists m'. }
  all: unfold CoreGet, CoreSet, CoreCAS, ChunkSetPresent, ChunkSetNoPresent; intros E; inv_ret; simplify_eq/=;
    exists []; (split; [by rewrite app_nil_r|by intros ? ?%not_elem_of_nil]).
Qed.

Lemma follows_present seen m As c id k :
  follows seen m As c → index (chunks c) id = Ret k → present k = true → ∃ a, index As id = Ret (Some a).
Proof.
  intros [_ (As' & Hc & HF)] [Hid Hk]%index_Ret_inv Hp.
  destruct (Forall2_lookup_l _ _ _ _ _ (cr_chunks _ _ Hc) Hk) as (o' & Ho' & Hr).
  destruct (Forall2_lookup_r _ _ _ _ _ HF Ho') as (o & Ho & Hm).
  destruct o' as [a'|]; [|destruct Hr as [Hr _]; congruence]. destruct o as [a|]; [|done].
  exists a. by apply index_lookup.
Qed.

(** What is there stays. *)
Lemma index_insert_Some (As : list (option abs)) i b id a :
  index As id = Ret (Some a) → ∃ a', index (<[i := Some b]> As) id = Ret (Some a').
Proof.
  intros [Hid Ha]%index_Ret_inv. destruct (decide (i = Z.to_nat id)) as [->|Hne].
  - exists b. apply index_lookup; [done|]. apply list_lookup_insert_eq. by eapply lookup_lt_Some.
  - exists a. apply index_lookup; [done|]. by rewrite list_lookup_insert_ne.
Qed.

Lemma command_keeps size As x As1 r id a :
  spec_command size As x = Ret (As1, r) → drops x = false → index As id = Ret (Some a) → ∃ a', index As1 id = Ret (Some a').
Proof.
  intros E Hx Ha. destruct x as [o|cid|cid]; cbn [spec_command drops] in *; [| |done].
  - unfold spec_core in E. destruct (As !! _) as [[b|]|]; [|simplify_eq; by exists a..].
    apply bind_Ret_inv in E as ([b' r'] & _ & [= <- <-]). by eapply index_insert_Some.
  - apply bind_Ret_inv in E as (o & _ & [= <- <-]). destruct o; [by exists a|by eapply index_insert_Some].
Qed.

(** ** Turns *)

Lemma follows_ops seen m As c ops : follows seen m As c → follows seen m As (set_ops c ops).
Proof. intros [Hown (As' & Hc & HF)]. split; [exact Hown|]. exists As'. split; [by apply core_rep_defrag|done]. Qed.

Lemma defrag_ops `{Gommap} c id c' : defrag c id = Ret c' → defragOps c' = defragOps c.
Proof. unfold defrag. intros E. inv_ret. by subst c'. Qed.

Lemma follows_turn `{GommapLaws} c As seen m :
  follows seen m As c → 0 ≤ m → m + 1 < 2 ^ 63 → waiting As c →
  ∃ c1, defragTurn c = Ret c1 ∧ follows seen (m + 1) As c1 ∧ same_config c c1 ∧ defragOps c1 = tail (defragOps c).
Proof.
  intros Hf Hm Hlt Hw. unfold defragTurn. destruct (defragOps c) as [|id ops] eqn:E.
  - exists c. split_and!; try done. destruct Hf as [Hown Hrep]. split; [|done]. intros i k Hk.
    destruct (Hown i k Hk) as [Hr Hp]. split; [lia|]. intros p Hpm. destruct (Hp p Hpm) as (r & ? & ?). exists r. split; [lia|done].
  - destruct (Hw id) as (a & Ha); [rewrite E; by left|].
    destruct (follows_defrag _ As id a seen m (follows_ops _ _ _ _ ops Hf) Hm Hlt Ha) as (c1 & Ed & Hc1 & Hs).
    exists c1. split_and!; [done|done|exact Hs|]. by rewrite (defrag_ops _ _ _ Ed).
Qed.

(** What the goroutine has gone through: the chunks that wait are there, and the
    core stands for [As]. *)
Lemma turns_sim `{GommapLaws} ts : ∀ c As Bs rs seen m,
  follows seen m As c → waiting As c → 0 ≤ m → m + zlen ts < 2 ^ 63 →
  let xs := commands ts in
  Forall (λ x, drops x = false) xs → Forall event_dated (Command <$> xs) → NoDup (omap event_tag (Command <$> xs)) →
  (∀ t, t ∈ omap event_tag (Command <$> xs) → t ∉ seen) →
  spec_commands (chunkSize c) As xs = Ret (Bs, rs) → RError (Some errStoreFull) ∉ rs →
  ∃ c' seen', run_turns c ts = Ret (c', rs) ∧ follows seen' (m + zlen ts) Bs c' ∧ waiting Bs c'.
Proof.
  induction ts as [|t ts IH]; intros c As Bs rs seen m Hc Hw Hm Hlen xs Hx Hd Hnd Hnin E Hrs; subst xs.
  { cbn in E. injection E as <- <-. exists c, seen. rewrite zlen_nil, Z.add_0_r. by split_and!. }
  rewrite zlen_cons in *. pose proof (zlen_nonneg ts). replace (m + (1 + zlen ts)) with (m + 1 + zlen ts) by lia.
  destruct t as [x|]; cbn [run_turns].
  - change (commands (Does x :: ts)) with (x :: commands ts) in *. rewrite fmap_cons in *. cbn [spec_commands] in E.
    apply Forall_cons in Hx as [Hx0 Hx], Hd as [He Hd].
    destruct (tags_next _ _ seen Hnd Hnin) as (Ht & Hnd' & Hnin').
    apply bind_Ret_inv in E as ([As1 r] & E1 & E). apply bind_Ret_inv in E as ([As2 rs2] & E2 & E). cbn [fst snd] in *.
    injection E as <- <-. apply not_elem_of_cons in Hrs as [Hr Hrs].
    destruct (follows_command c As x As1 r seen m Hc Hm ltac:(lia) He Ht E1 ltac:(congruence)) as (c1 & Er & Hc1 & _ & Hz & _).
    assert (waiting As1 c1) as Hw1.
    { destruct (command_asks c x c1 r Er) as (l & El & Hl). intros id. rewrite El. intros [Hid|Hid]%elem_of_app.
      - destruct (Hw id Hid) as (a & Ha). by eapply command_keeps.
      - destruct (Hl id Hid) as (k & Hk & Hp). destruct (follows_present _ _ _ _ _ _ Hc Hk Hp) as (a & Ha). by eapply command_keeps. }
    rewrite Er, <- Hz in *. bsimpl. cbn [fst snd].
    destruct (IH c1 As1 As2 rs2 _ (m + 1) Hc1 Hw1 ltac:(lia) ltac:(lia) Hx Hd Hnd' Hnin' E2 Hrs) as (c' & seen' & -> & Hc' & Hw').
    bsimpl. by exists c', seen'.
  - change (commands (Turn :: ts)) with (commands ts) in *.
    destruct (follows_turn c As seen m Hc Hm ltac:(lia) Hw) as (c1 & -> & Hc1 & (_ & Hz & _) & Ho). bsimpl.
    rewrite <- Hz in E. apply (IH c1 As Bs rs seen (m + 1)); try done; try lia.
    intros id Hid. apply Hw. rewrite Ho in Hid. destruct (defragOps c); [done|by right].
Qed.

(** As many turns as chunks wait empty the channel. *)
Lemma turns_drain `{GommapLaws} n : ∀ c As seen m,
  follows seen m As c → waiting As c → 0 ≤ m → m + Z.of_nat n < 2 ^ 63 → (length (defragOps c) ≤ n)%nat →
  ∃ c', run_turns c (replicate n Turn) = Ret (c', []) ∧ defragOps c' = [] ∧ follows seen (m + Z.of_nat n) As c'.
Proof.
  induction n as [|n IH]; intros c As seen m Hc Hw Hm Hn Hlen.
  { exists c. rewrite Z.add_0_r. split_and!; try done. destruct (defragOps c); [done|cbn in Hlen; lia]. }
  destruct (follows_turn c As seen m Hc Hm ltac:(lia) Hw) as (c1 & E & Hc1 & _ & Ho).
  destruct (IH c1 As seen (m + 1) Hc1) as (c' & E' & Hd & Hc'); try lia.
  - intros id Hid. apply Hw. rewrite Ho in Hid. destruct (defragOps c); [done|by right].
  - rewrite Ho. destruct (defragOps c); cbn in *; lia.
  - exists c'. cbn [replicate run_turns]. rewrite E. bsimpl. split_and!; [done|done|].
    by replace (m + Z.of_nat (S n)) with (m + 1 + Z.of_nat n) by lia.
Qed.

(** C22. The goroutine cannot be seen. As long as no chunk is dropped, its turns
    may fall anywhere between the commands on a new core: nothing panics, every
    primitive replies as on a list of maps that knows no defragmentation, and
    every key reads as there afterwards. The commands are ones that this
    specification runs (no chunk out of range, no delete without a time of a
    present key) without a full chunk; the keys are not empty, shorter than 64 MB
    and of a hash that is not reserved; the writes carry times after 1988,
    different ones for the same key. As many more turns as chunks wait empty the
    channel, and every key still reads the same. *)
Theorem defragmenter_is_invisible `{GommapLaws} path sz n c0 ts As rs (more : nat) :
  0 < sz ≤ maxChunkSize → 0 < n < 2 ^ 63 → zlen ts + Z.of_nat more < 2 ^ 63 →
  Forall (λ x, drops x = false) (commands ts) →
  Forall event_dated (Command <$> commands ts) → NoDup (omap event_tag (Command <$> commands ts)) →
  CoreNew path sz n = Ret c0 → spec_commands sz (replicate (Z.to_nat n) None) (commands ts) = Ret (As, rs) →
  RError (Some errStoreFull) ∉ rs →
  ∃ c, run_turns c0 ts = Ret (c, rs) ∧ (∀ key, good_key key → CoreGet c key = Ret (spec_get As key)) ∧
    ((length (defragOps c) ≤ more)%nat → ∃ c', run_turns c (replicate more Turn) = Ret (c', []) ∧ defragOps c' = [] ∧
       ∀ key, good_key key → CoreGet c' key = Ret (spec_get As key)).
Proof.
  intros Hsz Hn Hlen Hx Hd Hnd Hnew E Hrs. destruct (follows_new path sz n c0 Hsz Hn Hnew) as (Hc & Hcs & _). rewrite <- Hcs in E.
  assert (defragOps c0 = []) as Ho.
  { revert Hnew. unfold CoreNew. intros (_ & _ & Hnew)%bind_Ret_inv. by injection Hnew as <-. }
  pose proof (zlen_nonneg ts).
  destruct (turns_sim ts c0 _ As rs [] 0 Hc) as (c & seen & Er & Hc' & Hw); try done; try lia.
  { intros id. rewrite Ho. by intros ?%not_elem_of_nil. }
  { intros t _. apply not_elem_of_nil. }
  exists c. split_and!; [done|intros key Hk; by eapply follows_get|]. intros Hmore.
  destruct (turns_drain more c As seen _ Hc' Hw) as (c' & Ed & Hempty & Hf); try lia.
  exists c'. split_and!; [done|done|]. intros key Hk. by eapply follows_get.
Qed.

(** ** Samples *)

(** The deletion asks for a defragmentation, of which the read after it sees nothing. *)
Definition sample_turns : list turn :=
  [Does (SetPresent 0); Does (Primitive (OpSet (str "a") (late 5 "x"))); Turn;
   Does (Primitive (OpSet (str "b") (late 6 "z"))); Does (Primitive (OpDel (str "a") (late 7 ""))); Turn;
   Does (Primitive (OpGet (str "b")))].

Lemma defragmenter_is_invisible_witness :
  let _ := plainGommap in
  ∃ c0 c rs, run_turns c0 sample_turns = Ret (c, rs) ∧ CoreGet c (str "b") = Ret (inr (Some (late 6 "z"))).
Proof.
  intros G. assert (0 < 300 ≤ maxChunkSize ∧ zlen sample_turns + Z.of_nat 0 < 2 ^ 63 ∧ good_key (str "b")) as (Hsz & Hlen & Hk) by (by vm_compute).
  destruct (core_new_rep "db" 300 1 Hsz ltac:(lia)) as (c0 & Hnew & _).
  destruct (spec_commands 300 [None] (commands sample_turns)) as [[As rs]| |] eqn:E; [|vm_compute in E; discriminate E..].
  assert (RError (Some errStoreFull) ∉ rs ∧ spec_get As (str "b") = inr (Some (late 6 "z"))) as [Hrs Hb].
  { vm_compute in E. injection E as <- <-. split; [|by vm_compute]. rewrite !not_elem_of_cons. split_and!; try discriminate. apply not_elem_of_nil. }
  destruct (@defragmenter_is_invisible G plainGommap_laws "db" 300 1 c0 sample_turns As rs 0) as (c & Er & Hget & _).
  - exact Hsz.
  - lia.
  - exact Hlen.
  - apply (bool_decide_eq_true_1 _). by vm_compute.
  - apply (bool_decide_eq_true_1 _). by vm_compute.
  - vm_compute. apply NoDup_cons. split; [|apply NoDup_singleton]. intros Hin%list_elem_of_singleton. discriminate Hin.
  - exact Hnew.
  - exact E.
  - exact Hrs.
  - exists c0, c, rs. split; [exact Er|]. rewrite (Hget _ Hk). by rewrite Hb.
Defined.

Definition dropped_turns : list turn :=
  [Does (SetPresent 0); Does (Primitive (OpSet (str "a") (late 5 "0123456789"))); Does (Primitive (OpDel (str "a") (late 6 "")));
   Does (SetNoPresent 0)].

Section dropped.
#[local] Existing Instance plainGommap.

Lemma dropped_run :
  match CoreNew "db" 300 1 with
  | Ret c0 =>
      match run_turns c0 dropped_turns with
      | Ret (c, rs) =>
          forallb (λ r, match r with RError None => true | _ => false end) rs && bool_decide (defragOps c = [0]) &&
          is_panic (defragTurn c)
      | _ => false
      end
  | _ => false
  end = true.
Proof. by vm_compute. Qed.

(** A chunk that is dropped while it waits in the channel ends the program: the
    goroutine reads its map, which is nil. *)
Theorem dropped_chunk_panics :
  ∃ c0 c rs, CoreNew "db" 300 1 = Ret c0 ∧ run_turns c0 dropped_turns = Ret (c, rs) ∧ Forall (λ r, r = done_reply) rs ∧
    defragOps c = [0] ∧ defragTurn c = Panic.
Proof.
  pose proof dropped_run as Hok.
  destruct (CoreNew "db" 300 1) as [c0| |]; [|discriminate Hok..]. exists c0.
  destruct (run_turns c0 dropped_turns) as [[c rs]| |]; [|discriminate Hok..]. exists c, rs.
  apply andb_prop in Hok as [Hok Hp]. apply andb_prop in Hok as [Hrs Ho]. apply bool_decide_eq_true_1 in Ho.
  split; [reflexivity|]. split; [reflexivity|]. split; [|split; [exact Ho|]].
  - apply Forall_forall. intros r Hr. rewrite forallb_forall in Hrs. apply list_elem_of_In, Hrs in Hr.
    destruct r as [|[]]; [discriminate Hr..|reflexivity].
  - destruct (defragTurn c); [discriminate Hp|reflexivity|discriminate Hp].
Qed.
End dropped.
