(* ===== verification/Restart.v ===== *)
(** * Restarting a server from its files

    [Close] writes the files of the chunks out, and [Open] looks for the file of
    each chunk by its name ([src/core/core.go]).  The names of the files of two
    chunks cannot be confused, and each file gives its chunk back. *)
From Stdlib Require Import Ascii.
From stdpp Require Import pretty.
From S2P Require Import Prelude.
From S2P Require Import Decimal.
From S2P Require Import Hashing.
From S2P Require Import Store.
From S2P Require Import PMap.
From S2P Require Import PMapSpec.
From S2P Require Import Chunk.
From S2P Require Import PMapProps.
From S2P Require Import PMapOpen.
From S2P Require Import Core.
From S2P Require Import CoreProps.
From S2P Require Import Defrag.
From S2P Require Import CoreFiles.
From S2P Require Import CoreHistory.

#[local] Opaque chunkIndex.

(** ** What the files of a core hold *)

(** A chunk that can be read back. *)
Definition safe (o : option abs) : Prop :=
  ∀ a, o = Some a → durable a ∧ Forall (λ r, r_key r ≠ []) (a_log a).

Definition command_named (x : command) : Prop := match x with Primitive o => op_key o ≠ [] | _ => True end.

Lemma safe_set As i o : Forall safe As → safe o → Forall safe (<[i := o]> As).
Proof. intros HA Ho. by apply Forall_insert. Qed.

Lemma safe_command sz As x As' r :
  Forall safe As → command_named x → spec_command sz As x = Ret (As', r) → r ≠ RError (Some errStoreFull) →
  Forall safe As'.
Proof.
  intros HA Hx E Hr. destruct x as [o|cid|cid]; cbn [spec_command] in E.
  - unfold spec_core in E. revert E. generalize (chunkIndex (zlen As) (op_key o)). intros i E.
    destruct (As !! i) as [[a|]|] eqn:Hi; [|by injection E as <- <-..].
    apply bind_Ret_inv in E as ([a' r'] & E & E'). injection E' as <- <-. cbn [fst snd] in *.
    destruct (proj1 (Forall_lookup _ _) HA i _ Hi a eq_refl) as [Hd Hk]. apply safe_set; [done|].
    intros b [= <-]. split; [by eapply durable_step|by eapply (step_keys (λ k, k ≠ []))].
  - apply bind_Ret_inv in E as (o & _ & E). injection E as <- _. destruct o; [done|]. apply safe_set; [done|].
    intros b [= <-]. split; [apply durable_new|done].
  - apply bind_Ret_inv in E as (o & _ & E). injection E as <- _. destruct o; [|done]. by apply safe_set.
Qed.

Lemma safe_commands sz xs : ∀ As As' rs,
  Forall safe As → Forall command_named xs → spec_commands sz As xs = Ret (As', rs) →
  RError (Some errStoreFull) ∉ rs → Forall safe As'.
Proof.
  induction xs as [|x xs IH]; intros As As' rs HA Hxs E Hrs; cbn [spec_commands] in E; [by injection E as <- _|].
  apply Forall_cons in Hxs as [Hx Hxs]. apply bind_Ret_inv in E as ([As1 r] & E1 & E).
  apply bind_Ret_inv in E as ([As2 rs2] & E2 & E). cbn [fst snd] in *. injection E as <- <-.
  apply not_elem_of_cons in Hrs as [Hr Hrs]. eapply IH; [|done..]. eapply safe_command; [done..|]. congruence.
Qed.

Lemma commands_config `{Gommap} xs : ∀ c c' rs, run_commands c xs = Ret (c', rs) → same_config c c'.
Proof.
  induction xs as [|x xs IH]; intros c c' rs E; cbn [run_commands] in E; [by injection E as <- _|].
  apply bind_Ret_inv in E as ([c1 r] & E1 & E). apply bind_Ret_inv in E as ([c2 rs2] & E2 & E). cbn [fst snd] in *.
  injection E as <- _. destruct (IH _ _ _ E2) as (? & ? & ?), (command_config _ _ _ _ E1) as (? & ? & ?).
  split_and!; congruence.
Qed.

(** ** The directory *)

Definition folder (c : Core) : string := dbpath c +:+ "/chunks/".
Definition fileName (id revision : Z) : string := pretty id +:+ String "_" ("rev" +:+ pretty revision).

(** The directory has the files of the chunks, with their bytes, and no others. *)
Definition listed (c : Core) (files : list (string * list byte)) : Prop :=
  ∀ name contents, (name, contents) ∈ files ↔
    ∃ k p, k ∈ chunks c ∧ pm k = Some p ∧ fileOf p = Some (folder c +:+ name) ∧ contents = st_file (st p).

Section directory.
Context (c : Core) (n : Z) (files : list (string * list byte)).
Context (Hpath : dbpath c ≠ EmptyString) (Hown : own_files c n) (Hlist : listed c files).

Lemma chunkPath_folder id r : file_at (chunkPath c id r) = Some (folder c +:+ fileName id r).
Proof using Hpath.
  unfold chunkPath, file_at, folder, fileName. rewrite (decide_False (P := dbpath c = EmptyString)) by done. rewrite append_assoc.
  rewrite decide_False; [reflexivity|]. destruct (dbpath c) as [|a s]; [done|]. discriminate.
Qed.

(** A file of the directory belongs to a chunk, and says so in its name. *)
Lemma listed_owner name contents :
  (name, contents) ∈ files →
  ∃ i r k p, chunks c !! i = Some k ∧ pm k = Some p ∧ name = fileName (Z.of_nat i) r ∧
    fileOf p = Some (folder c +:+ name) ∧ contents = st_file (st p).
Proof using Hpath Hown Hlist.
  intros (k & p & [i Hi]%list_elem_of_lookup & Hp & Hf & ->)%Hlist. destruct (Hown i k Hi) as [_ Ho].
  destruct (Ho p Hp) as (r & _ & Hf'). rewrite Hf, chunkPath_folder in Hf'. injection Hf' as Hf'. apply (inj _) in Hf'.
  by exists i, r, k, p.
Qed.

Lemma name_prefix i j r :
  String.prefix (pretty (Z.of_nat i) +:+ "_rev") (fileName (Z.of_nat j) r) = true ↔ i = j.
Proof using.
  unfold fileName. change "_rev" with (String "_" "rev"). split.
  - intros E%prefix_cut; [|apply pretty_avoids; [lia|by vm_compute]..]. apply (inj pretty) in E. lia.
  - intros ->. change (String "_" ("rev" +:+ ?t)) with (String "_" "rev" +:+ t).
    rewrite <- append_assoc. apply prefix_app.
Qed.

(** [findChunk] finds the file of a chunk, if it has one. *)
Lemma findChunk_owner i k :
  chunks c !! i = Some k →
  match pm k with
  | None => findChunk c files (Z.of_nat i) = None
  | Some p => ∃ path, fileOf p = Some path ∧ findChunk c files (Z.of_nat i) = Some (path, st_file (st p))
  end.
Proof using Hpath Hown Hlist.
  intros Hk. unfold findChunk. rewrite decide_False by done.
  destruct (List.find _ files) as [[name contents]|] eqn:E.
  - apply find_some in E as [Hin%list_elem_of_In Hpre]. cbn [fst] in Hpre.
    destruct (listed_owner name contents Hin) as (j & r & k' & p & Hj & Hp & -> & Hf & ->).
    apply name_prefix in Hpre as <-. rewrite Hk in Hj. injection Hj as <-. rewrite Hp. cbn [mbind option_bind].
    eexists. split; [exact Hf|]. cbn [fst snd]. unfold folder. by rewrite append_assoc.
  - destruct (pm k) as [p|] eqn:Hp; [|done]. exfalso. destruct (Hown i k Hk) as [_ Ho].
    destruct (Ho p Hp) as (r & _ & Hf). rewrite chunkPath_folder in Hf.
    assert ((fileName (Z.of_nat i) r, st_file (st p)) ∈ files) as Hin.
    { apply Hlist. exists k, p. split_and!; try done. by eapply list_elem_of_lookup_2. }
    apply list_elem_of_In in Hin. apply (find_none _ _ E) in Hin. cbn [fst] in Hin.
    by rewrite (proj2 (name_prefix i i r) eq_refl) in Hin.
Qed.
End directory.

(** ** Opening *)

Section reopen.
Context `{GommapLaws} (c c0 : Core) (n : Z) (files : list (string * list byte)) (As : list (option abs)).
Context (Hpath : dbpath c ≠ EmptyString) (Hsame : dbpath c0 = dbpath c) (Hown : own_files c n) (Hlist : listed c files).
Context (Hrep : core_rep c As) (Hsafe : Forall safe As).
Context (Hroom : ∀ k p, k ∈ chunks c → pm k = Some p → st_length (st p) + 4 ≤ chunkSize c).

Lemma openChunks_sim ks : ∀ i os,
  drop i (chunks c) = ks → drop i As = os →
  ∃ ks', openChunks c0 files (Z.of_nat i) (replicate (length ks) newMetaChunk) = Ret ks' ∧
    Forall2 (chunk_rep (chunkSize c)) ks' os.
Proof using All.
  induction ks as [|k ks IH]; intros i os Hk Ho.
  { exists []. split; [done|]. pose proof (core_length c As Hrep) as Hl. unfold zlen in Hl.
    assert (os = []) as ->; [|done]. apply nil_length_inv. rewrite <- Ho, length_drop.
    apply (f_equal length) in Hk. rewrite length_drop in Hk. cbn in Hk. lia. }
  assert (chunks c !! i = Some k) as Hi by (by rewrite <- (Nat.add_0_r i), <- lookup_drop, Hk).
  destruct (Forall2_lookup_l _ _ _ _ _ (cr_chunks _ _ Hrep) Hi) as (o & Hoi & Hko).
  rewrite (drop_S _ _ _ Hi) in Hk. injection Hk as Hk. rewrite (drop_S _ _ _ Hoi) in Ho. subst os.
  destruct (IH (S i) (drop (S i) As) Hk eq_refl) as (ks' & E & Hall).
  cbn [length replicate openChunks]. replace (Z.of_nat i + 1) with (Z.of_nat (S i)) by lia. rewrite E.
  assert (findChunk c0 files (Z.of_nat i) = findChunk c files (Z.of_nat i)) as -> by (unfold findChunk; by rewrite Hsame).
  pose proof (findChunk_owner c n files Hpath Hown Hlist i k Hi) as Hfind.
  destruct o as [a|]; cbn [chunk_rep] in Hko.
  - destruct Hko as (_ & Hsz & Hw & p & Hp & Hr). rewrite Hp in Hfind. destruct Hfind as (path & _ & ->).
    destruct (proj1 (Forall_lookup _ _) Hsafe i _ Hoi a eq_refl) as [Hd Hkeys].
    destruct (Open_sim path p a Hr Hd Hkeys) as (p' & Eo & Hr').
    { destruct Hr as [d Hdir]. rewrite <- (wf_length _ _ (pd_store _ _ _ Hdir)), Hsz.
      apply (Hroom k p); [|done]. by eapply list_elem_of_lookup_2. }
    rewrite Eo. bsimpl. eexists. split; [done|]. constructor; [|done]. cbn. split_and!; try done. by exists p'.
  - destruct Hko as [_ Hp]. rewrite Hp in Hfind. rewrite Hfind. bsimpl. eexists. split; [done|]. by constructor.
Qed.

(** Closing a core and opening its files in a new one. *)
Lemma reopen_sim :
  chunkSize c0 = chunkSize c → chunks c0 = replicate (length (chunks c)) newMetaChunk →
  ∃ c1 c2, CoreClose c = Ret c1 ∧ CoreOpen c0 files = Ret c2 ∧ core_rep c2 As.
Proof using All.
  intros Hcs Hch. destruct (CoreClose_ok c As Hrep) as (c1 & E1 & _).
  destruct (openChunks_sim (chunks c) 0 As eq_refl eq_refl) as (ks & Eo & Hks).
  exists c1. unfold CoreOpen. rewrite Hch. change (Z.of_nat 0) with 0 in Eo. rewrite Eo. bsimpl.
  eexists. split_and!; [done..|]. split; cbn [chunks chunkSize]; rewrite ?Hcs; [done|apply Hrep|apply Hrep].
Qed.
End reopen.

Lemma restart_sim `{GommapLaws} path sz n es As c0 c rs files :
  path ≠ EmptyString → 0 < sz ≤ maxChunkSize → 0 < n < 2 ^ 63 → zlen es < 2 ^ 63 →
  Forall event_dated es → NoDup (omap event_tag es) →
  CoreNew path sz n = Ret c0 → spec_events sz (replicate (Z.to_nat n) None) es = Ret (As, rs) →
  RError (Some errStoreFull) ∉ rs → run_mixed c0 es = Ret (c, rs) →
  (∀ k p, k ∈ chunks c → pm k = Some p → st_length (st p) + 4 ≤ sz) → listed c files →
  ∃ c1 c2 As', CoreClose c = Ret c1 ∧ CoreOpen c0 files = Ret c2 ∧ core_rep c2 As' ∧ zlen As' = n ∧
    ∀ key, spec_get As' key = spec_get As key.
Proof.
  intros Hp Hsz Hn Hlen Hd Hnd Hnew Es Hrs Hrun Hroom Hlist.
  destruct (follows_new path sz n c0 Hsz Hn Hnew) as (Hc0 & Hcs & Hdb0). rewrite <- Hcs in Es.
  destruct (mixed_sim es c0 _ As rs [] 0 Hc0 ltac:(lia) ltac:(lia) Hd Hnd) as (c' & seen & Er & Hc & Hdb & Hcs' & Hln);
    [intros t _; apply not_elem_of_nil|done|done|]. rewrite Hrun in Er. injection Er as <-.
  pose proof Hc as [Hown (As' & Hrep & HF)].
  assert (Forall safe As') as Hsafe.
  { clear -HF. induction HF as [|o o' As As' Hm _ IH]; constructor; [|done]. intros a ->.
    destruct o as [b|]; cbn in Hm; [|done]. destruct Hm as [_ [Hdu Hda _ _]]. split; [done|].
    eapply Forall_impl; [exact Hda|]. by intros r (_ & ? & _). }
  destruct (reopen_sim c c0 (0 + zlen es) files As') as (c1 & c2 & E1 & E2 & Hc2); try done;
    [congruence|by rewrite Hcs', Hcs|..].
  { revert Hnew. unfold CoreNew. intros (_ & _ & E)%bind_Ret_inv. injection E as <-. cbn in *. by rewrite Hln, length_replicate. }
  exists c1, c2, As'. split_and!; [done..| |].
  - destruct (core_new_rep path sz n Hsz Hn) as (c3 & Hnew' & _ & Hc3). rewrite Hnew in Hnew'. injection Hnew' as <-.
    pose proof (core_length _ _ Hc3) as H3. pose proof (core_length _ _ Hrep) as H4. unfold zlen in *.
    rewrite length_replicate in H3. lia.
  - intros key. by apply (matches_get seen).
Qed.

(** C9. A server that is stopped and started again has its data: after a sequence
    of primitives and of additions, removals and defragmentations of chunks on a
    new core with a directory, closing succeeds, and opening the files in a new
    core, in whatever order the directory lists them, succeeds and reads every key
    as before and as the specification says. As in C10 the sequence is one that
    the specification runs (no chunk out of range, no delete without a time of a
    present key, no defragmentation of an absent chunk) without a full chunk; its
    keys are not empty, shorter than 64 MB and of a hash that is not reserved; its
    writes carry times after 1988, different ones for the same key. Each chunk has
    4 bytes left, and the directory has the files of the chunks and no others. *)
Theorem restart_keeps_data `{GommapLaws} path sz n es As c0 c rs files :
  path ≠ EmptyString → 0 < sz ≤ maxChunkSize → 0 < n < 2 ^ 63 → zlen es < 2 ^ 63 →
  Forall event_dated es → NoDup (omap event_tag es) →
  CoreNew path sz n = Ret c0 → spec_events sz (replicate (Z.to_nat n) None) es = Ret (As, rs) →
  RError (Some errStoreFull) ∉ rs → run_mixed c0 es = Ret (c, rs) →
  (∀ k p, k ∈ chunks c → pm k = Some p → st_length (st p) + 4 ≤ sz) → listed c files →
  ∃ c1 c2, CoreClose c = Ret c1 ∧ CoreOpen c0 files = Ret c2 ∧
    ∀ key, good_key key → CoreGet c2 key = CoreGet c key ∧ CoreGet c2 key = Ret (spec_get As key).
Proof.
  intros Hp Hsz Hn Hlen Hd Hnd Hnew Es Hrs Hrun Hroom Hlist.
  destruct (restart_sim path sz n es As c0 c rs files) as (c1 & c2 & As' & E1 & E2 & Hc2 & _ & Hget); try done.
  exists c1, c2. split_and!; [done..|]. intros key Hk. rewrite (CoreGet_sim _ _ _ Hc2 Hk), Hget. split; [|done].
  destruct (follows_new path sz n c0 Hsz Hn Hnew) as (Hc0 & Hcs & _). rewrite <- Hcs in Es.
  destruct (mixed_sim es c0 _ As rs [] 0 Hc0 ltac:(lia) ltac:(lia) Hd Hnd) as (c' & seen & Er & Hc & _);
    [intros t _; apply not_elem_of_nil|done|done|]. rewrite Hrun in Er. injection Er as <-.
  symmetry. by eapply follows_get.
Qed.

(** The same without the defragmenter and whatever the times of the writes: after
    any sequence of primitives and of additions and removals of chunks on a
    database with a directory, without a full chunk and without the empty key,
    with 4 bytes left in each chunk, closing succeeds, and opening the files in
    a new core, in whatever order the directory lists them, succeeds and reads
    every key as before. *)
Theorem restart_keeps_commands `{GommapLaws} path sz n xs c0 c rs files :
  path ≠ EmptyString → 0 < sz ≤ maxChunkSize → 0 < n < 2 ^ 63 → zlen xs < 2 ^ 63 →
  Forall command_ok xs → Forall command_named xs →
  CoreNew path sz n = Ret c0 → run_commands c0 xs = Ret (c, rs) → RError (Some errStoreFull) ∉ rs →
  (∀ k p, k ∈ chunks c → pm k = Some p → st_length (st p) + 4 ≤ sz) → listed c files →
  ∃ c1 c2, CoreClose c = Ret c1 ∧ CoreOpen c0 files = Ret c2 ∧
    ∀ key, good_key key → CoreGet c2 key = CoreGet c key.
Proof.
  intros Hp Hsz Hn Hlen Hok Hnamed Hnew Hrun Hrs Hroom Hlist.
  destruct (core_new_rep path sz n Hsz Hn) as (c0' & Hnew' & Hcs & Hc0). rewrite Hnew in Hnew'. injection Hnew' as <-.
  pose proof (commands_sim xs c0 _ Hc0 Hok) as Hs. rewrite Hcs in Hs.
  destruct (spec_commands sz _ xs) as [[As rs']| |] eqn:Es; [|congruence..].
  destruct Hs as (c' & Hrun' & Hc & _). rewrite Hrun in Hrun'. injection Hrun' as <- <-.
  assert (Forall safe As) as Hsafe.
  { eapply safe_commands; [|done|done|done]. apply Forall_replicate. by intros a [=]. }
  destruct (commands_config _ _ _ _ Hrun) as (Hdb & Hcs' & Hln).
  assert (dbpath c0 = path ∧ chunks c0 = replicate (Z.to_nat n) newMetaChunk) as [Hdb0 Hch0].
  { revert Hnew. unfold CoreNew. intros (_ & _ & E)%bind_Ret_inv. by injection E as <-. }
  assert (own_files c (zlen xs)) as Hown.
  { replace (zlen xs) with (0 + zlen (map Command xs)) by (unfold zlen; rewrite length_map; lia).
    apply (own_files_events (map Command xs) c0 0 c); [by eapply own_files_new|done| |by eapply run_events_commands].
    unfold zlen in *. rewrite length_map. lia. }
  destruct (reopen_sim c c0 (zlen xs) files As) as (c1 & c2 & E1 & E2 & Hc2); try done;
    [congruence|by rewrite Hcs', Hcs|by rewrite Hln, Hch0, length_replicate|].
  exists c1, c2. split_and!; [done..|]. intros key Hkey.
  by rewrite (CoreGet_sim _ _ _ Hc2 Hkey), (CoreGet_sim _ _ _ Hc Hkey).
Qed.

(** ** Samples *)

(** The directory of a core of one chunk. *)
Lemma listed_one c k p m :
  dbpath c ≠ EmptyString → own_files c m → chunks c = [k] → pm k = Some p → ∃ files, listed c files.
Proof.
  intros Hd Hown Hch Hp. destruct (Hown 0%nat k) as [_ Ho]; [by rewrite Hch|]. destruct (Ho p Hp) as (r & _ & Hf).
  rewrite chunkPath_folder in Hf by done. exists [(fileName 0 r, st_file (st p))].
  intros name contents. rewrite Hch. split.
  - intros [= -> ->]%list_elem_of_singleton. exists k, p. split_and!; try done. by left.
  - intros (k1 & p1 & ->%list_elem_of_singleton & Hp1 & Hf1 & ->). rewrite Hp in Hp1. injection Hp1 as <-.
    change (Z.of_nat 0) with 0 in Hf. rewrite Hf in Hf1. injection Hf1 as ->%(inj _). by left.
Qed.

Lemma one_chunk c o : core_rep c [o] → ∃ k, chunks c = [k] ∧ chunk_rep (chunkSize c) k o.
Proof.
  intros Hc. pose proof (cr_chunks _ _ Hc) as HF. apply Forall2_cons_inv_r in HF as (k & ks & Hk & HF & E).
  apply Forall2_nil_inv_r in HF as ->. by exists k.
Qed.

(** The length of the store of a core of one chunk. *)
Lemma one_length c a k p : core_rep c [Some a] → chunks c = [k] → pm k = Some p → st_length (st p) = zlen (enc_log (a_log a)).
Proof.
  intros Hc Hch Hp. destruct (one_chunk c _ Hc) as (k' & Hch' & _ & _ & _ & p' & Hp' & d & Hd).
  assert (p' = p) as -> by congruence. apply (wf_length _ _ (pd_store _ _ _ Hd)).
Qed.

(** A core with deletions and defragmentations, and its directory. *)
Lemma sample_history `{GommapLaws} :
  ∃ c0 c a rs files, CoreNew "db" 300 1 = Ret c0 ∧ spec_events 300 (replicate (Z.to_nat 1) None) sample_events = Ret ([Some a], rs) ∧
    (RError (Some errStoreFull) ∉ rs) ∧ run_mixed c0 sample_events = Ret (c, rs) ∧
    (∀ k p, k ∈ chunks c → pm k = Some p → st_length (st p) + 4 ≤ 300) ∧ listed c files ∧
    spec_get [Some a] (str "b") = inr (Some (late 6 "z")).
Proof.
  assert (0 < 300 ≤ maxChunkSize ∧ zlen sample_events < 2 ^ 63) as (Hsz & Hlen) by (by vm_compute).
  destruct (core_new_rep "db" 300 1 Hsz ltac:(lia)) as (c0 & Hnew & _).
  destruct sample_events_ok as (Hd & Hnd & a & rs & E & Hrs & Hb & Hshort).
  destruct (follows_new "db" 300 1 c0 Hsz ltac:(lia) Hnew) as (Hc0 & Hcs & Hdb0).
  destruct (mixed_sim sample_events c0 (replicate (Z.to_nat 1) None) [Some a] rs [] 0 Hc0 ltac:(lia) ltac:(lia) Hd Hnd)
    as (c & seen & Er & Hc & Hdb & Hcs' & _); [intros t _; apply not_elem_of_nil|rewrite Hcs; exact E|exact Hrs|].
  destruct Hc as [Hown (As' & Hrep & HF)]. pose proof (Forall2_length _ _ _ HF) as Hl.
  destruct As' as [|o [|? ?]]; [discriminate Hl| |discriminate Hl].
  assert (matches seen (Some a) o) as Hm by (by inversion HF). destruct o as [a'|]; [|destruct Hm]. destruct Hm as [Hli _].
  destruct (one_chunk c _ Hrep) as (k & Hch & _ & _ & _ & p & Hp & _).
  destruct (listed_one c k p _ ltac:(rewrite Hdb, Hdb0; discriminate) Hown Hch Hp) as [files Hfiles].
  exists c0, c, a, rs, files. split_and!; [exact Hnew|exact E|exact Hrs|exact Er| |exact Hfiles|exact Hb].
  rewrite Hch. intros k1 p1 ->%list_elem_of_singleton Hp1. rewrite (one_length c a' k p1 Hrep Hch Hp1).
  pose proof (li_length _ _ Hli). lia.
Qed.

Lemma restart_keeps_data_witness :
  let _ := plainGommap in
  ∃ c0 c c2 rs files, run_mixed c0 sample_events = Ret (c, rs) ∧ CoreOpen c0 files = Ret c2 ∧
    CoreGet c2 (str "b") = Ret (inr (Some (late 6 "z"))).
Proof.
  intros G. assert (0 < 300 ≤ maxChunkSize ∧ zlen sample_events < 2 ^ 63 ∧ good_key (str "b")) as (Hsz & Hlen & Hk) by (by vm_compute).
  destruct sample_events_ok as (Hd & Hnd & _).
  destruct (@sample_history G plainGommap_laws) as (c0 & c & a & rs & files & Hnew & E & Hrs & Er & Hroom & Hfiles & Hb).
  destruct (@restart_keeps_data G plainGommap_laws "db" 300 1 sample_events [Some a] c0 c rs files) as (c1 & c2 & _ & Eo & Hget).
  - discriminate.
  - exact Hsz.
  - lia.
  - exact Hlen.
  - exact Hd.
  - exact Hnd.
  - exact Hnew.
  - exact E.
  - exact Hrs.
  - exact Er.
  - exact Hroom.
  - exact Hfiles.
  - exists c0, c, c2, rs, files. split; [exact Er|]. split; [exact Eo|]. rewrite (proj2 (Hget _ Hk)). by rewrite Hb.
Defined.
