(* ===== verification/Protection.v ===== *)
(** * Protection of chunks ([src/core/core.go], [ChunkSetProtected])

    A protected chunk is not released by the rebalancer.  Protecting a chunk
    starts a goroutine that sleeps for the protection period and then takes
    the protection back, unless the chunk was protected again meanwhile.  The
    core, the clock and the sleeping goroutines form a transition system: any
    goroutine whose sleep is over may run at any later moment. *)
From S2P Require Import Prelude.
From S2P Require Import Hashing.
From S2P Require Import SyncChecksum.
From S2P Require Import Store.
From S2P Require Import PMap.
From S2P Require Import PMapSpec.
From S2P Require Import Core.
From S2P Require Import CoreFiles.

Record world := World {
  w_core : Core;
  w_now : time;
  (** The goroutines: the chunk and the time each was started with. *)
  w_sleeping : list (Z * time)
}.

Section protection.
Context {G : Gommap}.

Inductive wstep : world → world → Prop :=
  | step_clock c now now' sl :
      now ≤ now' → wstep (World c now sl) (World c now' sl)
  | step_protect c now sl cid c' :
      ChunkSetProtected c cid now = Ret (c', None) →
      wstep (World c now sl) (World c' now ((cid, now) :: sl))
  | step_refused c now sl cid c' e :
      ChunkSetProtected c cid now = Ret (c', Some e) →
      wstep (World c now sl) (World c' now sl)
  | step_expire c now sl1 cid t sl2 c' :
      t + protectionPeriod ≤ now → protectionExpired c cid t = Ret c' →
      wstep (World c now (sl1 ++ (cid, t) :: sl2)) (World c' now (sl1 ++ sl2))
  | step_add c now sl cid c' :
      ChunkSetPresent c cid = Ret c' → wstep (World c now sl) (World c' now sl)
  | step_drop c now sl cid c' :
      ChunkSetNoPresent c cid = Ret c' → wstep (World c now sl) (World c' now sl).

(** The chunk [i]. *)
Definition chunk_is (w : world) (i : nat) (P : metaChunk → Prop) : Prop :=
  ∃ k, chunks (w_core w) !! i = Some k ∧ P k.

(** What a step does to the chunk [i]. *)
Inductive effect (w w' : world) (i : nat) (k k' : metaChunk) : Prop :=
  | eff_same : k' = k →
      ((Z.of_nat i, protectionTime k) ∈ w_sleeping w →
       (Z.of_nat i, protectionTime k) ∈ w_sleeping w') → effect w w' i k k'
  | eff_protect : present k = true → k' = set_protection k true (w_now w) →
      (Z.of_nat i, w_now w) ∈ w_sleeping w' → effect w w' i k k'
  | eff_expire : protectionTime k + protectionPeriod ≤ w_now w →
      k' = set_protection k false zero_time → effect w w' i k k'
  | eff_add : present k = false → present k' = true → protected k' = protected k →
      protectionTime k' = protectionTime k → w_sleeping w' = w_sleeping w → effect w w' i k k'
  | eff_drop : present k' = false → protected k' = false → effect w w' i k k'.

(** A setter changes one chunk. *)
Lemma setChunk_effect w w' c id k0 k i k' :
  index (chunks c) id = Ret k0 → chunks c !! i = Some k →
  w_core w' = setChunk c id k' →
  (i ≠ Z.to_nat id → effect w w' i k k) →
  (Z.of_nat i = id → k0 = k → effect w w' i k k') →
  ∃ k1, chunks (w_core w') !! i = Some k1 ∧ effect w w' i k k1.
Proof.
  intros (Hpos & Hk0)%index_Ret_inv Hk -> Hother Hsame. cbn [chunks setChunk].
  destruct (decide (i = Z.to_nat id)) as [->|Hne].
  - rewrite list_lookup_insert_eq by (by eapply lookup_lt_Some).
    eexists. split; [done|]. apply Hsame; [lia|congruence].
  - rewrite list_lookup_insert_ne by done. eauto.
Qed.

Lemma wstep_effect w w' i k :
  wstep w w' → chunks (w_core w) !! i = Some k →
  ∃ k', chunks (w_core w') !! i = Some k' ∧ effect w w' i k k'.
Proof.
  intros Hs Hk. destruct Hs as [c now now' sl Hle|c now sl cid c' H|c now sl cid c' e H
    |c now sl1 cid t sl2 c' Ht H|c now sl cid c' H|c now sl cid c' H]; cbn [w_core] in *.
  - exists k. split; [done|]. by apply eff_same.
  - unfold ChunkSetProtected in H. apply bind_Ret_inv in H as (k0 & Hix & H).
    destruct (present k0) eqn:Hp; cbn in H; [|done]. injection H as <-.
    apply (setChunk_effect _ (World _ _ _) c cid k0 k i _ Hix Hk eq_refl).
    + intros _. apply eff_same; [done|]. cbn. set_solver.
    + intros <- ->. apply eff_protect; [done..|]. cbn. set_solver.
  - unfold ChunkSetProtected in H. apply bind_Ret_inv in H as (k0 & Hix & H).
    destruct (present k0); cbn in H; [done|]. injection H as <- <-.
    exists k. split; [done|]. by apply eff_same.
  - unfold protectionExpired in H. apply bind_Ret_inv in H as (k0 & Hix & H).
    pose proof (index_Ret_inv _ _ _ Hix) as [Hpos Hk0].
    destruct (Z.eqb_spec (protectionTime k0) t) as [<-|Hne]; injection H as <-.
    + apply (setChunk_effect _ (World _ _ _) c cid k0 k i _ Hix Hk eq_refl).
      * intros Hi. apply eff_same; [done|]. cbn. rewrite !elem_of_app, elem_of_cons.
        intros [?|[[= E _]|?]]; [by left|lia|by right].
      * intros <- ->. by apply eff_expire.
    + exists k. split; [done|]. apply eff_same; [done|]. cbn. rewrite !elem_of_app, elem_of_cons.
      intros [?|[[= E E']|?]]; [by left| |by right]. subst cid. rewrite Nat2Z.id in Hk0. congruence.
  - unfold ChunkSetPresent in H. apply bind_Ret_inv in H as (k0 & Hix & H).
    destruct (present k0) eqn:Hp; cbn in H; [injection H as <-; exists k; split; [done|by apply eff_same]|].
    apply bind_Ret_inv in H as (p & _ & H). injection H as <-.
    apply (setChunk_effect _ (World _ _ _) (set_known c (knownChunks c + 1)) cid k0 k i _ Hix Hk eq_refl).
    + intros _. by apply eff_same.
    + intros <- ->. by apply eff_add.
  - unfold ChunkSetNoPresent in H. apply bind_Ret_inv in H as (k0 & Hix & H).
    destruct (present k0) eqn:Hp; cbn in H; [|injection H as <-; exists k; split; [done|by apply eff_same]].
    apply bind_Ret_inv in H as (p & _ & H). apply bind_Ret_inv in H as (r & _ & H). injection H as <-.
    apply (setChunk_effect _ (World _ _ _) (set_known c (knownChunks c - 1)) cid k0 k i _ Hix Hk eq_refl).
    + intros _. by apply eff_same.
    + intros <- ->. by apply eff_drop.
Qed.

Lemma wstep_clock w w' : wstep w w' → w_now w ≤ w_now w'.
Proof. by destruct 1. Qed.

(** A step that leaves the chunk [i] on the server. *)
Definition keeps (i : nat) (w w' : world) : Prop :=
  wstep w w' ∧ chunk_is w' i (λ k, present k = true).

(** The chunk was protected at [t] or later, or the period since [t] is over. *)
Definition guarded (i : nat) (t : time) (w : world) : Prop :=
  t + protectionPeriod ≤ w_now w ∨
  (t ≤ w_now w ∧ chunk_is w i (λ k, present k = true ∧ protected k = true ∧ t ≤ protectionTime k)).

Lemma guarded_step i t w w' : guarded i t w → keeps i w w' → guarded i t w'.
Proof.
  intros Hg [Hs (k1 & Hk1 & Hp1)]. pose proof (wstep_clock _ _ Hs).
  destruct Hg as [Hg|(Ht & k & Hk & Hp & Hpr & Htk)]; [left; lia|].
  destruct (wstep_effect w w' i k Hs Hk) as (k' & Hk' & He).
  rewrite Hk1 in Hk'. injection Hk' as <-.
  destruct He as [-> _|_ -> _|Hexp _|? _ _ _ _|? _].
  - right. split; [lia|]. by exists k.
  - right. split; [lia|]. eexists. split; [done|]. cbn. done.
  - left. lia.
  - congruence.
  - congruence.
Qed.

(** C34. Protecting a present chunk protects it for the whole period: whatever
    happens meanwhile (older protections running out, new ones, other chunks
    coming and going), it stays protected until 10 seconds after [t] as long as
    it stays on the server. *)
Theorem protected_for_period c t sl i k w' :
  chunks c !! i = Some k → present k = true →
  ∃ c', ChunkSetProtected c (Z.of_nat i) t = Ret (c', None) ∧
    (rtc (keeps i) (World c' t ((Z.of_nat i, t) :: sl)) w' → w_now w' < t + protectionPeriod →
     IsProtected (w_core w') (Z.of_nat i) = Ret true).
Proof.
  intros Hk Hp. unfold ChunkSetProtected.
  rewrite (index_lookup (chunks c) (Z.of_nat i) k) by (lia || by rewrite Nat2Z.id). bsimpl.
  rewrite Hp. cbn [negb]. eexists. split; [done|]. intros Hr Hnow.
  assert (guarded i t w') as [?|(_ & k' & Hk' & _ & Hpr & _)].
  - eapply (rtc_ind_r (λ w, guarded i t w)); [| |exact Hr].
    + right. split; [cbn; lia|]. eexists. cbn. rewrite Nat2Z.id.
      split; [apply list_lookup_insert_eq; by eapply lookup_lt_Some|]. cbn. done.
    + intros w1 w2 _ Hs Hg. by eapply guarded_step.
  - lia.
  - unfold IsProtected. rewrite (index_lookup _ _ k') by (lia || by rewrite Nat2Z.id).
    bsimpl. by rewrite Hpr.
Qed.

(** ** Every protection runs out *)

(** A goroutine sleeps for each protected chunk. *)
Definition watched (w : world) : Prop :=
  ∀ i k, chunks (w_core w) !! i = Some k → protected k = true →
    (Z.of_nat i, protectionTime k) ∈ w_sleeping w.

Lemma effect_back w w' i k' :
  wstep w w' → chunks (w_core w') !! i = Some k' →
  ∃ k, chunks (w_core w) !! i = Some k ∧ effect w w' i k k'.
Proof.
  intros Hs Hk'.
  assert (length (chunks (w_core w)) = length (chunks (w_core w'))) as Hlen.
  { destruct Hs as [| | | | |]; cbn [w_core]; try done.
    all: unfold ChunkSetProtected, protectionExpired, ChunkSetPresent, ChunkSetNoPresent in *.
    all: inv_ret; simplify_eq/=; try done; by rewrite length_insert. }
  destruct (lookup_lt_is_Some_2 (chunks (w_core w)) i) as [k Hk].
  { rewrite Hlen. by eapply lookup_lt_Some. }
  destruct (wstep_effect w w' i k Hs Hk) as (k1 & Hk1 & He).
  exists k. split; [done|]. congruence.
Qed.

Lemma watched_step w w' : watched w → wstep w w' → watched w'.
Proof.
  intros Hw Hs i k' Hk' Hp. destruct (effect_back w w' i k' Hs Hk') as (k & Hk & He).
  destruct He as [-> Hkeep|_ -> Hin|_ ->|_ _ E1 E2 E3|_ E]; try done.
  - apply Hkeep. by apply Hw.
  - rewrite E2, E3. apply Hw; [done|]. congruence.
  - congruence.
Qed.

(** No protection lasts for ever: in every state reached from a new core, a
    protected chunk has a goroutine that, when it runs at the end of the period,
    takes the protection back. *)
Theorem protection_runs_out path sz n c0 t0 w i :
  CoreNew path sz n = Ret c0 → rtc wstep (World c0 t0 []) w →
  IsProtected (w_core w) (Z.of_nat i) = Ret true →
  ∃ w1 w2, wstep w w1 ∧ wstep w1 w2 ∧ IsProtected (w_core w2) (Z.of_nat i) = Ret false.
Proof.
  intros Hnew Hr Hprot.
  assert (watched w) as Hw.
  { eapply (rtc_ind_r watched); [| |exact Hr].
    - intros j k Hk. unfold CoreNew in Hnew. inv_ret. subst c0. cbn in Hk.
      apply lookup_replicate in Hk as [-> _]. done.
    - intros w1 w2 _ Hs Hg. by eapply watched_step. }
  unfold IsProtected in Hprot. apply bind_Ret_inv in Hprot as (k & Hix & E). injection E as E.
  pose proof (index_Ret_inv _ _ _ Hix) as [_ Hk]. rewrite Nat2Z.id in Hk.
  pose proof (Hw i k Hk E) as Hin. apply list_elem_of_split in Hin as (sl1 & sl2 & Hsl).
  destruct w as [c now sl]. cbn in *. subst sl.
  eexists (World c (Z.max now (protectionTime k + protectionPeriod)) _), _. split_and!.
  - apply step_clock. lia.
  - eapply step_expire; [lia|]. unfold protectionExpired. rewrite Hix. bsimpl.
    rewrite Z.eqb_refl. done.
  - cbn. unfold IsProtected. erewrite index_lookup; [|lia|cbn; apply list_lookup_insert_eq;
      rewrite Nat2Z.id; by eapply lookup_lt_Some]. done.
Qed.
End protection.

(** A core of one chunk that is added and protected at [t]. *)
Lemma sample_protected `{GommapLaws} t :
  ∃ c0 c1 c2 k, CoreNew EmptyString 300 1 = Ret c0 ∧ ChunkSetPresent c0 0 = Ret c1 ∧
    chunks c1 !! 0%nat = Some k ∧ present k = true ∧
    ChunkSetProtected c1 0 t = Ret (c2, None) ∧ IsProtected c2 0 = Ret true.
Proof.
  destruct (New_sim EmptyString 300) as (p & Hp & _); [by vm_compute|].
  eexists _, _, _, _. split; [done|]. split.
  { unfold ChunkSetPresent. rewrite (index_lookup _ 0 newMetaChunk) by done. bsimpl.
    cbn [negb present newMetaChunk]. change (chunkPath _ 0 0) with EmptyString.
    cbn [chunkSize]. rewrite Hp. bsimpl. done. }
  done.
Qed.

(** Five seconds after the protection. *)
Lemma protected_for_period_witness :
  let _ := plainGommap in
  ∃ c w', w_now w' = 100 + 5 * second ∧
    rtc (keeps 0) (World c 100 [(0, 100)]) w' ∧ IsProtected (w_core w') 0 = Ret true.
Proof.
  intros G. destruct (@sample_protected G plainGommap_laws 100)
    as (c0 & c1 & c2 & k & _ & _ & Hk & Hp & Hset & _).
  destruct (protected_for_period c1 100 [] 0 k (World c2 (100 + 5 * second) [(0, 100)]) Hk Hp)
    as (c' & E & Hprot).
  change (Z.of_nat 0) with 0 in *. rewrite Hset in E. injection E as <-.
  assert (rtc (keeps 0) (World c2 100 [(0, 100)]) (World c2 (100 + 5 * second) [(0, 100)])) as Hr.
  { apply rtc_once. split; [apply step_clock; by vm_compute|].
    unfold ChunkSetProtected in Hset. apply bind_Ret_inv in Hset as (k0 & Hix & E).
    apply index_Ret_inv in Hix as [_ Hix]. change (Z.to_nat 0) with 0%nat in Hix. rewrite Hk in Hix. injection Hix as <-.
    rewrite Hp in E. injection E as <-. eexists. cbn [w_core chunks setChunk].
    split; [apply list_lookup_insert_eq; by eapply lookup_lt_Some|done]. }
  exists c2, (World c2 (100 + 5 * second) [(0, 100)]). split_and!; [done..|].
  apply Hprot; [done|by vm_compute].
Defined.

Lemma protection_runs_out_witness :
  let _ := plainGommap in
  ∃ c w1 w2, wstep (World c 100 [(0, 100)]) w1 ∧ wstep w1 w2 ∧
    IsProtected (w_core w2) 0 = Ret false.
Proof.
  intros G. destruct (@sample_protected G plainGommap_laws 100)
    as (c0 & c1 & c2 & k & Hnew & Hadd & Hk & Hp & Hset & Hprot).
  exists c2. apply (protection_runs_out EmptyString 300 1 c0 100 (World c2 100 [(0, 100)]) 0 Hnew).
  - eapply rtc_l; [by eapply step_add|]. apply rtc_once. by apply step_protect.
  - done.
Defined.
