(* ===== verification/ServerGroup.v ===== *)
(** * The table of servers and chunk holders ([src/dist/servergroup])

    A server group knows the servers of the database, what each announced in
    its last heartbeat, and for each chunk the servers that hold it.  The chunks
    point to the servers they are held by, so the servers live in a heap of
    their own: a server that is removed and added again is another object.  The
    mutex of the group is held throughout each operation.

    [Marshal] and [unmarshal] are modelled up to the JSON encoding of the struct
    they serialize, of which encoding/json keeps the exported fields. *)
From S2P Require Import Prelude.
From S2P Require Import Store.
From S2P Require Import UdpHeartbeat.

Abbreviation sptr := Z.

(** Addresses are strings, that is, bytes. *)
Abbreviation addr_t := (list byte).

Record VirtualServer := mkServer {
  Phy : addr_t;
  lastHeartbeat : time;
  dead : bool;
  heldChunks : list AmAliveChunk;
  (** Is there a TCP connection? *)
  conn : bool;
  vsNoDelay : bool
}.

Record VirtualChunk := mkChunk {
  vc_id : Z;
  holders : list sptr
}.

Record ServerGroup := mkGroup {
  LocalhostIPPort : addr_t;
  numChunks : Z;
  redundancy : Z;
  servers : gmap addr_t sptr;
  chunks : list VirtualChunk;
  noDelay : bool;
  (** The objects the pointers point to. *)
  mem : gmap sptr VirtualServer
}.

Definition set_servers (sg : ServerGroup) (m : gmap addr_t sptr) : ServerGroup :=
  mkGroup (LocalhostIPPort sg) (numChunks sg) (redundancy sg) m (chunks sg) (noDelay sg) (mem sg).
Definition set_chunks (sg : ServerGroup) (cs : list VirtualChunk) : ServerGroup :=
  mkGroup (LocalhostIPPort sg) (numChunks sg) (redundancy sg) (servers sg) cs (noDelay sg) (mem sg).
Definition set_mem (sg : ServerGroup) (h : gmap sptr VirtualServer) : ServerGroup :=
  mkGroup (LocalhostIPPort sg) (numChunks sg) (redundancy sg) (servers sg) (chunks sg) (noDelay sg) h.
Definition set_server (sg : ServerGroup) (p : sptr) (s : VirtualServer) : ServerGroup :=
  set_mem sg (<[p := s]> (mem sg)).

(** Dereference a pointer to a server. *)
Definition deref (sg : ServerGroup) (p : sptr) : outcome VirtualServer :=
  match mem sg !! p with Some s => Ret s | None => Panic end.

(** ** Chunks ([virtualchunk.go]) *)

Definition hasHolder (c : VirtualChunk) (p : sptr) : bool := bool_decide (p ∈ holders c).

(** The last holder takes the place of the first occurrence of [p]. *)
Fixpoint removeFrom (p : sptr) (l : list sptr) : list sptr :=
  match l with
  | [] => []
  | q :: l' =>
      if decide (q = p) then match last l' with Some z => z :: removelast l' | None => [] end
      else q :: removeFrom p l'
  end.

Definition removeHolder (c : VirtualChunk) (p : sptr) : VirtualChunk :=
  mkChunk (vc_id c) (removeFrom p (holders c)).
Definition addHolder (c : VirtualChunk) (p : sptr) : VirtualChunk :=
  mkChunk (vc_id c) (holders c ++ [p]).

(** ** Servers ([virtualserver.go]) *)

Definition getChunk (s : VirtualServer) (cid : Z) : option AmAliveChunk :=
  List.find (λ c, aID c =? cid) (heldChunks s).

Definition freeConn (s : VirtualServer) : VirtualServer :=
  mkServer (Phy s) (lastHeartbeat s) (dead s) (heldChunks s) false (vsNoDelay s).

Definition set_heard (s : VirtualServer) (cs : list AmAliveChunk) (d : bool) (t : time) :
    VirtualServer :=
  mkServer (Phy s) t d cs (conn s) (vsNoDelay s).

(** ** Creation *)

Definition newChunks (n : Z) : outcome (list VirtualChunk) :=
  _ ← check (0 <=? n);
  Ret (map (λ i, mkChunk (Z.of_nat i) []) (seq 0 (Z.to_nat n))).

Definition CreateServerGroup (numChunks redundancy : Z) (localhost : addr_t) :
    outcome ServerGroup :=
  cs ← newChunks numChunks;
  Ret (mkGroup localhost numChunks redundancy ∅ cs false ∅).

Record serializableServerGroup := Serializable {
  ss_numChunks : Z;
  ss_redundancy : Z;
  (** The address and the exported field of each server. *)
  ss_servers : gmap addr_t addr_t
}.

(** A nil pointer would be encoded as null; there is none. *)
Definition Marshal (sg : ServerGroup) : serializableServerGroup :=
  Serializable (numChunks sg) (redundancy sg)
    (omap (λ p, Phy <$> mem sg !! p) (servers sg)).

(** Allocate a server for each decoded pair. *)
Fixpoint allocServers (l : list (addr_t * addr_t)) (p : sptr) :
    gmap addr_t sptr * gmap sptr VirtualServer :=
  match l with
  | [] => (∅, ∅)
  | (addr, phy) :: l =>
      let r := allocServers l (p + 1) in
      (<[addr := p]> r.1, <[p := mkServer phy zero_time false [] false false]> r.2)
  end.

Definition UnmarhalServerGroup (ssg : serializableServerGroup) : outcome ServerGroup :=
  let r := allocServers (map_to_list (ss_servers ssg)) 0 in
  cs ← newChunks (ss_numChunks ssg);
  Ret (mkGroup [] (ss_numChunks ssg) (ss_redundancy ssg) r.1 cs false r.2).

(** ** Getters *)

Definition NumServers (sg : ServerGroup) : Z := Z.of_nat (size (servers sg)).

Definition NumHolders (sg : ServerGroup) (chunkID : Z) : outcome Z :=
  c ← index (chunks sg) chunkID; Ret (zlen (holders c)).

(** The order in which Go walks over a map is not defined; here it is the
    order of the keys. *)
Definition Servers (sg : ServerGroup) : list sptr := (map_to_list (servers sg)).*2.
Definition KnownServers (sg : ServerGroup) : list addr_t := (map_to_list (servers sg)).*1.

(** An array of 8 pointers; a ninth holder panics. *)
Definition GetChunkHolders (sg : ServerGroup) (chunkID : Z) : outcome (list (option sptr)) :=
  c ← index (chunks sg) chunkID;
  _ ← check (zlen (holders c) <=? 8);
  Ret (map Some (holders c) ++ replicate (8 - length (holders c)) None).

(** [pick] is the random number that [rand.Intn] draws. *)
Definition GetAnyHolder (sg : ServerGroup) (chunkID pick : Z) : outcome (option sptr) :=
  c ← index (chunks sg) chunkID;
  if zlen (holders c) <? 1 then Ret None
  else h ← index (holders c) (pick mod zlen (holders c)); Ret (Some h).

Definition GetServerChunks (sg : ServerGroup) (addr : addr_t) : outcome (list AmAliveChunk) :=
  match servers sg !! addr with
  | None => Ret []
  | Some p => s ← deref sg p; Ret (heldChunks s)
  end.

Definition IsServerOnGroup (sg : ServerGroup) (addr : addr_t) : bool :=
  bool_decide (is_Some (servers sg !! addr)).

(** ** Setters *)

Definition updateChunk (cs : list VirtualChunk) (id : Z) (f : VirtualChunk → VirtualChunk) :
    outcome (list VirtualChunk) :=
  c ← index cs id; Ret (<[Z.to_nat id := f c]> cs).

(** Is [id] among the announced chunks? *)
Definition announced (cids : list AmAliveChunk) (id : Z) : bool :=
  existsb (λ c, aID c =? id) cids.

(** The loop over the chunks the server held. *)
Fixpoint forgetChunks (held cids : list AmAliveChunk) (p : sptr) (cs : list VirtualChunk) :
    outcome (list VirtualChunk) :=
  match held with
  | [] => Ret cs
  | c :: held =>
      if announced cids (aID c) then forgetChunks held cids p cs
      else cs ← updateChunk cs (aID c) (λ k, removeHolder k p); forgetChunks held cids p cs
  end.

(** The loop over the chunks it holds now. *)
Fixpoint addChunks (cids : list AmAliveChunk) (p : sptr) (cs : list VirtualChunk) :
    outcome (list VirtualChunk) :=
  match cids with
  | [] => Ret cs
  | c :: cids =>
      cs ← updateChunk cs (aID c) (λ k, if hasHolder k p then k else addHolder k p);
      addChunks cids p cs
  end.

Definition SetServerChunks (sg : ServerGroup) (addr : addr_t) (cids : list AmAliveChunk)
    (now : time) : outcome ServerGroup :=
  match servers sg !! addr with
  | None => Ret sg
  | Some p =>
      s ← deref sg p;
      cs ← forgetChunks (heldChunks s) cids p (chunks sg);
      cs ← addChunks cids p cs;
      Ret (set_server (set_chunks sg cs) p (set_heard s cids false now))
  end.

Definition ServerAlive (sg : ServerGroup) (addr : addr_t) (now : time) : outcome ServerGroup :=
  match servers sg !! addr with
  | None => Ret sg
  | Some p => s ← deref sg p; Ret (set_server sg p (set_heard s (heldChunks s) false now))
  end.

Definition errKnown : error := "Server already known".
Definition errUnknown : error := "Server not known".

(** Returns the new server, or an error. *)
Definition AddServerToGroup (sg : ServerGroup) (addr : addr_t) :
    ServerGroup * (error + sptr) :=
  match servers sg !! addr with
  | None =>
      let p := fresh (dom (mem sg)) in
      (set_server (set_servers sg (<[addr := p]> (servers sg))) p
         (mkServer addr zero_time false [] false (noDelay sg)), inr p)
  | Some _ => (sg, inl errKnown)
  end.

(** Take [p] off the chunks in [held]. *)
Definition dropHolder (held : list AmAliveChunk) (p : sptr) (cs : list VirtualChunk) :
    outcome (list VirtualChunk) := forgetChunks held [] p cs.

Definition RemoveServer (sg : ServerGroup) (addr : addr_t) :
    outcome (ServerGroup * option error) :=
  match servers sg !! addr with
  | None => Ret (sg, Some errUnknown)
  | Some p =>
      s ← deref sg p;
      cs ← dropHolder (heldChunks s) p (chunks sg);
      Ret (set_server (set_chunks (set_servers sg (delete addr (servers sg))) cs) p (freeConn s), None)
  end.

Definition DeadServer (sg : ServerGroup) (addr : addr_t) : outcome (ServerGroup * option error) :=
  match servers sg !! addr with
  | None => Ret (sg, Some errUnknown)
  | Some p =>
      s ← deref sg p;
      cs ← dropHolder (heldChunks s) p (chunks sg);
      Ret (set_server (set_chunks sg cs) p (freeConn (set_heard s [] true (lastHeartbeat s))), None)
  end.

(** The checksum that the holder [p] announced for the chunk; a holder that did
    not announce it panics. *)
Definition holderSum (sg : ServerGroup) (cid : Z) (p : sptr) : outcome Z :=
  s ← deref sg p;
  match getChunk s cid with Some c => Ret (aChecksum c) | None => Panic end.

Fixpoint sameSums (sg : ServerGroup) (cid sum : Z) (ps : list sptr) : outcome bool :=
  match ps with
  | [] => Ret true
  | p :: ps =>
      sum2 ← holderSum sg cid p;
      if sum =? sum2 then sameSums sg cid sum ps else Ret false
  end.

Definition IsSynched (sg : ServerGroup) (cid : Z) : outcome bool :=
  c ← index (chunks sg) cid;
  if zlen (holders c) <? 2 then Ret true
  else
    match holders c with
    | p :: ps => sum ← holderSum sg cid p; sameSums sg cid sum ps
    | [] => Panic
    end.

Fixpoint unSynched (sg : ServerGroup) (i : Z) (n : nat) : outcome (list Z) :=
  match n with
  | O => Ret []
  | S n =>
      b ← IsSynched sg i;
      l ← unSynched sg (i + 1) n;
      Ret (if (b : bool) then l else i :: l)
  end.

Definition UnSynchedChunks (sg : ServerGroup) : outcome (list Z) :=
  unSynched sg 0 (length (chunks sg)).

(** [Stop] closes the connections of the servers of the group. *)
Definition Stop (sg : ServerGroup) : ServerGroup :=
  set_mem sg (map_imap (λ p s, Some (if decide (p ∈ Servers sg) then freeConn s else s)) (mem sg)).
