(* ===== verification/ServerGroupSpec.v ===== *)
(** * What a server group guarantees

    The abstract state of a group is what each known server announced last.
    The table of holders is derived from it: a server holds a chunk exactly when
    its last announcement names it. *)
From S2P Require Import Prelude.
From S2P Require Import Store.
From S2P Require Import UdpHeartbeat.
From S2P Require Import ServerGroup.

(** ** Holders *)

Lemma removelast_last (l : list sptr) z : last l = Some z → l = removelast l ++ [z].
Proof.
  intros H. destruct l as [|y l _] using rev_ind; [done|].
  rewrite last_snoc in H. injection H as ->. by rewrite removelast_last.
Qed.

(** Up to the order, the first occurrence is taken away. *)
Lemma removeFrom_perm p l : p ∈ l → p :: removeFrom p l ≡ₚ l.
Proof.
  induction l as [|q l IH]; [by intros ?%not_elem_of_nil|]. intros Hin. cbn [removeFrom].
  case_decide as E; [subst q|].
  - constructor. destruct (last l) as [z|] eqn:Hz.
    + rewrite (removelast_last l z Hz) at 2. by rewrite Permutation_app_comm.
    + by apply last_None in Hz as ->.
  - apply elem_of_cons in Hin as [->|Hin]; [done|]. rewrite perm_swap. constructor. by apply IH.
Qed.

Lemma removeFrom_notin p l : p ∉ l → removeFrom p l = l.
Proof.
  induction l as [|q l IH]; [done|]. rewrite not_elem_of_cons. intros [Hne Hin]. cbn [removeFrom].
  rewrite decide_False by done. by rewrite IH.
Qed.

Lemma removeFrom_spec p l :
  NoDup l → NoDup (removeFrom p l) ∧ ∀ q, q ∈ removeFrom p l ↔ q ∈ l ∧ q ≠ p.
Proof.
  intros Hnd. destruct (decide (p ∈ l)) as [Hin|Hin].
  - pose proof (removeFrom_perm p l Hin) as Hp. rewrite <- Hp in Hnd.
    apply NoDup_cons in Hnd as [Hn Hnd]. split; [done|]. intros q.
    assert (q ∈ l ↔ q ∈ p :: removeFrom p l) as -> by (by rewrite Hp). rewrite elem_of_cons.
    split; [intros H; split; [by right|]; by intros ->|]. by intros [[->|?] ?].
  - rewrite removeFrom_notin by done. split; [done|]. intros q. split; [|naive_solver].
    intros H. split; [done|]. by intros ->.
Qed.

(** ** Tables of holders

    [table cs R]: the holders of chunk [i] are the servers [p] with [R i p]. *)
Definition table (cs : list VirtualChunk) (R : Z → sptr → Prop) : Prop :=
  ∀ i c, 0 ≤ i → cs !! Z.to_nat i = Some c →
    vc_id c = i ∧ NoDup (holders c) ∧ ∀ p, p ∈ holders c ↔ R i p.

Definition in_table (cs : list VirtualChunk) (id : Z) : Prop := 0 ≤ id < zlen cs.
#[export] Instance in_table_dec cs id : Decision (in_table cs id).
Proof. unfold in_table. apply _. Defined.

Lemma in_table_index cs id : in_table cs id → ∃ c, index cs id = Ret c ∧ cs !! Z.to_nat id = Some c.
Proof.
  intros [H0 H1]. destruct (lookup_lt_is_Some_2 cs (Z.to_nat id)) as [c Hc]; [unfold zlen in H1; lia|].
  exists c. split; [|done]. by apply index_lookup.
Qed.

Lemma table_ext cs R R' : table cs R → (∀ i p, R i p ↔ R' i p) → table cs R'.
Proof. intros H E i c Hi Hc. destruct (H i c Hi Hc) as (? & ? & Hp). split_and!; try done. intros p. by rewrite Hp. Qed.

(** Changing the holders of one chunk. *)
Lemma table_update cs R id f (P : Prop) q :
  table cs R → in_table cs id →
  (∀ c, vc_id c = id → NoDup (holders c) → vc_id (f c) = id ∧ NoDup (holders (f c)) ∧
     ∀ p, p ∈ holders (f c) ↔ (if decide (p = q) then P else p ∈ holders c)) →
  ∃ cs', updateChunk cs id f = Ret cs' ∧ zlen cs' = zlen cs ∧
    table cs' (λ i p, if decide (i = id ∧ p = q) then P else R i p).
Proof.
  intros Ht Hin Hf. destruct (in_table_index cs id Hin) as (c & Hix & Hc).
  unfold updateChunk. rewrite Hix. bsimpl. eexists. split_and!; [done| |].
  { unfold zlen. by rewrite length_insert. }
  intros i k Hi Hk. destruct Hin as [H0 _].
  apply list_lookup_insert_Some in Hk as [(E & <- & _)|[Hne Hk]].
  - assert (i = id) as -> by lia. destruct (Ht id c H0 Hc) as (Hid & Hnd & Hmem).
    destruct (Hf c Hid Hnd) as (Hid' & Hnd' & Hmem'). split_and!; try done. intros p.
    rewrite Hmem'. repeat case_decide; try done; try naive_solver.
  - destruct (Ht i k Hi Hk) as (Hid & Hnd & Hmem). split_and!; try done. intros p.
    rewrite Hmem, decide_False; [done|]. intros [-> _]. done.
Qed.

Lemma updateChunk_out cs id f : ¬ in_table cs id → updateChunk cs id f = Panic.
Proof. intros H. unfold updateChunk. by rewrite index_panic. Qed.

Lemma table_remove cs R id q :
  table cs R → in_table cs id →
  ∃ cs', updateChunk cs id (λ k, removeHolder k q) = Ret cs' ∧ zlen cs' = zlen cs ∧
    table cs' (λ i p, R i p ∧ ¬ (i = id ∧ p = q)).
Proof.
  intros Ht Hin. destruct (table_update cs R id (λ k, removeHolder k q) False q Ht Hin)
    as (cs' & E & Hl & Ht').
  { intros c Hid Hnd. destruct (removeFrom_spec q (holders c) Hnd) as [Hnd' Hmem].
    split_and!; try done. intros p. cbn. rewrite Hmem. case_decide; naive_solver. }
  exists cs'. split_and!; try done. eapply table_ext; [done|]. intros i p. cbn beta. case_decide; naive_solver.
Qed.

Lemma table_add cs R id q :
  table cs R → in_table cs id →
  ∃ cs', updateChunk cs id (λ k, if hasHolder k q then k else addHolder k q) = Ret cs' ∧
    zlen cs' = zlen cs ∧ table cs' (λ i p, R i p ∨ (i = id ∧ p = q)).
Proof.
  intros Ht Hin.
  destruct (table_update cs R id (λ k, if hasHolder k q then k else addHolder k q) True q Ht Hin)
    as (cs' & E & Hl & Ht').
  { intros c Hid Hnd. unfold hasHolder. case_bool_decide as Hq; cbn; split_and!; try done.
    - intros p. case_decide; naive_solver.
    - apply NoDup_app. split_and!; [done| |apply NoDup_singleton].
      by intros x Hx ->%list_elem_of_singleton.
    - intros p. rewrite elem_of_app, list_elem_of_singleton. case_decide; naive_solver. }
  exists cs'. split_and!; try done. eapply table_ext; [done|]. intros i p. cbn beta. case_decide; naive_solver.
Qed.

(** [id] is one of the announced chunks. *)
Definition holds (l : list AmAliveChunk) (id : Z) : Prop := id ∈ map aID l.

#[export] Instance holds_dec l id : Decision (holds l id).
Proof. unfold holds. apply _. Defined.

Lemma announced_holds l id : announced l id = true ↔ holds l id.
Proof.
  unfold announced, holds. rewrite existsb_exists, list_elem_of_fmap. split.
  - intros (c & Hc & E%Z.eqb_eq). exists c. split; [done|]. by apply list_elem_of_In.
  - intros (c & -> & Hc). exists c. split; [by apply list_elem_of_In|apply Z.eqb_refl].
Qed.

Lemma holds_cons c l id : holds (c :: l) id ↔ id = aID c ∨ holds l id.
Proof. unfold holds. cbn [map]. by rewrite elem_of_cons. Qed.

Lemma forgetChunks_ok cids q held : ∀ cs R,
  table cs R → Forall (λ c, in_table cs (aID c)) held →
  ∃ cs', forgetChunks held cids q cs = Ret cs' ∧ zlen cs' = zlen cs ∧
    table cs' (λ i p, R i p ∧ ¬ (p = q ∧ holds held i ∧ ¬ holds cids i)).
Proof.
  induction held as [|c held IH]; intros cs R Ht Hin; cbn [forgetChunks].
  - exists cs. split_and!; try done. eapply table_ext; [done|]. intros i p.
    unfold holds at 1. cbn. rewrite elem_of_nil. naive_solver.
  - apply Forall_cons in Hin as [Hc Hin]. destruct (announced cids (aID c)) eqn:Ea.
    + apply announced_holds in Ea. destruct (IH cs R Ht Hin) as (cs' & E & Hl & Ht').
      exists cs'. split_and!; try done. eapply table_ext; [done|]. intros i p.
      rewrite holds_cons. split; [|naive_solver].
      intros [HR Hn]. split; [done|]. intros (-> & [->|Hh] & Hnc); naive_solver.
    + assert (¬ holds cids (aID c)) as Hnc by (rewrite <- announced_holds, Ea; done).
      destruct (table_remove cs R (aID c) q Ht Hc) as (cs1 & -> & Hl1 & Ht1). bsimpl.
      destruct (IH cs1 _ Ht1) as (cs' & E & Hl & Ht').
      { eapply Forall_impl; [exact Hin|]. unfold in_table. cbn. intros x Hx. by rewrite Hl1. }
      exists cs'. split_and!; [done|congruence|]. eapply table_ext; [done|]. intros i p. cbn.
      rewrite holds_cons. destruct (decide (i = aID c)) as [->|]; naive_solver.
Qed.

Lemma addChunks_ok q cids : ∀ cs R,
  table cs R → Forall (λ c, in_table cs (aID c)) cids →
  ∃ cs', addChunks cids q cs = Ret cs' ∧ zlen cs' = zlen cs ∧
    table cs' (λ i p, R i p ∨ (p = q ∧ holds cids i)).
Proof.
  induction cids as [|c cids IH]; intros cs R Ht Hin; cbn [addChunks].
  - exists cs. split_and!; try done. eapply table_ext; [done|]. intros i p.
    unfold holds. cbn. rewrite elem_of_nil. naive_solver.
  - apply Forall_cons in Hin as [Hc Hin].
    destruct (table_add cs R (aID c) q Ht Hc) as (cs1 & -> & Hl1 & Ht1). bsimpl.
    destruct (IH cs1 _ Ht1) as (cs' & E & Hl & Ht').
    { eapply Forall_impl; [exact Hin|]. unfold in_table. cbn. intros x Hx. by rewrite Hl1. }
    exists cs'. split_and!; [done|congruence|]. eapply table_ext; [done|]. intros i p. cbn.
    rewrite holds_cons. naive_solver.
Qed.

Lemma addChunks_out q cids : ∀ cs,
  ¬ Forall (λ c, in_table cs (aID c)) cids → addChunks cids q cs = Panic.
Proof.
  induction cids as [|c cids IH]; intros cs Hn; cbn [addChunks]; [by destruct Hn|].
  destruct (decide (in_table cs (aID c))) as [Hc|Hc]; [|by rewrite updateChunk_out].
  destruct (in_table_index cs _ Hc) as (k & Hix & _). unfold updateChunk. rewrite Hix. bsimpl.
  apply IH. intros HF. apply Hn. constructor; [done|]. eapply Forall_impl; [exact HF|].
  unfold in_table, zlen. cbn. intros x. by rewrite length_insert.
Qed.

(** ** The abstract group *)

Record vinfo := VInfo { v_held : list AmAliveChunk; v_dead : bool; v_last : time }.
Abbreviation group := (gmap addr_t vinfo).

Definition info (s : VirtualServer) : vinfo := VInfo (heldChunks s) (dead s) (lastHeartbeat s).

Definition in_range (n : Z) (c : AmAliveChunk) : Prop := 0 ≤ aID c < n.

#[export] Instance in_range_dec n c : Decision (in_range n c).
Proof. unfold in_range. apply _. Defined.

Record sg_rep (sg : ServerGroup) (g : group) : Prop := SgRep {
  sr_length : zlen (chunks sg) = numChunks sg;
  sr_known : ∀ addr p, servers sg !! addr = Some p →
    ∃ s, mem sg !! p = Some s ∧ Phy s = addr ∧ g !! addr = Some (info s);
  sr_unknown : ∀ addr, servers sg !! addr = None → g !! addr = None;
  sr_range : ∀ addr v, g !! addr = Some v → Forall (in_range (numChunks sg)) (v_held v);
  sr_table : table (chunks sg) (λ i p, ∃ addr v,
    servers sg !! addr = Some p ∧ g !! addr = Some v ∧ holds (v_held v) i)
}.

(** A pointer belongs to one address. *)
Lemma sg_inj sg g a b p :
  sg_rep sg g → servers sg !! a = Some p → servers sg !! b = Some p → a = b.
Proof.
  intros Hr (s & Hs & <- & _)%(sr_known _ _ Hr) (s' & Hs' & <- & _)%(sr_known _ _ Hr). congruence.
Qed.

(** ** Specifications of the operations *)

Definition spec_SetServerChunks (n : Z) (g : group) (addr : addr_t) (cids : list AmAliveChunk)
    (now : time) : outcome group :=
  match g !! addr with
  | None => Ret g
  | Some _ =>
      if decide (Forall (in_range n) cids) then Ret (<[addr := VInfo cids false now]> g) else Panic
  end.

Definition spec_ServerAlive (g : group) (addr : addr_t) (now : time) : group :=
  match g !! addr with
  | None => g
  | Some v => <[addr := VInfo (v_held v) false now]> g
  end.

Definition spec_AddServer (g : group) (addr : addr_t) : group :=
  match g !! addr with None => <[addr := VInfo [] false zero_time]> g | Some _ => g end.

Definition spec_DeadServer (g : group) (addr : addr_t) : group :=
  match g !! addr with None => g | Some v => <[addr := VInfo [] true (v_last v)]> g end.

(** The servers that hold a chunk. *)
Definition holdersOf (g : group) (i : Z) : gset addr_t :=
  dom (filter (λ kv, holds (v_held kv.2) i) g).

Section updates.
Context (sg : ServerGroup) (g : group) (Hr : sg_rep sg g).
Context (addr : addr_t) (p : sptr) (Hp : servers sg !! addr = Some p).

(** Who holds a chunk when the entry of [addr] changes. *)
Lemma holder_insert v0 i q :
  (∃ a v, servers sg !! a = Some q ∧ <[addr := v0]> g !! a = Some v ∧ holds (v_held v) i) ↔
  if decide (q = p) then holds (v_held v0) i
  else ∃ a v, servers sg !! a = Some q ∧ g !! a = Some v ∧ holds (v_held v) i.
Proof using Hr Hp.
  case_decide as E.
  - subst q. split.
    + intros (a & v & Ha & Hv & Hh). rewrite (sg_inj _ _ _ _ _ Hr Ha Hp) in Hv.
      rewrite lookup_insert_eq in Hv. by injection Hv as ->.
    + intros Hh. exists addr, v0. by rewrite lookup_insert_eq.
  - split; intros (a & v & Ha & Hv & Hh); exists a, v; split_and!; try done.
    + rewrite lookup_insert_ne in Hv; [done|]. intros <-. congruence.
    + rewrite lookup_insert_ne; [done|]. intros <-. congruence.
Qed.

Lemma holder_self v i :
  g !! addr = Some v →
  (∃ a v', servers sg !! a = Some p ∧ g !! a = Some v' ∧ holds (v_held v') i) ↔ holds (v_held v) i.
Proof using Hr Hp.
  intros Hv. pose proof (holder_insert v i p) as H. rewrite decide_True in H by done.
  by rewrite insert_id in H.
Qed.

Lemma sg_rep_update s' cs :
  Phy s' = addr → zlen cs = zlen (chunks sg) → Forall (in_range (numChunks sg)) (heldChunks s') →
  table cs (λ i q, if decide (q = p) then holds (heldChunks s') i
                   else ∃ a v, servers sg !! a = Some q ∧ g !! a = Some v ∧ holds (v_held v) i) →
  sg_rep (set_server (set_chunks sg cs) p s') (<[addr := info s']> g).
Proof using Hr Hp.
  intros Hphy Hlen Hrange Ht.
  split; cbn [chunks servers mem numChunks set_server set_mem set_chunks].
  - rewrite Hlen. apply Hr.
  - intros a q Hq. destruct (decide (a = addr)) as [->|Hne].
    + rewrite Hp in Hq. injection Hq as <-. exists s'. by rewrite !lookup_insert_eq.
    + destruct (sr_known _ _ Hr a q Hq) as (s & Hs & Ha & Hg). exists s.
      rewrite !lookup_insert_ne; [done|done|]. intros <-. by destruct Hne, (sg_inj _ _ _ _ _ Hr Hq Hp).
  - intros a Ha. rewrite lookup_insert_ne by congruence. by apply (sr_unknown _ _ Hr).
  - intros a v. rewrite lookup_insert_Some. intros [[_ <-]|[_ Hv]]; [done|]. by eapply (sr_range _ _ Hr).
  - eapply table_ext; [exact Ht|]. intros i q. by rewrite (holder_insert (info s')).
Qed.
End updates.

Lemma sg_known sg g addr p :
  sg_rep sg g → servers sg !! addr = Some p →
  ∃ s, deref sg p = Ret s ∧ Phy s = addr ∧ g !! addr = Some (info s).
Proof.
  intros Hr Hp. destruct (sr_known _ _ Hr _ _ Hp) as (s & Hs & ? & ?). exists s.
  unfold deref. by rewrite Hs.
Qed.

Lemma range_table sg g l :
  sg_rep sg g → Forall (in_range (numChunks sg)) l ↔ Forall (λ c, in_table (chunks sg) (aID c)) l.
Proof. intros Hr. unfold in_range, in_table. by rewrite (sr_length _ _ Hr). Qed.

Lemma SetServerChunks_sim sg g addr cids now :
  sg_rep sg g →
  match spec_SetServerChunks (numChunks sg) g addr cids now with
  | Ret g' => ∃ sg', SetServerChunks sg addr cids now = Ret sg' ∧ sg_rep sg' g' ∧
      numChunks sg' = numChunks sg ∧ redundancy sg' = redundancy sg
  | _ => SetServerChunks sg addr cids now = Panic
  end.
Proof.
  intros Hr. unfold spec_SetServerChunks, SetServerChunks.
  destruct (servers sg !! addr) as [p|] eqn:Hp; cycle 1.
  { rewrite (sr_unknown _ _ Hr _ Hp). by exists sg. }
  destruct (sg_known sg g addr p Hr Hp) as (s & -> & Hphy & Hg). rewrite Hg. bsimpl.
  pose proof (sr_range _ _ Hr _ _ Hg) as Hheld. cbn in Hheld.
  destruct (forgetChunks_ok cids p (heldChunks s) (chunks sg) _ (sr_table _ _ Hr))
    as (cs1 & -> & Hl1 & Ht1); [by eapply range_table|]. bsimpl.
  assert (Forall (in_range (numChunks sg)) cids ↔ Forall (λ c, in_table cs1 (aID c)) cids) as Hiff.
  { rewrite (range_table sg g cids Hr). unfold in_table. by rewrite Hl1. }
  case_decide as Hin; cycle 1.
  { by rewrite addChunks_out by (by rewrite <- Hiff). }
  destruct (addChunks_ok p cids cs1 _ Ht1) as (cs2 & -> & Hl2 & Ht2); [by apply Hiff|]. bsimpl.
  eexists. split_and!; [done| |done|done].
  apply (sg_rep_update sg g Hr addr p Hp (set_heard s cids false now)); [done|congruence|done|].
  eapply table_ext; [exact Ht2|]. intros i q. cbn. case_decide as Eq; [subst q|naive_solver].
  rewrite (holder_self sg g Hr addr p Hp (info s)) by done. cbn.
  destruct (decide (holds cids i)); naive_solver.
Qed.

Lemma ServerAlive_sim sg g addr now :
  sg_rep sg g →
  ∃ sg', ServerAlive sg addr now = Ret sg' ∧ sg_rep sg' (spec_ServerAlive g addr now) ∧
    numChunks sg' = numChunks sg ∧ redundancy sg' = redundancy sg.
Proof.
  intros Hr. unfold spec_ServerAlive, ServerAlive.
  destruct (servers sg !! addr) as [p|] eqn:Hp; cycle 1.
  { rewrite (sr_unknown _ _ Hr _ Hp). by exists sg. }
  destruct (sg_known sg g addr p Hr Hp) as (s & -> & Hphy & Hg). rewrite Hg. bsimpl.
  eexists. split_and!; [done| |done|done].
  pose proof (sg_rep_update sg g Hr addr p Hp (set_heard s (heldChunks s) false now) (chunks sg)) as H.
  unfold set_server, set_mem, set_chunks in *. cbn in *. apply H; [done|done| |].
  - exact (sr_range _ _ Hr _ _ Hg).
  - eapply table_ext; [apply (sr_table _ _ Hr)|]. intros i q. cbn beta. case_decide; [|done].
    subst q. by rewrite (holder_self sg g Hr addr p Hp (info s)).
Qed.

Lemma AddServer_sim sg g addr :
  sg_rep sg g → sg_rep (AddServerToGroup sg addr).1 (spec_AddServer g addr).
Proof.
  intros Hr. unfold spec_AddServer, AddServerToGroup.
  destruct (servers sg !! addr) as [p|] eqn:Hp.
  { destruct (sr_known _ _ Hr _ _ Hp) as (s & _ & _ & ->). done. }
  rewrite (sr_unknown _ _ Hr _ Hp). cbn [fst]. set (p := fresh (dom (mem sg))).
  assert (∀ a, servers sg !! a ≠ Some p) as Hfresh.
  { intros a Ha. destruct (sr_known _ _ Hr _ _ Ha) as (s & Hs & _).
    apply (is_fresh (dom (mem sg))). by apply elem_of_dom_2 in Hs. }
  split; cbn [chunks servers mem numChunks set_server set_mem set_servers].
  - apply Hr.
  - intros a q. rewrite lookup_insert_Some. intros [[<- <-]|[Hne Hq]].
    + eexists. by rewrite !lookup_insert_eq.
    + destruct (sr_known _ _ Hr _ _ Hq) as (s & Hs & Ha & Hg). exists s.
      rewrite !lookup_insert_ne; [done|done|]. intros <-. by apply (Hfresh a).
  - intros a. rewrite lookup_insert_None. intros [Ha Hne]. rewrite lookup_insert_ne by done.
    by apply (sr_unknown _ _ Hr).
  - intros a v. rewrite lookup_insert_Some. intros [[_ <-]|[_ Hv]]; [constructor|].
    by eapply (sr_range _ _ Hr).
  - eapply table_ext; [apply (sr_table _ _ Hr)|]. intros i q. split.
    + intros (a & v & Ha & Hv & Hh). exists a, v.
      rewrite !lookup_insert_ne; [done|..]; intros <-; congruence.
    + intros (a & v & Ha & Hv & Hh). destruct (decide (addr = a)) as [<-|Hne].
      * rewrite lookup_insert_eq in Hv. injection Hv as <-. unfold holds in Hh. cbn in Hh.
        by apply not_elem_of_nil in Hh.
      * rewrite lookup_insert_ne in Ha by done. rewrite lookup_insert_ne in Hv by done. by exists a, v.
Qed.

Lemma DeadServer_sim sg g addr :
  sg_rep sg g →
  ∃ sg', DeadServer sg addr =
      Ret (sg', if decide (is_Some (g !! addr)) then None else Some errUnknown) ∧
    sg_rep sg' (spec_DeadServer g addr) ∧
    numChunks sg' = numChunks sg ∧ redundancy sg' = redundancy sg.
Proof.
  intros Hr. unfold spec_DeadServer, DeadServer, dropHolder.
  destruct (servers sg !! addr) as [p|] eqn:Hp; cycle 1.
  { rewrite (sr_unknown _ _ Hr _ Hp). exists sg. rewrite decide_False; [done|]. by intros []. }
  destruct (sg_known sg g addr p Hr Hp) as (s & -> & Hphy & Hg).
  rewrite decide_True by (rewrite Hg; eauto). rewrite Hg. bsimpl.
  destruct (forgetChunks_ok [] p (heldChunks s) (chunks sg) _ (sr_table _ _ Hr))
    as (cs1 & -> & Hl1 & Ht1); [eapply range_table; [done|]; exact (sr_range _ _ Hr _ _ Hg)|]. bsimpl.
  eexists. split_and!; [done| |done|done].
  apply (sg_rep_update sg g Hr addr p Hp (freeConn (set_heard s [] true (lastHeartbeat s))));
    [done|congruence|constructor|].
  eapply table_ext; [exact Ht1|]. intros i q. cbn. case_decide as Eq; [subst q|naive_solver].
  rewrite (holder_self sg g Hr addr p Hp (info s)) by done. cbn.
  unfold holds at 3 4. cbn. rewrite elem_of_nil. naive_solver.
Qed.

Lemma RemoveServer_sim sg g addr :
  sg_rep sg g →
  ∃ sg', RemoveServer sg addr =
      Ret (sg', if decide (is_Some (g !! addr)) then None else Some errUnknown) ∧
    sg_rep sg' (delete addr g) ∧
    numChunks sg' = numChunks sg ∧ redundancy sg' = redundancy sg.
Proof.
  intros Hr. unfold RemoveServer, dropHolder.
  destruct (servers sg !! addr) as [p|] eqn:Hp; cycle 1.
  { pose proof (sr_unknown _ _ Hr _ Hp) as Hn. exists sg. rewrite delete_id, decide_False by
      (done || rewrite Hn; by intros []). done. }
  destruct (sg_known sg g addr p Hr Hp) as (s & -> & Hphy & Hg).
  rewrite decide_True by (rewrite Hg; eauto). bsimpl.
  destruct (forgetChunks_ok [] p (heldChunks s) (chunks sg) _ (sr_table _ _ Hr))
    as (cs1 & -> & Hl1 & Ht1); [eapply range_table; [done|]; exact (sr_range _ _ Hr _ _ Hg)|]. bsimpl.
  eexists. split_and!; [done| |done|done].
  split; cbn [chunks servers mem numChunks set_server set_mem set_servers set_chunks].
  - rewrite Hl1. apply Hr.
  - intros a q [Hne Hq]%lookup_delete_Some. destruct (sr_known _ _ Hr _ _ Hq) as (s' & Hs & Ha & Hv).
    exists s'. rewrite lookup_delete_ne by done. rewrite lookup_insert_ne; [done|].
    intros <-. by destruct Hne, (sg_inj _ _ _ _ _ Hr Hq Hp).
  - intros a. rewrite !lookup_delete_None. intros [|Ha]; [by left|right]. by apply (sr_unknown _ _ Hr).
  - intros a v [_ Hv]%lookup_delete_Some. by eapply (sr_range _ _ Hr).
  - eapply table_ext; [exact Ht1|]. intros i q. cbn beta. split.
    + intros [(a & v & Ha & Hv & Hh) Hn]. exists a, v. rewrite !lookup_delete_Some.
      assert (addr ≠ a); [|done]. intros <-. apply Hn. rewrite Hp in Ha. injection Ha as <-.
      split_and!; [done| |]; [rewrite Hg in Hv; by injection Hv as <-|].
      unfold holds. cbn. apply not_elem_of_nil.
    + intros (a & v & [Hne Ha]%lookup_delete_Some & [_ Hv]%lookup_delete_Some & Hh).
      split; [by exists a, v|]. intros (-> & _). by destruct Hne, (sg_inj _ _ _ _ _ Hr Ha Hp).
Qed.

(** ** The getters *)

Lemma elem_of_holdersOf g i a :
  a ∈ holdersOf g i ↔ ∃ v, g !! a = Some v ∧ holds (v_held v) i.
Proof.
  unfold holdersOf. rewrite elem_of_dom. unfold is_Some. setoid_rewrite map_lookup_filter_Some.
  naive_solver.
Qed.

(** The address behind a pointer. *)
Definition addrOf (sg : ServerGroup) (p : sptr) : addr_t :=
  match mem sg !! p with Some s => Phy s | None => [] end.

Section getters.
Context (sg : ServerGroup) (g : group) (Hr : sg_rep sg g).

Lemma addrOf_server addr p : servers sg !! addr = Some p → addrOf sg p = addr.
Proof using Hr.
  intros Hp. destruct (sr_known _ _ Hr _ _ Hp) as (s & Hs & Ha & _). unfold addrOf. by rewrite Hs.
Qed.

(** The holders of a chunk, in the order of the table. *)
Lemma chunk_holders i :
  0 ≤ i < numChunks sg →
  ∃ c, index (chunks sg) i = Ret c ∧ NoDup (map (addrOf sg) (holders c)) ∧
    (∀ a, a ∈ map (addrOf sg) (holders c) ↔ a ∈ holdersOf g i) ∧
    Forall (λ p, ∃ v s, g !! addrOf sg p = Some v ∧ deref sg p = Ret s ∧ info s = v ∧
                        holds (v_held v) i) (holders c).
Proof using Hr.
  intros Hi. destruct (in_table_index (chunks sg) i) as (c & Hix & Hc).
  { unfold in_table. by rewrite (sr_length _ _ Hr). }
  destruct (sr_table _ _ Hr i c (proj1 Hi) Hc) as (_ & Hnd & Hmem). exists c.
  assert (∀ p, p ∈ holders c → ∃ a v, a = addrOf sg p ∧ servers sg !! a = Some p ∧
                g !! a = Some v ∧ holds (v_held v) i) as Hown.
  { intros p (a & v & Ha & Hv & Hh)%Hmem. exists a, v. by rewrite (addrOf_server a p). }
  split_and!; [done| | |].
  - apply NoDup_fmap_2_strong; [|done]. intros p q Hp Hq E.
    destruct (Hown p Hp) as (a & _ & -> & Ha & _). destruct (Hown q Hq) as (b & _ & -> & Hb & _).
    rewrite E in Ha. congruence.
  - intros a. rewrite elem_of_holdersOf, list_elem_of_fmap. split.
    + intros (p & -> & Hp). destruct (Hown p Hp) as (a & v & -> & _ & Hv & Hh). by exists v.
    + intros (v & Hv & Hh). destruct (servers sg !! a) as [p|] eqn:Hp.
      * exists p. split; [symmetry; by apply addrOf_server|]. apply Hmem. by exists a, v.
      * rewrite (sr_unknown _ _ Hr _ Hp) in Hv. done.
  - apply Forall_forall. intros p Hp. destruct (Hown p Hp) as (a & v & -> & Ha & Hv & Hh).
    destruct (sg_known sg g _ p Hr Ha) as (s & Hs & _ & Hg). exists v, s.
    split_and!; try done. congruence.
Qed.

Lemma NumHolders_sim i :
  0 ≤ i < numChunks sg → NumHolders sg i = Ret (Z.of_nat (size (holdersOf g i))).
Proof using Hr.
  intros Hi. destruct (chunk_holders i Hi) as (c & Hix & Hnd & Hmem & _).
  unfold NumHolders, zlen. rewrite Hix. bsimpl. f_equal. f_equal.
  rewrite <- (length_map (addrOf sg)). rewrite <- (size_list_to_set (C := gset addr_t) _ Hnd).
  f_equal. apply leibniz_equiv. intros a. by rewrite elem_of_list_to_set.
Qed.

(** The checksum that [a] announced for chunk [i]. *)
Definition sumOf (g : group) (i : Z) (a : addr_t) : option Z :=
  v ← g !! a; c ← List.find (λ c, aID c =? i) (v_held v); Some (aChecksum c).

Definition synched (g : group) (i : Z) : Prop :=
  set_Forall (λ a, set_Forall (λ b, sumOf g i a = sumOf g i b) (holdersOf g i)) (holdersOf g i).

Lemma find_holds l i : holds l i → ∃ c, List.find (λ c, aID c =? i) l = Some c.
Proof.
  intros Hh. destruct (List.find (λ c, aID c =? i) l) as [c|] eqn:E; [by exists c|].
  unfold holds in Hh. apply list_elem_of_fmap in Hh as (c & -> & Hc%list_elem_of_In).
  apply (List.find_none _ _ E) in Hc. by rewrite Z.eqb_refl in Hc.
Qed.

Lemma holderSum_sim i p v s :
  g !! addrOf sg p = Some v → deref sg p = Ret s → info s = v → holds (v_held v) i →
  ∃ x, holderSum sg i p = Ret x ∧ sumOf g i (addrOf sg p) = Some x.
Proof.
  intros Hv Hs <- Hh. unfold holderSum, sumOf, getChunk. rewrite Hs, Hv. bsimpl. cbn.
  destruct (find_holds _ _ Hh) as [c Hc]. cbn in Hc. rewrite Hc. by exists (aChecksum c).
Qed.

Lemma sameSums_sim i x ps :
  Forall (λ p, ∃ v s, g !! addrOf sg p = Some v ∧ deref sg p = Ret s ∧ info s = v ∧
                      holds (v_held v) i) ps →
  sameSums sg i x ps = Ret (bool_decide (Forall (λ a, sumOf g i a = Some x) (map (addrOf sg) ps))).
Proof.
  induction 1 as [|p ps (v & s & Hv & Hs & Hi & Hh) _ IH]; cbn [sameSums map]; [done|].
  destruct (holderSum_sim i p v s Hv Hs Hi Hh) as (y & -> & Hy). bsimpl.
  destruct (Z.eqb_spec x y) as [->|Hne].
  - rewrite IH. f_equal. apply bool_decide_ext. rewrite Forall_cons. naive_solver.
  - rewrite bool_decide_false; [done|]. rewrite Forall_cons. intros [E _]. congruence.
Qed.

Lemma IsSynched_sim i :
  0 ≤ i < numChunks sg → IsSynched sg i = Ret (bool_decide (synched g i)).
Proof using Hr.
  intros Hi. destruct (chunk_holders i Hi) as (c & Hix & Hnd & Hmem & HF).
  unfold IsSynched. rewrite Hix. bsimpl.
  assert (synched g i ↔ ∀ a b, a ∈ map (addrOf sg) (holders c) → b ∈ map (addrOf sg) (holders c) →
    sumOf g i a = sumOf g i b) as Hsy.
  { unfold synched, set_Forall. split; intros H a.
    - intros b Ha%Hmem Hb%Hmem. by apply H.
    - intros Ha%Hmem b Hb%Hmem. by apply H. }
  destruct (holders c) as [|p [|q ps]] eqn:Eh.
  - rewrite bool_decide_true; [done|]. apply Hsy. by intros a b ?%not_elem_of_nil.
  - rewrite bool_decide_true; [done|]. apply Hsy. cbn.
    by intros a b ->%list_elem_of_singleton ->%list_elem_of_singleton.
  - rewrite !zlen_cons. destruct (Z.ltb_spec (1 + (1 + zlen ps)) 2); [zl|].
    apply Forall_cons in HF as [(v & s & Hv & Hs & Hin & Hh) HF].
    destruct (holderSum_sim i p v s Hv Hs Hin Hh) as (x & -> & Hx). bsimpl.
    rewrite sameSums_sim by done. f_equal. apply bool_decide_ext. rewrite Hsy, Forall_forall.
    cbn [map]. split.
    + intros H' a b Ha Hb.
      assert (∀ a, a ∈ addrOf sg p :: map (addrOf sg) (q :: ps) → sumOf g i a = Some x) as Hall.
      { intros a' [->|Ha']%elem_of_cons; [done|]. by apply H'. }
      cbn [map] in Hall. by rewrite (Hall a Ha), (Hall b Hb).
    + intros H' a Ha. rewrite <- Hx. apply H'; [by right|by left].
Qed.

Lemma known_iff addr : is_Some (servers sg !! addr) ↔ is_Some (g !! addr).
Proof using Hr.
  destruct (servers sg !! addr) as [p|] eqn:E.
  - destruct (sr_known _ _ Hr _ _ E) as (s & _ & _ & ->). split; eauto.
  - rewrite (sr_unknown _ _ Hr _ E). by split; intros [].
Qed.

Lemma IsServerOnGroup_sim addr : IsServerOnGroup sg addr = bool_decide (is_Some (g !! addr)).
Proof using Hr. apply bool_decide_ext, known_iff. Qed.

Lemma dom_servers : dom (servers sg) = dom g.
Proof using Hr. apply leibniz_equiv. intros a. rewrite !elem_of_dom. apply known_iff. Qed.

Lemma NumServers_sim : NumServers sg = Z.of_nat (size g).
Proof using Hr. unfold NumServers. by rewrite <- !(size_dom (D := gset addr_t)), dom_servers. Qed.

(** [UnSynchedChunks] lists, in order, the chunks whose holders disagree. *)
Lemma unSynched_sim n : ∀ i,
  0 ≤ i → i + Z.of_nat n ≤ numChunks sg →
  unSynched sg i n = Ret (filter (λ k, ¬ synched g k) (map (λ k, i + Z.of_nat k) (seq 0 n))).
Proof using Hr.
  induction n as [|n IH]; intros i H0 Hn; [done|]. cbn [unSynched].
  rewrite IsSynched_sim by lia. bsimpl. rewrite IH by lia. bsimpl. cbn [seq map].
  rewrite filter_cons, Z.add_0_r. rewrite <- seq_shift, map_map.
  assert (map (λ x, i + Z.of_nat (S x)) (seq 0 n) = map (λ k, i + 1 + Z.of_nat k) (seq 0 n)) as ->.
  { apply map_ext. intros k. lia. }
  case_bool_decide; case_decide; done.
Qed.
End getters.

(** ** Histories of a group *)

Inductive gop :=
| GSet (addr : addr_t) (cids : list AmAliveChunk) (now : time)
| GAlive (addr : addr_t) (now : time)
| GAdd (addr : addr_t)
| GRemove (addr : addr_t)
| GDead (addr : addr_t).

Definition gop_run (sg : ServerGroup) (o : gop) : outcome (ServerGroup * option error) :=
  match o with
  | GSet addr cids now => sg' ← SetServerChunks sg addr cids now; Ret (sg', None)
  | GAlive addr now => sg' ← ServerAlive sg addr now; Ret (sg', None)
  | GAdd addr =>
      let r := AddServerToGroup sg addr in
      Ret (r.1, match r.2 with inl e => Some e | inr _ => None end)
  | GRemove addr => RemoveServer sg addr
  | GDead addr => DeadServer sg addr
  end.

Fixpoint gop_runs (sg : ServerGroup) (os : list gop) : outcome (ServerGroup * list (option error)) :=
  match os with
  | [] => Ret (sg, [])
  | o :: os => r ← gop_run sg o; rs ← gop_runs r.1 os; Ret (rs.1, r.2 :: rs.2)
  end.

Definition spec_known (g : group) (addr : addr_t) (e : error) : option error :=
  if decide (is_Some (g !! addr)) then None else Some e.

Definition spec_gop (n : Z) (g : group) (o : gop) : outcome (group * option error) :=
  match o with
  | GSet addr cids now => g' ← spec_SetServerChunks n g addr cids now; Ret (g', None)
  | GAlive addr now => Ret (spec_ServerAlive g addr now, None)
  | GAdd addr =>
      Ret (spec_AddServer g addr, if decide (is_Some (g !! addr)) then Some errKnown else None)
  | GRemove addr => Ret (delete addr g, spec_known g addr errUnknown)
  | GDead addr => Ret (spec_DeadServer g addr, spec_known g addr errUnknown)
  end.

Fixpoint spec_gops (n : Z) (g : group) (os : list gop) : outcome (group * list (option error)) :=
  match os with
  | [] => Ret (g, [])
  | o :: os => r ← spec_gop n g o; rs ← spec_gops n r.1 os; Ret (rs.1, r.2 :: rs.2)
  end.

Lemma AddServer_reply sg g addr :
  sg_rep sg g →
  match (AddServerToGroup sg addr).2 with inl e => Some e | inr _ => None end =
  if decide (is_Some (g !! addr)) then Some errKnown else None.
Proof.
  intros Hr. unfold AddServerToGroup. pose proof (known_iff sg g Hr addr) as Hk.
  destruct (servers sg !! addr); cbn.
  - rewrite decide_True; [done|]. apply Hk. eauto.
  - rewrite decide_False; [done|]. intros [? [=]]%Hk.
Qed.

Lemma AddServer_config sg addr :
  numChunks (AddServerToGroup sg addr).1 = numChunks sg ∧
  redundancy (AddServerToGroup sg addr).1 = redundancy sg.
Proof. unfold AddServerToGroup. by destruct (servers sg !! addr). Qed.

(** Each operation does what the specification says, and keeps the
    configuration. *)
Lemma gop_sim sg g o :
  sg_rep sg g →
  match spec_gop (numChunks sg) g o with
  | Ret (g', e) => ∃ sg', gop_run sg o = Ret (sg', e) ∧ sg_rep sg' g' ∧
      numChunks sg' = numChunks sg ∧ redundancy sg' = redundancy sg
  | _ => gop_run sg o = Panic
  end.
Proof.
  intros Hr. destruct o as [addr cids now|addr now|addr|addr|addr]; cbn [gop_run spec_gop].
  - pose proof (SetServerChunks_sim sg g addr cids now Hr) as H.
    destruct (spec_SetServerChunks _ _ _ _ _) as [g'| |]; bsimpl; [|by rewrite H..].
    destruct H as (sg' & -> & H). by exists sg'.
  - destruct (ServerAlive_sim sg g addr now Hr) as (sg' & -> & H). by exists sg'.
  - eexists. rewrite (AddServer_reply sg g addr Hr). split; [done|].
    split; [by apply AddServer_sim|apply AddServer_config].
  - destruct (RemoveServer_sim sg g addr Hr) as (sg' & -> & H). by exists sg'.
  - destruct (DeadServer_sim sg g addr Hr) as (sg' & -> & H). by exists sg'.
Qed.

Lemma gops_sim os : ∀ sg g,
  sg_rep sg g →
  match spec_gops (numChunks sg) g os with
  | Ret (g', es) => ∃ sg', gop_runs sg os = Ret (sg', es) ∧ sg_rep sg' g' ∧
      numChunks sg' = numChunks sg ∧ redundancy sg' = redundancy sg
  | _ => gop_runs sg os = Panic
  end.
Proof.
  induction os as [|o os IH]; intros sg g Hr; cbn [gop_runs spec_gops]; [by exists sg|].
  pose proof (gop_sim sg g o Hr) as H.
  destruct (spec_gop _ _ _) as [[g1 e]| |]; bsimpl; [|by rewrite H..].
  destruct H as (sg1 & -> & Hr1 & Hn1 & Hd1). bsimpl. cbn [fst].
  specialize (IH sg1 g1 Hr1). rewrite Hn1 in IH.
  destruct (spec_gops _ _ _) as [[g2 es]| |]; bsimpl; [|by rewrite IH..].
  destruct IH as (sg2 & -> & Hr2 & Hn2 & Hd2). bsimpl. exists sg2. split_and!; [done|done|congruence..].
Qed.

Lemma newChunks_ok n :
  0 ≤ n → ∃ cs, newChunks n = Ret cs ∧ zlen cs = n ∧ table cs (λ _ _, False).
Proof.
  intros Hn. unfold newChunks. rewrite check_true by (apply Z.leb_le; lia). bsimpl.
  eexists. split_and!; [done| |].
  - unfold zlen. rewrite length_map, length_seq. lia.
  - intros i c Hi. rewrite list_lookup_fmap_Some. intros (k & -> & Hk).
    apply lookup_seq in Hk as [-> _]. cbn. split_and!; [lia|constructor|].
    intros p. by rewrite elem_of_nil.
Qed.

Lemma Create_rep n r lh :
  0 ≤ n → ∃ sg, CreateServerGroup n r lh = Ret sg ∧ sg_rep sg ∅ ∧ numChunks sg = n ∧ redundancy sg = r.
Proof.
  intros Hn. unfold CreateServerGroup. destruct (newChunks_ok n Hn) as (cs & -> & Hl & Ht). bsimpl.
  eexists. split_and!; [done| |done|done]. split; cbn.
  - done.
  - by intros addr p ?%lookup_empty_Some.
  - done.
  - by intros addr v ?%lookup_empty_Some.
  - eapply table_ext; [exact Ht|]. intros i p. split; [done|]. intros (a & v & Ha & _).
    by apply lookup_empty_Some in Ha.
Qed.

(** What a group answers when its servers announced [g]. *)
Record sg_answers (sg : ServerGroup) (g : group) : Prop := SgAnswers {
  sa_known : ∀ addr, IsServerOnGroup sg addr = bool_decide (is_Some (g !! addr));
  sa_servers : NumServers sg = Z.of_nat (size g);
  sa_holders : ∀ i, 0 ≤ i < numChunks sg → NumHolders sg i = Ret (Z.of_nat (size (holdersOf g i)));
  sa_synched : ∀ i, 0 ≤ i < numChunks sg → IsSynched sg i = Ret (bool_decide (synched g i));
  sa_unsynched : UnSynchedChunks sg =
    Ret (filter (λ i, ¬ synched g i) (map Z.of_nat (seq 0 (Z.to_nat (numChunks sg)))))
}.

Lemma sg_rep_answers sg g : sg_rep sg g → 0 ≤ numChunks sg → sg_answers sg g.
Proof.
  intros Hr H0. split.
  - by apply IsServerOnGroup_sim.
  - by apply NumServers_sim.
  - by apply NumHolders_sim.
  - by apply IsSynched_sim.
  - unfold UnSynchedChunks. pose proof (sr_length _ _ Hr) as Hl. unfold zlen in Hl.
    rewrite (unSynched_sim sg g Hr) by lia. replace (Z.to_nat (numChunks sg)) with (length (chunks sg)) by lia.
    done.
Qed.

(** C6. A server group refines the map from known servers to what they
    announced last: from its creation, through any sequence of announcements,
    heartbeats, additions, removals and deaths, it returns the specified errors,
    panics exactly when an announcement names a chunk out of range, and then
    answers how many servers hold a chunk and whether the holders agree on its
    checksum as the map says. *)
Theorem group_refines n r lh os :
  0 ≤ n →
  match spec_gops n ∅ os with
  | Ret (g, es) => ∃ sg, (sg0 ← CreateServerGroup n r lh; gop_runs sg0 os) = Ret (sg, es) ∧
      sg_answers sg g ∧ numChunks sg = n ∧ redundancy sg = r
  | _ => (sg0 ← CreateServerGroup n r lh; gop_runs sg0 os) = Panic
  end.
Proof.
  intros Hn. destruct (Create_rep n r lh Hn) as (sg0 & -> & Hr & Hnum & Hred). bsimpl.
  pose proof (gops_sim os sg0 ∅ Hr) as H. rewrite Hnum in H.
  destruct (spec_gops n ∅ os) as [[g es]| |]; [|done..].
  destruct H as (sg & -> & Hr' & Hn' & Hd'). exists sg.
  split_and!; [done| |congruence..]. apply sg_rep_answers; [done|]. lia.
Qed.

Definition sample_ops : list gop :=
  [GAdd (str "a:1"); GAdd (str "b:1"); GAdd (str "a:1"); GSet (str "a:1") [AAChunk 0 7; AAChunk 1 9] 5;
   GSet (str "b:1") [AAChunk 1 8] 6; GSet (str "c:1") [AAChunk 0 1] 6; GDead (str "c:1")].

Lemma group_refines_witness :
  ∃ sg, (sg0 ← CreateServerGroup 2 1 (str "a:1"); gop_runs sg0 sample_ops) =
      Ret (sg, [None; None; Some errKnown; None; None; None; Some errUnknown]) ∧
    NumServers sg = 2 ∧ NumHolders sg 1 = Ret 2 ∧ UnSynchedChunks sg = Ret [1].
Proof.
  pose proof (group_refines 2 1 (str "a:1") sample_ops ltac:(lia)) as H.
  destruct (spec_gops 2 ∅ sample_ops) as [[g es]| |] eqn:Eg; [|discriminate Eg..].
  assert (es = [None; None; Some errKnown; None; None; None; Some errUnknown]) as -> by
    (apply (f_equal (λ r, match r with Ret (_, es) => es | _ => [] end)) in Eg;
     rewrite <- Eg; vm_compute; reflexivity).
  assert (g = match spec_gops 2 ∅ sample_ops with Ret (g, _) => g | _ => ∅ end) as Hg by (by rewrite Eg).
  clear Eg.
  destruct H as (sg & E & [_ Hs Hh _ Hu] & Hn & _). exists sg. split; [exact E|].
  rewrite Hs, Hh, Hu by (rewrite Hn; lia). rewrite Hn, Hg.
  split_and!; vm_compute; reflexivity.
Defined.

(** ** What a new member learns

    [GetConf] hands out the configuration and the addresses. *)
Lemma allocServers_spec l : ∀ p,
  NoDup l.*1 →
  let r := allocServers l p in
  (∀ q s, r.2 !! q = Some s → p ≤ q) ∧
  (∀ addr q, r.1 !! addr = Some q → p ≤ q ∧ ∃ phy, (addr, phy) ∈ l ∧
     r.2 !! q = Some (mkServer phy zero_time false [] false false)) ∧
  dom r.1 = list_to_set l.*1.
Proof.
  induction l as [|[addr phy] l IH]; intros p Hnd; cbn [allocServers].
  - cbn. split_and!; [by intros ?? ?%lookup_empty_Some|by intros ?? ?%lookup_empty_Some|].
    apply dom_empty_L.
  - apply NoDup_cons in Hnd as [Hn Hnd]. destruct (IH (p + 1) Hnd) as (Hheap & Hptr & Hdom).
    split_and!; cbn [fst snd].
    + intros q s [[<- _]|[_ Hq]]%lookup_insert_Some; [lia|]. apply Hheap in Hq. lia.
    + intros a q [[<- <-]|[_ Hq]]%lookup_insert_Some.
      * split; [lia|]. exists phy. rewrite lookup_insert_eq. split; [by left|done].
      * destruct (Hptr a q Hq) as (Hle & y & Hin & Hy). split; [lia|]. exists y. split; [by right|].
        rewrite lookup_insert_ne by lia. done.
    + rewrite dom_insert_L, Hdom. done.
Qed.

Lemma Marshal_servers sg g addr :
  sg_rep sg g → ss_servers (Marshal sg) !! addr = (λ _, addr) <$> g !! addr.
Proof.
  intros Hr. cbn. rewrite lookup_omap. destruct (servers sg !! addr) as [p|] eqn:Hp; cbn.
  - destruct (sr_known _ _ Hr _ _ Hp) as (s & -> & <- & ->). done.
  - by rewrite (sr_unknown _ _ Hr _ Hp).
Qed.

(** A group decoded from [Marshal] has the same configuration and knows the
    same servers, none of which has announced a chunk yet. *)
Lemma Unmarshal_rep sg g :
  sg_rep sg g → 0 ≤ numChunks sg →
  ∃ sg', UnmarhalServerGroup (Marshal sg) = Ret sg' ∧
    sg_rep sg' ((λ _, VInfo [] false zero_time) <$> g) ∧
    numChunks sg' = numChunks sg ∧ redundancy sg' = redundancy sg.
Proof.
  intros Hr H0. unfold UnmarhalServerGroup.
  pose proof (allocServers_spec (map_to_list (ss_servers (Marshal sg))) 0 (NoDup_fst_map_to_list _)) as Ha.
  destruct (newChunks_ok (numChunks sg) H0) as (cs & Ecs & Hl & Ht).
  set (r := allocServers _ 0) in *. destruct Ha as (Hheap & Hptr & Hdom).
  change (ss_numChunks (Marshal sg)) with (numChunks sg). rewrite Ecs. bsimpl.
  eexists. split_and!; [done| |done|done].
  assert (∀ addr, is_Some (r.1 !! addr) ↔ is_Some (g !! addr)) as Hk.
  { intros addr. rewrite <- elem_of_dom, Hdom, elem_of_list_to_set.
    rewrite list_elem_of_fmap. split.
    - intros ([a b] & -> & Hin%elem_of_map_to_list). rewrite (Marshal_servers sg g) in Hin by done.
      cbn. destruct (g !! a); [by eauto|done].
    - intros [v Hv]. exists (addr, addr). split; [done|]. apply elem_of_map_to_list.
      rewrite (Marshal_servers sg g), Hv by done. done. }
  split; cbn [chunks servers mem numChunks].
  - done.
  - intros addr q Hq. destruct (Hptr addr q Hq) as (_ & phy & Hin & Hs).
    apply elem_of_map_to_list in Hin. rewrite (Marshal_servers sg g) in Hin by done.
    eexists. split; [exact Hs|]. rewrite lookup_fmap. destruct (g !! addr); [|done].
    by injection Hin as <-.
  - intros addr Hn. rewrite lookup_fmap. destruct (g !! addr) eqn:E; [|done].
    destruct (proj2 (Hk addr)) as [? H]; [eauto|]. congruence.
  - intros addr v. rewrite lookup_fmap_Some. intros (x & <- & _). constructor.
  - eapply table_ext; [exact Ht|]. intros i p. split; [done|]. intros (a & v & _ & Hv & Hh).
    apply lookup_fmap_Some in Hv as (x & <- & _). by apply not_elem_of_nil in Hh.
Qed.

(** [GetChunkHolders] returns the holders, but panics on a chunk with more than
    eight. *)
Lemma GetChunkHolders_sim sg g i :
  sg_rep sg g → 0 ≤ i < numChunks sg →
  if decide (size (holdersOf g i) ≤ 8)%nat then
    ∃ ps, GetChunkHolders sg i = Ret (map Some ps ++ replicate (8 - length ps) None) ∧
      NoDup (map (addrOf sg) ps) ∧ (∀ a, a ∈ map (addrOf sg) ps ↔ a ∈ holdersOf g i) ∧
      (length ps ≤ 8)%nat
  else GetChunkHolders sg i = Panic.
Proof.
  intros Hr Hi. destruct (chunk_holders sg g Hr i Hi) as (c & Hix & Hnd & Hmem & _).
  pose proof (NumHolders_sim sg g Hr i Hi) as Hnum. unfold NumHolders in Hnum. rewrite Hix in Hnum.
  assert (zlen (holders c) = Z.of_nat (size (holdersOf g i))) as Hz by (by injection Hnum).
  clear Hnum. rename Hz into Hnum.
  unfold GetChunkHolders. rewrite Hix. bsimpl. case_decide as E.
  - rewrite check_true by (apply Z.leb_le; lia). bsimpl. exists (holders c). split_and!; try done.
    unfold zlen in Hnum. lia.
  - destruct (Z.leb_spec (zlen (holders c)) 8); [lia|]. done.
Qed.

(** The operations do not change the address of the group's own server. *)
Lemma local_fixed sg o sg' e :
  gop_run sg o = Ret (sg', e) → LocalhostIPPort sg' = LocalhostIPPort sg.
Proof.
  destruct o as [addr cids now|addr now|addr|addr|addr]; cbn [gop_run];
    unfold SetServerChunks, ServerAlive, AddServerToGroup, RemoveServer, DeadServer;
    destruct (servers sg !! addr) as [p|]; cbn; try (intros [= <- <-]; done).
  all: destruct (deref sg p) as [s| |]; cbn; try done.
  - destruct (forgetChunks _ _ _ _) as [cs| |]; cbn; try done.
    destruct (addChunks _ _ _) as [cs'| |]; cbn; try done. by intros [= <- <-].
  - by intros [= <- <-].
  - destruct (dropHolder _ _ _) as [cs| |]; cbn; try done. by intros [= <- <-].
  - destruct (dropHolder _ _ _) as [cs| |]; cbn; try done. by intros [= <- <-].
Qed.

Lemma GetServerChunks_sim sg g addr :
  sg_rep sg g → GetServerChunks sg addr = Ret (default [] (v_held <$> g !! addr)).
Proof.
  intros Hr. unfold GetServerChunks. destruct (servers sg !! addr) as [p|] eqn:Hp.
  - destruct (sg_known sg g addr p Hr Hp) as (s & -> & _ & ->). done.
  - by rewrite (sr_unknown _ _ Hr _ Hp).
Qed.

(** ** Pointers *)

(** The servers at some pointers, with their addresses. *)
Definition located (sg : ServerGroup) (ps : list sptr) (addrs : list addr_t) : Prop :=
  Forall2 (λ p a, ∃ s, mem sg !! p = Some s ∧ Phy s = a) ps addrs.

(** The servers of a group, with their addresses. *)
Lemma Servers_located sg g :
  sg_rep sg g → located sg (Servers sg) (map_to_list (servers sg)).*1 ∧ NoDup (map_to_list (servers sg)).*1 ∧
    ∀ a, a ∈ (map_to_list (servers sg)).*1 ↔ is_Some (g !! a).
Proof.
  intros Hr. split_and!; [|apply NoDup_fst_map_to_list|].
  - unfold located, Servers. apply Forall2_fmap_l, Forall2_fmap_r, Forall_Forall2_diag, Forall_forall.
    intros [a p] Hin%elem_of_map_to_list. destruct (sr_known _ _ Hr _ _ Hin) as (s & Hs & Ha & _). by exists s.
  - intros a. rewrite <- (known_iff sg g Hr), list_elem_of_fmap. split.
    + intros ([b p] & -> & Hin%elem_of_map_to_list). by eexists.
    + intros [p Hp]. exists (a, p). split; [done|by apply elem_of_map_to_list].
Qed.
(** The servers keep their addresses. *)
Definition keeps_ptrs (sg sg' : ServerGroup) : Prop :=
  ∀ p s, mem sg !! p = Some s → ∃ s', mem sg' !! p = Some s' ∧ Phy s' = Phy s.

#[export] Instance keeps_ptrs_preorder : PreOrder keeps_ptrs.
Proof.
  split; [intros sg p s Hs; by exists s|]. intros sg1 sg2 sg3 H12 H23 p s Hs.
  destruct (H12 p s Hs) as (s' & Hs' & E). destruct (H23 p s' Hs') as (s'' & Hs'' & E').
  exists s''. split; [done|congruence].
Qed.

Lemma located_keeps sg sg' ps addrs : keeps_ptrs sg sg' → located sg ps addrs → located sg' ps addrs.
Proof.
  intros Hk Hl. eapply Forall2_impl; [exact Hl|]. intros p a (s & Hp & <-). apply (Hk p s Hp).
Qed.

Lemma keeps_set_server sg sg' p s s' :
  mem sg' = mem sg → mem sg !! p = Some s → Phy s' = Phy s → keeps_ptrs sg (set_server sg' p s').
Proof.
  intros Hm Hp E q x Hq. cbn. rewrite Hm. destruct (decide (p = q)) as [->|Hne].
  - exists s'. rewrite lookup_insert_eq. split; [done|congruence].
  - rewrite lookup_insert_ne by done. eauto.
Qed.

Lemma gop_keeps sg o sg' e : gop_run sg o = Ret (sg', e) → keeps_ptrs sg sg'.
Proof.
  assert (∀ p s, deref sg p = Ret s → mem sg !! p = Some s) as Hderef.
  { intros p s. unfold deref. destruct (mem sg !! p); cbn; by intros [= ->]. }
  destruct o as [addr cids now|addr now|addr|addr|addr]; cbn [gop_run];
    unfold SetServerChunks, ServerAlive, AddServerToGroup, RemoveServer, DeadServer;
    destruct (servers sg !! addr) as [p|]; cbn; try (intros [= <- <-]; done).
  all: try (destruct (deref sg p) as [s| |] eqn:Hp; cbn; try done; apply Hderef in Hp).
  - destruct (forgetChunks _ _ _ _) as [cs| |]; cbn; try done.
    destruct (addChunks _ _ _) as [cs'| |]; cbn; try done. intros [= <- <-]. by eapply keeps_set_server.
  - intros [= <- <-]. by eapply keeps_set_server.
  - intros [= <- <-] q x Hq. cbn. exists x. split; [|done]. rewrite lookup_insert_ne; [done|].
    intros Hf. apply (is_fresh (dom (mem sg))). rewrite Hf. by apply elem_of_dom_2 in Hq.
  - destruct (dropHolder _ _ _) as [cs| |]; cbn; try done. intros [= <- <-]. by eapply keeps_set_server.
  - destruct (dropHolder _ _ _) as [cs| |]; cbn; try done. intros [= <- <-]. by eapply keeps_set_server.
Qed.

(** A group of one server. *)
Lemma spec_one n addr cids now :
  Forall (in_range n) cids →
  spec_gops n ∅ [GAdd addr; GSet addr cids now] = Ret ({[addr := VInfo cids false now]}, [None; None]).
Proof.
  intros Hin. cbn [spec_gops spec_gop]. unfold spec_AddServer, spec_SetServerChunks.
  rewrite lookup_empty, decide_False by (by intros []). bsimpl.
  rewrite lookup_insert_eq, decide_True by done. bsimpl. by rewrite insert_insert_eq.
Qed.

Lemma holdersOf_one addr v i : holds (v_held v) i → holdersOf {[addr := v]} i = {[addr]}.
Proof.
  intros Hh. apply leibniz_equiv. intros a. rewrite elem_of_holdersOf, elem_of_singleton. split.
  - by intros (x & [<- _]%lookup_singleton_Some & _).
  - intros ->. exists v. by rewrite lookup_singleton_eq.
Qed.
