(* ===== verification/GroupString.v ===== *)
(** * The text of a server group ([src/dist/servergroup/servergroup.go], [String])

    The monitor shows this text: the servers in the order of their addresses,
    with the chunks they announced and the time since their last heartbeat, and
    for each chunk its holders in order.  [String] walks over a Go map and over
    tables whose order depends on the history of the group. *)
From Stdlib Require Import Ascii.
From stdpp Require Import sorting pretty.
From S2P Require Import Prelude.
From S2P Require Import Decimal.
From S2P Require Import UdpHeartbeat.
From S2P Require Import ServerGroup.
From S2P Require Import ServerGroupSpec.

(** ** [sort.Strings] *)

(** The comparison [<=] of strings, byte by byte. *)
Fixpoint stringLeb (a b : list byte) : bool :=
  match a, b with
  | [], _ => true
  | _ :: _, [] => false
  | x :: a, y :: b =>
      if byte_to_Z x <? byte_to_Z y then true
      else if byte_to_Z y <? byte_to_Z x then false
      else stringLeb a b
  end.

Definition stringLe (a b : list byte) : Prop := Is_true (stringLeb a b).

#[export] Instance stringLe_dec : RelDecision stringLe.
Proof. intros a b. unfold stringLe. apply _. Defined.

Definition sortStrings (l : list (list byte)) : list (list byte) := merge_sort stringLe l.

(** Case analysis on the first bytes. *)
Ltac bytes_case :=
  repeat match goal with |- context [byte_to_Z ?x <? byte_to_Z ?y] => destruct (Z.ltb_spec (byte_to_Z x) (byte_to_Z y)) end;
  try (done || lia).

#[export] Instance stringLe_total : Total stringLe.
Proof.
  unfold stringLe. intros a. induction a as [|x a IH]; intros [|y b]; cbn; [by left..|by right|].
  bytes_case; first [by left|by right|apply IH].
Qed.

#[export] Instance stringLe_antisymm : AntiSymm (=) stringLe.
Proof.
  unfold stringLe. intros a. induction a as [|x a IH]; intros [|y b]; cbn; [done..|].
  bytes_case. intros Hab Hba. f_equal; [apply byte_to_Z_inj; lia|by apply IH].
Qed.

#[export] Instance stringLe_trans : Transitive stringLe.
Proof.
  unfold stringLe. intros a. induction a as [|x a IH]; intros [|y b] [|z c]; cbn; try done.
  bytes_case. apply IH.
Qed.

(** Sorting forgets the order. *)
#[export] Instance sortStrings_proper : Proper ((≡ₚ) ==> (=)) sortStrings.
Proof.
  intros l l' Hp. apply (Sorted_unique stringLe); [apply Sorted_merge_sort, _..|].
  unfold sortStrings. by rewrite !merge_sort_Permutation.
Qed.

Lemma sortStrings_elem l a : a ∈ sortStrings l ↔ a ∈ l.
Proof. unfold sortStrings. by rewrite merge_sort_Permutation. Qed.

(** ** [fmt.Sprint] and [time.Duration] *)

Definition sprint (z : Z) : list byte := str (pretty z).

(** A slice of structs with two numbers each. *)
Definition sprintChunk (c : AmAliveChunk) : list byte :=
  str "{" ++ sprint (aID c) ++ str " " ++ sprint (aChecksum c) ++ str "}".

Definition sprintChunks (l : list AmAliveChunk) : list byte :=
  str "[" ++ match l with
             | [] => []
             | c :: l => sprintChunk c ++ concat (map (λ c, str " " ++ sprintChunk c) l)
             end ++ str "]".

(** [t.Sub(u)] saturates at the bounds of an [int64]. *)
Definition timeSub (t u : time) : Z := Z.max (- 2 ^ 63) (Z.min (2 ^ 63 - 1) (t - u)).

(** The digits of [v / 10 ^ prec] after the point, without zeros at the end:
    [printed] is set once a digit is shown. *)
Fixpoint fmtFrac (prec : nat) (v : Z) (printed : bool) (acc : list byte) : list byte * Z :=
  match prec with
  | O => (if printed then str "." ++ acc else acc, v)
  | S prec =>
      let digit := v mod 10 in
      let printed := printed || negb (digit =? 0) in
      fmtFrac prec (v / 10) printed (if printed then sprint digit ++ acc else acc)
  end.

(** [String] of a duration. *)
Definition durationString (d : Z) : list byte :=
  let u := Z.abs d in
  let text :=
    if u =? 0 then str "0s"
    else if u <? 1000 then sprint u ++ str "ns"
    else if u <? millisecond then let r := fmtFrac 3 u false [] in sprint r.2 ++ r.1 ++ str "µs"
    else if u <? second then let r := fmtFrac 6 u false [] in sprint r.2 ++ r.1 ++ str "ms"
    else
      let r := fmtFrac 9 u false [] in
      let s := sprint (r.2 mod 60) ++ r.1 ++ str "s" in
      let m := r.2 / 60 in
      if m =? 0 then s
      else
        let s := sprint (m mod 60) ++ str "m" ++ s in
        let h := m / 60 in
        if h =? 0 then s else sprint h ++ str "h" ++ s in
  if d <? 0 then str "-" ++ text else text.

Example duration_short : durationString 1500000 = str "1.5ms". Proof. by vm_compute. Qed.
Example duration_micro : durationString 2000 = str "2µs". Proof. by vm_compute. Qed.
Example duration_long : durationString (3723 * second + 40000000) = str "1h2m3.04s". Proof. by vm_compute. Qed.
(** A server that has sent no heartbeat. *)
Example duration_never : durationString (timeSub 0 zero_time) = str "2562047h47m16.854775807s".
Proof. by vm_compute. Qed.

(** ** [String] *)

Definition newline : list byte := [x0a].
Definition tab : list byte := [x09].

(** The lines of a server, by what is known of it. *)
Definition serverText (t : time) (phy : addr_t) (held : list AmAliveChunk) (isDead : bool) (last : time) : list byte :=
  tab ++ str " Address: " ++ phy ++
  newline ++ tab ++ tab ++ (if isDead then str "DEAD " else []) ++ str "Known chunks: " ++ sprintChunks held ++
  str " Last heartbeat: " ++ durationString (timeSub t last) ++ newline.

Fixpoint serversText (sg : ServerGroup) (t : time) (addrs : list addr_t) : outcome (list byte) :=
  match addrs with
  | [] => Ret []
  | addr :: addrs =>
      match servers sg !! addr with
      | None => Panic
      | Some p =>
          s ← deref sg p;
          rest ← serversText sg t addrs;
          Ret (serverText t (Phy s) (heldChunks s) (dead s) (lastHeartbeat s) ++ rest)
      end
  end.

(** The holders of a chunk; only the fourth starts another line. *)
Fixpoint holdersText (column : Z) (holders : list addr_t) : list byte :=
  match holders with
  | [] => []
  | phy :: holders =>
      (if column =? 3 then newline ++ tab else []) ++ tab ++ phy ++ holdersText (column + 1) holders
  end.

Definition chunkText (i : Z) (holders : list addr_t) : list byte :=
  tab ++ str "Chunk " ++ sprint i ++ newline ++ tab ++ holdersText 0 (sortStrings holders) ++ newline.

(** The addresses of the servers a list of pointers points to. *)
Fixpoint phys (sg : ServerGroup) (l : list sptr) : outcome (list addr_t) :=
  match l with
  | [] => Ret []
  | p :: l => s ← deref sg p; rest ← phys sg l; Ret (Phy s :: rest)
  end.

Fixpoint chunksText (sg : ServerGroup) (i : Z) (cs : list VirtualChunk) : outcome (list byte) :=
  match cs with
  | [] => Ret []
  | c :: cs => hs ← phys sg (holders c); rest ← chunksText sg (i + 1) cs; Ret (chunkText i hs ++ rest)
  end.

Definition groupString (sg : ServerGroup) (t : time) : outcome (list byte) :=
  ss ← serversText sg t (sortStrings (map_to_list (servers sg)).*1);
  cs ← chunksText sg 0 (chunks sg);
  Ret (sprint (Z.of_nat (size (servers sg))) ++ str " servers:" ++ newline ++ ss ++
       sprint (numChunks sg) ++ str " chunks:" ++ newline ++ cs).

(** ** What the text depends on *)

Definition spec_serverText (t : time) (g : group) (addr : addr_t) : list byte :=
  match g !! addr with Some v => serverText t addr (v_held v) (v_dead v) (v_last v) | None => [] end.

Definition spec_String (n : Z) (g : group) (t : time) : list byte :=
  sprint (Z.of_nat (size g)) ++ str " servers:" ++ newline ++
  concat (map (spec_serverText t g) (sortStrings (map_to_list g).*1)) ++
  sprint n ++ str " chunks:" ++ newline ++
  concat (map (λ i, chunkText (Z.of_nat i) (elements (holdersOf g (Z.of_nat i)))) (seq 0 (Z.to_nat n))).

Section text.
Context (sg : ServerGroup) (g : group) (Hr : sg_rep sg g) (t : time).

Lemma serversText_sim addrs :
  Forall (λ a, is_Some (servers sg !! a)) addrs →
  serversText sg t addrs = Ret (concat (map (spec_serverText t g) addrs)).
Proof using Hr.
  induction 1 as [|a addrs [p Hp] _ IH]; [done|]. cbn [serversText map concat]. rewrite Hp.
  destruct (sr_known _ _ Hr _ _ Hp) as (s & Hs & Ha & Hg). unfold deref. rewrite Hs. bsimpl. rewrite IH. bsimpl.
  unfold spec_serverText. by rewrite Hg, <- Ha.
Qed.

Lemma phys_sim l : Forall (λ p, is_Some (mem sg !! p)) l → phys sg l = Ret (map (addrOf sg) l).
Proof using.
  induction 1 as [|p l [s Hs] _ IH]; [done|]. cbn [phys map]. unfold deref, addrOf at 1. rewrite Hs. bsimpl. by rewrite IH.
Qed.

#[local] Instance chunkText_proper i : Proper ((≡ₚ) ==> (=)) (chunkText i).
Proof using. intros l l' Hp. unfold chunkText. by rewrite Hp. Qed.

Lemma chunksText_sim cs : ∀ k,
  chunks sg = take k (chunks sg) ++ cs → (k + length cs = length (chunks sg))%nat →
  chunksText sg (Z.of_nat k) cs =
  Ret (concat (map (λ i, chunkText (Z.of_nat i) (elements (holdersOf g (Z.of_nat i)))) (seq k (length cs)))).
Proof using Hr.
  induction cs as [|c cs IH]; intros k Hc Hk; [done|]. cbn [chunksText length seq map concat] in *.
  pose proof (sr_length _ _ Hr) as Hlen. unfold zlen in Hlen.
  destruct (chunk_holders sg g Hr (Z.of_nat k)) as (c' & Hix & Hnd & Hmem & Hall); [lia|].
  assert (chunks sg !! k = Some c) as Hck.
  { rewrite Hc, lookup_app_r by (rewrite length_take; lia). rewrite length_take. by replace (k - _)%nat with 0%nat by lia. }
  assert (c' = c) as ->.
  { unfold index in Hix. rewrite Nat2Z.id in Hix. rewrite Hck in Hix. case_match; congruence. }
  rewrite phys_sim; cycle 1.
  { eapply Forall_impl; [exact Hall|]. intros p (v & s & _ & Hd & _). unfold deref in Hd. destruct (mem sg !! p); [eauto|done]. }
  bsimpl. replace (Z.of_nat k + 1) with (Z.of_nat (S k)) by lia. rewrite IH; [|..].
  - bsimpl. do 2 f_equal. apply chunkText_proper, NoDup_Permutation; [done|apply NoDup_elements|].
    intros a. rewrite Hmem. by rewrite elem_of_elements.
  - rewrite Hc at 1. rewrite (take_S_r _ k c) by done. by rewrite <- app_assoc.
  - lia.
Qed.
End text.

(** The text of a group is a function of its number of chunks and of what
    its servers announced: neither the order of the map nor that of the tables
    shows, and making it never fails.  Every server and every chunk appears,
    the servers and the holders of a chunk in the order of their addresses. *)
Lemma groupString_sim sg g t :
  sg_rep sg g → groupString sg t = Ret (spec_String (numChunks sg) g t).
Proof.
  intros Hr. unfold groupString, spec_String. pose proof (sr_length _ _ Hr) as Hlen. unfold zlen in Hlen.
  assert ((map_to_list (servers sg)).*1 ≡ₚ (map_to_list g).*1) as Hp.
  { apply NoDup_Permutation; [apply NoDup_fst_map_to_list..|]. intros a.
    rewrite (proj2 (proj2 (Servers_located sg g Hr))), list_elem_of_fmap. split.
    - intros [v Hv]. exists (a, v). split; [done|]. by apply elem_of_map_to_list.
    - intros ([b v] & -> & Hin%elem_of_map_to_list). by eexists. }
  rewrite (serversText_sim sg g Hr); cycle 1.
  { apply Forall_forall. intros a Ha. rewrite sortStrings_elem, Hp in Ha. apply (known_iff sg g Hr).
    apply list_elem_of_fmap in Ha as ([b v] & -> & Hin%elem_of_map_to_list). by eexists. }
  bsimpl. change 0 with (Z.of_nat 0). rewrite (chunksText_sim sg g Hr (chunks sg) 0) by done. bsimpl.
  rewrite Hp. replace (length (chunks sg)) with (Z.to_nat (numChunks sg)) by lia.
  do 2 f_equal. unfold sprint. do 2 f_equal. exact (NumServers_sim sg g Hr).
Qed.

(** ** Reading the text

    A reader cuts the text at tabs and ends of lines and drops what is empty.  What
    is left says which servers there are and who holds each chunk. *)

Definition isSpace (b : byte) : bool := bool_decide (b = x09) || bool_decide (b = x0a).

Definition emit (w : list byte) : list (list byte) := match w with [] => [] | _ => [w] end.

Fixpoint cutWords (w l : list byte) : list (list byte) :=
  match l with
  | [] => emit w
  | b :: l => if isSpace b then emit w ++ cutWords [] l else cutWords (w ++ [b]) l
  end.

Definition words (l : list byte) : list (list byte) := cutWords [] l.

(** A word: neither a tab nor an end of line. *)
Definition plain (l : list byte) : Prop := Forall (λ b, isSpace b = false) l.
#[export] Instance plain_dec l : Decision (plain l).
Proof. unfold plain. apply _. Defined.

Lemma plain_app l l' : plain l → plain l' → plain (l ++ l').
Proof. intros. by apply Forall_app. Qed.

Lemma cutWords_plain l rest : plain l → ∀ w, cutWords w (l ++ rest) = cutWords (w ++ l) rest.
Proof.
  induction 1 as [|b l Hb _ IH]; intros w; [by rewrite app_nil_r|]. cbn [app cutWords]. rewrite Hb, IH. by rewrite <- app_assoc.
Qed.

(** A word that ends at a tab or at an end of line. *)
Definition starts_blank (l : list byte) : Prop := match l with [] => True | b :: _ => isSpace b = true end.

Lemma words_plain l rest : plain l → l ≠ [] → starts_blank rest → words (l ++ rest) = l :: words rest.
Proof.
  intros Hl Hne Hr. unfold words. rewrite cutWords_plain by done. cbn [app]. destruct l as [|x l]; [done|].
  destruct rest as [|b rest]; [done|]. cbn in Hr |- *. by rewrite Hr.
Qed.

Lemma words_tab rest : words (tab ++ rest) = words rest.
Proof. done. Qed.
Lemma words_newline rest : words (newline ++ rest) = words rest.
Proof. done. Qed.

(** What is printed of numbers and times. *)
Lemma plain_str s : avoids "009" s → avoids "010" s → plain (str s).
Proof.
  induction s as [|c s IH]; cbn [avoids]; [constructor|]. intros [H1 ?]%andb_True [H2 ?]%andb_True. unfold str in *. cbn.
  constructor; [|by apply IH]. unfold isSpace. rewrite negb_True in H1, H2.
  rewrite !bool_decide_false; [done|..].
  - intros E. destruct H2. apply bool_decide_pack. apply (f_equal ascii_of_byte) in E. by rewrite ascii_of_byte_of_ascii in E.
  - intros E. destruct H1. apply bool_decide_pack. apply (f_equal ascii_of_byte) in E. by rewrite ascii_of_byte_of_ascii in E.
Qed.

Lemma sprint_plain z : plain (sprint z).
Proof.
  apply plain_str; (destruct (Z.le_gt_cases 0 z); [by apply pretty_avoids|]); (destruct z as [|p|p]; [lia..|]);
    change (pretty (Z.neg p)) with (String "-" (pretty (Z.pos p))); cbn [avoids]; by apply pretty_avoids.
Qed.

Lemma sprint_nonempty z : sprint z ≠ [].
Proof.
  unfold sprint, pretty, pretty_Z. destruct z as [|p|p]; [done| |done]. unfold pretty, pretty_positive, pretty, pretty_N.
  rewrite decide_False by done. destruct (pretty_go_digits (N.pos p)) as (d & s & -> & _); done.
Qed.

(** Texts made of constants, numbers and what is assumed to be plain. *)
Ltac plain_text :=
  repeat lazymatch goal with
  | |- plain (str _) => apply (bool_decide_unpack _); by vm_compute
  | |- plain (sprint _) => apply sprint_plain
  | |- plain [] => constructor
  | |- plain (if ?b then _ else _) => destruct b
  | |- plain (_ ++ _) => apply plain_app
  | |- plain _ => progress eauto
  end.

Lemma fmtFrac_plain prec : ∀ v printed acc, plain acc → plain (fmtFrac prec v printed acc).1.
Proof.
  induction prec as [|prec IH]; intros v printed acc Ha; cbn [fmtFrac fst]; [destruct printed; [by plain_text|done]|].
  apply IH. destruct (printed || _); [|done]. by apply plain_app; [apply sprint_plain|].
Qed.

Lemma durationString_plain d : plain (durationString d).
Proof.
  unfold durationString.
  pose proof (fmtFrac_plain 3 (Z.abs d) false [] (Forall_nil_2 _)). pose proof (fmtFrac_plain 6 (Z.abs d) false [] (Forall_nil_2 _)).
  pose proof (fmtFrac_plain 9 (Z.abs d) false [] (Forall_nil_2 _)).
  destruct (fmtFrac 3 _ _ _), (fmtFrac 6 _ _ _), (fmtFrac 9 _ _ _). cbn [fst snd] in *. cbv zeta.
  plain_text.
Qed.

Lemma sprintChunks_plain l : plain (sprintChunks l).
Proof.
  assert (∀ c, plain (sprintChunk c)) as Hc by (intros c; unfold sprintChunk; plain_text).
  unfold sprintChunks. apply plain_app; [by plain_text|]. apply plain_app; [|by plain_text].
  destruct l as [|c l]; [constructor|]. apply plain_app; [apply Hc|]. induction l as [|c' l IH]; cbn [map concat]; [constructor|].
  apply plain_app; [|done]. apply plain_app; [by plain_text|apply Hc].
Qed.

(** An address that can be read. *)
Definition readable (a : addr_t) : Prop := plain a ∧ a ≠ [].

(** The words of a server: its address, and a line with what it announced. *)
Definition serverWords (t : time) (a : addr_t) (v : vinfo) : list (list byte) :=
  [str " Address: " ++ a;
   (if v_dead v then str "DEAD " else []) ++ str "Known chunks: " ++ sprintChunks (v_held v) ++
   str " Last heartbeat: " ++ durationString (timeSub t (v_last v))].

(** The words of a chunk: its number and its holders. *)
Definition chunkWords (i : Z) (holders : list addr_t) : list (list byte) := (str "Chunk " ++ sprint i) :: sortStrings holders.

Lemma words_server t a v rest :
  plain a → words (serverText t a (v_held v) (v_dead v) (v_last v) ++ rest) = serverWords t a v ++ words rest.
Proof.
  intros Ha. unfold serverWords. set (line := _ ++ str "Known chunks: " ++ _).
  replace (serverText t a (v_held v) (v_dead v) (v_last v) ++ rest)
    with (tab ++ (str " Address: " ++ a) ++ newline ++ tab ++ tab ++ line ++ newline ++ rest)
    by (unfold serverText, line; by rewrite <- !app_assoc).
  assert (plain line) as Hline.
  { pose proof (sprintChunks_plain (v_held v)). pose proof (durationString_plain (timeSub t (v_last v))). unfold line. plain_text. }
  rewrite words_tab, words_plain; [|by apply plain_app; [plain_text|]|done|done]. cbn [app]. f_equal.
  rewrite words_newline, !words_tab, words_plain; [|done|by unfold line; destruct (v_dead v)|done]. by rewrite words_newline.
Qed.

Lemma words_holders hs rest : Forall readable hs → starts_blank rest →
  ∀ column, words (holdersText column hs ++ rest) = hs ++ words rest ∧ starts_blank (holdersText column hs ++ rest).
Proof.
  intros Hhs Hr. induction Hhs as [|a hs [Ha Hne] _ IH]; intros column; [done|]. cbn [holdersText].
  destruct (IH (column + 1)) as [E Hb]. rewrite <- !app_assoc. split; [|by destruct (column =? 3)].
  assert (words (tab ++ a ++ holdersText (column + 1) hs ++ rest) = (a :: hs) ++ words rest) as Hw.
  { rewrite words_tab, words_plain by done. by rewrite E. }
  destruct (column =? 3); [by rewrite <- app_assoc, words_newline, words_tab|done].
Qed.

Lemma words_chunk i hs rest : Forall readable hs → words (chunkText i hs ++ rest) = chunkWords i hs ++ words rest.
Proof.
  intros Hhs. assert (Forall readable (sortStrings hs)) as Hs.
  { rewrite Forall_forall in Hhs |- *. intros a. rewrite sortStrings_elem. apply Hhs. }
  replace (chunkText i hs ++ rest)
    with (tab ++ (str "Chunk " ++ sprint i) ++ newline ++ tab ++ holdersText 0 (sortStrings hs) ++ newline ++ rest)
    by (unfold chunkText; by rewrite <- !app_assoc).
  rewrite words_tab, words_plain by (done || (apply plain_app; [plain_text|apply sprint_plain])).
  rewrite words_newline, words_tab. destruct (words_holders _ (newline ++ rest) Hs ltac:(done) 0) as [-> _].
  unfold chunkWords. by rewrite words_newline.
Qed.

(** The words of a list of pieces. *)
Lemma words_concat {A} (f : A → list byte) (g : A → list (list byte)) l rest :
  Forall (λ x, ∀ rest, words (f x ++ rest) = g x ++ words rest) l →
  words (concat (map f l) ++ rest) = concat (map g l) ++ words rest.
Proof.
  induction 1 as [|x l Hx _ IH]; [done|]. cbn [map concat]. by rewrite <- !app_assoc, Hx, IH.
Qed.

(** What a reader finds: the number of servers and each of them, in the order of
    their addresses; the number of chunks, and for each chunk its holders, in the
    order of their addresses. *)
Definition shown (n : Z) (g : group) (t : time) : list (list byte) :=
  (sprint (Z.of_nat (size g)) ++ str " servers:") ::
  concat (map (λ a, match g !! a with Some v => serverWords t a v | None => [] end) (sortStrings (map_to_list g).*1)) ++
  (sprint n ++ str " chunks:") ::
  concat (map (λ i, chunkWords (Z.of_nat i) (elements (holdersOf g (Z.of_nat i)))) (seq 0 (Z.to_nat n))).

Lemma words_String n g t : (∀ a, is_Some (g !! a) → readable a) → words (spec_String n g t) = shown n g t.
Proof.
  intros Hg. unfold spec_String, shown.
  set (ss := concat (map (spec_serverText t g) _)). set (cs := concat (map (λ i, chunkText _ _) _)).
  transitivity (words ((sprint (Z.of_nat (size g)) ++ str " servers:") ++ newline ++ ss ++
    (sprint n ++ str " chunks:") ++ newline ++ cs ++ [])); [by rewrite app_nil_r, <- !app_assoc|].
  assert (∀ z s, sprint z ++ s ≠ []) as Hne by (intros z s; pose proof (sprint_nonempty z); by destruct (sprint z)).
  rewrite words_plain; [|by apply plain_app; [apply sprint_plain|plain_text]|apply Hne|done]. f_equal.
  rewrite words_newline. unfold ss. rewrite (words_concat _ (λ a, match g !! a with Some v => serverWords t a v | None => [] end)).
  2:{ apply Forall_forall. intros a Ha rest. unfold spec_serverText. destruct (g !! a) as [v|] eqn:E; [|done].
      apply words_server, Hg. by eexists. }
  f_equal. rewrite words_plain; [|by apply plain_app; [apply sprint_plain|plain_text]|apply Hne|done]. f_equal.
  rewrite words_newline. unfold cs. rewrite (words_concat _ (λ i, chunkWords (Z.of_nat i) (elements (holdersOf g (Z.of_nat i))))).
  { by rewrite app_nil_r. }
  apply Forall_forall. intros i _ rest. apply words_chunk, Forall_forall. intros a Ha%elem_of_elements.
  apply elem_of_holdersOf in Ha as (v & Hv & _). apply Hg. by eexists.
Qed.

(** The text of a group of two servers, both of which hold chunk 0. *)
Definition sample_text : list byte :=
  str "2 servers:" ++ newline ++
  tab ++ str " Address: a" ++ newline ++ tab ++ tab ++ str "Known chunks: [{0 7}] Last heartbeat: 2s" ++ newline ++
  tab ++ str " Address: b" ++ newline ++ tab ++ tab ++ str "Known chunks: [{0 7} {1 9}] Last heartbeat: 2s" ++ newline ++
  str "2 chunks:" ++ newline ++
  tab ++ str "Chunk 0" ++ newline ++ tab ++ tab ++ str "a" ++ tab ++ str "b" ++ newline ++
  tab ++ str "Chunk 1" ++ newline ++ tab ++ tab ++ str "b" ++ newline.

Lemma sample_group_shown :
  ∃ sg g, sg_rep sg g ∧ groupString sg (2 * second) = Ret (spec_String 2 g (2 * second)) ∧
    spec_String 2 g (2 * second) = sample_text.
Proof.
  set (os := [GAdd (str "b"); GAdd (str "a"); GSet (str "b") [AAChunk 0 7; AAChunk 1 9] 0; GSet (str "a") [AAChunk 0 7] 0]).
  destruct (Create_rep 2 1 (str "a") ltac:(lia)) as (sg0 & _ & Hr0 & Hn0 & _).
  pose proof (gops_sim os sg0 ∅ Hr0) as H. rewrite Hn0 in H.
  destruct (spec_gops 2 ∅ os) as [[g es]| |] eqn:E; [|discriminate E..].
  assert (spec_String 2 g (2 * second) = sample_text) as Htext.
  { transitivity (spec_String 2 (match spec_gops 2 ∅ os with Ret r => r.1 | _ => ∅ end) (2 * second)); [by rewrite E|].
    clear. by vm_compute. }
  destruct H as (sg & _ & Hr & Hn & _). exists sg, g. split_and!; [done| |done].
  pose proof (groupString_sim sg g (2 * second) Hr) as Ht. rewrite Hn in Ht. exact Ht.
Qed.
