(* ===== verification/Remote.v ===== *)
(** * Requests to other servers ([src/com/comclient.go],
      [src/dist/servergroup/virtualserver.go])

    The code that talks to other servers runs in a network: an interface that
    says what dialling an address, sending a message, waiting for the response
    and pinging do to the rest of the world.  A channel of results is the result
    it will deliver.  The methods of a connection and of a server of the group
    are written against this interface; a network of servers is an instance of
    it. *)
From S2P Require Import Prelude.
From S2P Require Import TcpMessage.
From S2P Require Import UdpHeartbeat.
From S2P Require Import Store.
From S2P Require Import Broker.
From S2P Require Import ServerGroup.

Class Network (W : Type) := {
  (** [time.Now]. *)
  net_now : W → time;
  (** [com.CreateConnection]. *)
  net_dial : W → addr_t → W * option error;
  (** A message without response. *)
  net_send : W → addr_t → Message → W;
  (** A message, and the result that arrives on the channel of the broker
      within the timeout. *)
  net_call : W → addr_t → Message → Z → W * result;
  (** [com.UDPRequest] with the timeout of the heartbeat. *)
  net_ping : W → addr_t → W * (error + AmAlive)
}.

(** ** The state that the code threads: the server group and the world *)

Record env (W : Type) := Env { e_sg : ServerGroup; e_net : W }.
Arguments Env {W}.
Arguments e_sg {W}.
Arguments e_net {W}.

Definition comp (W A : Type) : Type := env W → outcome (A * env W).

#[export] Instance comp_ret {W} : MRet (comp W) := λ A a e, Ret (a, e).
#[export] Instance comp_bind {W} : MBind (comp W) := λ A B f m e,
  r ← m e; f r.1 r.2.

Definition lift {W A} (m : outcome A) : comp W A := λ e, a ← m; Ret (a, e).
Definition get_sg {W} : comp W ServerGroup := λ e, Ret (e_sg e, e).
Definition put_sg {W} (sg : ServerGroup) : comp W unit := λ e, Ret (tt, Env sg (e_net e)).
Definition on_net {W A} (f : W → W * A) : comp W A := λ e,
  Ret ((f (e_net e)).2, Env (e_sg e) (f (e_net e)).1).

(** ** Connections *)

Definition requestTimeout : Z := 500 * millisecond.

Section remote.
Context {W : Type} `{Network W}.

(** The message that the broker numbers. *)
Definition message (opType : Z) (key value : list byte) : Message := Msg opType 0 key value.

(** A negative timeout panics in the broker. *)
Definition connSend (addr : addr_t) (opType : Z) (key value : list byte) (timeout : Z) :
    comp W (option result) :=
  let m := message opType key value in
  if timeout =? 0 then _ ← on_net (λ w, (net_send w addr m, tt)); mret None
  else
    _ ← lift (check (0 <? timeout));
    r ← on_net (λ w, net_call w addr m timeout); mret (Some r).

Definition sendAndReceive (addr : addr_t) (opType : Z) (key value : list byte) (timeout : Z) :
    comp W result :=
  rch ← connSend addr opType key value timeout;
  match rch with None => mret (Result [] None) | Some r => mret r end.

(** The four types of operations hold a channel; [Wait] empties it. *)
Record PendingOp := Pending { rch : option result }.

Definition errReturned : error := "Already returned".

Definition GetWait (g : PendingOp) : result * PendingOp :=
  match rch g with
  | None => (Result [] (Some errReturned), g)
  | Some r => (r, Pending None)
  end.

(** [Wait] of a set, a delete or a CAS. *)
Definition Wait (g : PendingOp) : option error * PendingOp :=
  match rch g with
  | None => (Some errReturned, g)
  | Some r => (r_err r, Pending None)
  end.

Definition connGet (addr : addr_t) (key : list byte) (timeout : Z) : comp W PendingOp :=
  _ ← lift (check (0 <? timeout));
  ch ← connSend addr Operation.OpGet key [] timeout;
  match ch with None => lift Panic | Some r => mret (Pending (Some r)) end.

Definition connSet (addr : addr_t) (key value : list byte) (timeout : Z) : comp W PendingOp :=
  let op := if timeout =? 0 then Operation.OpAsyncSet else Operation.OpSet in
  ch ← connSend addr op key value timeout; mret (Pending ch).

Definition connDel (addr : addr_t) (key value : list byte) (timeout : Z) : comp W PendingOp :=
  ch ← connSend addr Operation.OpDel key value timeout; mret (Pending ch).

Definition connCAS (addr : addr_t) (key value : list byte) (timeout : Z) : comp W PendingOp :=
  _ ← lift (check (0 <? timeout));
  ch ← connSend addr Operation.OpCAS key value timeout; mret (Pending ch).

Definition connSetNoDelay (addr : addr_t) : comp W unit :=
  _ ← connSend addr Operation.OpSetNoDelay [] [] 0; mret tt.
Definition connSetBuffered (addr : addr_t) : comp W unit :=
  _ ← connSend addr Operation.OpSetBuffered [] [] 0; mret tt.

(** [uint32(chunkID)] in four bytes. *)
Definition chunkKey (chunkID : Z) : list byte := le_enc 4 (u32 chunkID).

Definition connTransfer (addr : addr_t) (dest : addr_t) (chunkID : Z) : comp W (option error) :=
  r ← sendAndReceive addr Operation.OpTransfer (chunkKey chunkID) dest requestTimeout;
  mret (r_err r).

Definition connGetAccessInfo (addr : addr_t) : comp W (list byte * option error) :=
  r ← sendAndReceive addr Operation.OpGetConf [] [] requestTimeout; mret (r_value r, r_err r).

Definition connAddServerToGroup (addr : addr_t) (new : addr_t) : comp W (option error) :=
  r ← sendAndReceive addr Operation.OpAddServerToGroup new [] requestTimeout; mret (r_err r).

Definition connProtect (addr : addr_t) (chunkID : Z) : comp W (option error) :=
  r ← sendAndReceive addr Operation.OpProtect (chunkKey chunkID) [] requestTimeout;
  match r_err r with Some e => mret (Some e) | None => mret None end.

Definition connGetChunkInfo (addr : addr_t) (chunkID : Z) : comp W (Z * option error) :=
  r ← sendAndReceive addr Operation.OpGetChunkInfo (chunkKey chunkID) [] requestTimeout;
  match r_err r with
  | Some e => mret (0, Some e)
  | None => n ← lift (get_le 8 (r_value r)); mret (n, None)
  end.

(** ** Servers of the group *)

Definition set_conn (s : VirtualServer) (b : bool) : VirtualServer :=
  mkServer (Phy s) (lastHeartbeat s) (dead s) (heldChunks s) b (vsNoDelay s).

(** Make sure that there is a connection; returns the address. *)
Definition needConnection (p : sptr) : comp W (error + addr_t) :=
  sg ← get_sg;
  s ← lift (deref sg p);
  if conn s then mret (inr (Phy s))
  else
    err ← on_net (λ w, net_dial w (Phy s));
    match err with
    | Some e => mret (inl e)
    | None =>
        _ ← put_sg (set_server sg p (set_conn s true));
        _ ← (if vsNoDelay s then connSetNoDelay (Phy s) else mret tt);
        mret (inr (Phy s))
    end.

(** Run [f] on the connection, or return the error of the connection. *)
Definition connected {A} (p : sptr) (f : addr_t → comp W A) (failed : error → A) : comp W A :=
  c ← needConnection p;
  match c with inl e => mret (failed e) | inr addr => f addr end.

Definition operation (m : comp W PendingOp) : comp W (error + PendingOp) := o ← m; mret (inr o).

Definition vsGet (p : sptr) (key : list byte) (timeout : Z) : comp W (error + PendingOp) :=
  connected p (λ c, operation (connGet c key timeout)) inl.
Definition vsSet (p : sptr) (key value : list byte) (timeout : Z) : comp W (error + PendingOp) :=
  connected p (λ c, operation (connSet c key value timeout)) inl.
Definition vsDel (p : sptr) (key value : list byte) (timeout : Z) : comp W (error + PendingOp) :=
  connected p (λ c, operation (connDel c key value timeout)) inl.
Definition vsCAS (p : sptr) (key value : list byte) (timeout : Z) : comp W (error + PendingOp) :=
  connected p (λ c, operation (connCAS c key value timeout)) inl.

(** A failed connection is not reported. *)
Definition vsTransfer (p : sptr) (dest : addr_t) (chunkID : Z) : comp W (option error) :=
  connected p (λ c, connTransfer c dest chunkID) (λ _, None).

Definition vsGetAccessInfo (p : sptr) : comp W (list byte) :=
  connected p (λ c, r ← connGetAccessInfo c; mret r.1) (λ _, []).
Definition vsAddServerToGroup (p : sptr) (new : addr_t) : comp W (option error) :=
  connected p (λ c, connAddServerToGroup c new) Some.
Definition vsProtect (p : sptr) (chunkID : Z) : comp W bool :=
  connected p (λ c, r ← connProtect c chunkID; mret (bool_decide (r = None))) (λ _, false).

(** A failure, of the connection or of the request, is an empty chunk. *)
Definition vsGetChunkInfo (p : sptr) (chunkID : Z) : comp W Z :=
  connected p (λ c, r ← connGetChunkInfo c chunkID; mret r.1) (λ _, 0).

Definition vsSetBuffered (p : sptr) : comp W bool :=
  connected p (λ c, _ ← connSetBuffered c; mret true) (λ _, false).
Definition vsSetNoDelay (p : sptr) : comp W bool :=
  connected p (λ c, _ ← connSetNoDelay c; mret true) (λ _, false).

(** ** Buffering in the whole group *)

Definition set_vsNoDelay (s : VirtualServer) (b : bool) : VirtualServer :=
  mkServer (Phy s) (lastHeartbeat s) (dead s) (heldChunks s) (conn s) b.
Definition set_noDelay (sg : ServerGroup) (b : bool) : ServerGroup :=
  mkGroup (LocalhostIPPort sg) (numChunks sg) (redundancy sg) (servers sg) (chunks sg) b (mem sg).

Fixpoint eachServer (b : bool) (f : sptr → comp W bool) (ps : list sptr) : comp W unit :=
  match ps with
  | [] => mret tt
  | p :: ps =>
      sg ← get_sg;
      s ← lift (deref sg p);
      _ ← put_sg (set_server sg p (set_vsNoDelay s b));
      _ ← f p;
      eachServer b f ps
  end.

Definition SetNoDelay : comp W unit :=
  sg ← get_sg; _ ← put_sg (set_noDelay sg true); eachServer true vsSetNoDelay (Servers sg).
Definition SetBuffered : comp W unit :=
  sg ← get_sg; _ ← put_sg (set_noDelay sg false); eachServer false vsSetBuffered (Servers sg).
End remote.

(** ** Running the code in an environment *)

Section run.
Context {W A B : Type} (e : env W).
Lemma run_bind (m : comp W A) (f : A → comp W B) : (m ≫= f) e = m e ≫= λ r, f r.1 r.2.
Proof. done. Qed.
Lemma run_ret (a : A) : (mret a : comp W A) e = Ret (a, e).
Proof. done. Qed.
Lemma run_lift (m : outcome A) : (lift m : comp W A) e = m ≫= λ a, Ret (a, e).
Proof. done. Qed.
Lemma run_get : (get_sg : comp W _) e = Ret (e_sg e, e).
Proof. done. Qed.
Lemma run_put sg : (put_sg sg : comp W _) e = Ret (tt, Env sg (e_net e)).
Proof. done. Qed.
Lemma run_net (f : W → W * A) : on_net f e = Ret ((f (e_net e)).2, Env (e_sg e) (f (e_net e)).1).
Proof. done. Qed.
End run.

Ltac msimpl :=
  repeat first
    [ progress rewrite ?run_bind, ?run_ret, ?run_lift, ?run_get, ?run_put, ?run_net
    | progress cbn [mbind outcome_bind mret outcome_ret fst snd e_sg e_net] ].
