(* ===== verification/Heartbeat.v ===== *)
(** * The heartbeater ([src/dist/heartbeat/heartbeat.go])

    A server pings the servers of its group one after the other, records what
    they announce, and pings the servers that they gossip about.  The group and
    the world are threaded through; [newsMutex] is held throughout each access
    to the news. *)
From S2P Require Import Prelude.
From S2P Require Import Store.
From S2P Require Import UdpHeartbeat.
From S2P Require Import Core.
From S2P Require Import ServerGroup.
From S2P Require Import ServerGroupSpec.
From S2P Require Import Remote.

Definition GossipNewsExpirationTime : Z := 10 * second.

Record Heartbeater := mkHB {
  stop : bool;
  timeouts : gmap addr_t Z;
  recentlyAddedServers : gmap addr_t time;
  recentlyDeadServers : gmap addr_t time
}.

Definition newHeartbeater : Heartbeater := mkHB false ∅ ∅ ∅.

Definition HBStop (h : Heartbeater) : Heartbeater :=
  mkHB true (timeouts h) (recentlyAddedServers h) (recentlyDeadServers h).

Definition set_timeouts (h : Heartbeater) (m : gmap addr_t Z) : Heartbeater :=
  mkHB (stop h) m (recentlyAddedServers h) (recentlyDeadServers h).

(** [!v.Add(GossipNewsExpirationTime).Before(t)]. *)
Definition unexpired (t v : time) : Prop := t ≤ v + GossipNewsExpirationTime.
#[export] Instance unexpired_dec t v : Decision (unexpired t v).
Proof. unfold unexpired. apply _. Defined.

Definition cleanNews (h : Heartbeater) (t : time) : Heartbeater :=
  mkHB (stop h) (timeouts h)
    (filter (λ kv, unexpired t kv.2) (recentlyAddedServers h))
    (filter (λ kv, unexpired t kv.2) (recentlyDeadServers h)).

Definition GossipAdded (h : Heartbeater) (addr : addr_t) (now : time) : Heartbeater :=
  let h := cleanNews h now in
  mkHB (stop h) (timeouts h) (<[addr := now]> (recentlyAddedServers h)) (recentlyDeadServers h).

Definition GossipDead (h : Heartbeater) (addr : addr_t) (now : time) : Heartbeater :=
  let h := cleanNews h now in
  mkHB (stop h) (timeouts h) (recentlyAddedServers h) (<[addr := now]> (recentlyDeadServers h)).

(** The callback of [ListenReply]. *)
Definition ListenReply (h : Heartbeater) (c : Core) (now : time) :
    outcome (AmAlive * Heartbeater * Core) :=
  let h := cleanNews h now in
  r ← PresentChunksList c now;
  let h := cleanNews h now in
  Ret (AmAliveMsg r.1 (map_to_list (recentlyAddedServers h)).*1 (map_to_list (recentlyDeadServers h)).*1,
       h, r.2).

Section heartbeat.
Context {W : Type} `{Network W}.

(** The loops over the gossip: ask the servers that are ([known]) or are not on
    the group. *)
Fixpoint gossip (req : Heartbeater → addr_t → comp W (bool * Heartbeater)) (known : bool)
    (h : Heartbeater) (news : list addr_t) : comp W Heartbeater :=
  match news with
  | [] => mret h
  | new :: news =>
      sg ← get_sg;
      if eqb (IsServerOnGroup sg new) known
      then r ← req h new; gossip req known r.2 news
      else gossip req known h news
  end.

Definition getNow : comp W time := on_net (λ w, (w, net_now w)).

(** A ping that was not answered; [again] is the recursive call. *)
Definition pingFailed (again : Heartbeater → addr_t → comp W (bool * Heartbeater))
    (h : Heartbeater) (addr : addr_t) : comp W (bool * Heartbeater) :=
  sg ← get_sg;
  if IsServerOnGroup sg addr then
    let n := default 0 (timeouts h !! addr) + 1 in
    let h := set_timeouts h (<[addr := n]> (timeouts h)) in
    if 3 <=? n then
      let h := set_timeouts h (delete addr (timeouts h)) in
      r ← lift (DeadServer sg addr);
      _ ← put_sg r.1;
      now ← getNow;
      mret (false, GossipDead h addr now)
    else again h addr
  else mret (false, set_timeouts h (delete addr (timeouts h))).

Definition addIfUnknown (h : Heartbeater) (addr : addr_t) : comp W Heartbeater :=
  sg ← get_sg;
  if IsServerOnGroup sg addr then mret h
  else
    _ ← put_sg (AddServerToGroup sg addr).1;
    now ← getNow;
    mret (GossipAdded h addr now).

Definition record (addr : addr_t) (cs : list AmAliveChunk) : comp W unit :=
  sg ← get_sg; now ← getNow; sg ← lift (SetServerChunks sg addr cs now); put_sg sg.

Fixpoint request (fuel : nat) (h : Heartbeater) (addr : addr_t) : comp W (bool * Heartbeater) :=
  match fuel with
  | O => lift OutOfFuel
  | S fuel =>
      sg ← get_sg;
      if decide (addr = LocalhostIPPort sg) then mret (true, h)
      else
        reply ← on_net (λ w, net_ping w addr);
        match reply with
        | inl _ => pingFailed (request fuel) h addr
        | inr aa =>
            let h := set_timeouts h (delete addr (timeouts h)) in
            h ← addIfUnknown h addr;
            _ ← record addr (KnownChunks aa);
            h ← gossip (request fuel) false h (RecentlyAddedServers aa);
            h ← gossip (request fuel) true h (RecentlyDeadServers aa);
            mret (true, h)
        end
  end.

(** Ask each server of a list. *)
Fixpoint requestAll (fuel : nat) (h : Heartbeater) (ps : list sptr) : comp W Heartbeater :=
  match ps with
  | [] => mret h
  | p :: ps =>
      sg ← get_sg;
      s ← lift (deref sg p);
      r ← request fuel h (Phy s);
      requestAll fuel r.2 ps
  end.

(** [Start] asks all the servers once. *)
Definition HBStart (fuel : nat) : comp W Heartbeater :=
  sg ← get_sg; requestAll fuel newHeartbeater (Servers sg).

(** One turn of the loop in the background. *)
Definition beat (fuel : nat) (h : Heartbeater) : comp W Heartbeater :=
  if stop h then mret h else sg ← get_sg; requestAll fuel h (Servers sg).
End heartbeat.
