(* ===== verification/HeartbeatProps.v ===== *)
(** * What the heartbeater guarantees

    While the answers to the pings do not change and no live server is reported
    dead, a request follows the gossip to its end; two servers that report each
    other dead keep it busy for ever. *)
From S2P Require Import Prelude.
From S2P Require Import Store.
From S2P Require Import UdpHeartbeat.
From S2P Require Import ServerGroup.
From S2P Require Import ServerGroupSpec.
From S2P Require Import Remote.
From S2P Require Import Heartbeat.

(** ** Group operations in an environment *)

(** The state of an environment: the group [g] of the server at [lh], in a world
    that satisfies [Inv]. *)
Record env_rep {W} (Inv : W → Prop) (lh : addr_t) (n : Z) (e : env W) (g : group) : Prop := EnvRep {
  er_group : sg_rep (e_sg e) g;
  er_chunks : numChunks (e_sg e) = n;
  er_local : LocalhostIPPort (e_sg e) = lh;
  er_net : Inv (e_net e)
}.

Lemma env_rep_gop {W} Inv lh n (e : env W) g o g' r (w : W) :
  env_rep Inv lh n e g → spec_gop n g o = Ret (g', r) → Inv w →
  ∃ sg', gop_run (e_sg e) o = Ret (sg', r) ∧ env_rep Inv lh n (Env sg' w) g'.
Proof.
  intros [Hr Hn Hl _] E Hi. pose proof (gop_sim (e_sg e) g o Hr) as H. rewrite Hn, E in H.
  destruct H as (sg' & Hg & Hr' & Hn' & _). exists sg'. split; [done|]. split; cbn; [done|congruence| |done].
  by rewrite (local_fixed _ _ _ _ Hg).
Qed.

Lemma env_rep_net {W} Inv lh n (e : env W) g (w : W) :
  env_rep Inv lh n e g → Inv w → env_rep Inv lh n (Env (e_sg e) w) g.
Proof. by intros [Hr Hn Hl _]. Qed.

(** ** A network that keeps its answers *)

Section fixed.
Context {W : Type} `{Network W}.
Context (Inv : W → Prop) (live : gmap addr_t AmAlive) (lh : addr_t) (n : Z).

(** The worlds that satisfy [Inv] answer the pings in the same way. *)
Definition pings_as : Prop := ∀ w a, Inv w → Inv (net_ping w a).1 ∧
  match live !! a with
  | Some aa => (net_ping w a).2 = inr aa
  | None => ∃ e, (net_ping w a).2 = inl e
  end.

(** The announced chunks exist. *)
Definition well_announced : Prop := ∀ a aa, live !! a = Some aa → Forall (in_range n) (KnownChunks aa).

(** No live server is reported dead. *)
Definition accurate : Prop :=
  ∀ a aa c, live !! a = Some aa → c ∈ RecentlyDeadServers aa → live !! c = None.

Definition deadIn (g : group) (c : addr_t) : Prop :=
  ∃ v, g !! c = Some v ∧ v_dead v = true ∧ v_held v = [].

(** The group has the last announcement of [c]. *)
Definition current (g : group) (c : addr_t) : Prop :=
  ∃ v aa, g !! c = Some v ∧ live !! c = Some aa ∧ v_held v = KnownChunks aa ∧ v_dead v = false.

(** The group knows what [aa] gossips. *)
Definition covers (aa : AmAlive) (g : group) : Prop :=
  (∀ c, c ∈ RecentlyAddedServers aa → is_Some (live !! c) → c ≠ lh → is_Some (g !! c)) ∧
  (∀ c, c ∈ RecentlyDeadServers aa → c ≠ lh → is_Some (g !! c) → deadIn g c).

Record progress (g g' : group) : Prop := Progress {
  pr_keeps : ∀ c, is_Some (g !! c) → is_Some (g' !! c);
  pr_live : ∀ c, is_Some (g' !! c) → is_Some (g !! c) ∨ is_Some (live !! c);
  pr_dead : ∀ c, live !! c = None → deadIn g c → deadIn g' c;
  pr_current : ∀ c, current g c → current g' c;
  pr_new : ∀ c aa, g !! c = None → is_Some (g' !! c) → live !! c = Some aa →
    current g' c ∧ covers aa g'
}.

Lemma progress_refl g : progress g g.
Proof.
  split; try done; [by left|]. intros c aa Hc [v Hv]. congruence.
Qed.

Context (Hacc : accurate).

Lemma covers_mono a aa g g' : live !! a = Some aa → progress g g' → covers aa g → covers aa g'.
Proof using Hacc.
  intros Ha Hp [H1 H2]. split.
  - intros c Hc Hl Hne. by apply (pr_keeps _ _ Hp), H1.
  - intros c Hc Hne Hk. pose proof (Hacc a aa c Ha Hc) as Hn. apply (pr_dead _ _ Hp); [done|].
    apply H2; [done..|]. destruct (pr_live _ _ Hp c Hk) as [?|[? ?]]; [done|congruence].
Qed.

Lemma progress_trans g1 g2 g3 : progress g1 g2 → progress g2 g3 → progress g1 g3.
Proof using Hacc.
  intros H12 H23. split.
  - intros c Hc. by apply (pr_keeps _ _ H23), (pr_keeps _ _ H12).
  - intros c Hc. destruct (pr_live _ _ H23 c Hc) as [Hc'|]; [|by right]. by apply (pr_live _ _ H12).
  - intros c Hn Hd. apply (pr_dead _ _ H23); [done|]. by apply (pr_dead _ _ H12).
  - intros c Hc. by apply (pr_current _ _ H23), (pr_current _ _ H12).
  - intros c aa Hn Hk Hl. destruct (g2 !! c) as [v|] eqn:E.
    + destruct (pr_new _ _ H12 c aa Hn) as [Hcur Hcov]; [by eauto|done|].
      split; [by apply (pr_current _ _ H23)|]. by eapply covers_mono.
    + by apply (pr_new _ _ H23 c aa).
Qed.

(** The entry of a live server is written, then its gossip is followed. *)
Lemma progress_enter g g' a aa now :
  live !! a = Some aa → progress (<[a := VInfo (KnownChunks aa) false now]> g) g' → covers aa g' →
  progress g g' ∧ current g' a.
Proof.
  intros Ha Hp Hcov. set (g1 := <[a := _]> g) in *.
  assert (current g1 a) as Hcur by (exists (VInfo (KnownChunks aa) false now), aa; unfold g1; by rewrite lookup_insert_eq).
  apply (pr_current _ _ Hp) in Hcur. split; [|done]. split.
  - intros c Hc. apply (pr_keeps _ _ Hp). unfold g1. rewrite lookup_insert_is_Some'. by right.
  - intros c Hc. apply (pr_live _ _ Hp) in Hc as [Hc|]; [|by right].
    unfold g1 in Hc. rewrite lookup_insert_is_Some' in Hc. destruct Hc as [<-|]; [right; eauto|by left].
  - intros c Hn (v & Hv & Hd). apply (pr_dead _ _ Hp); [done|]. exists v. split; [|done].
    unfold g1. rewrite lookup_insert_ne; [done|]. congruence.
  - intros c Hc. apply (pr_current _ _ Hp). destruct (decide (a = c)) as [<-|Hne].
    + exists (VInfo (KnownChunks aa) false now), aa. unfold g1. by rewrite lookup_insert_eq.
    + destruct Hc as (v & x & Hv & Hx). exists v, x. unfold g1. by rewrite lookup_insert_ne.
  - intros c x Hn Hk Hx. destruct (decide (a = c)) as [<-|Hne].
    + split; [done|]. congruence.
    + apply (pr_new _ _ Hp c x); [|done..]. unfold g1. by rewrite lookup_insert_ne.
Qed.

Lemma progress_dead g a : live !! a = None → progress g (spec_DeadServer g a).
Proof.
  intros Hn. unfold spec_DeadServer. destruct (g !! a) as [v|] eqn:Hv; [|apply progress_refl].
  split.
  - intros c Hc. rewrite lookup_insert_is_Some'. by right.
  - intros c Hc. rewrite lookup_insert_is_Some' in Hc. destruct Hc as [<-|]; left; eauto.
  - intros c _ (x & Hx & Hd). destruct (decide (a = c)) as [<-|Hne].
    + exists (VInfo [] true (v_last v)). by rewrite lookup_insert_eq.
    + exists x. by rewrite lookup_insert_ne.
  - intros c (x & aa & Hx & Hl & Hc). exists x, aa. rewrite lookup_insert_ne; [done|]. congruence.
  - intros c aa Hc [x Hx]. rewrite lookup_insert_ne in Hx by congruence. congruence.
Qed.

Lemma dead_after g a : is_Some (g !! a) → deadIn (spec_DeadServer g a) a.
Proof.
  intros [v Hv]. unfold spec_DeadServer. rewrite Hv. exists (VInfo [] true (v_last v)).
  by rewrite lookup_insert_eq.
Qed.

(** ** A request *)

Context (Hping : pings_as) (Hann : well_announced).

(** The live servers that the group does not know. *)
Definition unknown (g : group) : gset addr_t := dom live ∖ dom g.

Lemma unknown_mono g g' : (∀ c, is_Some (g !! c) → is_Some (g' !! c)) → (size (unknown g') ≤ size (unknown g))%nat.
Proof.
  intros Hk. apply subseteq_size. intros c. unfold unknown. rewrite !elem_of_difference, !elem_of_dom.
  naive_solver.
Qed.

Lemma unknown_enter g a aa v :
  live !! a = Some aa → g !! a = None → (size (unknown (<[a := v]> g)) < size (unknown g))%nat.
Proof.
  intros Ha Hg. apply subset_size. split.
  - intros c. unfold unknown. rewrite !elem_of_difference, !elem_of_dom, lookup_insert_is_Some'. naive_solver.
  - intros Hsub. specialize (Hsub a). unfold unknown in Hsub.
    rewrite !elem_of_difference, !elem_of_dom, lookup_insert_eq, Ha, Hg in Hsub.
    destruct Hsub as [_ Hn]; [|by eauto]. split; [eauto|by intros []].
Qed.

Lemma on_group (e : env W) g a : env_rep Inv lh n e g → IsServerOnGroup (e_sg e) a = bool_decide (is_Some (g !! a)).
Proof. intros He. apply IsServerOnGroup_sim, He. Qed.

(** A server that does not answer is asked until it is declared dead. *)
Lemma request_silent a m : ∀ fuel h (e : env W) g,
  env_rep Inv lh n e g → a ≠ lh → live !! a = None → is_Some (g !! a) →
  default 0 (timeouts h !! a) = 3 - Z.of_nat m → (1 ≤ m ≤ fuel)%nat →
  ∃ h' e', request fuel h a e = Ret ((false, h'), e') ∧ env_rep Inv lh n e' (spec_DeadServer g a) ∧
    timeouts h' = delete a (timeouts h).
Proof using Hping.
  induction m as [|m IH]; intros fuel h e g He Hne Hl Hg Ht Hm; [lia|].
  destruct fuel as [|fuel]; [lia|]. cbn [request]. msimpl.
  rewrite decide_False by (rewrite (er_local _ _ _ _ _ He); done). msimpl.
  destruct (Hping (e_net e) a (er_net _ _ _ _ _ He)) as [Hi Hp]. rewrite Hl in Hp. destruct Hp as [err Hp].
  destruct (net_ping (e_net e) a) as [w' x]. cbn in Hi, Hp. subst x. msimpl. unfold pingFailed. msimpl.
  rewrite (on_group e g) by done. rewrite bool_decide_true by done. rewrite Ht.
  destruct (Z.leb_spec 3 (3 - Z.of_nat (S m) + 1)) as [Hlast|Hmore].
  - destruct (env_rep_gop Inv lh n e g (GDead a) (spec_DeadServer g a) None w' He) as (sg' & E & He').
    { cbn. unfold spec_known. by rewrite decide_True. }
    { done. }
    cbn in E. rewrite E. msimpl. do 2 eexists. split; [reflexivity|]. split; [done|].
    cbn. by rewrite delete_insert_eq.
  - destruct (IH fuel (set_timeouts h (<[a := 3 - Z.of_nat (S m) + 1]> (timeouts h)))
                (Env (e_sg e) w') g) as (h' & e' & E & He' & Ht'); try done.
    + by apply env_rep_net.
    + cbn. rewrite lookup_insert_eq. cbn. lia.
    + lia.
    + exists h', e'. split_and!; [done..|]. rewrite Ht'. cbn. by rewrite delete_insert_eq.
Qed.

(** What a request guarantees. *)
Definition answers_for (fuel : nat) : Prop := ∀ h (e : env W) g a,
  env_rep Inv lh n e g → timeouts h = ∅ →
  (size (unknown g) + (if decide (is_Some (g !! a) ∧ is_Some (live !! a)) then 4 else 3) ≤ fuel)%nat →
  ∃ h' e' g', request fuel h a e = Ret ((bool_decide (a = lh ∨ is_Some (live !! a)), h'), e') ∧
    env_rep Inv lh n e' g' ∧ timeouts h' = ∅ ∧ progress g g' ∧
    (a ≠ lh → match live !! a with
              | Some aa => current g' a ∧ covers aa g'
              | None => is_Some (g !! a) → deadIn g' a
              end).

Lemma gossip_added fuel news : answers_for fuel → ∀ h (e : env W) g,
  env_rep Inv lh n e g → timeouts h = ∅ → (size (unknown g) + 3 ≤ fuel)%nat →
  ∃ h' e' g', gossip (request fuel) false h news e = Ret (h', e') ∧
    env_rep Inv lh n e' g' ∧ timeouts h' = ∅ ∧ progress g g' ∧
    ∀ c, c ∈ news → is_Some (live !! c) → c ≠ lh → is_Some (g' !! c).
Proof using Hacc.
  intros IH. induction news as [|a news IHn]; intros h e g He Ht Hf; cbn [gossip].
  { exists h, e, g. split_and!; try done; [apply progress_refl|]. by intros c ?%not_elem_of_nil. }
  msimpl. rewrite (on_group e g) by done. case_bool_decide as Hk; cbn [eqb].
  - destruct (IHn h e g He Ht Hf) as (h' & e' & g' & E & He' & Ht' & Hp & Hc).
    exists h', e', g'. split_and!; try done. intros c [->|Hin]%elem_of_cons Hl Hne; [|by apply Hc].
    by apply (pr_keeps _ _ Hp).
  - destruct (IH h e g a He Ht) as (h1 & e1 & g1 & E1 & He1 & Ht1 & Hp1 & Ha).
    { rewrite decide_False; [lia|]. by intros [? _]. }
    msimpl. rewrite E1. msimpl.
    destruct (IHn h1 e1 g1 He1 Ht1) as (h2 & e2 & g2 & E2 & He2 & Ht2 & Hp2 & Hc).
    { pose proof (unknown_mono g g1 (pr_keeps _ _ Hp1)). lia. }
    exists h2, e2, g2. split_and!; try done; [by eapply progress_trans|].
    intros c [->|Hin]%elem_of_cons Hl Hne; [|by apply Hc].
    apply (pr_keeps _ _ Hp2). destruct Hl as [aa Hl]. specialize (Ha Hne). rewrite Hl in Ha.
    destruct Ha as [(v & x & Hv & _) _]. eauto.
Qed.

Lemma gossip_dead fuel news : answers_for fuel → Forall (λ c, live !! c = None) news →
  ∀ h (e : env W) g, env_rep Inv lh n e g → timeouts h = ∅ → (size (unknown g) + 3 ≤ fuel)%nat →
  ∃ h' e' g', gossip (request fuel) true h news e = Ret (h', e') ∧
    env_rep Inv lh n e' g' ∧ timeouts h' = ∅ ∧ progress g g' ∧
    ∀ c, c ∈ news → c ≠ lh → is_Some (g' !! c) → deadIn g' c.
Proof using Hacc.
  intros IH. induction 1 as [|a news Hnl Hnews IHn]; intros h e g He Ht Hf; cbn [gossip].
  { exists h, e, g. split_and!; try done; [apply progress_refl|]. by intros c ?%not_elem_of_nil. }
  assert (∀ g', progress g g' → is_Some (g' !! a) → is_Some (g !! a)) as Hback.
  { intros g' Hp Ha. destruct (pr_live _ _ Hp a Ha) as [|[? ?]]; [done|congruence]. }
  msimpl. rewrite (on_group e g) by done. case_bool_decide as Hk; cbn [eqb].
  - destruct (IH h e g a He Ht) as (h1 & e1 & g1 & E1 & He1 & Ht1 & Hp1 & Ha).
    { rewrite decide_False; [lia|]. intros [_ [? ?]]. congruence. }
    msimpl. rewrite E1. msimpl.
    destruct (IHn h1 e1 g1 He1 Ht1) as (h2 & e2 & g2 & E2 & He2 & Ht2 & Hp2 & Hc).
    { pose proof (unknown_mono g g1 (pr_keeps _ _ Hp1)). lia. }
    exists h2, e2, g2. split_and!; try done; [by eapply progress_trans|].
    intros c [->|Hin]%elem_of_cons Hne Hs; [|by apply Hc].
    apply (pr_dead _ _ Hp2); [done|]. specialize (Ha Hne). rewrite Hnl in Ha. by apply Ha.
  - destruct (IHn h e g He Ht Hf) as (h' & e' & g' & E & He' & Ht' & Hp & Hc).
    exists h', e', g'. split_and!; try done. intros c [->|Hin]%elem_of_cons Hne Hs; [|by apply Hc].
    destruct Hk. by apply (Hback g').
Qed.

(** A live server is entered into the group with what it announces. *)
Lemma enter_group h a aa (e : env W) g w :
  env_rep Inv lh n e g → Inv w → live !! a = Some aa → timeouts h = ∅ →
  ∃ h' e' now, (h ← addIfUnknown h a; _ ← record a (KnownChunks aa); mret h) (Env (e_sg e) w) = Ret (h', e') ∧
    env_rep Inv lh n e' (<[a := VInfo (KnownChunks aa) false now]> g) ∧ timeouts h' = ∅.
Proof using Hann.
  intros He Hi Ha Ht. unfold addIfUnknown, record, getNow. msimpl. rewrite (on_group e g) by done.
  assert (∀ g0 : group, is_Some (g0 !! a) → spec_gop n g0 (GSet a (KnownChunks aa) (net_now w)) =
    Ret (<[a := VInfo (KnownChunks aa) false (net_now w)]> g0, None)) as Hset.
  { intros g0 [v Hv]. cbn. unfold spec_SetServerChunks. rewrite Hv, decide_True; [done|]. by eapply Hann. }
  case_bool_decide as Hk; msimpl.
  - destruct (env_rep_gop Inv lh n e g _ _ _ w He (Hset g Hk) Hi) as (sg' & E & He').
    cbn [gop_run] in E. destruct (SetServerChunks _ _ _ _) as [x| |]; try done.
    injection E as ->. msimpl. do 3 eexists. split; [reflexivity|]. by split.
  - destruct (env_rep_gop Inv lh n e g (GAdd a) _ _ w He eq_refl Hi) as (sg1 & E1 & He1).
    cbn [gop_run] in E1. injection E1 as Esg _. rewrite Esg.
    assert (spec_AddServer g a = <[a := VInfo [] false zero_time]> g) as Hg1.
    { unfold spec_AddServer. destruct (g !! a); [|done]. destruct Hk. eauto. }
    rewrite Hg1 in He1.
    destruct (env_rep_gop Inv lh n (Env sg1 w) _ _ _ _ w He1 (Hset _ ltac:(rewrite lookup_insert_eq; eauto)) Hi)
      as (sg' & E & He').
    cbn [gop_run e_sg] in E. destruct (SetServerChunks _ _ _ _) as [x| |]; try done.
    injection E as ->. msimpl. do 3 eexists. split; [reflexivity|]. split; [|done].
    by rewrite insert_insert_eq in He'.
Qed.

(** A request to a server that does not answer. *)
Lemma request_fails fuel h (e : env W) g a :
  env_rep Inv lh n e g → timeouts h = ∅ → a ≠ lh → live !! a = None → (3 ≤ S fuel)%nat →
  ∃ h' e' g', request (S fuel) h a e = Ret ((false, h'), e') ∧
    env_rep Inv lh n e' g' ∧ timeouts h' = ∅ ∧ progress g g' ∧ (a ≠ lh → is_Some (g !! a) → deadIn g' a).
Proof using All.
  intros He Ht Hne Ha Hf. destruct (decide (is_Some (g !! a))) as [Hk|Hk].
  - destruct (request_silent a 3 (S fuel) h e g) as (h' & e' & E & He' & Ht'); try done.
    { by rewrite Ht, lookup_empty. }
    { lia. }
    exists h', e', (spec_DeadServer g a). split_and!; try done.
    + by rewrite Ht', Ht, delete_empty.
    + by apply progress_dead.
    + intros _ _. by apply dead_after.
  - cbn [request]. msimpl. rewrite decide_False by (rewrite (er_local _ _ _ _ _ He); done). msimpl.
    destruct (Hping (e_net e) a (er_net _ _ _ _ _ He)) as [Hi Hp]. rewrite Ha in Hp. destruct Hp as [err Hp]. rewrite Hp.
    unfold pingFailed. msimpl. rewrite (on_group e g), bool_decide_false by done. msimpl.
    do 3 eexists. split; [reflexivity|]. split_and!; [by apply env_rep_net| |apply progress_refl|done].
    cbn. by rewrite Ht, delete_empty.
Qed.

Lemma request_answers fuel : answers_for fuel.
Proof using All.
  induction fuel as [|fuel IH]; intros h e g a He Ht Hf; [case_decide; lia|].
  destruct (decide (a = lh)) as [->|Hne].
  { exists h, e, g. cbn [request]. msimpl. rewrite decide_True by (symmetry; apply He).
    rewrite bool_decide_true by (by left). split_and!; try done. apply progress_refl. }
  destruct (live !! a) as [aa|] eqn:Ha; cycle 1.
  { rewrite bool_decide_false by (intros [?|[? [=]]]; done). apply request_fails; try done. case_decide; lia. }
  rewrite bool_decide_true by eauto. cbn [request]. msimpl.
  rewrite decide_False by (rewrite (er_local _ _ _ _ _ He); done). msimpl.
  destruct (Hping (e_net e) a (er_net _ _ _ _ _ He)) as [Hi Hp]. rewrite Ha in Hp. rewrite Hp. msimpl.
  destruct (enter_group (set_timeouts h (delete a (timeouts h))) a aa e g (net_ping (e_net e) a).1)
    as (h1 & e1 & now & E1 & He1 & Ht1); [done..|cbn; by rewrite Ht, delete_empty|].
  rewrite run_bind in E1. destruct (addIfUnknown _ _ _) as [[hx ex]| |]; try done. cbn in E1 |- *.
  rewrite run_bind in E1. rewrite run_bind. destruct (record _ _ _) as [[u ey]| |]; try done.
  cbn in E1. injection E1 as -> ->. msimpl.
  set (g1 := <[a := VInfo (KnownChunks aa) false now]> g) in *.
  assert (size (unknown g1) + 3 ≤ fuel)%nat as Hf1.
  { case_decide as Hd.
    - pose proof (unknown_mono g g1) as Hm. assert (size (unknown g1) ≤ size (unknown g))%nat; [|lia].
      apply Hm. intros c Hc. unfold g1. rewrite lookup_insert_is_Some'. by right.
    - assert (g !! a = None) as Hn by (destruct (g !! a); [destruct Hd; eauto|done]).
      pose proof (unknown_enter g a aa (VInfo (KnownChunks aa) false now) Ha Hn) as Hu. fold g1 in Hu. lia. }
  destruct (gossip_added fuel (RecentlyAddedServers aa) IH h1 e1 g1 He1 Ht1 Hf1)
    as (h2 & e2 & g2 & -> & He2 & Ht2 & Hp2 & Hc2). msimpl.
  destruct (gossip_dead fuel (RecentlyDeadServers aa) IH
              (proj2 (Forall_forall _ _) (λ c Hc, Hacc a aa c Ha Hc)) h2 e2 g2 He2 Ht2)
    as (h3 & e3 & g3 & -> & He3 & Ht3 & Hp3 & Hc3).
  { pose proof (unknown_mono g1 g2 (pr_keeps _ _ Hp2)). lia. }
  msimpl. assert (covers aa g3) as Hcov.
  { split; [|done]. intros c Hc Hl Hn. apply (pr_keeps _ _ Hp3). by apply Hc2. }
  destruct (progress_enter g g3 a aa now Ha (progress_trans _ _ _ Hp2 Hp3) Hcov) as [Hp' Hcur].
  exists h3, e3, g3. by split_and!.
Qed.
End fixed.

(** [b] is heard of from [a], and was not on the group [g]. *)
Definition heard (live : gmap addr_t AmAlive) (lh : addr_t) (g : group) (a b : addr_t) : Prop :=
  ∃ aa, live !! a = Some aa ∧ b ∈ RecentlyAddedServers aa ∧ is_Some (live !! b) ∧ b ≠ lh ∧ g !! b = None.

Lemma heard_discovered live lh g g' a b :
  progress live lh g g' → rtc (heard live lh g) a b →
  (∀ aa, live !! a = Some aa → current live g' a ∧ covers live lh aa g') →
  ∀ bb, live !! b = Some bb → current live g' b ∧ covers live lh bb g'.
Proof.
  intros Hp Hrt. induction Hrt as [a|a x b (aa & Ha & Hin & Hx & Hne & Hn) _ IH]; intros Ha'; [done|].
  apply IH. intros xx Hxx. apply (pr_new _ _ _ _ Hp); [done| |done].
  destruct (Ha' aa Ha) as [_ [Hadd _]]. by apply Hadd.
Qed.

(** C26. While the servers of a network keep their answers and report only dead
    servers as dead (without that a request need not end, [gossip_never_ends]), a
    request to a live server returns, and leaves on the group every server that
    the gossip leads to, with the chunks that it announces; the servers that these
    report dead hold nothing any more. The depth of the recursion is at most the
    number of live servers plus 4. No timeout was counted before, and the
    announced chunks are in range. *)
Theorem gossip_discovers `{Network W} Inv live lh n fuel h (e : env W) g a :
  pings_as Inv live → well_announced live n → accurate live →
  env_rep Inv lh n e g → timeouts h = ∅ → a ≠ lh → is_Some (live !! a) →
  (size live + 4 ≤ fuel)%nat →
  ∃ h' e', request fuel h a e = Ret ((true, h'), e') ∧
    ∀ b bb, rtc (heard live lh g) a b → live !! b = Some bb →
      IsServerOnGroup (e_sg e') b = true ∧ GetServerChunks (e_sg e') b = Ret (KnownChunks bb) ∧
      ∀ c, c ∈ RecentlyDeadServers bb → c ≠ lh → GetServerChunks (e_sg e') c = Ret [].
Proof.
  intros Hping Hann Hacc He Ht Hne Hl Hf.
  destruct (request_answers Inv live lh n Hacc Hping Hann fuel h e g a He Ht) as (h' & e' & g' & E & He' & _ & Hp & Ha).
  { assert (size (unknown live g) ≤ size live)%nat; [|case_decide; lia].
    rewrite <- (size_dom (D := gset addr_t)). apply subseteq_size. unfold unknown. set_solver. }
  rewrite bool_decide_true in E by (by right). exists h', e'. split; [done|]. intros b bb Hrt Hb.
  destruct (heard_discovered live lh g g' a b Hp Hrt) with (bb := bb) as [(v & x & Hv & Hx & Hh & _) [_ Hd]];
    [|done|].
  { intros aa Haa. specialize (Ha Hne). by rewrite Haa in Ha. }
  pose proof (er_group _ _ _ _ _ He') as Hr. assert (x = bb) as -> by congruence.
  rewrite (IsServerOnGroup_sim (e_sg e') g' Hr), (GetServerChunks_sim (e_sg e') g' _ Hr), Hv. cbn. rewrite Hh.
  split_and!; [done|done|]. intros c Hc Hnc.
  rewrite (GetServerChunks_sim (e_sg e') g' _ Hr). destruct (g' !! c) as [y|] eqn:Hy; [|done]. cbn.
  destruct (Hd c Hc Hnc) as (z & Hz & _ & Hz'); [eauto|]. congruence.
Qed.

(** ** Failures *)

Section failures.
Context {W : Type} `{Network W} (Inv : W → Prop) (lh : addr_t) (n : Z).

(** The server at [a] answers [aa]. *)
Definition answers (a : addr_t) (aa : AmAlive) : Prop :=
  ∀ w, Inv w → Inv (net_ping w a).1 ∧ (net_ping w a).2 = inr aa.

Lemma request_known fuel h a aa (e : env W) g :
  answers a aa → env_rep Inv lh n e g → a ≠ lh → is_Some (g !! a) →
  Forall (in_range n) (KnownChunks aa) → RecentlyAddedServers aa = [] →
  ∃ h' e' v, env_rep Inv lh n e' (<[a := v]> g) ∧
    request (S fuel) h a e =
      (h ← gossip (request fuel) true h' (RecentlyDeadServers aa); mret (true, h)) e'.
Proof.
  intros Ha He Hne Hk Hin Hadd. cbn [request]. msimpl.
  rewrite decide_False by (rewrite (er_local _ _ _ _ _ He); done). msimpl.
  destruct (Ha (e_net e) (er_net _ _ _ _ _ He)) as [Hi Hr]. rewrite Hr. msimpl.
  unfold addIfUnknown, record, getNow. msimpl. rewrite (on_group Inv lh n e g), bool_decide_true by done. msimpl.
  set (w := (net_ping (e_net e) a).1).
  destruct (env_rep_gop Inv lh n e g (GSet a (KnownChunks aa) (net_now w))
              (<[a := VInfo (KnownChunks aa) false (net_now w)]> g) None w He) as (sg' & E & He').
  { destruct Hk as [v Hv]. cbn. unfold spec_SetServerChunks. by rewrite Hv, decide_True. }
  { exact Hi. }
  cbn [gop_run] in E. destruct (SetServerChunks _ _ _ _) as [x| |]; try done.
  injection E as ->. msimpl. rewrite Hadd. cbn [gossip]. msimpl.
  do 3 eexists. split; [exact He'|]. by rewrite run_bind.
Qed.

(** Two servers that report each other dead. *)
Lemma request_forever fuel : ∀ b c bb cc h (e : env W) g,
  answers b bb → answers c cc → env_rep Inv lh n e g → b ≠ lh → c ≠ lh →
  is_Some (g !! b) → is_Some (g !! c) →
  Forall (in_range n) (KnownChunks bb) → Forall (in_range n) (KnownChunks cc) →
  RecentlyAddedServers bb = [] → RecentlyAddedServers cc = [] →
  head (RecentlyDeadServers bb) = Some c → head (RecentlyDeadServers cc) = Some b →
  request fuel h b e = OutOfFuel.
Proof.
  induction fuel as [|fuel IH];
    intros b c bb cc h e g Hb Hc He Hnb Hnc Hkb Hkc Hib Hic Hab Hac Hdb Hdc; [done|].
  destruct (request_known fuel h b bb e g Hb He Hnb Hkb Hib Hab) as (h' & e' & v & He' & ->).
  destruct (RecentlyDeadServers bb) as [|x news] eqn:Ebb; [done|]. injection Hdb as ->.
  rewrite run_bind. cbn [gossip]. msimpl. rewrite (on_group Inv lh n e' (<[b := v]> g)) by done.
  rewrite bool_decide_true by (rewrite lookup_insert_is_Some'; by right). cbn [eqb]. msimpl.
  assert (request fuel h' c e' = OutOfFuel) as ->; [|done].
  apply (IH c b cc bb h' e' (<[b := v]> g)); try done; [rewrite lookup_insert_is_Some'; by right..|by rewrite Ebb].
Qed.
End failures.

(** Two known servers that answer and report each other dead, as when only
    the link between them is down, keep the heartbeater of a third one in the
    recursion of [request] whatever the fuel: it asks no other server.  The
    packets of today hide this, because their decoding loses the reports of
    deaths ([heartbeat_dead_lost]); a decoding that kept them would show it. *)
Theorem gossip_never_ends `{Network W} Inv lh n b c bb cc h (e : env W) g fuel :
  answers Inv b bb → answers Inv c cc → env_rep Inv lh n e g → b ≠ lh → c ≠ lh →
  is_Some (g !! b) → is_Some (g !! c) →
  Forall (in_range n) (KnownChunks bb) → Forall (in_range n) (KnownChunks cc) →
  RecentlyAddedServers bb = [] → RecentlyAddedServers cc = [] →
  head (RecentlyDeadServers bb) = Some c → head (RecentlyDeadServers cc) = Some b →
  request fuel h b e = OutOfFuel.
Proof. intros. by eapply request_forever. Qed.

(** A heartbeat that announces a chunk out of the range of the database
    crashes the server that asked for it. *)
Theorem heartbeat_out_of_range `{Network W} Inv lh n h (e : env W) g a aa fuel :
  answers Inv a aa → env_rep Inv lh n e g → a ≠ lh → ¬ Forall (in_range n) (KnownChunks aa) →
  request (S fuel) h a e = Panic.
Proof.
  intros Ha He Hne Hin. cbn [request]. msimpl.
  rewrite decide_False by (rewrite (er_local _ _ _ _ _ He); done). msimpl.
  destruct (Ha (e_net e) (er_net _ _ _ _ _ He)) as [Hi Hreply]. rewrite Hreply. msimpl.
  set (w := (net_ping (e_net e) a).1).
  assert (∀ sg g', env_rep Inv lh n (Env sg w) g' → is_Some (g' !! a) →
    SetServerChunks sg a (KnownChunks aa) (net_now w) = Panic) as Hset.
  { intros sg g' [Hr Hn _ _] [v Hv]. pose proof (SetServerChunks_sim sg g' a (KnownChunks aa) (net_now w) Hr) as H'.
    unfold spec_SetServerChunks in H'. cbn in Hn. rewrite Hv, Hn, decide_False in H' by done. done. }
  unfold addIfUnknown, record, getNow. msimpl. rewrite (on_group Inv lh n e g) by done.
  case_bool_decide as Hk; msimpl.
  - rewrite (Hset _ g); [done|by apply env_rep_net|done].
  - destruct (env_rep_gop Inv lh n e g (GAdd a) _ _ w He eq_refl Hi) as (sg1 & E1 & He1).
    cbn [gop_run] in E1. injection E1 as Esg _. rewrite Esg. rewrite (Hset _ (spec_AddServer g a)); [done|done|].
    unfold spec_AddServer. destruct (g !! a) eqn:Eg; [eauto|]. rewrite lookup_insert_eq. eauto.
Qed.

(** ** A network of fixed answers, with a clock *)

Definition fixedNet (live : gmap addr_t AmAlive) : Network time := {|
  net_now w := w;
  net_dial w _ := (w, None);
  net_send w _ _ := w;
  net_call w _ _ _ := (w, Broker.Result [] None);
  net_ping w a := (w + 1, match live !! a with Some aa => inr aa | None => inl "timeout"%string end)
|}.

Definition anyTime (w : time) : Prop := True.

Lemma fixedNet_pings live : pings_as (H := fixedNet live) anyTime live.
Proof. intros w a _. cbn. split; [done|]. destruct (live !! a); eauto. Qed.

Definition group_after (ops : list gop) : group :=
  match spec_gops 4 ∅ ops with Ret (g, _) => g | _ => ∅ end.

Lemma sample_env ops :
  is_panic (spec_gops 4 ∅ ops) = false → ∃ e : env time, env_rep anyTime (str "me:1") 4 e (group_after ops).
Proof.
  unfold group_after. intros Hok. destruct (spec_gops 4 ∅ ops) as [[g es]| |] eqn:E; [|done|]; cycle 1.
  { exfalso. clear Hok. revert E. generalize (∅ : group). induction ops as [|o ops IH]; intros g E; [done|].
    cbn in E. destruct (spec_gop 4 g o) as [[g1 r]| |] eqn:E1; cbn in E; [|done|].
    - specialize (IH g1). destruct (spec_gops 4 g1 ops); cbn in E; [done..|]. by apply IH.
    - destruct o; cbn in E1; try done. unfold spec_SetServerChunks in E1. by repeat case_match. }
  clear Hok. destruct (Create_rep 4 1 (str "me:1")) as (sg0 & E0 & Hr0 & Hn0 & _); [lia|].
  assert (env_rep anyTime (str "me:1") 4 (Env sg0 0) ∅) as He0.
  { split; cbn; [done..| |exact I]. revert E0. unfold CreateServerGroup. destruct (newChunks 4); cbn; [|done..].
    by intros [= <-]. }
  clear E0 Hr0 Hn0. generalize dependent (Env sg0 0). revert g es E. generalize (∅ : group) as g0.
  induction ops as [|o ops IH]; intros g0 g es E e He.
  - injection E as <- <-. by exists e.
  - cbn in E. destruct (spec_gop 4 g0 o) as [[g1 r]| |] eqn:E1; try done. cbn in E.
    destruct (spec_gops 4 g1 ops) as [[g2 rs]| |] eqn:E2; try done. injection E as <- <-.
    destruct (env_rep_gop _ _ _ e g0 o g1 r 0 He E1 I) as (sg1 & _ & He1). by eapply IH.
Qed.

(** [me] asks [a], which heard of [b], which found [c] dead. *)
Definition sample_live : gmap addr_t AmAlive :=
  <[str "a:1" := AmAliveMsg [AAChunk 0 7] [str "b:1"] []]>
  (<[str "b:1" := AmAliveMsg [AAChunk 1 8] [str "a:1"] [str "c:1"]]> ∅).

Lemma sample_announced : well_announced sample_live 4.
Proof.
  refine (bool_decide_unpack (map_Forall (λ _ aa, Forall (in_range 4) (KnownChunks aa)) sample_live) _).
  vm_compute. exact I.
Qed.

Lemma sample_accurate : accurate sample_live.
Proof.
  intros a aa c Ha Hc.
  assert (map_Forall (λ _ aa, Forall (λ c, sample_live !! c = None) (RecentlyDeadServers aa)) sample_live) as HF
    by (refine (bool_decide_unpack _ _); vm_compute; exact I).
  exact (proj1 (Forall_forall _ _) (HF a aa Ha) c Hc).
Qed.

Lemma gossip_discovers_witness :
  ∃ e : env time, ∃ h' e',
    request (H := fixedNet sample_live) 6 newHeartbeater (str "a:1") e = Ret ((true, h'), e') ∧
    GetServerChunks (e_sg e') (str "b:1") = Ret [AAChunk 1 8] ∧
    GetServerChunks (e_sg e') (str "c:1") = Ret [].
Proof.
  destruct (sample_env [GAdd (str "c:1"); GSet (str "c:1") [AAChunk 3 1] 0] eq_refl) as (e & He).
  exists e. destruct (gossip_discovers (H := fixedNet sample_live) anyTime sample_live (str "me:1") 4 6
    newHeartbeater e (group_after [GAdd (str "c:1"); GSet (str "c:1") [AAChunk 3 1] 0]) (str "a:1")
    (fixedNet_pings sample_live)) as (h' & e' & E & Hall).
  - exact sample_announced.
  - exact sample_accurate.
  - exact He.
  - done.
  - by vm_compute.
  - eexists. vm_compute. reflexivity.
  - apply Nat.leb_le. vm_compute. reflexivity.
  - exists h', e'. split; [exact E|].
    destruct (Hall (str "b:1") (AmAliveMsg [AAChunk 1 8] [str "a:1"] [str "c:1"])) as (_ & H1 & H2).
    + apply rtc_once. exists (AmAliveMsg [AAChunk 0 7] [str "b:1"] []).
      split_and!; [by vm_compute|left|eexists; vm_compute; reflexivity|by vm_compute|by vm_compute].
    + by vm_compute.
    + split; [exact H1|]. apply H2; [left|by vm_compute].
Defined.

Definition feud_live : gmap addr_t AmAlive :=
  <[str "a:1" := AmAliveMsg [] [] [str "b:1"]]> (<[str "b:1" := AmAliveMsg [] [] [str "a:1"]]> ∅).

Lemma gossip_never_ends_witness :
  ∃ e : env time, request (H := fixedNet feud_live) 1000 newHeartbeater (str "a:1") e = OutOfFuel.
Proof.
  destruct (sample_env [GAdd (str "a:1"); GAdd (str "b:1")] eq_refl) as (e & He).
  exists e. eapply (gossip_never_ends (H := fixedNet feud_live) anyTime (str "me:1") 4 (str "a:1") (str "b:1")
    (AmAliveMsg [] [] [str "b:1"]) (AmAliveMsg [] [] [str "a:1"]) newHeartbeater e
    (group_after [GAdd (str "a:1"); GAdd (str "b:1")]) 1000); try exact He;
    try (by vm_compute); try (by intros w); try (eexists; vm_compute; reflexivity); by constructor.
Defined.

Lemma heartbeat_out_of_range_witness :
  ∃ e : env time, request (H := fixedNet (<[str "a:1" := AmAliveMsg [AAChunk 9 0] [] []]> ∅)) 1
    newHeartbeater (str "a:1") e = Panic.
Proof.
  destruct (sample_env [] eq_refl) as (e & He). exists e.
  eapply (heartbeat_out_of_range (H := fixedNet _) anyTime (str "me:1") 4 newHeartbeater e (group_after []) (str "a:1")
    (AmAliveMsg [AAChunk 9 0] [] []) 0); [by intros w|exact He|by vm_compute|].
  intros [Hr _]%Forall_cons. unfold in_range in Hr. cbn in Hr. lia.
Defined.
