(* ===== verification/HeartbeatTurn.v ===== *)
(** * A turn of the heartbeater

    [Start] and every turn of the loop in the background
    ([src/dist/heartbeat/heartbeat.go]) ask all the servers of the group.  While
    the servers keep their answers, a turn brings the whole group up to date. *)
From S2P Require Import Prelude.
From S2P Require Import Store.
From S2P Require Import UdpHeartbeat.
From S2P Require Import ServerGroup.
From S2P Require Import ServerGroupSpec.
From S2P Require Import Remote.
From S2P Require Import Heartbeat.
From S2P Require Import HeartbeatProps.

(** ** The servers of the group keep their place *)

Section keeps.
Context {W : Type} `{Network W}.

Definition keeps {A} (m : comp W A) : Prop :=
  ∀ e x e', m e = Ret (x, e') → keeps_ptrs (e_sg e) (e_sg e').

Lemma keeps_ret {A} (x : A) : keeps (mret x).
Proof. by intros e y e' [= <- <-]. Qed.

Lemma keeps_bind {A B} (m : comp W A) (f : A → comp W B) :
  keeps m → (∀ x, keeps (f x)) → keeps (m ≫= f).
Proof.
  intros Hm Hf e y e'. rewrite run_bind. destruct (m e) as [[x e1]| |] eqn:E; cbn; try done.
  intros E'. etrans; [by eapply Hm|by eapply Hf].
Qed.

Lemma keeps_get_sg : keeps get_sg.
Proof. by intros e y e' [= <- <-]. Qed.
Lemma keeps_on_net {A} (f : W → W * A) : keeps (on_net f).
Proof. by intros e y e' [= <- <-]. Qed.

(** An operation on the group. *)
Lemma keeps_record addr cs : keeps (record addr cs).
Proof.
  intros e x e'. unfold record, getNow. msimpl.
  destruct (SetServerChunks _ _ _ _) as [sg| |] eqn:E; [|done..]. msimpl. intros [= <- <-].
  eapply (gop_keeps (e_sg e) (GSet _ _ _)). cbn [gop_run]. by rewrite E.
Qed.

Lemma keeps_addIfUnknown h addr : keeps (addIfUnknown h addr).
Proof.
  intros e x e'. unfold addIfUnknown, getNow. msimpl.
  destruct (IsServerOnGroup _ _); msimpl; intros [= <- <-]; [done|].
  by eapply (gop_keeps (e_sg e) (GAdd addr)).
Qed.

Lemma keeps_pingFailed again h addr : (∀ h a, keeps (again h a)) → keeps (pingFailed again h addr).
Proof.
  intros Hag e x e'. unfold pingFailed, getNow. msimpl.
  destruct (IsServerOnGroup _ _); msimpl; [|by intros [= <- <-]].
  destruct (3 <=? _); [|apply Hag]. msimpl. destruct (DeadServer _ _) as [[sg err]| |] eqn:E; [|done..]. msimpl.
  intros [= <- <-]. by eapply (gop_keeps (e_sg e) (GDead addr)).
Qed.

Lemma keeps_gossip req known news : (∀ h a, keeps (req h a)) → ∀ h, keeps (gossip req known h news).
Proof.
  intros Hreq. induction news as [|a news IH]; intros h; cbn [gossip]; [apply keeps_ret|].
  apply keeps_bind; [apply keeps_get_sg|]. intros sg. destruct (eqb _ _); [|apply IH].
  by apply keeps_bind.
Qed.

Lemma keeps_request fuel : ∀ h a, keeps (request fuel h a).
Proof.
  induction fuel as [|fuel IH]; intros h a; cbn [request]; [done|].
  apply keeps_bind; [apply keeps_get_sg|]. intros sg. case_decide; [apply keeps_ret|].
  apply keeps_bind; [apply keeps_on_net|]. intros [err|aa]; [by apply keeps_pingFailed|].
  apply keeps_bind; [apply keeps_addIfUnknown|]. intros h1. apply keeps_bind; [apply keeps_record|]. intros _.
  apply keeps_bind; [by apply keeps_gossip|]. intros h2. apply keeps_bind; [by apply keeps_gossip|].
  intros h3. apply keeps_ret.
Qed.
End keeps.

(** ** All the servers of the group *)

Section turn.
Context {W : Type} `{Network W}.
Context (Inv : W → Prop) (live : gmap addr_t AmAlive) (lh : addr_t) (n : Z).
Context (Hacc : accurate live) (Hping : pings_as Inv live) (Hann : well_announced live n).

(** The group has what the server at [a] announces, or knows that it is dead. *)
Definition refreshed (g : group) (a : addr_t) : Prop :=
  match live !! a with
  | Some aa => current live g a ∧ covers live lh aa g
  | None => deadIn g a
  end.

Lemma refreshed_mono g g' a : progress live lh g g' → refreshed g a → refreshed g' a.
Proof using Hacc.
  intros Hp. unfold refreshed. destruct (live !! a) as [aa|] eqn:Ha.
  - intros [Hc Hcov]. split; [by apply (pr_current _ _ _ _ Hp)|by eapply covers_mono].
  - by apply (pr_dead _ _ _ _ Hp).
Qed.

Lemma requestAll_answers fuel ps : (size live + 4 ≤ fuel)%nat → ∀ addrs h (e : env W) g,
  env_rep Inv lh n e g → timeouts h = ∅ → located (e_sg e) ps addrs → Forall (λ a, is_Some (g !! a)) addrs →
  ∃ h' e' g', requestAll fuel h ps e = Ret (h', e') ∧ env_rep Inv lh n e' g' ∧ timeouts h' = ∅ ∧
    progress live lh g g' ∧ Forall (λ a, a ≠ lh → refreshed g' a) addrs.
Proof using All.
  intros Hf. induction ps as [|p ps IH]; intros addrs h e g He Ht Hl Hk.
  { apply Forall2_nil_inv_l in Hl as ->. exists h, e, g. split_and!; try done. apply progress_refl. }
  apply Forall2_cons_inv_l in Hl as (a & l & (s & Hs & <-) & Hl & ->). apply Forall_cons in Hk as [Ha Hk].
  cbn [requestAll]. msimpl. unfold deref. rewrite Hs. msimpl.
  destruct (request_answers Inv live lh n Hacc Hping Hann fuel h e g (Phy s) He Ht)
    as (h1 & e1 & g1 & E1 & He1 & Ht1 & Hp1 & Hr1).
  { assert (size (unknown live g) ≤ size live)%nat; [|case_decide; lia].
    rewrite <- (size_dom (D := gset addr_t)). apply subseteq_size. unfold unknown. set_solver. }
  rewrite E1. msimpl.
  destruct (IH l h1 e1 g1 He1 Ht1) as (h2 & e2 & g2 & E2 & He2 & Ht2 & Hp2 & Hr2).
  { eapply located_keeps; [by eapply keeps_request|done]. }
  { eapply Forall_impl; [exact Hk|]. intros b Hb. by apply (pr_keeps _ _ _ _ Hp1). }
  exists h2, e2, g2. split_and!; try done; [by eapply progress_trans|].
  constructor; [|done]. intros Hne. apply (refreshed_mono g1); [done|]. unfold refreshed. specialize (Hr1 Hne).
  destruct (live !! Phy s); [done|by apply Hr1].
Qed.

(** What a turn leaves: every server of the group is refreshed, the ones that
    joined it on the way included. *)
Lemma turn_refreshes fuel h (e : env W) g :
  env_rep Inv lh n e g → timeouts h = ∅ → (size live + 4 ≤ fuel)%nat →
  ∃ h' e' g', requestAll fuel h (Servers (e_sg e)) e = Ret (h', e') ∧ env_rep Inv lh n e' g' ∧
    timeouts h' = ∅ ∧ progress live lh g g' ∧ ∀ a, is_Some (g' !! a) → a ≠ lh → refreshed g' a.
Proof using All.
  intros He Ht Hf. destruct (Servers_located _ _ (er_group _ _ _ _ _ He)) as (Hl & _ & Hm).
  destruct (requestAll_answers fuel (Servers (e_sg e)) Hf _ h e g He Ht Hl) as (h' & e' & g' & E & He' & Ht' & Hp & Hr).
  { apply Forall_forall. intros a. apply Hm. }
  exists h', e', g'. split_and!; try done. intros a Ha Hne. destruct (g !! a) as [v|] eqn:Hg.
  - apply (proj1 (Forall_forall _ _) Hr); [|done]. apply Hm. by eexists.
  - destruct (pr_live _ _ _ _ Hp a Ha) as [[? ?]|[aa Haa]]; [congruence|]. unfold refreshed. rewrite Haa.
    by apply (pr_new _ _ _ _ Hp a aa).
Qed.
End turn.


