(* ===== verification/Server.v ===== *)
(** * The server ([src/server/server.go], [src/com/comserver.go])

    A server dispatches the messages it receives to its core and its group.  A
    message is processed as a whole; the transfer that it may start is a job of
    its own. *)
From stdpp Require Import pretty.
From S2P Require Import Prelude.
From S2P Require Import Store.
From S2P Require Import PMap.
From S2P Require Import UdpHeartbeat.
From S2P Require Import TcpMessage.
From S2P Require Import Broker.
From S2P Require Import Core.
From S2P Require Import ServerGroup.
From S2P Require Import Remote.
From S2P Require Import Heartbeat.

Record DBServer := mkDB {
  s_core : Core;
  s_sg : ServerGroup;
  s_hb : Heartbeater;
  s_stopped : bool
}.

Definition set_core (s : DBServer) (c : Core) : DBServer := mkDB c (s_sg s) (s_hb s) (s_stopped s).

(** A transfer of a chunk to an address. *)
Record job := Transfer { j_chunk : Z; j_addr : addr_t }.

(** encoding/json on the serializable part of a group. *)
Class Json := {
  json_marshal : serializableServerGroup → list byte;
  json_unmarshal : list byte → error + serializableServerGroup
}.

Section server.
Context {J : Json}.

(** The response to a request with an error or not. *)
Definition outcomeResponse (id : Z) (err : option error) : Message :=
  match err with
  | None => Msg Operation.OpOK id [] []
  | Some e => Msg Operation.OpErr id [] (str e)
  end.

Definition errNotSupported : error := "Operation not supported".

(** At clock reading [now]. *)
Definition processMessage (now : time) (s : DBServer) (m : Message) :
    outcome (DBServer * Message * option job) :=
  let id := mID m in
  let op := mType m in
  if s_stopped s then Ret (s, Msg 0 0 [] [], None)
  else if op =? Operation.OpGet then
    v ← CoreGet (s_core s) (mKey m);
    (* the error is dropped, and a missing value is the empty one *)
    let value := match v with inr (Some v) => v | _ => [] end in
    Ret (s, Msg Operation.OpResponse id [] value, None)
  else if op =? Operation.OpSet then
    r ← CoreSet (s_core s) (mKey m) (mValue m);
    Ret (set_core s r.1, outcomeResponse id r.2, None)
  else if op =? Operation.OpAsyncSet then
    r ← CoreSet (s_core s) (mKey m) (mValue m);
    Ret (set_core s r.1, Msg 0 id [] [], None)
  else if op =? Operation.OpCAS then
    r ← CoreCAS (s_core s) (mKey m) (mValue m) (IsSynched (s_sg s));
    Ret (set_core s r.1, outcomeResponse id r.2, None)
  else if op =? Operation.OpDel then
    r ← CoreDelete (s_core s) (mKey m) (mValue m);
    Ret (set_core s r.1, outcomeResponse id r.2, None)
  else if op =? Operation.OpTransfer then
    chunkID ← get_le 4 (mKey m);
    Ret (s, Msg Operation.OpOK id [] [], Some (Transfer chunkID (mValue m)))
  else if op =? Operation.OpGetConf then
    Ret (s, Msg Operation.OpResponse id [] (json_marshal (Marshal (s_sg s))), None)
  else if op =? Operation.OpAddServerToGroup then
    let addr := mKey m in
    Ret (mkDB (s_core s) (AddServerToGroup (s_sg s) addr).1 (GossipAdded (s_hb s) addr now) (s_stopped s),
         Msg Operation.OpOK id [] [], None)
  else if op =? Operation.OpGetChunkInfo then
    chunkID ← get_le 4 (mKey m);
    length ← LengthOfChunk (s_core s) chunkID;
    Ret (s, Msg Operation.OpResponse id [] (le_enc 8 length), None)
  else if op =? Operation.OpProtect then
    chunkID ← get_le 4 (mKey m);
    n ← NumHolders (s_sg s) chunkID;
    if redundancy (s_sg s) <? n then
      r ← ChunkSetProtected (s_core s) chunkID now;
      Ret (set_core s r.1, outcomeResponse id r.2, None)
    else Ret (s, Msg Operation.OpErr id [] [], None)
  else if op =? Operation.OpSetBuffered then Ret (s, Msg Operation.OpSetBuffered id [] [], None)
  else if op =? Operation.OpSetNoDelay then Ret (s, Msg Operation.OpSetNoDelay id [] [], None)
  else Ret (s, Msg Operation.OpErr id [] (str errNotSupported), None).

(** The loop of [listenRequests] over the messages of a connection, at the
    readings of the clock that go with them: a response of type 0 is dropped. *)
Fixpoint listenRequests (s : DBServer) (ms : list (time * Message)) :
    outcome (DBServer * list Message * list job) :=
  match ms with
  | [] => Ret (s, [], [])
  | (now, m) :: ms =>
      r ← processMessage now s m;
      rs ← listenRequests r.1.1 ms;
      Ret (rs.1.1,
           (if 0 <? mType r.1.2 then [r.1.2] else []) ++ rs.1.2,
           match r.2 with Some j => [j] | None => [] end ++ rs.2)
  end.

(** [Stop] closes the files and the connections; the listeners are those of
    [ComServer]. *)
Definition ServerStop `{Gommap} (s : DBServer) : outcome DBServer :=
  c ← CoreClose (s_core s);
  Ret (mkDB c (ServerGroup.Stop (s_sg s)) (HBStop (s_hb s)) true).

Section network.
Context {W : Type} `{Network W}.

(** The callback of a transfer: each hundredth pair waits for its response. *)
Definition transferPair (addr : addr_t) (acc : Z * W) (key value : list byte) :
    outcome ((Z * W) * bool) :=
  let i := acc.1 in
  let w := acc.2 in
  let w' :=
    if i mod 100 =? 0
    then (net_call w addr (message Operation.OpSet key value) requestTimeout).1
    else net_send w addr (message Operation.OpAsyncSet key value) in
  Ret ((i + 1, w'), true).

(** The goroutine of a transfer.  [defer c.Close()] comes before the check of
    the error, and a failed [CreateConnection] returns nil. *)
Definition runTransfer (c : Core) (j : job) (w : W) : outcome W :=
  let d := net_dial w (j_addr j) in
  match d.2 with
  | Some _ => Panic
  | None =>
      r ← CoreIterate (transferPair (j_addr j)) c (j_chunk j) (0, d.1);
      Ret (match r with inr acc => acc.2 | inl _ => d.1 end)
  end.

(** A message with the goroutine that it starts, if any, run to its end. *)
Definition handle (now : time) (s : DBServer) (m : Message) (w : W) : outcome (DBServer * Message * W) :=
  r ← processMessage now s m;
  w ← match r.2 with Some j => runTransfer (s_core r.1.1) j w | None => Ret w end;
  Ret (r.1.1, r.1.2, w).

(** ** Start up *)

(** [localIP + ":" + fmt.Sprint(localPort)]. *)
Definition hostPort (localIP : addr_t) (localPort : Z) : addr_t :=
  localIP ++ str ":" ++ str (pretty localPort).

Fixpoint setAllPresent `{Gommap} (c : Core) (i : Z) (n : nat) : outcome Core :=
  match n with
  | O => Ret c
  | S n => c ← ChunkSetPresent c i; setAllPresent c (i + 1) n
  end.

(** The list of all the chunks, with no checksum. *)
Definition allChunks (n : Z) : list AmAliveChunk :=
  map (λ i, AAChunk (Z.of_nat i) 0) (seq 0 (Z.to_nat n)).

(** [files] is the directory [chunks/]. *)
Definition Create `{Gommap} (fuel : nat) (localIP : addr_t) (localPort : Z) (path : string)
    (files : list (string * list byte)) (size : Z) (openDB : bool) (numChunks redundancy : Z) (w : W) :
    outcome (DBServer * W) :=
  let addr := hostPort localIP localPort in
  c ← CoreNew path size numChunks;
  c ← (if openDB then CoreOpen c files else setAllPresent c 0 (Z.to_nat numChunks));
  sg ← CreateServerGroup numChunks redundancy addr;
  let sg := (AddServerToGroup sg addr).1 in
  sg ← SetServerChunks sg addr (allChunks numChunks) (net_now w);
  r ← HBStart fuel (Env sg w);
  Ret (mkDB c (e_sg r.2) r.1 false, e_net r.2).

(** [servergroup.Assoc]: the group becomes the one that [addr] describes. *)
Definition groupAssoc (addr localhost : addr_t) : comp W (option error) :=
  err ← on_net (λ w, net_dial w addr);
  match err with
  | Some e => mret (Some e)
  | None =>
      r ← connGetAccessInfo addr;
      match r.2 with
      | Some e => mret (Some e)
      | None =>
          match json_unmarshal r.1 with
          | inl e => mret (Some e)
          | inr ssg =>
              sg ← lift (UnmarhalServerGroup ssg);
              _ ← put_sg (mkGroup localhost (numChunks sg) (redundancy sg) (servers sg)
                            (ServerGroup.chunks sg) (noDelay sg) (mem sg));
              mret None
          end
      end
  end.

(** Ask each server to add [addr]; did one of them answer? *)
Fixpoint announceTo (addr : addr_t) (ps : list sptr) (added : bool) : comp W bool :=
  match ps with
  | [] => mret added
  | p :: ps =>
      err ← vsAddServerToGroup p addr;
      announceTo addr ps (match err with None => true | Some _ => added end)
  end.

Definition Assoc `{Gommap} (fuel : nat) (localIP : addr_t) (localPort : Z) (path : string)
    (files : list (string * list byte)) (size : Z) (openDB : bool) (assocAddr : addr_t) :
    comp W DBServer :=
  let addr := hostPort localIP localPort in
  err ← groupAssoc assocAddr addr;
  match err with
  | Some _ => lift Panic
  | None =>
      sg ← get_sg;
      c ← lift (CoreNew path size (numChunks sg));
      c ← (if openDB then lift (CoreOpen c files) else mret c);
      added ← announceTo addr (Servers sg) false;
      _ ← lift (check added);
      sg ← get_sg;
      _ ← put_sg (AddServerToGroup sg addr).1;
      h ← HBStart fuel;
      sg ← get_sg;
      mret (mkDB c sg h false)
  end.
End network.
End server.
