(* ===== verification/ServerProps.v ===== *)
(** * What a server guarantees

    The abstract state of a server is that of its core and of its group.  A
    request has the effect of the primitive on the core and its response carries
    the reply; the requests that crash the server are listed. *)
From S2P Require Import Prelude.
From S2P Require Import Hashing.
From S2P Require Import Store.
From S2P Require Import PMap.
From S2P Require Import PMapSpec.
From S2P Require Import Chunk.
From S2P Require Import PMapProps.
From S2P Require Import PMapIter.
From S2P Require Import UdpHeartbeat.
From S2P Require Import TcpMessage.
From S2P Require Import Broker.
From S2P Require Import Core.
From S2P Require Import CoreProps.
From S2P Require Import CoreFiles.
From S2P Require Import ServerGroup.
From S2P Require Import ServerGroupSpec.
From S2P Require Import Remote.
From S2P Require Import Heartbeat.
From S2P Require Import Server.

(** The place of a key is never computed in a proof. *)
#[local] Opaque chunkIndex.

Record server_rep (s : DBServer) (As : list (option abs)) (g : group) : Prop := ServerRep {
  sv_core : core_rep (s_core s) As;
  sv_group : sg_rep (s_sg s) g;
  sv_chunks : numChunks (s_sg s) = zlen As;
  sv_running : s_stopped s = false
}.

Lemma server_rep_core s As g c As' :
  server_rep s As g → core_rep c As' → zlen As' = zlen As → server_rep (set_core s c) As' g.
Proof. intros [H1 H2 H3 H4] Hc Hl. split; cbn; [done..| |done]. by rewrite Hl. Qed.

(** ** Requests of the primitives *)

Definition requestOf (id : Z) (o : op) : Message :=
  match o with
  | OpGet k => Msg Operation.OpGet id k []
  | OpSet k v => Msg Operation.OpSet id k v
  | OpCAS k x => Msg Operation.OpCAS id k x
  | OpDel k x => Msg Operation.OpDel id k x
  end.

Definition answerOf (id : Z) (r : reply) : Message :=
  match r with
  | RValue (Some v) => Msg Operation.OpResponse id [] v
  | RValue None => Msg Operation.OpResponse id [] []
  | RError e => outcomeResponse id e
  end.

(** The primitive on the abstract state: a CAS needs a synchronised chunk, and a
    read of an absent chunk answers that there is no value. *)
Definition spec_request (g : group) (As : list (option abs)) (o : op) :
    outcome (list (option abs) * reply) :=
  let i := chunkIndex (zlen As) (op_key o) in
  match o, As !! i with
  | OpGet _, Some None => Ret (As, RValue None)
  | OpCAS _ _, Some (Some _) =>
      if decide (synched g (Z.of_nat i)) then spec_core As o
      else Ret (As, RError (Some errNotSynced))
  | _, _ => spec_core As o
  end.

Lemma spec_core_zlen As o As' r : spec_core As o = Ret (As', r) → zlen As' = zlen As.
Proof.
  unfold spec_core. generalize (chunkIndex (zlen As) (op_key o)). intros i.
  destruct (As !! i) as [[a|]|]; [|by intros [= <- <-]..].
  destruct (spec_step a o) as [[a' x]| |]; bsimpl; try done. intros [= <- <-].
  unfold zlen. by rewrite length_insert.
Qed.

Lemma spec_request_zlen g As o As' r : spec_request g As o = Ret (As', r) → zlen As' = zlen As.
Proof.
  unfold spec_request. intros E. destruct o; repeat case_match; simplify_eq; try done;
    by eapply spec_core_zlen.
Qed.

(** [CAS] when the chunk is synchronised, and when it is not. *)
Lemma CoreCAS_synced c As k x f b :
  core_rep c As → f (Z.of_nat (chunkIndex (zlen As) k)) = Ret b →
  CoreCAS c k x f =
    match As !! chunkIndex (zlen As) k with
    | Some (Some _) => if b then CoreCAS c k x (λ _, Ret true) else Ret (c, Some errNotSynced)
    | _ => CoreCAS c k x (λ _, Ret true)
    end.
Proof.
  intros Hc Hf. pose proof (index_range c As Hc k) as Hix.
  destruct (As !! chunkIndex (zlen As) k) as [oa|] eqn:Hi; [|apply lookup_ge_None_1 in Hi; lia].
  destruct (chunkOf_at c As Hc k oa Hi) as (kk & Hof & _ & Hr).
  unfold CoreCAS. rewrite Hof. bsimpl. destruct oa as [a|].
  - destruct Hr as (-> & _). cbn [negb]. rewrite Hf. by destruct b.
  - destruct Hr as [-> _]. done.
Qed.

Section requests.
Context {J : Json} (now : time) (s : DBServer) (As : list (option abs)) (g : group).
Context (Hs : server_rep s As g).

(** The primitives that change the core. *)
Lemma core_request o (f : outcome (Core * option error)) :
  op_ok o → core_step (s_core s) o = (r ← f; Ret (r.1, RError r.2)) →
  match spec_core As o with
  | Ret (As', RError e) => ∃ c', f = Ret (c', e) ∧ server_rep (set_core s c') As' g
  | Ret (_, RValue _) => False
  | _ => f = Panic
  end.
Proof using Hs.
  intros Ho E. pose proof (core_sim (s_core s) As o (sv_core _ _ _ Hs) Ho) as H. rewrite E in H.
  destruct (spec_core As o) as [[As' r]| |] eqn:Es.
  - destruct H as (c' & H & Hc). apply bind_Ret_inv in H as ([c1 e] & -> & H).
    destruct r as [v|e']; [done|]. injection H as -> ->. exists c'. split; [done|].
    eapply server_rep_core; [done..|]. by eapply spec_core_zlen.
  - destruct f; by cbn in H.
  - destruct f; by cbn in H.
Qed.

Lemma index_synched k :
  IsSynched (s_sg s) (Z.of_nat (chunkIndex (zlen As) k)) =
  Ret (bool_decide (synched g (Z.of_nat (chunkIndex (zlen As) k)))).
Proof using Hs.
  apply IsSynched_sim; [apply Hs|]. rewrite (sv_chunks _ _ _ Hs).
  pose proof (index_range _ _ (sv_core _ _ _ Hs) k). unfold zlen in *. lia.
Qed.

Lemma process_sim id o :
  op_ok o →
  match spec_request g As o with
  | Ret (As', r) => ∃ s', processMessage now s (requestOf id o) = Ret (s', answerOf id r, None) ∧
      server_rep s' As' g
  | _ => processMessage now s (requestOf id o) = Panic
  end.
Proof using Hs.
  intros Ho. unfold processMessage. rewrite (sv_running _ _ _ Hs).
  destruct o as [k|k v|k x|k x]; cbn [requestOf mType mID mKey mValue spec_request op_key Z.eqb
    Operation.OpGet Operation.OpSet Operation.OpAsyncSet Operation.OpCAS Operation.OpDel Pos.eqb].
  - rewrite (CoreGet_sim _ _ _ (sv_core _ _ _ Hs) Ho). bsimpl. unfold spec_core, spec_get. cbn [op_key].
    pose proof (index_range _ _ (sv_core _ _ _ Hs) k) as Hix.
    destruct (As !! chunkIndex (zlen As) k) as [[a|]|] eqn:Hi.
    + cbn [spec_step]. bsimpl. exists s. split; [by destruct (a_map a !! k)|].
      by rewrite list_insert_id.
    + by exists s.
    + apply lookup_ge_None_1 in Hi. lia.
  - pose proof (core_request (OpSet k v) (CoreSet (s_core s) k v) Ho eq_refl) as H.
    destruct (spec_core As (OpSet k v)) as [[As' [?|e]]| |]; try done; [|by rewrite H..].
    destruct H as (c' & -> & H). by eexists.
  - rewrite (CoreCAS_synced _ As k x _ _ (sv_core _ _ _ Hs) (index_synched k)).
    pose proof (core_request (OpCAS k x) (CoreCAS (s_core s) k x (λ _, Ret true)) Ho eq_refl) as H.
    destruct (As !! chunkIndex (zlen As) k) as [[a|]|] eqn:Hi.
    1: destruct (decide (synched g _)) as [Hy|Hy];
      [rewrite bool_decide_true by done|rewrite bool_decide_false by done].
    2:{ bsimpl. eexists. split; [reflexivity|]. eapply server_rep_core; [done|apply Hs|done]. }
    all: destruct (spec_core As (OpCAS k x)) as [[As' [?|e]]| |]; try done; try (by rewrite H).
    all: destruct H as (c' & -> & H); by eexists.
  - pose proof (core_request (OpDel k x) (CoreDelete (s_core s) k x) Ho eq_refl) as H.
    destruct (spec_core As (OpDel k x)) as [[As' [?|e]]| |]; try done; [|by rewrite H..].
    destruct H as (c' & -> & H). by eexists.
Qed.

(** A set without response. *)
Lemma async_sim id k v :
  zlen k + zlen v < 2 ^ 63 →
  ∃ s' As' r, spec_core As (OpSet k v) = Ret (As', r) ∧ server_rep s' As' g ∧
    processMessage now s (Msg Operation.OpAsyncSet id k v) = Ret (s', Msg 0 id [] [], None).
Proof using Hs.
  intros Ho. unfold processMessage. rewrite (sv_running _ _ _ Hs).
  cbn [mType mID mKey mValue Z.eqb Operation.OpGet Operation.OpSet Operation.OpAsyncSet Pos.eqb].
  pose proof (core_request (OpSet k v) (CoreSet (s_core s) k v) Ho eq_refl) as H.
  unfold spec_core in *. cbn [spec_step] in *.
  destruct (As !! _) as [[a|]|]; bsimpl; cbn [mbind outcome_bind] in H;
    destruct H as (c' & -> & H); bsimpl; by do 3 eexists.
Qed.
End requests.

(** ** All requests *)

Lemma ChunkSetProtected_sim c As cid now :
  core_rep c As → 0 ≤ cid < zlen As →
  ∃ c' e, ChunkSetProtected c cid now = Ret (c', e) ∧ core_rep c' As.
Proof.
  intros Hc Hr. unfold ChunkSetProtected.
  destruct (index_both c As cid Hc) as [(o & k & E & _ & -> & Ho & Hk)|[E _]]; cycle 1.
  { destruct (lookup_lt_is_Some_2 As (Z.to_nat cid)) as [o Ho]; [unfold zlen in Hr; lia|].
    rewrite (index_lookup As cid o) in E by (done || lia). done. }
  bsimpl. destruct (negb (present k)) eqn:Hp; [by exists c, (Some errProtect)|].
  do 2 eexists. split; [reflexivity|].
  pose proof (core_rep_set c As (Z.to_nat cid) o (set_protection k true now) (knownChunks c) Hc) as H.
  rewrite <- E, list_insert_id in H by done. destruct c. apply H. destruct o; exact Hk.
Qed.

Lemma LengthOfChunk_ret c As cid :
  core_rep c As → if decide (0 ≤ cid < zlen As) then ∃ n, LengthOfChunk c cid = Ret n
                  else LengthOfChunk c cid = Panic.
Proof.
  intros Hc. unfold LengthOfChunk. case_decide as Hr.
  - destruct (index_both c As cid Hc) as [(o & k & _ & _ & -> & _ & Hk)|[E _]]; cycle 1.
    { destruct (lookup_lt_is_Some_2 As (Z.to_nat cid)) as [o Ho]; [unfold zlen in Hr; lia|].
      rewrite (index_lookup As cid o) in E by (done || lia). done. }
    bsimpl. destruct o as [a|].
    + destruct Hk as (-> & _ & _ & p & Hp & _). unfold pmOf. rewrite Hp. cbn. eauto.
    + destruct Hk as [-> _]. cbn. eauto.
  - by rewrite index_panic by (rewrite (core_length c As Hc); done).
Qed.

(** The chunk that a request names. *)
Definition chunkArg (m : Message) : Z := le_dec (take 4 (mKey m)).

(** The requests that crash a server: a delete without a time, of a key that has
    a value; a chunk identifier that is cut short, or out of range. *)
Definition malformed (As : list (option abs)) (m : Message) : Prop :=
  (mType m = Operation.OpDel ∧ zlen (mValue m) < 8 ∧ ∃ v, spec_get As (mKey m) = inr (Some v)) ∨
  (mType m ∈ [Operation.OpTransfer; Operation.OpGetChunkInfo; Operation.OpProtect] ∧ zlen (mKey m) < 4) ∨
  (mType m ∈ [Operation.OpGetChunkInfo; Operation.OpProtect] ∧ 4 ≤ zlen (mKey m) ∧ zlen As ≤ chunkArg m).

(** A message that fits in memory, whose key is not reserved. *)
Definition fits (m : Message) : Prop :=
  zlen (mKey m) + zlen (mValue m) < 2 ^ 63 ∧ (mType m = Operation.OpGet → good_key (mKey m)).

Definition processed (As : list (option abs)) (m : Message)
    (r : outcome (DBServer * Message * option job)) : Prop :=
  match r with
  | Ret (s', _, _) => ¬ malformed As m ∧ ∃ As' g', server_rep s' As' g'
  | Panic => malformed As m
  | OutOfFuel => False
  end.

Lemma malformed_del As k x :
  spec_core As (OpDel k x) = Panic ↔ zlen x < 8 ∧ ∃ v, spec_get As k = inr (Some v).
Proof.
  unfold spec_core, spec_get. cbn [op_key spec_step]. generalize (chunkIndex (zlen As) k). intros i.
  destruct (As !! i) as [[a|]|]; [|split; [done|by intros [_ [? [=]]]]..].
  unfold spec_Del, check. destruct (a_map a !! k) as [v|].
  - destruct (Z.leb_spec 8 (zlen x)); bsimpl.
    + split; [by repeat case_match|]. intros [? _]. lia.
    + split; [eauto|done].
  - split; [done|]. by intros [_ [? [=]]].
Qed.

Lemma get_key4 (k : list byte) :
  if decide (4 ≤ zlen k) then get_le 4 k = Ret (le_dec (take 4 k)) else get_le 4 k = Panic.
Proof. case_decide; [by apply (get_le_take 4)|]. apply get_le_panic. lia. Qed.

Section total.
Context {J : Json} (now : time) (s : DBServer) (As : list (option abs)) (g : group).
Context (Hs : server_rep s As g).

Lemma process_primitive id o v :
  fits (Msg (mType (requestOf id o)) id (op_key o) v) → op_ok o →
  (match o with OpGet _ => True | _ => mValue (requestOf id o) = v end) →
  processed As (Msg (mType (requestOf id o)) id (op_key o) v)
    (processMessage now s (Msg (mType (requestOf id o)) id (op_key o) v)).
Proof using Hs.
  intros _ Ho Hv. pose proof (process_sim now s As g Hs id o Ho) as H.
  assert (processMessage now s (Msg (mType (requestOf id o)) id (op_key o) v) =
          processMessage now s (requestOf id o)) as -> by (destruct o; cbn in *; congruence || done).
  assert (malformed As (Msg (mType (requestOf id o)) id (op_key o) v) ↔
          match o with OpDel k x => spec_core As o = Panic | _ => False end) as Hm.
  { unfold malformed. rewrite !elem_of_cons, !elem_of_nil.
    destruct o; cbn [mType mKey mValue requestOf op_key] in *; subst; try rewrite malformed_del;
      unfold Operation.OpGet, Operation.OpSet, Operation.OpCAS, Operation.OpDel, Operation.OpTransfer,
        Operation.OpGetChunkInfo, Operation.OpProtect; naive_solver lia. }
  unfold processed. destruct (spec_request g As o) as [[As' r]| |] eqn:E.
  - destruct H as (s' & -> & Hs'). rewrite Hm. split; [|by exists As', g].
    destruct o; try tauto. cbn in E. intros Hp. cbn in *. congruence.
  - rewrite H, Hm. revert E. unfold spec_request. cbn [op_key].
    destruct o as [k|k x|k x|k x]; cbn [op_key]; [..|done]; unfold spec_core; cbn [op_key spec_step];
      generalize (chunkIndex (zlen As) k); intros i; destruct (As !! i) as [[a|]|]; try done; by case_decide.
  - rewrite H, Hm. revert E. unfold spec_request. cbn [op_key].
    destruct o as [k|k x|k x|k x]; cbn [op_key]; unfold spec_core; cbn [op_key spec_step];
      generalize (chunkIndex (zlen As) k); intros i; destruct (As !! i) as [[a|]|]; try done; try by case_decide.
    unfold spec_Del, check. repeat case_match; bsimpl; try done; by repeat case_match.
Qed.

(** A request that names a chunk. *)
Lemma chunk_request op id k v (f : Z → outcome (DBServer * Message * option job)) :
  op ∈ [Operation.OpGetChunkInfo; Operation.OpProtect] →
  (∀ cid, if decide (0 ≤ cid < zlen As)
          then ∃ s' m j As' g', f cid = Ret (s', m, j) ∧ server_rep s' As' g'
          else f cid = Panic) →
  processed As (Msg op id k v) (cid ← get_le 4 k; f cid).
Proof.
  intros Hop Hf. pose proof (get_key4 k) as Hk. unfold processed, malformed, chunkArg.
  cbn [mType mKey mValue].
  assert (op ≠ Operation.OpDel) as Hnd.
  { rewrite !elem_of_cons, elem_of_nil in Hop. intros ->. by destruct Hop as [|[|]]. }
  case_decide as H4; rewrite Hk; bsimpl; cycle 1.
  { right. left. split; [by right|lia]. }
  specialize (Hf (le_dec (take 4 k))). pose proof (le_dec_range (take 4 k)).
  case_decide as Hr; cycle 1.
  { rewrite Hf. right. right. split_and!; [done|done|lia]. }
  destruct Hf as (s' & m & j & As' & g' & -> & Hs'). split; [|by exists As', g'].
  intros [[? _]|[[_ ?]|[_ [_ ?]]]]; [done|lia|lia].
Qed.

Lemma processed_fine m s' r j As' g' :
  mType m ∉ [Operation.OpDel; Operation.OpTransfer; Operation.OpGetChunkInfo; Operation.OpProtect] →
  server_rep s' As' g' → processed As m (Ret (s', r, j)).
Proof.
  intros Hm Hs'. split; [|by exists As', g']. rewrite !not_elem_of_cons in Hm.
  destruct Hm as (H1 & H2 & H3 & H4 & _). unfold malformed. rewrite !elem_of_cons, elem_of_nil. naive_solver.
Qed.

(** A given type is not in a list of types. *)
Ltac not_listed := cbn [mType]; refine (bool_decide_unpack _ _); vm_compute; exact I.

Lemma process_total m : fits m → processed As m (processMessage now s m).
Proof using Hs.
  destruct m as [op id k v]. intros [Hlen Hget]. cbn in Hlen, Hget.
  destruct (decide (op = Operation.OpGet)) as [->|H1].
  { apply (process_primitive id (OpGet k) v); [by split|by apply Hget|done]. }
  destruct (decide (op = Operation.OpSet)) as [->|H2].
  { by apply (process_primitive id (OpSet k v) v). }
  destruct (decide (op = Operation.OpCAS)) as [->|H3].
  { by apply (process_primitive id (OpCAS k v) v). }
  destruct (decide (op = Operation.OpDel)) as [->|H4].
  { by apply (process_primitive id (OpDel k v) v). }
  destruct (decide (op = Operation.OpAsyncSet)) as [->|H5].
  { destruct (async_sim now s As g Hs id k v Hlen) as (s' & As' & r & _ & Hs' & ->).
    eapply processed_fine; [not_listed|done]. }
  unfold processMessage. rewrite (sv_running _ _ _ Hs). cbn [mType mKey mValue mID].
  rewrite !(proj2 (Z.eqb_neq op _)) by done.
  repeat match goal with |- context [op =? ?x] => destruct (Z.eqb_spec op x) as [->|] end.
  - pose proof (get_key4 k) as Hk. unfold processed, malformed. cbn [mType mKey mValue].
    case_decide; rewrite Hk; bsimpl; [|right; left; split; [left|lia]].
    split; [|by exists As, g]. rewrite !elem_of_cons, elem_of_nil. intros [[]|[[_ ?]|[[|[|]] _]]]; done || lia.
  - eapply processed_fine; [not_listed|done].
  - eapply (processed_fine _ _ _ _ As (spec_AddServer g k)); [not_listed|].
    destruct Hs as [Hc Hg Hn Hr]. destruct (AddServer_config (s_sg s) k) as [En _].
    split; cbn; [done|by apply AddServer_sim|by rewrite En|done].
  - apply chunk_request; [left|]. intros cid. pose proof (LengthOfChunk_ret _ As cid (sv_core _ _ _ Hs)) as Hl.
    case_decide; [|by rewrite Hl]. destruct Hl as [len ->]. by do 5 eexists.
  - apply chunk_request; [right; left|]. intros cid. case_decide as Hr; cycle 1.
    { unfold NumHolders. rewrite index_panic; [done|].
      by rewrite (sr_length _ _ (sv_group _ _ _ Hs)), (sv_chunks _ _ _ Hs). }
    rewrite (NumHolders_sim _ _ (sv_group _ _ _ Hs)) by (by rewrite (sv_chunks _ _ _ Hs)). bsimpl.
    case_match; [|by do 5 eexists].
    destruct (ChunkSetProtected_sim _ As cid now (sv_core _ _ _ Hs) Hr) as (c' & e & -> & Hc'). bsimpl.
    do 5 eexists. split; [done|]. by eapply server_rep_core.
  - eapply processed_fine; [not_listed|done].
  - eapply processed_fine; [not_listed|done].
  - eapply processed_fine; [|done]. cbn. rewrite !not_elem_of_cons. split_and!; try done. apply not_elem_of_nil.
Qed.
End total.

(** The requests of a transfer that crash the server in the goroutine they start:
    the address cannot be dialled, or the chunk is out of range. *)
Definition badTransfer `{Network W} (As : list (option abs)) (w : W) (m : Message) : Prop :=
  mType m = Operation.OpTransfer ∧ 4 ≤ zlen (mKey m) ∧
  (is_Some (net_dial w (mValue m)).2 ∨ zlen As ≤ chunkArg m).

(** Only a request of a transfer starts a goroutine. *)
Lemma process_job `{Json} now s m s' r j :
  processMessage now s m = Ret (s', r, Some j) →
  s' = s ∧ mType m = Operation.OpTransfer ∧ get_le 4 (mKey m) = Ret (j_chunk j) ∧ j_addr j = mValue m.
Proof.
  unfold processMessage. destruct (s_stopped s); [done|].
  repeat match goal with |- context [mType m =? ?x] => destruct (Z.eqb_spec (mType m) x) as [E|_] end;
    intros Hret; repeat (apply bind_Ret_inv in Hret as (? & ? & Hret) || case_match); by simplify_eq.
Qed.

Lemma process_transfer `{Json} now s m :
  s_stopped s = false → mType m = Operation.OpTransfer →
  processMessage now s m =
    chunkID ← get_le 4 (mKey m); Ret (s, Msg Operation.OpOK (mID m) [] [], Some (Transfer chunkID (mValue m))).
Proof. intros Hs E. unfold processMessage. by rewrite Hs, E. Qed.

Lemma spec_iterate_total {A} (foreach : A → list byte → list byte → outcome (A * bool)) a l :
  (∀ acc k v, ∃ x, foreach acc k v = Ret x) → ∀ acc, ∃ x, spec_iterate foreach a l acc = Ret x.
Proof.
  intros Hf. induction l as [|r l IH]; intros acc; [by eexists|]. cbn [spec_iterate]. unfold spec_visit.
  destruct (PMapIter.present a r l); bsimpl; [|apply IH]. destruct (Hf acc (r_key r) (r_val r)) as ([acc' b] & ->). bsimpl.
  destruct b; [apply IH|by eexists].
Qed.

(** A transfer ends unless it crashes. *)
Lemma runTransfer_total `{Network W} c As cid addr (w : W) :
  core_rep c As → 0 ≤ cid → (∀ i x, As !! i = Some (Some x) → Forall (λ r, good_key (r_key r)) (a_log x)) →
  if decide (is_Some (net_dial w addr).2 ∨ zlen As ≤ cid) then runTransfer c (Transfer cid addr) w = Panic
  else ∃ w', runTransfer c (Transfer cid addr) w = Ret w'.
Proof.
  intros Hc Hpos Hg. unfold runTransfer. cbn [j_addr j_chunk].
  destruct (net_dial w addr) as [w1 [err|]]; cbn [fst snd]; [by rewrite decide_True by (left; eauto)|].
  destruct (Z.le_gt_cases (zlen As) cid) as [Hle|Hlt].
  - rewrite decide_True by (by right). unfold CoreIterate. rewrite index_panic; [done|]. rewrite (core_length c As Hc). lia.
  - rewrite decide_False by (intros [[? [=]]|?]; lia). unfold CoreIterate.
    destruct (index_both c As cid Hc) as [(o & k & _ & Ho & -> & Hk & Hr)|[E _]]; cycle 1.
    { exfalso. destruct (lookup_lt_is_Some_2 As (Z.to_nat cid)) as [o Ho]; [unfold zlen in Hlt; lia|].
      by rewrite (index_lookup As cid o) in E. }
    bsimpl. destruct o as [x|]; cbn in Hr; [|destruct Hr as [-> _]; by eexists].
    destruct Hr as (-> & _ & Hwf & p & Hpm & Hrep). cbn [negb]. unfold pmOf. rewrite Hpm. cbn [orPanic]. bsimpl.
    rewrite (Iterate_sim _ p x _ Hrep Hwf (Hg _ _ Hk)).
    destruct (spec_iterate_total (transferPair addr) x (a_log x) ltac:(intros; by eexists) (0, w1)) as (acc & ->). by eexists.
Qed.

(** C12. A running server answers every request that fits in memory, and keeps
    its state well formed, except for the requests that crash it, in the handler
    or in the goroutine of a transfer: a delete whose value holds no time, of a
    key with a value; a request about a chunk whose identifier is cut short or
    out of range; a transfer to an address that cannot be dialled.  The goroutine
    runs without other messages meanwhile; reads are of keys whose hash is not
    reserved, and so are the keys in the chunks. *)
Theorem server_panics_iff_malformed `{Json} `{Network W} now s As g m (w : W) :
  server_rep s As g → fits m → (∀ i x, As !! i = Some (Some x) → Forall (λ r, good_key (r_key r)) (a_log x)) →
  match handle now s m w with
  | Ret (s', _, _) => ¬ malformed As m ∧ ¬ badTransfer As w m ∧ ∃ As' g', server_rep s' As' g'
  | Panic => malformed As m ∨ badTransfer As w m
  | OutOfFuel => False
  end.
Proof.
  intros Hs Hf Hg. pose proof (process_total now s As g Hs m Hf) as Hp. unfold handle.
  destruct (processMessage now s m) as [[[s' r] j]| |] eqn:E; bsimpl; [|by left|done]. destruct Hp as [Hn Hok].
  destruct j as [j|]; bsimpl; cycle 1.
  { split_and!; [done| |done]. intros (Ht & Hk & _). rewrite process_transfer in E by (done || apply Hs).
    pose proof (get_key4 (mKey m)) as Hk4. rewrite decide_True in Hk4 by done. by rewrite Hk4 in E. }
  destruct (process_job now s m s' r j E) as (-> & Ht & Hcid & Ha). pose proof (get_key4 (mKey m)) as Hk4.
  case_decide as H4; rewrite Hk4 in Hcid; [|done]. injection Hcid as Hcid. fold (chunkArg m) in Hcid.
  pose proof (le_dec_range (take 4 (mKey m))) as [Hpos _]. fold (chunkArg m) in Hpos.
  pose proof (runTransfer_total (s_core s) As (chunkArg m) (mValue m) w (sv_core _ _ _ Hs) Hpos Hg) as Hr.
  destruct j as [cid addr]. cbn in Hcid, Ha. subst cid addr. case_decide as Hbad.
  - rewrite Hr. bsimpl. by right.
  - destruct Hr as (w' & ->). bsimpl. split_and!; [done| |done]. by intros (_ & _ & ?).
Qed.

(** ** From a request to its result *)

(** A message through [Marshal] and [Unmarshal]. *)
Definition wire (m : Message) : outcome Message :=
  r ← TcpMessage.Marshal m (replicate (Z.to_nat (msgSize m)) x00); Unmarshal r.1.

Lemma wire_ok m : msg_ok m → wire m = Ret m.
Proof.
  intros Hm. unfold wire. pose proof (msgSize_min m) as Hmin. unfold MinimumMessageSize in Hmin.
  rewrite Marshal_ok by (destruct Hm as (_ & _ & ?); unfold zlen; rewrite ?length_replicate; lia).
  bsimpl. rewrite drop_ge, app_nil_r by (rewrite length_replicate; lia). by apply Unmarshal_enc.
Qed.

(** What the broker delivers for a reply. *)
Definition resultOf (r : reply) : result :=
  match r with
  | RValue v => Result (default [] v) None
  | RError None => Result [] None
  | RError (Some e) => Result [] (Some ("Response error: " +:+ e))
  end.

Lemma response_answer id r : response (answerOf id r) = resultOf r.
Proof.
  unfold response, resultOf, answerOf, outcomeResponse.
  destruct r as [[v|]|[e|]]; cbn [mType mValue]; try done.
  cbn. unfold str. by rewrite String.string_of_list_byte_of_string.
Qed.

(** A request as the client and the server carry it out: the result, with the
    identifier under which the broker delivers it. *)
Definition roundTrip `{Json} (now : time) (s : DBServer) (m : Message) : outcome (DBServer * Z * result) :=
  m ← wire m;
  p ← processMessage now s m;
  a ← wire p.1.2;
  Ret (p.1.1, mID a, response a).

(** A stored value fits in its chunk. *)
Lemma value_small c As i a k v :
  core_rep c As → As !! i = Some (Some a) → a_map a !! k = Some v → zlen v < maxChunkSize.
Proof.
  intros Hc Hi Hv. destruct (chunk_at c As Hc i _ Hi) as (_ & _ & _ & _ & _ & Hw & p & _ & d & Hd).
  destruct (replay_split (a_log a) k v) as (l1 & l2 & El & _); [by eapply lookup_weaken, aw_last|].
  destruct (pd_store _ _ _ Hd) as [_ Hl _ Hroom _]. destruct (pd_size _ _ _ Hd) as [_ Hmax].
  destruct (rec_at_bounds (a_log a) (zlen (enc_log l1)) (Rec k v)) as [H0 Hb]; [by exists l1, l2|].
  unfold body_len in Hb. cbn in Hb. pose proof (zlen_nonneg k). lia.
Qed.

(** The errors are short. *)
Lemma spec_step_error a o a' e : spec_step a o = Ret (a', RError (Some e)) → zlen (str e) < 100.
Proof.
  destruct o as [k|k v|k x|k x]; cbn [spec_step].
  - done.
  - unfold spec_Set, spec_write. generalize (ts v). intros t.
    repeat case_match; intros [= <- <-]; by vm_compute.
  - unfold spec_CAS, spec_write. generalize (FNV1a64 []), (ts x), (hdr (drop 8 x)). intros z1 z2 z3.
    destruct (zlen x <? 24); [intros [= <- <-]; by vm_compute|].
    destruct (a_map a !! k) as [old|]; [generalize (FNV1a64 (drop 8 old)), (ts old); intros z4 z5|].
    all: repeat case_match; intros [= <- <-]; by vm_compute.
  - unfold spec_Del, check. generalize (ts x). intros t.
    repeat case_match; bsimpl; repeat case_match; try done; intros [= <- <-]; by vm_compute.
Qed.

Lemma spec_request_answer s As g id o As' r :
  server_rep s As g → 0 ≤ id < 2 ^ 32 → spec_request g As o = Ret (As', r) → msg_ok (answerOf id r).
Proof.
  intros Hs Hid E.
  assert (match r with RValue (Some v) => zlen v < maxChunkSize | RError (Some e) => zlen (str e) < 100 | _ => True end)
    as Hr.
  { assert (∀ As' r, spec_core As o = Ret (As', r) →
      match r with RValue (Some v) => zlen v < maxChunkSize | RError (Some e) => zlen (str e) < 100 | _ => True end)
      as Hcore.
    { clear As' r E. intros As' r. unfold spec_core. generalize (chunkIndex (zlen As) (op_key o)). intros i.
      destruct (As !! i) as [[a|]|] eqn:Hi; [|intros [= <- <-]; by vm_compute..].
      destruct (spec_step a o) as [[a' x]| |] eqn:Ex; bsimpl; try done. intros [= <- <-].
      destruct x as [[v|]|[e|]]; try done.
      - destruct o; cbn in Ex; try done; [|by destruct (spec_Del _ _ _) as [[]| |]].
        injection Ex as _ Ev. by eapply value_small; [apply Hs|..].
      - by eapply spec_step_error. }
    revert E Hcore. unfold spec_request. generalize (spec_core As o), (chunkIndex (zlen As) (op_key o)).
    intros m i E Hcore. destruct o; destruct (As !! i) as [[a|]|]; try case_decide;
      first [by eapply Hcore | injection E as <- <-; by vm_compute]. }
  unfold maxChunkSize in Hr.
  destruct r as [[v|]|[e|]]; unfold msg_ok, msgSize; cbn; zlen_nil_simpl; unfold Operation.OpResponse, Operation.OpErr, Operation.OpOK; lia.
Qed.

(** C11. A primitive requested over the wire has the effect of the primitive on
    the core of the server, and the result that the broker delivers, under the
    number of the request, is its reply: the value, nothing, or the error.  A
    read of a chunk that the server does not hold delivers an empty value
    without error; a CAS of a chunk whose holders announced different checksums
    is refused. *)
Theorem request_delivers `{Json} now s As g id o :
  server_rep s As g → op_ok o → msg_ok (requestOf id o) →
  match spec_request g As o with
  | Ret (As', r) =>
      ∃ s', roundTrip now s (requestOf id o) = Ret (s', id, resultOf r) ∧ server_rep s' As' g
  | _ => roundTrip now s (requestOf id o) = Panic
  end.
Proof.
  intros Hs Ho Hm. unfold roundTrip. rewrite wire_ok by done. bsimpl.
  pose proof (process_sim now s As g Hs id o Ho) as Hp.
  destruct (spec_request g As o) as [[As' r]| |] eqn:E; [|by rewrite Hp..].
  assert (msg_ok (answerOf id r)) as Ha.
  { eapply spec_request_answer; [done| |done]. destruct Hm as (_ & Hid & _). by destruct o. }
  destruct Hp as (s' & -> & Hs'). bsimpl. rewrite wire_ok by done. bsimpl. exists s'.
  split; [|done]. rewrite response_answer. by destruct r as [[v|]|[e|]].
Qed.

(** ** Concrete servers *)

(** A server that holds the pair of [sample_abs]. *)
Lemma sample_server `{GommapLaws} :
  ∃ s, server_rep s [Some sample_abs] ∅.
Proof.
  destruct sample_core as (c0 & c & rs & _ & _ & Hc).
  destruct (Create_rep 1 1 (str "me:1")) as (sg & _ & Hr & Hn & _); [lia|].
  exists (mkDB c sg newHeartbeater false). split; cbn; [done|done|by rewrite Hn|done].
Qed.

Definition noJson : Json := {| json_marshal _ := []; json_unmarshal _ := inl "json"%string |}.

Lemma request_delivers_witness :
  let _ := plainGommap in let _ := noJson in
  ∃ s s', roundTrip 0 s (requestOf 7 (OpGet (str "b"))) =
    Ret (s', 7, Result (sample_value 6 "z") None).
Proof.
  intros G J. destruct (@sample_server G plainGommap_laws) as (s & Hs). exists s.
  pose proof (request_delivers 0 s _ ∅ 7 (OpGet (str "b")) Hs ltac:(by vm_compute)
    ltac:(by vm_compute)) as H.
  assert (spec_request ∅ [Some sample_abs] (OpGet (str "b")) =
          Ret ([Some sample_abs], RValue (Some (sample_value 6 "z")))) as E by (vm_compute; reflexivity).
  rewrite E in H. destruct H as (s' & E' & _). exists s'. exact E'.
Defined.

Lemma server_panics_iff_malformed_witness :
  let _ := plainGommap in let _ := noJson in
  let _ : Network unit := {| net_now _ := 0; net_dial w _ := (w, None); net_send w _ _ := w;
    net_call w _ _ _ := (w, Result [] None); net_ping w _ := (w, inl "timeout"%string) |} in
  ∃ s, handle 0 s (Msg Operation.OpTransfer 1 (le_enc 4 5) (str "b:1")) tt = Panic.
Proof.
  intros G J N. destruct (@sample_server G plainGommap_laws) as (s & Hs). exists s.
  pose proof (server_panics_iff_malformed 0 s _ ∅ (Msg Operation.OpTransfer 1 (le_enc 4 5) (str "b:1")) tt Hs) as H.
  destruct (handle _ _ _ _) as [[[s' r] j]| |]; [exfalso|done|exfalso].
  - destruct H as (_ & Hn & _); [by vm_compute| |].
    + intros [|i] x E; [|done]. injection E as <-. apply (bool_decide_eq_true_1 _). by vm_compute.
    + apply Hn. split_and!; [done|by vm_compute|]. right. by vm_compute.
  - apply H; [by vm_compute|]. intros [|i] x E; [|done]. injection E as <-. apply (bool_decide_eq_true_1 _). by vm_compute.
Defined.
