(* ===== verification/ComServer.v ===== *)
(** * The listeners of a server ([src/com/comserver.go]) and the ping
      ([src/com/comclient.go], [UDPRequest])

    [Start] runs two loops, one that accepts TCP connections and one that
    answers UDP pings; [Stop] runs beside them.  Its three actions, the loops,
    the requests of the clients and the ends of the connections interleave freely;
    [Start] panics when one of the two sockets cannot be opened.  A listener fails
    once it is closed, and may fail before.  A connection is served by
    [listenRequests] (see [Server]), which runs the callback on each request, and
    closes the connection when the client is gone; a callback that panics ends the
    process. *)
From S2P Require Import Prelude.
From S2P Require Import Store.
From S2P Require Import UdpHeartbeat.
From S2P Require Import TcpMessage.
From S2P Require Import ServerGroup.
From S2P Require Import Server.

(** ** Data *)

(** A listener is open or closed.  The field [localIP], which only [Start]
    reads, is an argument of it. *)
Record ComServer := mkCom {
  tcpListener : bool;
  udpListener : bool;
  stopped : bool
}.

(** What a turn of a loop does: goes on, returns, or panics. *)
Inductive turn (A : Type) := GoOn (a : A) | Leave | Crash.
Arguments GoOn {A}.
Arguments Leave {A}.
Arguments Crash {A}.

(** What the system says when a socket is opened: can the port be bound, does
    the address resolve, can it be listened on? *)
Record system := System {
  ListenUDP : Z → bool;
  ResolveTCPAddr : addr_t → bool;
  ListenTCP : addr_t → bool
}.

(** The first part of [listenUDP] and of [listenTCP]. *)
Definition openUDP (sys : system) (s : ComServer) (udpPort : Z) : outcome ComServer :=
  if ListenUDP sys udpPort then Ret (mkCom (tcpListener s) true (stopped s)) else Panic.

Definition openTCP (sys : system) (s : ComServer) (localIP : addr_t) (port : Z) : outcome ComServer :=
  let taddr := hostPort localIP port in
  if ResolveTCPAddr sys taddr then
    if ListenTCP sys taddr then Ret (mkCom true (udpListener s) (stopped s)) else Panic
  else Panic.

Definition Start (sys : system) (localIP : addr_t) (localPort : Z) : outcome ComServer :=
  let s := mkCom false false false in
  s ← openUDP sys s localPort;
  openTCP sys s localIP localPort.

Definition IsStopped (s : ComServer) : bool := stopped s.

(** ** [Stop] *)

Inductive action := StoreStopped | CloseTCP | CloseUDP.

Definition act (s : ComServer) (a : action) : ComServer :=
  match a with
  | StoreStopped => mkCom (tcpListener s) (udpListener s) true
  | CloseTCP => mkCom false (udpListener s) (stopped s)
  | CloseUDP => mkCom (tcpListener s) false (stopped s)
  end.

(** The actions of [Stop], in order. *)
Definition StopActions : list action := [StoreStopped; CloseTCP; CloseUDP].

(** ** The loops *)

Abbreviation connID := Z.

(** A turn of [listenTCP], given what [AcceptTCP] returns: what the loop does
    with its connections, and those that it closes. *)
Definition listenTCP (s : ComServer) (conns : list connID) (accepted : option connID) :
    turn (list connID) * list connID :=
  match accepted with
  | Some c => (GoOn (conns ++ [c]), [])
  | None => (if IsStopped s then Leave else Crash, conns)
  end.

(** A turn of [listenUDP], given who pings, if anyone does, and what the
    callback returns: the packet that it sends back. *)
Definition listenUDP (s : ComServer) (ping : option (list byte)) (saa : AmAlive) :
    turn (list byte * list byte) :=
  match ping with
  | Some addr => match AmAliveMarshal saa with Ret b => GoOn (addr, b) | _ => Crash end
  | None => if IsStopped s then Leave else Crash
  end.

(** ** [UDPRequest]: the packets that arrive before the deadline, with the IP
    each comes from *)

Definition errTimeout : error := "i/o timeout".

Fixpoint UDPRequest (dest : list byte) (packets : list (list byte * list byte)) : outcome (error + AmAlive) :=
  match packets with
  | [] => Ret (inl errTimeout)
  | (ip, b) :: packets =>
      if decide (ip = dest) then AmAliveUnMarshal (take (Z.to_nat MaxHeartbeatSize) b)
      else UDPRequest dest packets
  end.

(** ** The transition system *)

Record net := Net {
  n_server : ComServer;
  (** What [Stop] still has to do. *)
  n_stop : list action;
  n_conns : list connID;
  (** The connections that are not closed. *)
  n_open : gset connID;
  n_tcp : bool;
  n_udp : bool;
  n_crashed : bool
}.

(** A server that [Start] returned, and the call of [Stop]. *)
Definition booted (s : ComServer) : net := Net s StopActions [] ∅ true true false.

Definition started : ComServer := mkCom true true false.

(** What a turn of a loop leaves: is it running, has the process crashed? *)
Definition running {A} (t : turn A) : bool := match t with GoOn _ => true | _ => false end.
Definition crashes {A} (t : turn A) : bool := match t with Crash => true | _ => false end.

Section system.
(** What the callback of the pings may return, how the callback of the requests
    may end, and whether the listeners may fail while they are open. *)
Context (answer : AmAlive → Prop) (served : outcome Message → Prop) (faulty : bool).

Inductive nstep : net → net → Prop :=
  | st_stop s a rest cs op t u :
      nstep (Net s (a :: rest) cs op t u false) (Net (act s a) rest cs op t u false)
  | st_accept s st cs op u c :
      tcpListener s = true → c ∉ op →
      nstep (Net s st cs op true u false)
        (Net s st (match (listenTCP s cs (Some c)).1 with GoOn cs' => cs' | _ => cs end) ({[c]} ∪ op) true u false)
  | st_request s st cs op t u c r :
      c ∈ op → served r → nstep (Net s st cs op t u false) (Net s st cs op t u (is_panic r))
  | st_tcp_fails s st cs op u :
      tcpListener s = false ∨ faulty = true →
      nstep (Net s st cs op true u false)
        (Net s st cs (op ∖ list_to_set (listenTCP s cs None).2)
           (running (listenTCP s cs None).1) u (crashes (listenTCP s cs None).1))
  | st_hangup s st cs op t u c :
      c ∈ op → nstep (Net s st cs op t u false) (Net s st cs (op ∖ {[c]}) t u false)
  | st_ping s st cs op t addr saa :
      udpListener s = true → answer saa →
      nstep (Net s st cs op t true false)
        (Net s st cs op t (running (listenUDP s (Some addr) saa)) (crashes (listenUDP s (Some addr) saa)))
  | st_udp_fails s st cs op t saa :
      udpListener s = false ∨ faulty = true →
      nstep (Net s st cs op t true false)
        (Net s st cs op t (running (listenUDP s None saa)) (crashes (listenUDP s None saa))).

(** The listeners are closed only after the flag is set; the open connections
    are among those of the loop, and there are none once it has returned. *)
Record ninv (n : net) : Prop := NInv {
  ni_stop : ∃ done, done ++ n_stop n = StopActions ∧ n_server n = foldl act started done;
  ni_conns : n_open n ⊆ list_to_set (n_conns n);
  ni_closed : n_tcp n = false → n_open n = ∅;
  ni_alive : n_crashed n = false
}.

(** What [Stop] has left to do tells the state of the listeners. *)
Lemma stop_progress s st :
  (∃ done, done ++ st = StopActions ∧ s = foldl act started done) →
  (tcpListener s = false → stopped s = true) ∧ (udpListener s = false → stopped s = true) ∧
  (st = [] → tcpListener s = false ∧ udpListener s = false).
Proof.
  intros (d & E & ->). unfold StopActions in E.
  destruct d as [|? [|? [|? [|? d]]]]; cbn in E; simplify_eq; cbn; by split_and!.
Qed.

Lemma booted_inv : ninv (booted started).
Proof. split; [by exists []|done|done|done]. Qed.

Context (Hanswer : ∀ saa, answer saa → ∃ b, AmAliveMarshal saa = Ret b).
Context (Hserved : ∀ r, served r → is_panic r = false) (Hsound : faulty = false).

Lemma nstep_inv n n' : nstep n n' → ninv n → ninv n'.
Proof using Hanswer Hserved Hsound.
  intros Hs [Hst Hc Hcl Ha].
  destruct Hs as [s a rest cs op t u|s st cs op u c Hl Hn|s st cs op t u c r Hin Hr|s st cs op u Hl|s st cs op t u c Hin|s st cs op t addr saa Hl Hans
    |s st cs op t saa Hl]; cbn in *; destruct (stop_progress _ _ Hst) as (Htcp & Hudp & _).
  - destruct Hst as (d & E & ->). split; cbn; [|done..]. exists (d ++ [a]).
    rewrite <- app_assoc, foldl_app. done.
  - split; cbn; [done| |done|done]. rewrite list_to_set_app_L. set_solver.
  - split; cbn; [done|done|done|by apply Hserved].
  - assert (tcpListener s = false) as Hl' by (destruct Hl; congruence).
    unfold IsStopped. rewrite (Htcp Hl'). cbn. split; cbn; [done|set_solver|set_solver|done].
  - split; cbn; [done|set_solver|intros Ht; rewrite (Hcl Ht); set_solver|done].
  - destruct (Hanswer saa Hans) as [b Hb]. rewrite Hb. cbn. by split.
  - assert (udpListener s = false) as Hl' by (destruct Hl; congruence). unfold IsStopped. rewrite (Hudp Hl'). cbn. by split.
Qed.

Lemma net_reachable_inv n n' : rtc nstep n n' → ninv n → ninv n'.
Proof using Hanswer Hserved Hsound. induction 1 as [|n1 n2 n3 H12 _ IH]; intros Hi; [done|]. by eapply IH, nstep_inv. Qed.
End system.

(** [Start] panics unless both sockets open, and listens on both if they do. *)
Lemma Start_spec sys ip port :
  Start sys ip port =
  if ListenUDP sys port && ResolveTCPAddr sys (hostPort ip port) && ListenTCP sys (hostPort ip port)
  then Ret started else Panic.
Proof.
  unfold Start, openUDP, openTCP. destruct (ListenUDP sys port); [|done].
  by destruct (ResolveTCPAddr _ _), (ListenTCP _ _).
Qed.

Lemma Start_listens sys ip port s : Start sys ip port = Ret s → s = started.
Proof. rewrite Start_spec. case_match; congruence. Qed.


(** Each of the three conditions is needed: a heartbeat that cannot be encoded, a
    request that makes the callback panic and a listener that fails end the
    process of a server that nobody has stopped. *)
Theorem stop_conditions_needed (answer : AmAlive → Prop) (served : outcome Message → Prop) faulty :
  (∃ saa, answer saa ∧ AmAliveMarshal saa = Panic) ∨ (∃ r, served r ∧ is_panic r = true) ∨ faulty = true →
  ∃ n, rtc (nstep answer served faulty) (booted started) n ∧ n_crashed n = true ∧ n_stop n = StopActions.
Proof.
  intros [(saa & Ha & E)|[(r & Hr & E)| ->]]; unfold booted.
  - eexists. split; [apply rtc_once, (st_ping answer served faulty started StopActions [] ∅ true [] saa); done|].
    cbn. by rewrite E.
  - eexists. split; [eapply rtc_l; [by apply (st_accept answer served faulty started StopActions [] ∅ true 0)|]|].
    + apply rtc_once, (st_request _ _ _ _ _ _ _ _ _ 0 r); [set_solver|done].
    + by split.
  - eexists. split; [apply rtc_once, (st_tcp_fails answer served true started StopActions [] ∅ true); by right|done].
Qed.


(** ** A ping and its answer *)

Lemma UDPRequest_skips dest noise packets :
  Forall (λ p : list byte * list byte, p.1 ≠ dest) noise →
  UDPRequest dest (noise ++ packets) = UDPRequest dest packets.
Proof.
  induction 1 as [|[ip b] noise Hne _ IH]; [done|]. cbn [app UDPRequest fst] in *. by rewrite decide_False.
Qed.

(** C38. A ping of a server with at most 116 chunks is answered in one packet,
    and whatever packets come from elsewhere before it, the request returns the
    chunks and checksums that the server announced and the servers added
    recently that fit.  The servers that died are lost in the decoding. *)
Theorem ping_answered s from dest noise later saa :
  Forall chunk_ok (KnownChunks saa) → zlen (KnownChunks saa) ≤ 116 →
  Forall (λ a, a ≠ []) (RecentlyAddedServers saa) → Forall (λ p, p.1 ≠ dest) noise →
  ∃ b, listenUDP s (Some from) saa = GoOn (from, b) ∧
    UDPRequest dest (noise ++ (dest, b) :: later) =
    Ret (inr (AmAliveMsg (KnownChunks saa)
                (fitting 64 (MaxHeartbeatSize - 2 - 12 * zlen (KnownChunks saa)) (RecentlyAddedServers saa)) [])).
Proof.
  intros Hok Hn Hne Hnoise. destruct (heartbeat_roundtrip saa Hok Hn Hne) as (b & Hb & Hlen & Hu).
  exists b. unfold listenUDP. rewrite Hb. split; [done|]. rewrite UDPRequest_skips by done. cbn [UDPRequest].
  rewrite decide_True by done. rewrite take_ge by (unfold zlen in Hlen; lia). exact Hu.
Qed.

Lemma ping_answered_witness :
  let aa := AmAliveMsg [AAChunk 3 77] [str "10.0.0.1:9876"] [str "10.0.0.2:9876"] in
  ∃ b, listenUDP started (Some (str "me")) aa = GoOn (str "me", b) ∧
    UDPRequest (str "10.0.0.7") [(str "10.0.0.8", []); (str "10.0.0.7", b)] =
    Ret (inr (AmAliveMsg [AAChunk 3 77] [str "10.0.0.1:9876"] [])).
Proof.
  intros aa. destruct (ping_answered started (str "me") (str "10.0.0.7") [(str "10.0.0.8", [])] [] aa) as (b & E & E').
  - repeat constructor; by vm_compute.
  - by vm_compute.
  - repeat constructor. discriminate.
  - repeat constructor. discriminate.
  - exists b. split; [exact E|exact E'].
Defined.
