(* ===== verification/Client.v ===== *)
(** * The client ([src/client/client.go])

    A client knows a server group and talks to the holders of the chunk of a
    key, at most eight. *)
From S2P Require Import Prelude.
From S2P Require Import Hashing.
From S2P Require Import Store.
From S2P Require Import UdpHeartbeat.
From S2P Require Import TcpMessage.
From S2P Require Import Broker.
From S2P Require Import ServerGroup.
From S2P Require Import Remote.
From S2P Require Import Heartbeat.
From S2P Require Import Server.

Definition defaultGetTimeout : Z := 500 * millisecond.
Definition defaultSetTimeout : Z := 500 * millisecond.
Definition defaultDelTimeout : Z := 500 * millisecond.
Definition defaultCASTimeout : Z := 500 * millisecond.

Record DBClient := mkClient {
  c_hb : Heartbeater;
  GetTimeout : Z;
  SetTimeout : Z;
  DelTimeout : Z;
  CASTimeout : Z
}.

Section client.
Context {W : Type} `{Network W}.

Definition Connect `{Json} (fuel : nat) (addr : addr_t) : comp W (error + DBClient) :=
  err ← groupAssoc addr [];
  match err with
  | Some e => mret (inl e)
  | None =>
      h ← HBStart fuel;
      mret (inr (mkClient h defaultGetTimeout defaultSetTimeout defaultDelTimeout defaultCASTimeout))
  end.

(** The holders of the chunk of a key, in an array of eight. *)
Definition holdersFor (key : list byte) : comp W (list (option sptr)) :=
  sg ← get_sg;
  chunkID ← lift (GetChunkID key (numChunks sg));
  lift (GetChunkHolders sg chunkID).

(** Send a request to each server of the array; the operations, and the last
    error of a connection. *)
Fixpoint sendAll (f : sptr → comp W (error + PendingOp)) (servers : list (option sptr))
    (errs : option error) : comp W (list (option PendingOp) * option error) :=
  match servers with
  | [] => mret ([], errs)
  | None :: servers => r ← sendAll f servers errs; mret (None :: r.1, r.2)
  | Some p :: servers =>
      o ← f p;
      match o with
      | inl e => r ← sendAll f servers (Some e); mret (None :: r.1, r.2)
      | inr op => r ← sendAll f servers errs; mret (Some op :: r.1, r.2)
      end
  end.

(** ** Get *)

Record reading := Reading { rd_value : option (list byte); rd_last : time; rd_read : bool }.

(** One response: the time it carries, and what has been read so far. *)
Definition readReply (acc : reading) (r : result) : time * reading :=
  match r_err r with
  | Some _ => (zero_time, acc)
  | None =>
      let v := r_value r in
      if 8 <=? zlen v then
        let t := time_of_header (le_dec (take 8 v)) in
        (t, if rd_last acc <? t then Reading (Some v) t true
            else Reading (rd_value acc) (rd_last acc) true)
      else (zero_time, Reading (rd_value acc) (rd_last acc) true)
  end.

Fixpoint readReplies (acc : reading) (ops : list (option PendingOp)) : list time * reading :=
  match ops with
  | [] => ([], acc)
  | None :: ops => let r := readReplies acc ops in (zero_time :: r.1, r.2)
  | Some o :: ops =>
      let x := readReply acc (GetWait o).1 in
      let r := readReplies x.2 ops in
      (x.1 :: r.1, r.2)
  end.

(** Set the value where a later time was read elsewhere; errors are ignored. *)
Fixpoint readRepair (key value : list byte) (last : time) (servers : list (option sptr))
    (times : list time) : comp W unit :=
  match servers, times with
  | Some p :: servers, t :: times =>
      _ ← (if t <? last then _ ← vsSet p key value 0; mret tt else mret tt);
      readRepair key value last servers times
  | None :: servers, _ :: times => readRepair key value last servers times
  | _, _ => mret tt
  end.

Definition clientGet (c : DBClient) (key : list byte) : comp W (option (list byte) * time * bool) :=
  servers ← holdersFor key;
  ops ← sendAll (λ p, vsGet p key (GetTimeout c)) servers None;
  let r := readReplies (Reading None zero_time false) ops.1 in
  match rd_value r.2 with
  | None => mret (None, rd_last r.2, rd_read r.2)
  | Some v =>
      _ ← readRepair key v (rd_last r.2) servers r.1;
      mret (Some (drop 8 v), rd_last r.2, rd_read r.2)
  end.

(** ** Set and Del *)

(** Wait for the operations: did one succeed, and the last error. *)
Fixpoint waitAll (ops : list (option PendingOp)) (written : bool) (errs : option error) :
    bool * option error :=
  match ops with
  | [] => (written, errs)
  | None :: ops => waitAll ops written errs
  | Some o :: ops =>
      match (Wait o).1 with
      | Some e => waitAll ops written (Some e)
      | None => waitAll ops true errs
      end
  end.

Definition stamp (t : time) : list byte := le_enc 8 (u64 t).

Definition set_ (key value : list byte) (timeout : Z) : comp W (bool * option error) :=
  servers ← holdersFor key;
  now ← getNow;
  ops ← sendAll (λ p, vsSet p key (stamp now ++ value) timeout) servers None;
  mret (if 0 <? timeout then waitAll ops.1 false ops.2 else (false, ops.2)).

Definition clientSet (c : DBClient) (key value : list byte) : comp W (bool * option error) :=
  set_ key value (SetTimeout c).

Definition clientAsyncSet (key value : list byte) : comp W (option error) :=
  r ← set_ key value 0; mret r.2.

Definition clientDel (c : DBClient) (key : list byte) : comp W (option error) :=
  servers ← holdersFor key;
  now ← getNow;
  ops ← sendAll (λ p, vsDel p key (stamp now) (DelTimeout c)) servers None;
  mret (if 0 <? DelTimeout c then (waitAll ops.1 false ops.2).2 else ops.2).

(** ** CAS *)

(** The rank of a server for a key, and the ranks of the array. *)
Definition rank (key : list byte) (addr : addr_t) : Z := FNV1a64 (key ++ addr).

Fixpoint ranks (sg : ServerGroup) (key : list byte) (servers : list (option sptr)) : outcome (list Z) :=
  match servers with
  | [] => Ret []
  | None :: servers => l ← ranks sg key servers; Ret (0 :: l)
  | Some p :: servers =>
      s ← deref sg p; l ← ranks sg key servers; Ret (rank key (Phy s) :: l)
  end.

(** The index of the first maximum, if it is positive, and 0 otherwise. *)
Fixpoint selectMaster (l : list Z) (i master masterRank : Z) : Z :=
  match l with
  | [] => master
  | r :: l => if masterRank <? r then selectMaster l (i + 1) i r else selectMaster l (i + 1) master masterRank
  end.

(** The master: its index and the pointer there. *)
Definition selectServer (sg : ServerGroup) (key : list byte) (servers : list (option sptr)) :
    outcome (Z * option sptr) :=
  l ← ranks sg key servers;
  let master := selectMaster l 0 0 0 in
  m ← index servers master; Ret (master, m).

Fixpoint slaveSets (key value : list byte) (master i : Z) (servers : list (option sptr))
    (errs : option error) : comp W (option error) :=
  match servers with
  | [] => mret errs
  | None :: servers => slaveSets key value master (i + 1) servers errs
  | Some p :: servers =>
      if i =? master then slaveSets key value master (i + 1) servers errs
      else
        o ← vsSet p key value 0;
        slaveSets key value master (i + 1) servers (match o with inl e => Some e | inr _ => errs end)
  end.

Definition errNoServers : error := "No servers".

(** The argument of the request: the expected time and hash, the new time and
    value. *)
Definition casValue (timestamp : time) (oldValue : list byte) (now : time) (value : list byte) : list byte :=
  stamp timestamp ++ le_enc 8 (FNV1a64 oldValue) ++ stamp now ++ value.

Definition clientCAS (c : DBClient) (key value : list byte) (timestamp : time) (oldValue : list byte) :
    comp W (bool * option error) :=
  servers ← holdersFor key;
  now ← getNow;
  sg ← get_sg;
  m ← lift (selectServer sg key servers);
  match m.2 with
  | None => mret (false, Some errNoServers)
  | Some p =>
      let arg := casValue timestamp oldValue now value in
      o ← vsCAS p key arg (CASTimeout c);
      match o with
      | inl e => mret (false, Some e)
      | inr op =>
          match (Wait op).1 with
          | Some e => mret (false, Some e)
          | None => errs ← slaveSets key (drop 16 arg) m.1 0 servers None; mret (true, errs)
          end
      end
  end.

Definition clientSetBuffered : comp W unit := SetBuffered.
Definition clientSetNoDelay : comp W unit := SetNoDelay.

Definition clientClose (c : DBClient) : comp W DBClient :=
  sg ← get_sg;
  _ ← put_sg (ServerGroup.Stop sg);
  mret (mkClient (HBStop (c_hb c)) (GetTimeout c) (SetTimeout c) (DelTimeout c) (CASTimeout c)).
End client.
