(* ===== verification/KVNet.v ===== *)
(** * What the servers of a network promise to their clients

    The abstract state of a network maps the address of each server that can be
    reached to the chunks of its core and to its group.  The laws below are all
    that the proofs about the client use; [Cluster] proves them for a network of
    servers. *)
From S2P Require Import Prelude.
From S2P Require Import Hashing.
From S2P Require Import Store.
From S2P Require Import PMap.
From S2P Require Import PMapSpec.
From S2P Require Import Chunk.
From S2P Require Import UdpHeartbeat.
From S2P Require Import TcpMessage.
From S2P Require Import Broker.
From S2P Require Import Core.
From S2P Require Import CoreProps.
From S2P Require Import CoreFiles.
From S2P Require Import ServerGroup.
From S2P Require Import ServerGroupSpec.
From S2P Require Import Remote.
From S2P Require Import Server.
From S2P Require Import ServerProps.
From S2P Require Import Client.

#[local] Opaque chunkIndex.

Abbreviation node := (list (option abs) * group)%type.
Abbreviation netmap := (gmap addr_t node).

(** The value that a server holds for a key. *)
Definition nodeValue (k : list byte) (x : node) : option (list byte) :=
  match spec_get x.1 k with inr o => o | inl _ => None end.
Definition valueAt (S : netmap) (k : list byte) (a : addr_t) : option (list byte) :=
  S !! a ≫= nodeValue k.

(** A set on a server: the new state and the reply. *)
Definition spec_set (As : list (option abs)) (k v : list byte) : list (option abs) * option error :=
  match spec_core As (OpSet k v) with
  | Ret (As', RError e) => (As', e)
  | _ => (As, None)
  end.
Definition nodeSet (k v : list byte) (x : node) : node := ((spec_set x.1 k v).1, x.2).

Class KVNet (W : Type) `{Network W} := {
  kv_rep : W → netmap → Prop;
  kv_values w S a As g k v :
    kv_rep w S → S !! a = Some (As, g) → spec_get As k = inr (Some v) → 8 ≤ zlen v < maxChunkSize;
  kv_chunks w S a As g : kv_rep w S → S !! a = Some (As, g) → 0 < zlen As;
  (** A server that can be reached accepts connections. *)
  kv_dial w S a :
    kv_rep w S → kv_rep (net_dial w a).1 S ∧ (is_Some (S !! a) → (net_dial w a).2 = None);
  (** It answers the requests of the primitives. *)
  kv_call w S a As g o t As' r :
    kv_rep w S → S !! a = Some (As, g) → op_ok o → msg_ok (requestOf 0 o) → 0 < t →
    spec_request g As o = Ret (As', r) →
    (net_call w a (requestOf 0 o) t).2 = resultOf r ∧
    kv_rep (net_call w a (requestOf 0 o) t).1 (<[a := (As', g)]> S);
  kv_send w S a As g k v :
    kv_rep w S → S !! a = Some (As, g) → msg_ok (Msg Operation.OpAsyncSet 0 k v) →
    kv_rep (net_send w a (Msg Operation.OpAsyncSet 0 k v)) (<[a := ((spec_set As k v).1, g)]> S);
  kv_nodelay w S a :
    kv_rep w S → kv_rep (net_send w a (Msg Operation.OpSetNoDelay 0 [] [])) S;
  (** Nothing comes from the others. *)
  kv_down_call w S a m t :
    kv_rep w S → S !! a = None →
    (∃ e, (net_call w a m t).2 = Result [] (Some e)) ∧ kv_rep (net_call w a m t).1 S;
  kv_down_send w S a m :
    kv_rep w S → S !! a = None → kv_rep (net_send w a m) S
}.

(** ** The primitives on a node *)

#[local] Transparent chunkIndex.
Lemma chunkIndex_lt (As : list (option abs)) k : 0 < zlen As → (chunkIndex (zlen As) k < length As)%nat.
Proof.
  intros Hn. unfold chunkIndex, zlen in *.
  pose proof (Z.mod_pos_bound (Z.shiftr (FNV1a64 k) 32) (Z.of_nat (length As))). lia.
Qed.
#[local] Opaque chunkIndex.

Lemma spec_request_get g As k :
  (chunkIndex (zlen As) k < length As)%nat →
  spec_request g As (OpGet k) = Ret (As, RValue (nodeValue k (As, g))).
Proof.
  unfold spec_request, spec_core, nodeValue, spec_get. cbn [op_key spec_step fst].
  generalize (chunkIndex (zlen As) k). intros i Hi.
  destruct (As !! i) as [[a|]|] eqn:E; [|done|apply lookup_ge_None_1 in E; lia].
  bsimpl. by rewrite list_insert_id.
Qed.

Lemma spec_core_set As k v :
  spec_core As (OpSet k v) = Ret ((spec_set As k v).1, RError (spec_set As k v).2).
Proof.
  unfold spec_set, spec_core. cbn [op_key spec_step]. generalize (chunkIndex (zlen As) k). intros i.
  by destruct (As !! i) as [[a|]|].
Qed.

Lemma spec_request_set g As k v :
  spec_request g As (OpSet k v) = Ret ((spec_set As k v).1, RError (spec_set As k v).2).
Proof.
  rewrite <- spec_core_set. unfold spec_request. cbn [op_key].
  generalize (chunkIndex (zlen As) k). intros i. by destruct (As !! i) as [[a|]|].
Qed.

(** Setting a value that is not newer changes nothing. *)
Lemma spec_set_old As k v old :
  spec_get As k = inr (Some old) → ts v ≤ ts old → (spec_set As k v).1 = As.
Proof.
  unfold spec_get, spec_set, spec_core. cbn [op_key spec_step].
  generalize (chunkIndex (zlen As) k). intros i.
  destruct (As !! i) as [[a|]|] eqn:Hi; try done. intros [= Ho] Hts. bsimpl.
  unfold spec_Set. rewrite Ho. destruct (Z.leb_spec (ts v) (ts old)); [|lia].
  destruct (zlen v <? 8); cbn; by rewrite list_insert_id.
Qed.

Lemma spec_set_absent As k v e : spec_get As k = inl e → (spec_set As k v).1 = As.
Proof.
  unfold spec_get, spec_set, spec_core. cbn [op_key spec_step].
  generalize (chunkIndex (zlen As) k). intros i. by destruct (As !! i) as [[a|]|].
Qed.

(** Apply a function at each address of a list. *)
Definition alters (u : node → node) (l : list addr_t) (S : netmap) : netmap :=
  foldl (λ S a, alter u a S) S l.

Lemma alters_lookup u l : ∀ S b, NoDup l →
  alters u l S !! b = if decide (b ∈ l) then u <$> S !! b else S !! b.
Proof.
  induction l as [|a l IH]; intros S b Hnd; cbn [alters foldl].
  - rewrite decide_False; [done|]. apply not_elem_of_nil.
  - apply NoDup_cons in Hnd as [Hn Hnd]. fold (alters u l (alter u a S)). rewrite IH by done.
    destruct (decide (b = a)) as [->|Hne].
    + rewrite decide_False, decide_True by (done || by left). by rewrite lookup_alter_eq.
    + rewrite lookup_alter_ne by done. repeat case_decide; try done.
      * destruct H0. by right.
      * by apply elem_of_cons in H0 as [|].
Qed.

Lemma alters_id u l S :
  (∀ a x, a ∈ l → S !! a = Some x → u x = x) → alters u l S = S.
Proof.
  induction l as [|a l IH]; intros Hu; [done|]. cbn. fold (alters u l (alter u a S)).
  assert (alter u a S = S) as ->; [|apply IH; intros b x Hb; apply Hu; by right].
  apply map_eq. intros b. destruct (decide (b = a)) as [->|Hne]; [|by rewrite lookup_alter_ne].
  rewrite lookup_alter_eq. destruct (S !! a) as [x|] eqn:E; [|done]. cbn. by rewrite (Hu a x) by (left || done).
Qed.

(** ** Requests of the code *)

Section kvnet.
Context {W : Type} `{KVNet W} (g0 : group).

(** An environment: the group of the client, and the network. *)
Record cenv (e : env W) (S : netmap) : Prop := CEnv {
  ce_group : sg_rep (e_sg e) g0;
  ce_net : kv_rep (e_net e) S
}.

(** The servers keep their place and their address. *)
Definition same_ptrs (sg sg' : ServerGroup) : Prop :=
  numChunks sg' = numChunks sg ∧ ServerGroup.chunks sg' = ServerGroup.chunks sg ∧
  ∀ p s, mem sg !! p = Some s → ∃ s', mem sg' !! p = Some s' ∧ Phy s' = Phy s.

Lemma same_ptrs_refl sg : same_ptrs sg sg.
Proof. split_and!; eauto. Qed.

Lemma same_ptrs_trans sg1 sg2 sg3 : same_ptrs sg1 sg2 → same_ptrs sg2 sg3 → same_ptrs sg1 sg3.
Proof.
  intros (Hn & Hc & H12) (Hn' & Hc' & H23). split_and!; [congruence..|]. intros p s Hs.
  destruct (H12 p s Hs) as (s' & Hs' & E). destruct (H23 p s' Hs') as (s'' & Hs'' & E').
  exists s''. split; [done|congruence].
Qed.

Lemma set_conn_rep sg p s b :
  sg_rep sg g0 → mem sg !! p = Some s →
  sg_rep (set_server sg p (set_conn s b)) g0 ∧ same_ptrs sg (set_server sg p (set_conn s b)).
Proof.
  intros [H1 H2 H3 H4 H5] Hs. split.
  - split; cbn; try done. intros a q Hq. destruct (H2 a q Hq) as (x & Hx & Ha & Hg).
    destruct (decide (p = q)) as [<-|Hne].
    + rewrite Hs in Hx. injection Hx as <-. exists (set_conn s b). by rewrite lookup_insert_eq.
    + exists x. by rewrite lookup_insert_ne.
  - split_and!; [done..|]. intros q x Hx. cbn. destruct (decide (p = q)) as [<-|Hne].
    + rewrite Hs in Hx. injection Hx as <-. exists (set_conn s b). by rewrite lookup_insert_eq.
    + exists x. by rewrite lookup_insert_ne.
Qed.

Lemma cenv_net e S w S' : cenv e S → kv_rep w S' → cenv (Env (e_sg e) w) S'.
Proof. by intros [H1 _] H2. Qed.

Lemma needConnection_sim e S p s :
  cenv e S → mem (e_sg e) !! p = Some s →
  ∃ r e', needConnection p e = Ret (r, e') ∧ cenv e' S ∧ same_ptrs (e_sg e) (e_sg e') ∧
    (r = inr (Phy s) ∨ S !! Phy s = None ∧ ∃ err, r = inl err).
Proof.
  intros He Hs. unfold needConnection, deref. msimpl. rewrite Hs. msimpl.
  destruct (conn s); msimpl.
  { do 2 eexists. split_and!; [reflexivity|by destruct He|apply same_ptrs_refl|by left]. }
  destruct (kv_dial (e_net e) S (Phy s) (ce_net _ _ He)) as [Hd Hup].
  destruct (net_dial (e_net e) (Phy s)) as [w' err]. cbn [fst snd] in *.
  destruct err as [er|]; msimpl.
  { do 2 eexists. split_and!; [reflexivity|by eapply cenv_net|apply same_ptrs_refl|].
    right. split; [|by eauto]. destruct (S !! Phy s); [|done]. by discriminate Hup; eauto. }
  destruct (set_conn_rep (e_sg e) p s true (ce_group _ _ He) Hs) as [Hg Hsame].
  destruct (vsNoDelay s); unfold connSetNoDelay, connSend; msimpl; cbn [Z.eqb]; msimpl;
    do 2 eexists; (split_and!; [reflexivity|split; [done|]|done|by left]); cbn; [by apply kv_nodelay|done].
Qed.

(** [f] sends a request, whose effect on the server is [u] and whose result
    satisfies [P]. *)
Definition sends (f : sptr → comp W (error + PendingOp)) (u : node → node)
    (P : option node → error + PendingOp → Prop) : Prop := ∀ e S p s,
  cenv e S → mem (e_sg e) !! p = Some s →
  ∃ r e', f p e = Ret (r, e') ∧ cenv e' (alter u (Phy s) S) ∧ same_ptrs (e_sg e) (e_sg e') ∧
    P (S !! Phy s) r.

(** The result of a request that is answered. *)
Definition gives (q : node → reply) (x : option node) (r : error + PendingOp) : Prop :=
  match x with
  | Some x => r = inr (Pending (Some (resultOf (q x))))
  | None => (∃ err, r = inl err) ∨ ∃ err, r = inr (Pending (Some (Result [] (Some err))))
  end.

Lemma alter_down (u : node → node) (a : addr_t) (S : netmap) : S !! a = None → alter u a S = S.
Proof.
  intros Hn. apply map_eq. intros b. destruct (decide (b = a)) as [->|]; [|by rewrite lookup_alter_ne].
  by rewrite lookup_alter_eq, Hn.
Qed.

Lemma alter_at {A} (u : A → A) (a : addr_t) (S : gmap addr_t A) x : S !! a = Some x → alter u a S = <[a := u x]> S.
Proof.
  intros Hx. apply map_eq. intros b. destruct (decide (b = a)) as [->|Hne].
  - by rewrite lookup_alter_eq, Hx, lookup_insert_eq.
  - by rewrite lookup_alter_ne, lookup_insert_ne by done.
Qed.

(** A request with a response, over a connection. *)
Lemma request_sends (send : addr_t → comp W PendingOp) (o : op) (t : Z) (u : node → node) (q : node → reply) :
  (∀ a e, send a e = Ret (Pending (Some (net_call (e_net e) a (requestOf 0 o) t).2),
                          Env (e_sg e) (net_call (e_net e) a (requestOf 0 o) t).1)) →
  op_ok o → msg_ok (requestOf 0 o) → 0 < t →
  (∀ As g, 0 < zlen As → spec_request g As o = Ret ((u (As, g)).1, q (As, g)) ∧ (u (As, g)).2 = g) →
  sends (λ p, connected p (λ c, operation (send c)) inl) u (gives q).
Proof.
  intros Hsend Ho Hm Ht Hspec e S p s He Hs. unfold connected. msimpl.
  destruct (needConnection_sim e S p s He Hs) as (r & e1 & -> & He1 & Hp & Hr). msimpl.
  destruct Hr as [->|[Hn [err ->]]]; msimpl; cycle 1.
  { do 2 eexists. split_and!; [reflexivity|by rewrite alter_down|done|]. rewrite Hn. left. eauto. }
  unfold operation. msimpl. rewrite Hsend. msimpl. do 2 eexists. split; [reflexivity|].
  destruct (S !! Phy s) as [[As g]|] eqn:Ha.
  - destruct (Hspec As g) as [E Eg]; [by eapply kv_chunks; [apply He1|]|].
    destruct (kv_call _ S (Phy s) As g o t _ _ (ce_net _ _ He1) Ha Ho Hm Ht E) as [Er Hk].
    split_and!; [|done|cbn; by rewrite Er]. rewrite (alter_at _ _ _ _ Ha).
    replace (u (As, g)) with ((u (As, g)).1, g) by (rewrite <- Eg at 2; by destruct (u (As, g))).
    by eapply cenv_net.
  - destruct (kv_down_call _ S (Phy s) (requestOf 0 o) t (ce_net _ _ He1) Ha) as [[er Er] Hk].
    rewrite (alter_down _ _ _ Ha). split_and!; [by eapply cenv_net|done|]. cbn. right. rewrite Er. eauto.
Qed.

Lemma vsGet_sends k t :
  good_key k → msg_ok (requestOf 0 (OpGet k)) → 0 < t →
  sends (λ p, vsGet p k t) (λ x, x) (gives (λ x, RValue (nodeValue k x))).
Proof.
  intros Hk Hm Ht. apply (request_sends (λ c, connGet c k t) (OpGet k) t); try done.
  - intros a e. unfold connGet, connSend. msimpl. rewrite check_true by (by apply Z.ltb_lt). msimpl.
    destruct (Z.eqb_spec t 0); [lia|]. by msimpl.
  - intros As g Hn. by rewrite spec_request_get by (by apply chunkIndex_lt).
Qed.

Lemma msg_ok_sizes m : msg_ok m → zlen (mKey m) + zlen (mValue m) < 2 ^ 63.
Proof. unfold msg_ok, msgSize. lia. Qed.

Lemma vsSet_sends k v t :
  msg_ok (requestOf 0 (OpSet k v)) → 0 < t →
  sends (λ p, vsSet p k v t) (nodeSet k v) (gives (λ x, RError (spec_set x.1 k v).2)).
Proof.
  intros Hm Ht. apply (request_sends (λ c, connSet c k v t) (OpSet k v) t); try done.
  - intros a e. unfold connSet, connSend. destruct (Z.eqb_spec t 0); [lia|]. msimpl.
    rewrite check_true by (by apply Z.ltb_lt). by msimpl.
  - apply (msg_ok_sizes (requestOf 0 (OpSet k v)) Hm).
  - intros As g _. by rewrite spec_request_set.
Qed.

(** A set without response. *)
Lemma vsSet_async k v :
  msg_ok (Msg Operation.OpAsyncSet 0 k v) →
  sends (λ p, vsSet p k v 0) (nodeSet k v)
    (λ x r, r = inr (Pending None) ∨ x = None ∧ ∃ err, r = inl err).
Proof.
  intros Hm e S p s He Hs. unfold vsSet, connected. msimpl.
  destruct (needConnection_sim e S p s He Hs) as (r & e1 & -> & He1 & Hp & Hr). msimpl.
  destruct Hr as [->|[Hn [err ->]]]; msimpl; cycle 1.
  { do 2 eexists. split_and!; [reflexivity|by rewrite alter_down|done|]. right. eauto. }
  unfold operation, connSet, connSend. cbn [Z.eqb]. msimpl. do 2 eexists. split; [reflexivity|].
  split_and!; [|done|by left]. destruct (S !! Phy s) as [[As g]|] eqn:Ha.
  - rewrite (alter_at _ _ _ _ Ha). eapply cenv_net; [done|]. by apply kv_send; [apply He1|..].
  - rewrite (alter_down _ _ _ Ha). eapply cenv_net; [done|]. by apply kv_down_send; [apply He1|].
Qed.

(** ** Requests to the holders of a chunk *)

Lemma located_mono sg sg' ps addrs : same_ptrs sg sg' → located sg ps addrs → located sg' ps addrs.
Proof.
  intros (_ & _ & Hs) Hl. eapply Forall2_impl; [exact Hl|]. intros p a (s & Hp & <-).
  destruct (Hs p s Hp) as (s' & Hs' & E). exists s'. by split.
Qed.

Lemma Forall2_impl' {A B} (P Q : A → B → Prop) l k :
  Forall2 P l k → (∀ x y, x ∈ l → P x y → Q x y) → Forall2 Q l k.
Proof.
  induction 1 as [|x y l k Hxy _ IH]; intros Hi; constructor; [apply Hi; [left|done]|].
  apply IH. intros x' y' Hx. apply Hi. by right.
Qed.

Definition opOf (r : error + PendingOp) : option PendingOp :=
  match r with inl _ => None | inr o => Some o end.

(** The last error of a connection. *)
Definition lastError (errs : option error) (rs : list (error + PendingOp)) : option error :=
  foldl (λ errs r, match r with inl e => Some e | inr _ => errs end) errs rs.

Lemma sendAll_nones (f : sptr → comp W (error + PendingOp)) n errs (e : env W) : sendAll f (replicate n None) errs e = Ret ((replicate n None, errs), e).
Proof. induction n as [|n IH]; [done|]. cbn [replicate sendAll]. msimpl. by rewrite IH. Qed.

Lemma sendAll_sim f u P n : sends f u P → ∀ ps addrs e S errs,
  cenv e S → located (e_sg e) ps addrs → NoDup addrs →
  ∃ rs e', sendAll f (map Some ps ++ replicate n None) errs e =
      Ret ((map opOf rs ++ replicate n None, lastError errs rs), e') ∧
    cenv e' (alters u addrs S) ∧ same_ptrs (e_sg e) (e_sg e') ∧
    Forall2 (λ a r, P (S !! a) r) addrs rs.
Proof.
  intros Hf ps. induction ps as [|p ps IH]; intros addrs e S errs He Hl Hnd.
  - apply Forall2_nil_inv_l in Hl as ->. exists [], e. cbn [map app]. rewrite sendAll_nones.
    split_and!; [done|done|apply same_ptrs_refl|constructor].
  - apply Forall2_cons_inv_l in Hl as (a & l & (s & Hs & <-) & Hl & ->).
    apply NoDup_cons in Hnd as [Hn Hnd]. cbn [map app sendAll]. msimpl.
    destruct (Hf e S p s He Hs) as (r & e1 & -> & He1 & Hp1 & HP). msimpl.
    assert (∀ errs, ∃ rs e', sendAll f (map Some ps ++ replicate n None) errs e1 =
        Ret ((map opOf rs ++ replicate n None, lastError errs rs), e') ∧
      cenv e' (alters u (Phy s :: l) S) ∧ same_ptrs (e_sg e) (e_sg e') ∧
      Forall2 (λ a r, P (S !! a) r) l rs) as Hrest.
    { intros errs'. destruct (IH l e1 (alter u (Phy s) S) errs' He1) as (rs & e2 & E & He2 & Hp2 & HF);
        [by eapply located_mono|done|]. exists rs, e2. split_and!; [done|done|by eapply same_ptrs_trans|].
      eapply Forall2_impl'; [exact HF|]. intros b x Hb Hx. cbn in Hx. rewrite lookup_alter_ne in Hx; [done|]. by intros <-. }
    destruct r as [err|o]; msimpl.
    + destruct (Hrest (Some err)) as (rs & e2 & E & He2 & Hp2 & HF). rewrite E. msimpl.
      exists (inl err :: rs), e2. split_and!; [done|done|done|by constructor].
    + destruct (Hrest errs) as (rs & e2 & E & He2 & Hp2 & HF). rewrite E. msimpl.
      exists (inr o :: rs), e2. split_and!; [done|done|done|by constructor].
Qed.
End kvnet.
