(* ===== verification/ClientProps.v ===== *)
(** * What the client guarantees

    Against the promises of the servers ([KVNet]): a read returns the newest
    value of the holders that answer and brings the others up to date; a write
    reaches every holder that can be reached; a value that was written is read
    back. *)
From S2P Require Import Prelude.
From S2P Require Import Hashing.
From S2P Require Import Store.
From S2P Require Import PMap.
From S2P Require Import PMapSpec.
From S2P Require Import Chunk.
From S2P Require Import TcpMessage.
From S2P Require Import Broker.
From S2P Require Import Core.
From S2P Require Import CoreProps.
From S2P Require Import CoreFiles.
From S2P Require Import ServerGroup.
From S2P Require Import ServerGroupSpec.
From S2P Require Import Remote.
From S2P Require Import Heartbeat.
From S2P Require Import Server.
From S2P Require Import ServerProps.
From S2P Require Import Client.
From S2P Require Import KVNet.

#[local] Opaque chunkIndex.

(** The chunk of a key in a group of [n] chunks. *)
Definition keyChunk (n : Z) (key : list byte) : Z := Z.shiftr (FNV1a64 key) 32 mod n.

(** The holders of the chunk of a key. *)
Definition keyHolders (g : group) (n : Z) (key : list byte) : gset addr_t := holdersOf g (keyChunk n key).

(** The time of the value at an address. *)
Definition timeAt (S : netmap) (k : list byte) (a : addr_t) : time := default zero_time (ts <$> valueAt S k a).

(** [o] is the newest value at the addresses of a list, if there is one. *)
Definition newest (S : netmap) (k : list byte) (P : addr_t → Prop) (o : option (list byte)) : Prop :=
  match o with
  | Some v => (∃ a, P a ∧ valueAt S k a = Some v) ∧
              ∀ a v', P a → valueAt S k a = Some v' → ts v' ≤ ts v
  | None => ∀ a, P a → valueAt S k a = None
  end.

Lemma newest_ext S k (P Q : addr_t → Prop) o : (∀ a, P a ↔ Q a) → newest S k P o → newest S k Q o.
Proof.
  intros E Hn. unfold newest in *. destruct o; [|intros a Ha; apply Hn; by apply E].
  destruct Hn as [(a & Ha & Hv) Hm]. split; [exists a; by rewrite <- E|].
  intros b v' Hb. apply Hm. by apply E.
Qed.

(** ** Reading *)

(** One more holder has answered, or not. *)
Definition readStep (S : netmap) (k : list byte) (acc : reading) (a : addr_t) : reading :=
  match S !! a with
  | None => acc
  | Some x =>
      match nodeValue k x with
      | Some v => if rd_last acc <? ts v then Reading (Some v) (ts v) true
                  else Reading (rd_value acc) (rd_last acc) true
      | None => Reading (rd_value acc) (rd_last acc) true
      end
  end.

(** What has been read from the addresses that satisfy [P]. *)
Record read_ok (S : netmap) (k : list byte) (P : addr_t → Prop) (r : reading) : Prop := ReadOk {
  ro_newest : newest S k P (rd_value r);
  ro_last : rd_last r = default zero_time (ts <$> rd_value r);
  ro_read : rd_read r = true ↔ ∃ a, P a ∧ is_Some (S !! a)
}.

Lemma zero_before v : zero_time < ts v.
Proof. apply time_of_header_after_zero. Qed.

Lemma readStep_ok S k P r a :
  read_ok S k P r → read_ok S k (λ b, P b ∨ b = a) (readStep S k r a).
Proof.
  intros [Hn Hl Hr]. unfold readStep. destruct (S !! a) as [x|] eqn:Ha; cycle 1.
  { assert (valueAt S k a = None) as Hv by (unfold valueAt; by rewrite Ha).
    split; [|done|].
    2:{ rewrite Hr. split; intros (b & Hb & Hs); exists b; [by split; [left|]|].
        destruct Hb as [?| ->]; [done|]. rewrite Ha in Hs. by destruct Hs. }
    destruct (rd_value r) as [v|]; cbn in *; [|by intros b [Hb| ->]; [apply Hn|]].
    destruct Hn as [(b & Hb & Hbv) Hmax]. split; [eauto|]. intros b' v' [Hb'| ->] Hv'; [by eapply Hmax|congruence]. }
  assert (valueAt S k a = nodeValue k x) as Hv by (unfold valueAt; by rewrite Ha).
  assert (true = true ↔ ∃ b, (P b ∨ b = a) ∧ is_Some (S !! b)) as Ht.
  { split; [|done]. intros _. exists a. rewrite Ha. split; [by right|eauto]. }
  destruct (nodeValue k x) as [v|].
  - pose proof (zero_before v). destruct (Z.ltb_spec (rd_last r) (ts v)) as [Hlt|Hge].
    + split; cbn; [|done|done]. split; [exists a; split; [by right|done]|].
      intros b v' [Hb| ->] Hv'; [|assert (v' = v) as -> by congruence; lia].
      destruct (rd_value r) as [y|]; cbn in *; [|rewrite (Hn b Hb) in Hv'; done].
      destruct Hn as [_ Hmax]. specialize (Hmax b v' Hb Hv'). lia.
    + split; cbn; [|done|done]. destruct (rd_value r) as [y|]; cbn in *; [|lia].
      destruct Hn as [(b & Hb & Hbv) Hmax]. split; [eauto|].
      intros b' v' [Hb'| ->] Hv'; [by eapply Hmax|]. assert (v' = v) as -> by congruence. lia.
  - split; cbn; [|done|done]. destruct (rd_value r) as [y|]; cbn in *; [|by intros b [Hb| ->]; [apply Hn|]].
    destruct Hn as [(b & Hb & Hbv) Hmax]. split; [eauto|].
    intros b' v' [Hb'| ->] Hv'; [by eapply Hmax|congruence].
Qed.

Lemma readSteps_ok S k l : ∀ P r,
  read_ok S k P r → read_ok S k (λ b, P b ∨ b ∈ l) (foldl (readStep S k) r l).
Proof.
  assert (∀ P Q r, (∀ b, P b ↔ Q b) → read_ok S k P r → read_ok S k Q r) as Hext.
  { intros P Q r E [Hn Hl Hr]. split; [by eapply newest_ext|done|setoid_rewrite <- E; done]. }
  induction l as [|a l IH]; intros P r Hr; cbn.
  - eapply Hext; [|done]. intros b. rewrite elem_of_nil. naive_solver.
  - eapply Hext; [|apply IH, readStep_ok, Hr]. intros b. cbn. rewrite elem_of_cons. naive_solver.
Qed.

Lemma read_ok_nil S k : read_ok S k (λ _, False) (Reading None zero_time false).
Proof. split; cbn; [done|done|]. split; [done|]. by intros (? & [] & _). Qed.

(** A set at each of a set of servers. *)
Definition holdersSet (S : netmap) (X : gset addr_t) (k v : list byte) : netmap :=
  map_imap (λ a x, Some (if decide (a ∈ X) then nodeSet k v x else x)) S.

Lemma holdersSet_alters S X k v l :
  NoDup l → (∀ a, a ∈ l ↔ a ∈ X) → alters (nodeSet k v) l S = holdersSet S X k v.
Proof.
  intros Hnd Hl. apply map_eq. intros a. rewrite alters_lookup by done. unfold holdersSet.
  rewrite map_lookup_imap. destruct (S !! a) as [x|]; cbn; repeat case_decide; naive_solver.
Qed.

Lemma holders_of_group sg g0 i :
  sg_rep sg g0 → 0 ≤ i < numChunks sg → (size (holdersOf g0 i) ≤ 8)%nat →
  ∃ ps addrs m, GetChunkHolders sg i = Ret (map Some ps ++ replicate m None) ∧
    located sg ps addrs ∧ NoDup addrs ∧ ∀ a, a ∈ addrs ↔ a ∈ holdersOf g0 i.
Proof.
  intros Hr Hi Hsz.
  destruct (chunk_holders sg g0 Hr _ Hi) as (c & Hix & Hnd & Hmem & HF).
  pose proof (NumHolders_sim _ _ Hr _ Hi) as Hnum. unfold NumHolders in Hnum.
  rewrite Hix in Hnum. assert (zlen (holders c) = Z.of_nat (size (holdersOf g0 i))) as Hz
    by (injection Hnum as Hz; exact Hz).
  unfold GetChunkHolders. rewrite Hix. bsimpl. rewrite check_true by (apply Z.leb_le; lia). bsimpl.
  exists (holders c), (map (addrOf sg) (holders c)), (8 - length (holders c))%nat.
  split_and!; [done| |done|done]. unfold located. apply Forall2_fmap_r.
  clear -HF. induction HF as [|p ps (v & s & _ & Hs & _) _ IH]; constructor; [|done].
  unfold deref in Hs. unfold compose, addrOf. destruct (mem sg !! p) as [x|]; [|done]. by exists x.
Qed.

Section client.
Context {W : Type} `{KVNet W} (g0 : group).

Lemma readReplies_sim (w : W) S k n addrs : kv_rep w S → ∀ rs acc,
  Forall2 (λ a r, gives (λ x, RValue (nodeValue k x)) (S !! a) r) addrs rs →
  readReplies acc (map opOf rs ++ replicate n None) =
    (map (timeAt S k) addrs ++ replicate n zero_time, foldl (readStep S k) acc addrs).
Proof.
  intros Hw. induction addrs as [|a addrs IH]; intros rs acc HF.
  - apply Forall2_nil_inv_l in HF as ->. cbn. induction n as [|n IHn]; [done|]. cbn. by rewrite IHn.
  - apply Forall2_cons_inv_l in HF as (r & rs' & Hr & HF & ->). cbn [map app foldl].
    destruct (S !! a) as [[As g]|] eqn:Ha; cbn [gives] in Hr.
    + subst r. cbn [opOf readReplies]. unfold GetWait. cbn [rch fst snd resultOf].
      assert (valueAt S k a = nodeValue k (As, g)) as Hva by (unfold valueAt; by rewrite Ha).
      assert (readReply acc (Result (default [] (nodeValue k (As, g))) None) =
              (timeAt S k a, readStep S k acc a)) as ->; [|cbn [fst snd]; by rewrite IH].
      unfold readStep, timeAt, readReply. rewrite Hva, Ha. cbn [r_err r_value]. destruct (nodeValue k (As, g)) as [v|] eqn:Hv; cbn [default]; [|done].
      assert (8 ≤ zlen v) as H8.
      { eapply (kv_values w S a As g k v Hw Ha). unfold nodeValue in Hv. cbn in Hv.
        destruct (spec_get As k) as [|[|]]; simplify_eq; done. }
      change (id v) with v. destruct (Z.leb_spec 8 (zlen v)); [done|lia].
    + assert (timeAt S k a = zero_time) as Ht by (unfold timeAt, valueAt; by rewrite Ha).
      assert (readStep S k acc a = acc) as Es by (unfold readStep; by rewrite Ha).
      rewrite Ht, Es. destruct Hr as [[err ->]|[err ->]]; cbn [opOf readReplies]; unfold GetWait;
        cbn [rch fst snd]; by rewrite IH.
Qed.

(** Setting the newest value where it is already changes nothing. *)
Lemma repair_id S k v a :
  ts v ≤ timeAt S k a → alter (nodeSet k v) a S = S.
Proof.
  intros Ht. destruct (S !! a) as [x|] eqn:Ha; [|by apply alter_down].
  rewrite (alter_at _ _ _ _ Ha). unfold timeAt, valueAt in Ht. rewrite Ha in Ht. cbn in Ht.
  assert (nodeSet k v x = x) as ->; [|by apply insert_id]. unfold nodeSet.
  destruct x as [As g]. cbn in *. unfold nodeValue in Ht. cbn in Ht.
  destruct (spec_get As k) as [e|[old|]] eqn:Eg; cbn in Ht.
  - pose proof (zero_before v). lia.
  - by rewrite (spec_set_old As k v old).
  - pose proof (zero_before v). lia.
Qed.

Lemma readRepair_nones k v last n ts' (e : env W) :
  readRepair k v last (replicate n None) ts' e = Ret (tt, e).
Proof. revert ts'. induction n as [|n IH]; intros [|t ts']; try done. cbn [replicate readRepair]. apply IH. Qed.

Lemma readRepair_sim k v n ts' : msg_ok (Msg Operation.OpAsyncSet 0 k v) → ∀ ps addrs (e : env W) S,
  cenv g0 e S → located (e_sg e) ps addrs → NoDup addrs →
  ∃ e', readRepair k v (ts v) (map Some ps ++ replicate n None) (map (timeAt S k) addrs ++ ts') e =
      Ret (tt, e') ∧ cenv g0 e' (alters (nodeSet k v) addrs S) ∧ same_ptrs (e_sg e) (e_sg e').
Proof.
  intros Hm ps. induction ps as [|p ps IH]; intros addrs e S He Hl Hnd.
  - apply Forall2_nil_inv_l in Hl as ->. exists e. cbn [map app]. rewrite readRepair_nones.
    split_and!; [done|done|apply same_ptrs_refl].
  - apply Forall2_cons_inv_l in Hl as (a & l & (s & Hs & <-) & Hl & ->).
    apply NoDup_cons in Hnd as [Hn Hnd]. cbn [map app readRepair]. msimpl.
    assert (∃ e1, (if timeAt S k (Phy s) <? ts v then _ ← vsSet p k v 0; mret tt else mret tt) e = Ret (tt, e1) ∧
      cenv g0 e1 (alter (nodeSet k v) (Phy s) S) ∧ same_ptrs (e_sg e) (e_sg e1)) as (e1 & -> & He1 & Hp1).
    { destruct (Z.ltb_spec (timeAt S k (Phy s)) (ts v)).
      - destruct (vsSet_async g0 k v Hm e S p s He Hs) as (r & e1 & E & He1 & Hp1 & _).
        exists e1. msimpl. rewrite E. by msimpl.
      - exists e. rewrite repair_id by done. split_and!; [done|done|apply same_ptrs_refl]. }
    msimpl. destruct (IH l e1 (alter (nodeSet k v) (Phy s) S) He1) as (e2 & E & He2 & Hp2);
      [by eapply located_mono|done|]. exists e2. split_and!; [|done|by eapply same_ptrs_trans].
    rewrite <- E. do 2 f_equal. apply map_ext_in. intros b Hb%list_elem_of_In. unfold timeAt, valueAt.
    rewrite lookup_alter_ne; [done|]. by intros <-.
Qed.

(** ** The holders of a key *)

Lemma holders_located (e : env W) S i :
  cenv g0 e S → 0 ≤ i < numChunks (e_sg e) → (size (holdersOf g0 i) ≤ 8)%nat →
  ∃ ps addrs m, GetChunkHolders (e_sg e) i = Ret (map Some ps ++ replicate m None) ∧
    located (e_sg e) ps addrs ∧ NoDup addrs ∧ ∀ a, a ∈ addrs ↔ a ∈ holdersOf g0 i.
Proof. intros He. apply holders_of_group, He. Qed.

Lemma holdersFor_sim (e : env W) S n k :
  cenv g0 e S → numChunks (e_sg e) = n → 0 < n < 2 ^ 63 → (size (keyHolders g0 n k) ≤ 8)%nat →
  ∃ ps addrs m, holdersFor k e = Ret (map Some ps ++ replicate m None, e) ∧
    located (e_sg e) ps addrs ∧ NoDup addrs ∧ ∀ a, a ∈ addrs ↔ a ∈ keyHolders g0 n k.
Proof.
  intros He Hn Hr Hsz. unfold holdersFor. msimpl. rewrite Hn, GetChunkID_Ret by done. msimpl.
  fold (keyChunk n k).
  destruct (holders_located e S (keyChunk n k) He) as (ps & addrs & m & -> & Hl); [|done|].
  { rewrite Hn. apply Z.mod_pos_bound. lia. }
  msimpl. by exists ps, addrs, m.
Qed.
End client.

Lemma clientGet_sim `{KVNet W} g0 (e : env W) S n c k :
  cenv g0 e S → numChunks (e_sg e) = n → 0 < n < 2 ^ 63 → (size (keyHolders g0 n k) ≤ 8)%nat →
  good_key k → 0 < GetTimeout c → zlen k < 2 ^ 31 →
  ∃ o e' read, clientGet c k e = Ret ((drop 8 <$> o, default zero_time (ts <$> o), read), e') ∧
    newest S k (.∈ keyHolders g0 n k) o ∧
    (read = true ↔ ∃ a, a ∈ keyHolders g0 n k ∧ is_Some (S !! a)) ∧
    ∃ S', cenv g0 e' S' ∧ same_ptrs (e_sg e) (e_sg e') ∧
      S' = match o with Some v => holdersSet S (keyHolders g0 n k) k v | None => S end.
Proof.
  intros He Hn Hr Hsz Hk Ht Hlen.
  destruct (holdersFor_sim g0 e S n k He Hn Hr Hsz) as (ps & addrs & m & Eh & Hl & Hnd & Hmem).
  unfold clientGet. msimpl. rewrite Eh. msimpl.
  assert (msg_ok (requestOf 0 (OpGet k))) as Hm.
  { unfold msg_ok, msgSize. cbn. zlen_nil_simpl. unfold Operation.OpGet. lia. }
  destruct (sendAll_sim g0 _ _ _ m (vsGet_sends g0 k (GetTimeout c) Hk Hm Ht) ps addrs e S None He Hl Hnd)
    as (rs & e1 & E1 & He1 & Hp1 & HF). rewrite E1. msimpl.
  rewrite alters_id in He1 by done.
  rewrite (readReplies_sim (e_net e) S k m addrs (ce_net _ _ _ He) rs _ HF). cbn [fst snd].
  destruct (readSteps_ok S k addrs _ _ (read_ok_nil S k)) as [Hnew Hlast Hread].
  set (r := foldl (readStep S k) _ addrs) in *.
  assert (∀ a, (False ∨ a ∈ addrs) ↔ a ∈ keyHolders g0 n k) as Hmem' by (intros a; rewrite Hmem; tauto).
  apply (newest_ext _ _ _ _ _ Hmem') in Hnew. setoid_rewrite Hmem' in Hread.
  destruct (rd_value r) as [v|] eqn:Ev; rewrite Hlast; cbn [default fmap option_fmap option_map] in *.
  - destruct Hnew as [(a & Ha & Hv) Hmax].
    assert (8 ≤ zlen v < maxChunkSize) as Hv8.
    { unfold valueAt, nodeValue in Hv. destruct (S !! a) as [[As g]|] eqn:Hsa; [|done]. cbn in Hv.
      eapply (kv_values (e_net e) S a As g k v); [apply He|done|].
      destruct (spec_get As k) as [|[|]]; simplify_eq; done. }
    assert (msg_ok (Msg Operation.OpAsyncSet 0 k v)) as Hm2.
    { unfold msg_ok, msgSize, maxChunkSize in *. cbn. unfold Operation.OpAsyncSet. lia. }
    destruct (readRepair_sim g0 k v m (replicate m zero_time) Hm2 ps addrs e1 S He1) as (e2 & E2 & He2 & Hp2);
      [by eapply located_mono|done|]. change (id (ts v)) with (ts v). msimpl. rewrite E2. msimpl.
    exists (Some v), e2, (rd_read r). split_and!; [done|by split; [exists a|]|done|].
    eexists. split_and!; [exact He2|by eapply same_ptrs_trans|]. by apply holdersSet_alters.
  - exists None, e1, (rd_read r). split_and!; [done|done|done|]. by exists S.
Qed.

(** C16. A read returns, from the holders of the chunk that can be reached, the
    value with the latest time, without its time; it reports whether a holder
    answered; and it sets the value at every holder that has an older one or
    none. *)
Theorem client_reads_newest `{KVNet W} g0 (e : env W) S n c k :
  cenv g0 e S → numChunks (e_sg e) = n → 0 < n < 2 ^ 63 → (size (keyHolders g0 n k) ≤ 8)%nat →
  good_key k → 0 < GetTimeout c → zlen k < 2 ^ 31 →
  ∃ o e' read, clientGet c k e = Ret ((drop 8 <$> o, default zero_time (ts <$> o), read), e') ∧
    newest S k (.∈ keyHolders g0 n k) o ∧
    (read = true ↔ ∃ a, a ∈ keyHolders g0 n k ∧ is_Some (S !! a)) ∧
    ∃ S', cenv g0 e' S' ∧ same_ptrs (e_sg e) (e_sg e') ∧
      S' = match o with Some v => holdersSet S (keyHolders g0 n k) k v | None => S end.
Proof. apply clientGet_sim. Qed.

(** ** Writing *)

(** The server at [a] is reached and its reply [q] is not an error. *)
Definition accepts (q : node → option error) (S : netmap) (a : addr_t) : Prop :=
  ∃ x, S !! a = Some x ∧ q x = None.

(** It accepts a value. *)
Definition accepted (S : netmap) (k v : list byte) : addr_t → Prop :=
  accepts (λ x, (spec_set x.1 k v).2) S.

Lemma gives_accepts q S a r :
  gives (λ x, RError (q x)) (S !! a) r →
  (accepts q S a ∧ ∃ o, r = inr o ∧ (Wait o).1 = None) ∨
  (¬ accepts q S a ∧ ((∃ err, r = inl err) ∨ ∃ o err, r = inr o ∧ (Wait o).1 = Some err)).
Proof.
  unfold gives, accepts. destruct (S !! a) as [x|].
  - intros ->. destruct (q x) as [err|] eqn:E.
    + right. split; [intros (y & [= <-] & Hy); congruence|]. right. by do 2 eexists.
    + left. split; [by exists x|]. by eexists.
  - intros Hr. right. split; [by intros (? & [=] & _)|].
    destruct Hr as [[err ->]|[err ->]]; [left; by eexists|right; by do 2 eexists].
Qed.

Lemma waitAll_nones n b errs : waitAll (replicate n None) b errs = (b, errs).
Proof. by induction n. Qed.

Lemma waitAll_sim q S n addrs rs :
  Forall2 (λ a r, gives (λ x, RError (q x)) (S !! a) r) addrs rs → ∀ b errs,
  let r := waitAll (map opOf rs ++ replicate n None) b (lastError errs rs) in
  (r.1 = true ↔ b = true ∨ ∃ a, a ∈ addrs ∧ accepts q S a) ∧
  (r.2 = None ↔ errs = None ∧ ∀ a, a ∈ addrs → accepts q S a).
Proof.
  assert (∀ rs b errs, (waitAll (map opOf rs ++ replicate n None) b (Some errs)).2 ≠ None) as Hsome.
  { clear. induction rs as [|[e|o] rs IH]; intros b errs; cbn [map app opOf waitAll].
    - by rewrite waitAll_nones.
    - apply IH.
    - destruct (Wait o).1; apply IH. }
  induction 1 as [|a r addrs rs Hr HF IH]; intros b errs.
  - cbn. rewrite waitAll_nones. cbn. split; [|split; [intros ->; split; [done|by intros a ?%not_elem_of_nil]|by intros [-> _]]].
    split; [by left|]. intros [?|(a & Ha & _)]; [done|by apply not_elem_of_nil in Ha].
  - apply gives_accepts in Hr. cbn [map app opOf lastError foldl waitAll].
    destruct Hr as [[Hacc (o & -> & Ho)]|[Hacc Hr]].
    + cbn [opOf]. cbn [waitAll]. rewrite Ho. destruct (IH true errs) as [I1 I2].
      fold (lastError errs rs). rewrite I1, I2. setoid_rewrite elem_of_cons.
      split; [split; [|by left]|]; [intros _; right; exists a; split; [by left|done]|].
      split; intros [? H']; (split; [done|]); [intros b' [->|]; [done|by apply H']|intros b' Hb'; apply H'; by right].
    + assert (¬ (errs = None ∧ ∀ a', a' ∈ a :: addrs → accepts q S a')) as Hno.
      { intros [_ Hall]. apply Hacc, Hall. by left. }
      assert (∀ P : Prop, (P ↔ (b = true ∨ ∃ a', a' ∈ addrs ∧ accepts q S a')) →
                 (P ↔ (b = true ∨ ∃ a', a' ∈ a :: addrs ∧ accepts q S a'))) as Hcons.
      { intros P ->. setoid_rewrite elem_of_cons. split; [|intros [?|(a' & [->|] & ?)]; [by left|done|right; eauto]].
        intros [?|(a' & ? & ?)]; [by left|right; eauto]. }
      destruct Hr as [[err ->]|(o & err & -> & Ho)].
      * cbn [opOf waitAll]. fold (lastError (Some err) rs). destruct (IH b (Some err)) as [I1 I2].
        split; [by apply Hcons|]. split; [|done]. intros [[=] _]%I2.
      * cbn [opOf waitAll]. rewrite Ho. fold (lastError errs rs). split; cycle 1.
        { split; [intros E; by apply Hsome in E|done]. }
        apply Hcons. destruct (IH b errs) as [I1 _]. rewrite <- I1.
        assert (∀ rs b e1 e2, (waitAll rs b e1).1 = (waitAll rs b e2).1) as Hw;
          [|by rewrite (Hw _ b (Some err) (lastError errs rs))].
        clear. induction rs as [|[o|] rs IH]; intros b e1 e2; cbn [waitAll]; [done| |apply IH].
        destruct (Wait o).1; apply IH.
Qed.

Lemma clientSet_sim `{KVNet W} g0 (e : env W) S n c k v :
  cenv g0 e S → numChunks (e_sg e) = n → 0 < n < 2 ^ 63 → (size (keyHolders g0 n k) ≤ 8)%nat →
  0 < SetTimeout c → zlen k + zlen v < 2 ^ 31 →
  let x := stamp (net_now (e_net e)) ++ v in
  ∃ written errs e', clientSet c k v e = Ret ((written, errs), e') ∧
    cenv g0 e' (holdersSet S (keyHolders g0 n k) k x) ∧ same_ptrs (e_sg e) (e_sg e') ∧
    (written = true ↔ ∃ a, a ∈ keyHolders g0 n k ∧ accepted S k x a) ∧
    (errs = None ↔ ∀ a, a ∈ keyHolders g0 n k → accepted S k x a).
Proof.
  intros He Hn Hr Hsz Ht Hlen x.
  destruct (holdersFor_sim g0 e S n k He Hn Hr Hsz) as (ps & addrs & m & Eh & Hl & Hnd & Hmem).
  unfold clientSet, set_, getNow. msimpl. rewrite Eh. msimpl.
  assert (msg_ok (requestOf 0 (OpSet k x))) as Hm.
  { unfold msg_ok, msgSize, x, stamp. cbn. unfold Operation.OpSet. zl. }
  assert (cenv g0 (Env (e_sg e) (e_net e)) S) as He0 by (by destruct He).
  destruct (sendAll_sim g0 _ _ _ m (vsSet_sends g0 k x (SetTimeout c) Hm Ht) ps addrs
    (Env (e_sg e) (e_net e)) S None He0 Hl Hnd) as (rs & e1 & E1 & He1 & Hp1 & HF).
  unfold x in E1. rewrite E1. msimpl. destruct (Z.ltb_spec 0 (SetTimeout c)); [|lia].
  destruct (waitAll_sim _ S m addrs rs HF false None) as [Hw He2].
  destruct (waitAll _ _ _) as [written errs]. cbn [fst snd] in *.
  exists written, errs, e1. setoid_rewrite Hmem in Hw. setoid_rewrite Hmem in He2.
  split_and!; [done|by rewrite <- (holdersSet_alters _ _ _ _ addrs)|done|by rewrite Hw; naive_solver|by rewrite He2; naive_solver].
Qed.

(** C15. A write reaches every holder of the chunk that can be reached, with the
    time of the client in front; it reports whether one of them accepted it, and
    reports an error exactly when one of them did not. *)
Theorem client_writes_everywhere `{KVNet W} g0 (e : env W) S n c k v :
  cenv g0 e S → numChunks (e_sg e) = n → 0 < n < 2 ^ 63 → (size (keyHolders g0 n k) ≤ 8)%nat →
  0 < SetTimeout c → zlen k + zlen v < 2 ^ 31 →
  let x := stamp (net_now (e_net e)) ++ v in
  ∃ written errs e', clientSet c k v e = Ret ((written, errs), e') ∧
    cenv g0 e' (holdersSet S (keyHolders g0 n k) k x) ∧ same_ptrs (e_sg e) (e_sg e') ∧
    (written = true ↔ ∃ a, a ∈ keyHolders g0 n k ∧ accepted S k x a) ∧
    (errs = None ↔ ∀ a, a ∈ keyHolders g0 n k → accepted S k x a).
Proof. apply clientSet_sim. Qed.

(** ** Reading back *)

Lemma spec_set_other As k v i :
  i ≠ chunkIndex (zlen As) k → (spec_set As k v).1 !! i = As !! i.
Proof.
  unfold spec_set, spec_core. cbn [op_key spec_step]. generalize (chunkIndex (zlen As) k). intros j Hne.
  destruct (As !! j) as [[a|]|]; [|done..]. bsimpl. cbn. by rewrite list_lookup_insert_ne.
Qed.

Lemma spec_set_zlen As k v : zlen (spec_set As k v).1 = zlen As.
Proof. pose proof (spec_core_set As k v) as E. by apply spec_core_zlen in E. Qed.

(** An accepted value that is newer than the stored one is stored. *)
Lemma spec_set_stores As k v :
  (∀ old, spec_get As k = inr (Some old) → ts old < ts v) → (spec_set As k v).2 = None →
  spec_get (spec_set As k v).1 k = inr (Some v).
Proof.
  unfold spec_get. rewrite spec_set_zlen. unfold spec_set, spec_core. cbn [op_key spec_step].
  generalize (chunkIndex (zlen As) k). intros i. destruct (As !! i) as [[a|]|] eqn:Hi; [|done..].
  bsimpl. cbn [fst snd]. intros Hold. rewrite list_lookup_insert_eq by (by eapply lookup_lt_Some).
  unfold spec_Set, spec_write.
  destruct (zlen v <? 8); [done|]. destruct (a_map a !! k) as [old|] eqn:Ho.
  - specialize (Hold old eq_refl). destruct (Z.leb_spec (ts v) (ts old)); [lia|].
    destruct (room a k v); [|done]. cbn. by rewrite lookup_insert_eq.
  - destruct (room a k v); [|done]. cbn. by rewrite lookup_insert_eq.
Qed.

(** A set stores the value or changes nothing for its key. *)
Lemma spec_set_cases As k v old :
  spec_get (spec_set As k v).1 k = inr (Some old) → old = v ∨ spec_get As k = inr (Some old).
Proof.
  unfold spec_get. rewrite spec_set_zlen. unfold spec_set, spec_core. cbn [op_key spec_step].
  generalize (chunkIndex (zlen As) k). intros i. destruct (As !! i) as [[a|]|] eqn:Hi; [|cbn; rewrite Hi; by right..].
  bsimpl. cbn [fst snd]. rewrite list_lookup_insert_eq by (by eapply lookup_lt_Some).
  unfold spec_Set, spec_write.
  destruct (zlen v <? 8); [by right|]. destruct (a_map a !! k) as [x|] eqn:Ho.
  - destruct (ts v <=? ts x); cbn; [rewrite Ho; by right|].
    destruct (room a k v); cbn; [rewrite lookup_insert_eq; intros [= <-]; by left|rewrite Ho; by right].
  - destruct (room a k v); cbn; [rewrite lookup_insert_eq; intros [= <-]; by left|rewrite Ho; done].
Qed.

Lemma ts_stamp t v : 0 ≤ t < 2 ^ 63 → ts (stamp t ++ v) = t.
Proof.
  intros Ht. unfold ts, hdr, stamp. rewrite take_app_le, take_ge by (rewrite le_enc_length; lia).
  rewrite le_dec_enc. change (256 ^ Z.of_nat 8) with (2 ^ 64). rewrite u64_small by lia.
  rewrite Z.mod_small by lia. unfold time_of_header, time_unix. rewrite s64_small by lia. lia.
Qed.

(** The values after a set at the holders. *)
Lemma holdersSet_values S X k x a v :
  valueAt (holdersSet S X k x) k a = Some v → v = x ∨ valueAt S k a = Some v.
Proof.
  unfold valueAt, holdersSet. rewrite map_lookup_imap. destruct (S !! a) as [[As g]|]; [|done]. cbn.
  case_decide; [|by right]. unfold nodeValue. cbn.
  destruct (spec_get (spec_set As k x).1 k) as [|[y|]] eqn:E; try done. intros [= ->].
  destruct (spec_set_cases As k x v E) as [->|E']; [by left|]. right. by rewrite E'.
Qed.

Lemma holdersSet_accepted S X k x a :
  a ∈ X → accepted S k x a → (∀ v, valueAt S k a = Some v → ts v < ts x) →
  valueAt (holdersSet S X k x) k a = Some x.
Proof.
  intros Ha ([As g] & Hs & Hacc) Hold. unfold valueAt, holdersSet in *. rewrite map_lookup_imap.
  rewrite Hs in *. cbn in *. rewrite decide_True by done. unfold nodeValue. cbn.
  rewrite spec_set_stores; [done| |done]. intros old Ho. apply Hold. unfold nodeValue. cbn. by rewrite Ho.
Qed.

(** The newest value is the one that was just written. *)
Lemma newest_written (S : netmap) (X Y : gset addr_t) k x a o :
  a ∈ X → a ∈ Y → accepted S k x a → (∀ b v, b ∈ Y → valueAt S k b = Some v → ts v < ts x) →
  newest (holdersSet S X k x) k (.∈ Y) o → o = Some x.
Proof.
  intros Ha Ha' Hacc Hold Hn. pose proof (holdersSet_accepted S X k x a Ha Hacc (λ v, Hold a v Ha')) as Hx.
  destruct o as [v|]; [|by rewrite (Hn a Ha') in Hx].
  destruct Hn as [(b & Hb & Hv) Hmax]. specialize (Hmax a x Ha' Hx).
  destruct (holdersSet_values _ _ _ _ _ _ Hv) as [->|Hv']; [done|].
  specialize (Hold b v Hb Hv'). lia.
Qed.

Lemma set_get_sim `{KVNet W} g0 (e : env W) S n c k v :
  cenv g0 e S → numChunks (e_sg e) = n → 0 < n < 2 ^ 63 → (size (keyHolders g0 n k) ≤ 8)%nat →
  good_key k → 0 < SetTimeout c → 0 < GetTimeout c → zlen k + zlen v < 2 ^ 31 →
  let t := net_now (e_net e) in
  0 ≤ t < 2 ^ 63 →
  (∀ a old, a ∈ keyHolders g0 n k → valueAt S k a = Some old → ts old < t) →
  (∃ a, a ∈ keyHolders g0 n k ∧ accepted S k (stamp t ++ v) a) →
  ∃ errs e', (w ← clientSet c k v; r ← clientGet c k; mret (w, r)) e =
    Ret ((true, errs, (Some v, t, true)), e').
Proof.
  intros He Hn Hr Hsz Hk Hst Hgt Hlen t Ht Hold (a & Ha & Hacc).
  pose proof (ts_stamp t v Ht) as Hts. set (x := stamp t ++ v) in *.
  destruct (clientSet_sim g0 e S n c k v) as (written & errs & e1 & E1 & He1 & Hp1 & Hw & _); try done.
  fold t in He1, Hw. fold x in He1, Hw. rewrite run_bind, E1. msimpl.
  destruct (clientGet_sim g0 e1 (holdersSet S (keyHolders g0 n k) k x) n c k) as (o & e2 & read & E2 & Hnew & Hread & _);
    try done; [by rewrite (proj1 Hp1)|pose proof (zlen_nonneg v); lia|].
  rewrite E2. msimpl. rewrite (proj2 Hw) by eauto.
  assert (o = Some x) as -> by (eapply newest_written; [done..| |done]; rewrite Hts; done).
  rewrite (proj2 Hread); cycle 1.
  { exists a. split; [done|]. unfold holdersSet. rewrite map_lookup_imap. destruct Hacc as (y & -> & _). cbn. eauto. }
  exists errs, e2. cbn [fmap option_fmap option_map default]. rewrite Hts. unfold x, stamp.
  rewrite drop_app_le, drop_ge by (rewrite le_enc_length; lia). done.
Qed.

(** A value that was written is read back, by any client whose view of the
    holders is the same, with the time of the write: one holder has to accept
    the write, and the values stored before have to be older. *)
Theorem client_reads_its_writes `{KVNet W} g0 (e : env W) S n c k v :
  cenv g0 e S → numChunks (e_sg e) = n → 0 < n < 2 ^ 63 → (size (keyHolders g0 n k) ≤ 8)%nat →
  good_key k → 0 < SetTimeout c → 0 < GetTimeout c → zlen k + zlen v < 2 ^ 31 →
  let t := net_now (e_net e) in
  0 ≤ t < 2 ^ 63 →
  (∀ a old, a ∈ keyHolders g0 n k → valueAt S k a = Some old → ts old < t) →
  (∃ a, a ∈ keyHolders g0 n k ∧ accepted S k (stamp t ++ v) a) →
  ∃ errs e', (w ← clientSet c k v; r ← clientGet c k; mret (w, r)) e =
    Ret ((true, errs, (Some v, t, true)), e').
Proof. apply set_get_sim. Qed.
