(* ===== verification/ClientCAS.v ===== *)
(** * Compare and swap from the client

    The holder with the highest rank for the key decides; the others are set to
    the new value when it accepts. *)
From S2P Require Import Prelude.
From S2P Require Import Hashing.
From S2P Require Import Store.
From S2P Require Import PMap.
From S2P Require Import PMapSpec.
From S2P Require Import Chunk.
From S2P Require Import TcpMessage.
From S2P Require Import Broker.
From S2P Require Import Core.
From S2P Require Import CoreProps.
From S2P Require Import CoreFiles.
From S2P Require Import ServerGroup.
From S2P Require Import ServerGroupSpec.
From S2P Require Import Remote.
From S2P Require Import Heartbeat.
From S2P Require Import Server.
From S2P Require Import ServerProps.
From S2P Require Import Client.
From S2P Require Import KVNet.
From S2P Require Import ClientProps.

#[local] Opaque chunkIndex.

(** ** The master *)

(** The result is the first maximum of the ranks from [i] on and of the one
    found before. *)
Lemma selectMaster_max l : ∀ i m mr,
  (∃ j r, selectMaster l i m mr = i + Z.of_nat j ∧ l !! j = Some r ∧ mr < r ∧ Forall (λ x, x ≤ r) l) ∨
  (selectMaster l i m mr = m ∧ Forall (λ x, x ≤ mr) l).
Proof.
  induction l as [|x l IH]; intros i m mr; [by right|]. cbn [selectMaster].
  destruct (Z.ltb_spec mr x).
  - left. destruct (IH (i + 1) i x) as [(j & r & E & Hj & Hlt & HF)|[E HF]].
    + exists (S j), r. rewrite E. split_and!; [lia|done|lia|]. constructor; [lia|done].
    + exists 0%nat, x. rewrite E. split_and!; [lia|done|done|]. by constructor.
  - destruct (IH (i + 1) m mr) as [(j & r & E & Hj & Hlt & HF)|[E HF]].
    + left. exists (S j), r. rewrite E. split_and!; [lia|done|done|]. constructor; [lia|done].
    + right. split; [done|]. by constructor.
Qed.

Lemma rank_range key a : 0 ≤ rank key a.
Proof. apply FNV1a64_range. Qed.

Lemma ranks_located sg key m ps : ∀ addrs,
  located sg ps addrs →
  ranks sg key (map Some ps ++ replicate m None) = Ret (map (rank key) addrs ++ replicate m 0).
Proof.
  induction ps as [|p ps IH]; intros addrs Hl.
  - apply Forall2_nil_inv_l in Hl as ->. cbn. induction m as [|m IHm]; [done|]. cbn. by rewrite IHm.
  - apply Forall2_cons_inv_l in Hl as (a & l & (s & Hs & <-) & Hl & ->). cbn [map app ranks].
    unfold deref. rewrite Hs. bsimpl. rewrite (IH l Hl). done.
Qed.

(** The master is a holder of the highest rank. *)
Lemma selectServer_max sg key m ps addrs :
  located sg ps addrs → ps ≠ [] →
  ∃ i p a, selectServer sg key (map Some ps ++ replicate m None) = Ret (Z.of_nat i, Some p) ∧
    ps !! i = Some p ∧ addrs !! i = Some a ∧ ∀ b, b ∈ addrs → rank key b ≤ rank key a.
Proof.
  intros Hl Hne. unfold selectServer. rewrite (ranks_located sg key m ps addrs Hl). bsimpl.
  pose proof (Forall2_length _ _ _ Hl) as Hlen.
  assert (∃ i a, selectMaster (map (rank key) addrs ++ replicate m 0) 0 0 0 = Z.of_nat i ∧
    addrs !! i = Some a ∧ ∀ b, b ∈ addrs → rank key b ≤ rank key a) as (i & a & E & Ha & Hmax).
  { destruct (selectMaster_max (map (rank key) addrs ++ replicate m 0) 0 0 0)
      as [(j & r & E & Hj & Hlt & HF)|[E HF]]; apply Forall_app in HF as [HF _].
    - destruct (lookup_lt_is_Some_2 addrs j) as [a Ha].
      { destruct (decide (j < length addrs)%nat); [done|]. rewrite lookup_app_r in Hj by (rewrite length_map; lia).
        apply lookup_replicate in Hj as [-> _]. lia. }
      exists j, a. split_and!; [lia|done|]. rewrite lookup_app_l, list_lookup_fmap, Ha in Hj by
        (rewrite length_map; by eapply lookup_lt_Some). injection Hj as <-.
      intros b Hb. rewrite Forall_forall in HF. apply HF, list_elem_of_fmap. eauto.
    - destruct addrs as [|a addrs]; [by destruct ps|]. exists 0%nat, a. split_and!; [done|done|].
      intros b Hb. rewrite Forall_forall in HF. pose proof (rank_range key a).
      assert (rank key b ≤ 0); [|lia]. apply HF, list_elem_of_fmap. eauto. }
  rewrite E. destruct (Forall2_lookup_r _ _ _ _ _ Hl Ha) as (p & Hp & _).
  rewrite (index_lookup _ _ (Some p)); [|lia|].
  - bsimpl. by exists i, p, a.
  - rewrite Nat2Z.id, lookup_app_l, list_lookup_fmap, Hp; [done|]. rewrite length_map. by eapply lookup_lt_Some.
Qed.

(** C19. The clients agree on the master of a key: whatever the order in which
    they list its holders, each selects the same server, when no two holders
    have the same rank. *)
Theorem clients_agree_on_master sg sg' key m m' ps ps' addrs addrs' :
  located sg ps addrs → located sg' ps' addrs' → (∀ a, a ∈ addrs ↔ a ∈ addrs') → ps ≠ [] →
  (∀ a b, a ∈ addrs → b ∈ addrs → rank key a = rank key b → a = b) →
  ∃ i i' p p' a, selectServer sg key (map Some ps ++ replicate m None) = Ret (Z.of_nat i, Some p) ∧
    selectServer sg' key (map Some ps' ++ replicate m' None) = Ret (Z.of_nat i', Some p') ∧
    addrOf sg p = a ∧ addrOf sg' p' = a.
Proof.
  intros Hl Hl' Hsame Hne Hinj.
  assert (ps' ≠ []) as Hne'.
  { intros ->. apply Forall2_nil_inv_l in Hl' as ->. destruct ps as [|p ps]; [done|].
    apply Forall2_cons_inv_l in Hl as (a & l & _ & _ & ->).
    assert (a ∈ []) as H%not_elem_of_nil by (apply Hsame; by left). done. }
  destruct (selectServer_max sg key m ps addrs Hl Hne) as (i & p & a & E & Hp & Ha & Hmax).
  destruct (selectServer_max sg' key m' ps' addrs' Hl' Hne') as (i' & p' & a' & E' & Hp' & Ha' & Hmax').
  assert (a ∈ addrs) as Hin by (by eapply list_elem_of_lookup_2).
  assert (a' ∈ addrs') as Hin' by (by eapply list_elem_of_lookup_2).
  assert (a = a') as <-.
  { apply Hinj; [done|by apply Hsame|]. specialize (Hmax a' (proj2 (Hsame a') Hin')).
    specialize (Hmax' a (proj1 (Hsame a) Hin)). lia. }
  destruct (Forall2_lookup_lr _ _ _ _ _ _ Hl Hp Ha) as (s & Hs & Es).
  destruct (Forall2_lookup_lr _ _ _ _ _ _ Hl' Hp' Ha') as (s' & Hs' & Es').
  exists i, i', p, p', a. unfold addrOf. rewrite Hs, Hs'. done.
Qed.

(** ** The effect of a CAS *)

(** A CAS on a server. *)
Definition spec_cas (x : node) (k arg : list byte) : list (option abs) * option error :=
  match spec_request x.2 x.1 (OpCAS k arg) with
  | Ret (As', RError e) => (As', e)
  | _ => (x.1, None)
  end.
Definition nodeCAS (k arg : list byte) (x : node) : node := ((spec_cas x k arg).1, x.2).

Lemma spec_request_cas g As k arg :
  spec_request g As (OpCAS k arg) = Ret ((spec_cas (As, g) k arg).1, RError (spec_cas (As, g) k arg).2).
Proof.
  unfold spec_cas, spec_request, spec_core. cbn [op_key spec_step fst snd].
  generalize (chunkIndex (zlen As) k). intros i. destruct (As !! i) as [[a|]|]; try done.
  by case_decide.
Qed.

Section cas.
Context {W : Type} `{KVNet W} (g0 : group).

Lemma vsCAS_sends k x t :
  msg_ok (requestOf 0 (OpCAS k x)) → 0 < t →
  sends g0 (λ p, vsCAS p k x t) (nodeCAS k x) (gives (λ y, RError (spec_cas y k x).2)).
Proof.
  intros Hm Ht. apply (request_sends g0 (λ c, connCAS c k x t) (OpCAS k x) t); try done.
  - intros a e. unfold connCAS, connSend. msimpl. rewrite check_true by (by apply Z.ltb_lt). msimpl.
    destruct (Z.eqb_spec t 0); [lia|]. by msimpl.
  - apply (msg_ok_sizes (requestOf 0 (OpCAS k x)) Hm).
  - intros As g _. by rewrite spec_request_cas.
Qed.

Lemma slaveSets_nones k v master i n errs (e : env W) :
  slaveSets k v master i (replicate n None) errs e = Ret (errs, e).
Proof. revert i. induction n as [|n IH]; intros i; [done|]. cbn [replicate slaveSets]. apply IH. Qed.

(** Every holder but the master gets the value. *)
Lemma slaveSets_sim k v n : msg_ok (Msg Operation.OpAsyncSet 0 k v) →
  ∀ ps addrs i master a (e : env W) S errs,
  cenv g0 e S → located (e_sg e) ps addrs → NoDup addrs →
  (∀ j b, addrs !! j = Some b → (i + Z.of_nat j = master ↔ b = a)) →
  ∃ errs' e', slaveSets k v master i (map Some ps ++ replicate n None) errs e = Ret (errs', e') ∧
    cenv g0 e' (alters (nodeSet k v) (filter (.≠ a) addrs) S) ∧ same_ptrs (e_sg e) (e_sg e').
Proof.
  intros Hm ps. induction ps as [|p ps IH]; intros addrs i master a e S errs He Hl Hnd Hi.
  - apply Forall2_nil_inv_l in Hl as ->. cbn [map app]. exists errs, e. rewrite slaveSets_nones.
    split_and!; [done|done|apply same_ptrs_refl].
  - apply Forall2_cons_inv_l in Hl as (b & l & (s & Hs & <-) & Hl & ->).
    apply NoDup_cons in Hnd as [Hn Hnd]. cbn [map app slaveSets].
    assert (∀ j b, l !! j = Some b → (i + 1 + Z.of_nat j = master ↔ b = a)) as Hi'.
    { intros j b Hb. rewrite <- (Hi (Datatypes.S j) b Hb). lia. }
    specialize (Hi 0%nat (Phy s) eq_refl). rewrite Z.add_0_r in Hi. rewrite filter_cons.
    destruct (Z.eqb_spec i master) as [->|Hne].
    + rewrite decide_False by (intros E; apply E; by apply Hi). by apply IH.
    + rewrite decide_True by (intros E; apply Hne; by apply Hi). msimpl.
      destruct (vsSet_async g0 k v Hm e S p s He Hs) as (r & e1 & -> & He1 & Hp1 & _). msimpl.
      destruct (IH l (i + 1) master a e1 _ (match r with inl x => Some x | inr _ => errs end) He1)
        as (errs' & e2 & E & He2 & Hp2); [by eapply located_mono|done|done|].
      exists errs', e2. split_and!; [done|done|by eapply same_ptrs_trans].
Qed.
End cas.

Lemma clientCAS_sim `{KVNet W} g0 (e : env W) S n c k v t old :
  cenv g0 e S → numChunks (e_sg e) = n → 0 < n < 2 ^ 63 →
  (0 < size (keyHolders g0 n k) ≤ 8)%nat → 0 < CASTimeout c → zlen k + zlen v < 2 ^ 31 →
  let arg := casValue t old (net_now (e_net e)) v in
  ∃ a r e' S', a ∈ keyHolders g0 n k ∧ (∀ b, b ∈ keyHolders g0 n k → rank k b ≤ rank k a) ∧
    clientCAS c k v t old e = Ret (r, e') ∧ cenv g0 e' S' ∧ same_ptrs (e_sg e) (e_sg e') ∧
    match S !! a with
    | None => ∃ err, r = (false, Some err) ∧ S' = S
    | Some x =>
        match (spec_cas x k arg).2 with
        | Some err => r = (false, Some ("Response error: " +:+ err)) ∧ S' = <[a := nodeCAS k arg x]> S
        | None => r.1 = true ∧
            S' = holdersSet (<[a := nodeCAS k arg x]> S) (keyHolders g0 n k ∖ {[a]}) k
                   (stamp (net_now (e_net e)) ++ v)
        end
    end.
Proof.
  intros He Hn Hr [Hsz0 Hsz] Ht Hlen arg.
  destruct (holdersFor_sim g0 e S n k He Hn Hr Hsz) as (ps & addrs & m & Eh & Hl & Hnd & Hmem).
  assert (ps ≠ []) as Hne.
  { intros ->. apply Forall2_nil_inv_l in Hl as ->. apply size_pos_elem_of in Hsz0 as [b Hb%Hmem].
    by apply not_elem_of_nil in Hb. }
  destruct (selectServer_max (e_sg e) k m ps addrs Hl Hne) as (i & p & a & Es & Hp & Ha & Hmax).
  destruct (Forall2_lookup_lr _ _ _ _ _ _ Hl Hp Ha) as (s & Hs & Ea).
  assert (cenv g0 (Env (e_sg e) (e_net e)) S) as He0 by (by destruct He).
  assert (zlen arg = 24 + zlen v ∧ drop 16 arg = stamp (net_now (e_net e)) ++ v) as [Hza Hda].
  { unfold arg, casValue, stamp. split; [zl|]. rewrite (app_assoc (le_enc 8 _)), drop_app_le, drop_ge.
    - done.
    - rewrite length_app, !le_enc_length. lia.
    - rewrite length_app, !le_enc_length. lia. }
  assert (msg_ok (requestOf 0 (OpCAS k arg))) as Hm.
  { unfold msg_ok, msgSize. cbn. rewrite Hza. pose proof (zlen_nonneg k). unfold Operation.OpCAS. zl. }
  destruct (vsCAS_sends g0 k arg (CASTimeout c) Hm Ht (Env (e_sg e) (e_net e)) S p s He0 Hs)
    as (o & e1 & E1 & He1 & Hp1 & Hg). rewrite Ea in He1, Hg.
  exists a. unfold clientCAS, getNow. rewrite run_bind, Eh. msimpl. rewrite Es. msimpl.
  fold arg. rewrite E1. msimpl.
  assert (a ∈ keyHolders g0 n k) as Hin by (by apply Hmem; eapply list_elem_of_lookup_2).
  assert (∀ b, b ∈ keyHolders g0 n k → rank k b ≤ rank k a) as Hmax' by (intros b Hb; apply Hmax; by apply Hmem).
  destruct (S !! a) as [x|] eqn:Hx; cbn [gives] in Hg; cycle 1.
  { rewrite alter_down in He1 by done.
    destruct Hg as [[err ->]|[err ->]]; msimpl; [|unfold Wait; cbn [rch r_err fst]; msimpl];
      do 3 eexists; (split_and!; [done..|]); by eexists. }
  subst o. unfold Wait. cbn [rch resultOf fst]. rewrite (alter_at _ _ _ _ Hx) in He1.
  destruct (spec_cas x k arg).2 as [err|] eqn:Ec; cbn [r_err]; msimpl.
  { do 3 eexists. split_and!; try done. }
  rewrite Hda. destruct (slaveSets_sim g0 k (stamp (net_now (e_net e)) ++ v) m) with
    (ps := ps) (addrs := addrs) (i := 0) (master := Z.of_nat i) (a := a) (e := e1)
    (S := <[a := nodeCAS k arg x]> S) (errs := @None error) as (errs & e2 & E2 & He2 & Hp2); try done.
  { unfold msg_ok, msgSize, stamp. cbn. unfold Operation.OpAsyncSet. pose proof (zlen_nonneg k). zl. }
  { by eapply located_mono. }
  { intros j b Hb. rewrite Z.add_0_l. split; [intros Hj; assert (j = i) as -> by lia; congruence|].
    intros ->. f_equal. by eapply NoDup_lookup. }
  rewrite E2. msimpl. do 3 eexists. split_and!; [done|done|done|exact He2|by eapply same_ptrs_trans|done|].
  apply holdersSet_alters; [by apply NoDup_filter|]. intros b.
  rewrite list_elem_of_filter, elem_of_difference, elem_of_singleton, Hmem. naive_solver.
Qed.

(** C18. A CAS is decided by the holder of the highest rank: when it cannot be
    reached the CAS fails and changes nothing; when it refuses, its error is
    returned and the other holders keep their values; when it accepts, the CAS
    succeeds and the others are set to the new value with the same time. *)
Theorem client_CAS_decided_by_master `{KVNet W} g0 (e : env W) S n c k v t old :
  cenv g0 e S → numChunks (e_sg e) = n → 0 < n < 2 ^ 63 →
  (0 < size (keyHolders g0 n k) ≤ 8)%nat → 0 < CASTimeout c → zlen k + zlen v < 2 ^ 31 →
  let arg := casValue t old (net_now (e_net e)) v in
  ∃ a r e' S', a ∈ keyHolders g0 n k ∧ (∀ b, b ∈ keyHolders g0 n k → rank k b ≤ rank k a) ∧
    clientCAS c k v t old e = Ret (r, e') ∧ cenv g0 e' S' ∧
    match S !! a with
    | None => ∃ err, r = (false, Some err) ∧ S' = S
    | Some x =>
        match (spec_cas x k arg).2 with
        | Some err => r = (false, Some ("Response error: " +:+ err)) ∧ S' = <[a := nodeCAS k arg x]> S
        | None => r.1 = true ∧
            S' = holdersSet (<[a := nodeCAS k arg x]> S) (keyHolders g0 n k ∖ {[a]}) k
                   (stamp (net_now (e_net e)) ++ v)
        end
    end.
Proof.
  intros He Hn Hr Hsz Ht Hlen arg. destruct (clientCAS_sim g0 e S n c k v t old He Hn Hr Hsz Ht Hlen)
    as (a & r & e' & S' & Ha & Hmax & E & He' & _ & Hres). by exists a, r, e', S'.
Qed.
