(* ===== verification/ClientDel.v ===== *)
(** * Deleting from the client

    A delete reaches the holders that can be reached; with all of them reached
    the key is not read any more. *)
From S2P Require Import Prelude.
From S2P Require Import Hashing.
From S2P Require Import Store.
From S2P Require Import PMap.
From S2P Require Import PMapSpec.
From S2P Require Import Chunk.
From S2P Require Import TcpMessage.
From S2P Require Import Broker.
From S2P Require Import Core.
From S2P Require Import CoreProps.
From S2P Require Import CoreFiles.
From S2P Require Import ServerGroup.
From S2P Require Import ServerGroupSpec.
From S2P Require Import Remote.
From S2P Require Import Heartbeat.
From S2P Require Import Server.
From S2P Require Import ServerProps.
From S2P Require Import Client.
From S2P Require Import KVNet.
From S2P Require Import ClientProps.

#[local] Opaque chunkIndex.

(** A delete on a node: the chunks and the reply. *)
Definition spec_del (x : node) (k t : list byte) : list (option abs) * option error :=
  match spec_core x.1 (OpDel k t) with
  | Ret (As', RError e) => (As', e)
  | _ => (x.1, None)
  end.
Definition nodeDel (k t : list byte) (x : node) : node := ((spec_del x k t).1, x.2).

Lemma spec_request_del g As k t :
  8 ≤ zlen t →
  spec_request g As (OpDel k t) = Ret ((spec_del (As, g) k t).1, RError (spec_del (As, g) k t).2).
Proof.
  intros Ht. unfold spec_del, spec_request, spec_core. cbn [op_key spec_step fst snd].
  generalize (chunkIndex (zlen As) k). intros i. destruct (As !! i) as [[a|]|]; try done.
  unfold spec_Del. destruct (a_map a !! k) as [old|]; [|done]. rewrite check_true by (by apply Z.leb_le). bsimpl.
  by destruct (ts t <? ts old); [|destruct (room a k [])].
Qed.

Lemma spec_Del_gone a k t :
  8 ≤ zlen t → (∀ old, a_map a !! k = Some old → ts old ≤ ts t) →
  ∃ a' e, spec_Del a k t = Ret (a', e) ∧ a_map a' !! k = None.
Proof.
  intros Ht Hold. unfold spec_Del. destruct (a_map a !! k) as [old|] eqn:Ho; [|by exists a, None].
  specialize (Hold old eq_refl). rewrite check_true by (by apply Z.leb_le). bsimpl.
  destruct (Z.ltb_spec (ts t) (ts old)); [lia|].
  destruct (room a k []); do 2 eexists; (split; [reflexivity|]); cbn; apply lookup_delete_eq.
Qed.

(** A delete that is not older than the value leaves none. *)
Lemma nodeDel_value k t x :
  8 ≤ zlen t → (∀ old, nodeValue k x = Some old → ts old ≤ ts t) → nodeValue k (nodeDel k t x) = None.
Proof.
  intros Ht Hold. destruct x as [As g]. revert Hold. unfold nodeDel, spec_del, nodeValue, spec_get. cbn [fst snd].
  intros Hold. destruct (spec_core As (OpDel k t)) as [[As' r]| |] eqn:E; [pose proof (spec_core_zlen _ _ _ _ E) as Hz| |];
    revert E; unfold spec_core; cbn [op_key spec_step]; [|revert Hold..].
  - destruct (As !! chunkIndex (zlen As) k) as [[a|]|] eqn:Hi.
    + destruct (spec_Del_gone a k t Ht Hold) as (a' & e & -> & Hn). bsimpl. intros [= <- <-]. cbn [fst].
      rewrite Hz, list_lookup_insert_eq by (by eapply lookup_lt_Some). done.
    + intros [= <- <-]. cbn [fst]. by rewrite Hi.
    + intros [= <- <-]. cbn [fst]. by rewrite Hi.
  - destruct (As !! chunkIndex (zlen As) k) as [[a|]|]; try done. intros Hold.
    destruct (spec_Del_gone a k t Ht Hold) as (a' & e & -> & Hn). done.
  - destruct (As !! chunkIndex (zlen As) k) as [[a|]|]; try done. intros Hold.
    destruct (spec_Del_gone a k t Ht Hold) as (a' & e & -> & Hn). done.
Qed.

Definition holdersDel (S : netmap) (X : gset addr_t) (k t : list byte) : netmap :=
  map_imap (λ a x, Some (if decide (a ∈ X) then nodeDel k t x else x)) S.

Lemma holdersDel_alters S X k t l :
  NoDup l → (∀ a, a ∈ l ↔ a ∈ X) → alters (nodeDel k t) l S = holdersDel S X k t.
Proof.
  intros Hnd Hl. apply map_eq. intros a. rewrite alters_lookup by done. unfold holdersDel.
  rewrite map_lookup_imap. destruct (S !! a) as [x|]; cbn; repeat case_decide; naive_solver.
Qed.

Section del.
Context {W : Type} `{KVNet W} (g0 : group).

Lemma vsDel_sends k x t :
  msg_ok (requestOf 0 (OpDel k x)) → 8 ≤ zlen x → 0 < t →
  sends g0 (λ p, vsDel p k x t) (nodeDel k x) (gives (λ y, RError (spec_del y k x).2)).
Proof.
  intros Hm Hx Ht. apply (request_sends g0 (λ c, connDel c k x t) (OpDel k x) t); try done.
  - intros a e. unfold connDel, connSend. msimpl. destruct (Z.eqb_spec t 0); [lia|]. msimpl.
    rewrite check_true by (by apply Z.ltb_lt). by msimpl.
  - apply (msg_ok_sizes (requestOf 0 (OpDel k x)) Hm).
  - intros As g _. by rewrite spec_request_del.
Qed.

Lemma clientDel_sim (e : env W) S n c k :
  cenv g0 e S → numChunks (e_sg e) = n → 0 < n < 2 ^ 63 → (size (keyHolders g0 n k) ≤ 8)%nat →
  0 < DelTimeout c → zlen k < 2 ^ 31 →
  let t := stamp (net_now (e_net e)) in
  ∃ errs e', clientDel c k e = Ret (errs, e') ∧ cenv g0 e' (holdersDel S (keyHolders g0 n k) k t) ∧
    same_ptrs (e_sg e) (e_sg e') ∧
    (errs = None ↔ ∀ a, a ∈ keyHolders g0 n k → accepts (λ x, (spec_del x k t).2) S a).
Proof.
  intros He Hn Hr Hsz Ht Hlen t.
  destruct (holdersFor_sim g0 e S n k He Hn Hr Hsz) as (ps & addrs & m & Eh & Hl & Hnd & Hmem).
  unfold clientDel, getNow. msimpl. rewrite Eh. msimpl.
  assert (zlen t = 8) as Hz by (unfold t, stamp; by rewrite zlen_le_enc).
  assert (msg_ok (requestOf 0 (OpDel k t))) as Hm.
  { unfold msg_ok, msgSize. cbn. unfold Operation.OpDel. zl. }
  assert (cenv g0 (Env (e_sg e) (e_net e)) S) as He0 by (by destruct He).
  destruct (sendAll_sim g0 _ _ _ m (vsDel_sends k t (DelTimeout c) Hm ltac:(lia) Ht) ps addrs
    (Env (e_sg e) (e_net e)) S None He0 Hl Hnd) as (rs & e1 & E1 & He1 & Hp1 & HF).
  unfold t in E1. rewrite E1. msimpl. destruct (Z.ltb_spec 0 (DelTimeout c)); [|lia].
  destruct (waitAll_sim _ S m addrs rs HF false None) as [_ He2].
  exists (waitAll (map opOf rs ++ replicate m None) false (lastError None rs)).2, e1.
  setoid_rewrite Hmem in He2.
  split_and!; [done|by rewrite <- (holdersDel_alters _ _ _ _ addrs)|done|by rewrite He2; naive_solver].
Qed.
End del.

(** C17. A delete takes the key away at every holder that can be reached, and
    changes nothing elsewhere; it returns no error exactly when every holder was
    reached and accepted it. A read that follows returns no value. The values that
    are stored must not be newer than the time of the delete on the clock of the
    client (a newer one is kept), the hash of the key is not reserved, there are
    at most eight holders, the timeouts are above 0 and the clock is after 1970. *)
Theorem client_deletes_key `{KVNet W} g0 (e : env W) S n c k :
  cenv g0 e S → numChunks (e_sg e) = n → 0 < n < 2 ^ 63 → (size (keyHolders g0 n k) ≤ 8)%nat →
  good_key k → 0 < DelTimeout c → 0 < GetTimeout c → zlen k < 2 ^ 31 →
  let t := net_now (e_net e) in
  0 ≤ t < 2 ^ 63 → (∀ a old, a ∈ keyHolders g0 n k → valueAt S k a = Some old → ts old ≤ t) →
  ∃ errs e1 S1 read e2,
    clientDel c k e = Ret (errs, e1) ∧ cenv g0 e1 S1 ∧
    (∀ a, a ∈ keyHolders g0 n k → valueAt S1 k a = None) ∧
    (∀ a, a ∉ keyHolders g0 n k → S1 !! a = S !! a) ∧
    (errs = None ↔ ∀ a, a ∈ keyHolders g0 n k → accepts (λ x, (spec_del x k (stamp t)).2) S a) ∧
    clientGet c k e1 = Ret ((None, zero_time, read), e2).
Proof.
  intros He Hn Hr Hsz Hk Hdt Hgt Hlen t Ht Hold.
  destruct (clientDel_sim g0 e S n c k) as (errs & e1 & E1 & He1 & Hp1 & Herr); try done.
  fold t in He1, Herr. set (S1 := holdersDel S (keyHolders g0 n k) k (stamp t)) in *.
  assert (∀ a, a ∈ keyHolders g0 n k → valueAt S1 k a = None) as Hgone.
  { intros a Ha. unfold valueAt, S1, holdersDel. rewrite map_lookup_imap. specialize (Hold a). revert Hold.
    unfold valueAt. destruct (S !! a) as [x|]; [|done]. cbn. rewrite decide_True by done. intros Hold.
    apply nodeDel_value; [unfold stamp; by rewrite zlen_le_enc|]. intros old Ho.
    pose proof (ts_stamp t [] Ht) as Hts. rewrite app_nil_r in Hts. rewrite Hts. by apply Hold. }
  destruct (clientGet_sim g0 e1 S1 n c k) as (o & e2 & read & E2 & Hnew & _); try done; [by rewrite (proj1 Hp1)|].
  exists errs, e1, S1, read, e2. split_and!; try done.
  - intros a Ha. unfold S1, holdersDel. rewrite map_lookup_imap. destruct (S !! a); [|done]. cbn. by rewrite decide_False.
  - rewrite E2. destruct o as [v|]; [|done]. destruct Hnew as [(a & Ha & Hv) _]. by rewrite Hgone in Hv.
Qed.
