(* ===== verification/Service.v ===== *)
(** * The service that the servers give to their clients

    Any number of clients ([src/client/client.go]) use a network at the same
    time, each with its own view of who holds what, and servers crash.  As long
    as one holder of each key survives, all this behaves as one map: the
    replicas, the views, the retries and the read repair are not visible.

    The theorems are proved against the promises of the servers ([KVNet]) and of
    the environment ([Faulty]); [Cluster] keeps both. *)
From S2P Require Import Prelude.
From S2P Require Import Hashing.
From S2P Require Import Store.
From S2P Require Import PMap.
From S2P Require Import PMapSpec.
From S2P Require Import Chunk.
From S2P Require Import Replicas.
From S2P Require Import TcpMessage.
From S2P Require Import Broker.
From S2P Require Import Core.
From S2P Require Import CoreProps.
From S2P Require Import CoreFiles.
From S2P Require Import Defrag.
From S2P Require Import ServerGroup.
From S2P Require Import ServerGroupSpec.
From S2P Require Import Remote.
From S2P Require Import Heartbeat.
From S2P Require Import Server.
From S2P Require Import ServerProps.
From S2P Require Import Client.
From S2P Require Import KVNet.
From S2P Require Import ClientProps.
From S2P Require Import ClientCAS.
From S2P Require Import ClientDel.

#[local] Opaque chunkIndex.

(** ** The clients and what happens to them *)

(** A network whose time passes and whose servers crash. *)
Class Faulty (W : Type) `{KVNet W} := {
  net_wait : W → time → W;
  net_crash : W → addr_t → W;
  wait_now w t : net_now (net_wait w t) = t;
  kv_wait w S t : kv_rep w S → kv_rep (net_wait w t) S;
  kv_crash w S a : kv_rep w S → kv_rep (net_crash w a) (delete a S)
}.

(** The calls of the package [client]. *)
Inductive request :=
  | CGet (k : list byte)
  | CSet (k v : list byte)
  | CAsyncSet (k v : list byte)
  | CDel (k : list byte)
  | CCAS (k v : list byte) (t : time) (old : list byte).

Inductive answer :=
  | AGet (v : option (list byte)) (t : time) (read : bool)
  | ASet (written : bool) (errs : option error)
  | AErr (errs : option error)
  | ACAS (ok : bool) (errs : option error).

Definition keyOf (r : request) : list byte :=
  match r with CGet k | CSet k _ | CAsyncSet k _ | CDel k | CCAS k _ _ _ => k end.

(** A client and its view of the group. *)
Record user := User { u_client : DBClient; u_group : ServerGroup }.

(** A client makes a call at a time, or a server crashes. *)
Inductive happening := Call (i : nat) (t : time) (r : request) | Crash (a : addr_t).

Section service.
Context {W : Type} `{Faulty W}.

Definition runRequest (c : DBClient) (r : request) : comp W answer :=
  match r with
  | CGet k => x ← clientGet c k; mret (AGet x.1.1 x.1.2 x.2)
  | CSet k v => x ← clientSet c k v; mret (ASet x.1 x.2)
  | CAsyncSet k v => x ← clientAsyncSet k v; mret (AErr x)
  | CDel k => x ← clientDel c k; mret (AErr x)
  | CCAS k v t old => x ← clientCAS c k v t old; mret (ACAS x.1 x.2)
  end.

Record service := Service { users : list user; internet : W }.

Definition happen (s : service) (h : happening) : outcome (service * option answer) :=
  match h with
  | Call i t r =>
      u ← orPanic (users s !! i);
      x ← runRequest (u_client u) r (Env (u_group u) (net_wait (internet s) t));
      Ret (Service (<[i := User (u_client u) (e_sg x.2)]> (users s)) (e_net x.2), Some x.1)
  | Crash a => Ret (Service (users s) (net_crash (internet s) a), None)
  end.

Fixpoint run_history (s : service) (hs : list happening) : outcome (service * list (option answer)) :=
  match hs with
  | [] => Ret (s, [])
  | h :: hs =>
      x ← happen s h;
      y ← run_history x.1 hs;
      Ret (y.1, x.2 :: y.2)
  end.
End service.

(** ** The map that the clients see *)

(** The map and the servers that are up. *)
Record store := TheStore { the_map : kvmap; up : gset addr_t }.

(** What a delete at time [t] leaves of a value. *)
Definition gone (o : option (list byte)) (t : time) : option (list byte) :=
  match o with
  | Some old => if t <? ts old then Some old else None
  | None => None
  end.

(** The value is the one that a CAS expects: it has the expected time and hash; if
    there is none, either the expected time is 0 or the expected value is
    empty. *)
Definition expected (o : option (list byte)) (t : time) (old : list byte) : Prop :=
  match o with
  | Some x => ts x = ts (stamp t) ∧ FNV1a64 (drop 8 x) = FNV1a64 old
  | None => ts (stamp t) = 0 ∨ FNV1a64 old = FNV1a64 []
  end.
#[export] Instance expected_dec o t old : Decision (expected o t old).
Proof. destruct o; apply _. Defined.

Section spec.
(** The holders of a key that the client [i] knows of, and whether a server takes
    the chunk of a key for synchronised. *)
Context (views : nat → list byte → gset addr_t) (insync : addr_t → list byte → Prop).

(** What a call may answer, and the map after it. *)
Inductive serves (i : nat) (t : time) (s : store) : request → answer → kvmap → Prop :=
  | serves_get k :
      serves i t s (CGet k) (AGet (drop 8 <$> the_map s !! k) (default zero_time (ts <$> the_map s !! k)) true) (the_map s)
  | serves_set k v errs :
      (errs = None ↔ views i k ⊆ up s) →
      serves i t s (CSet k v) (ASet true errs) (lww (the_map s) (k, stamp t ++ v))
  | serves_async k v errs :
      (views i k ⊆ up s → errs = None) →
      serves i t s (CAsyncSet k v) (AErr errs) (lww (the_map s) (k, stamp t ++ v))
  | serves_del k errs :
      (errs = None ↔ views i k ⊆ up s) →
      serves i t s (CDel k) (AErr errs) (partial_alter (λ o, gone o t) k (the_map s))
  | serves_CAS k v t' old errs :
      expected (the_map s !! k) t' old →
      serves i t s (CCAS k v t' old) (ACAS true errs) (<[k := stamp t ++ v]> (the_map s))
  | serves_CAS_fails k v t' old err :
      ¬ (views i k ⊆ up s ∧ (∀ a, a ∈ views i k → insync a k) ∧ expected (the_map s !! k) t' old) →
      serves i t s (CCAS k v t' old) (ACAS false (Some err)) (the_map s).

Inductive serves_all : store → list happening → list (option answer) → store → Prop :=
  | serves_nil s : serves_all s [] [] s
  | serves_call s i t r x m hs xs s' :
      serves i t s r x m → serves_all (TheStore m (up s)) hs xs s' →
      serves_all s (Call i t r :: hs) (Some x :: xs) s'
  | serves_crash s a hs xs s' :
      serves_all (TheStore (the_map s) (up s ∖ {[a]})) hs xs s' →
      serves_all s (Crash a :: hs) (None :: xs) s'.
End spec.

(** ** A write on one replica *)

(** The chunk of a key on a server. *)
Definition chunkAt (x : node) (k : list byte) (c : abs) : Prop :=
  x.1 !! chunkIndex (zlen x.1) k = Some (Some c).

(** The server [x] becomes [x'] with the value [o] of [k], at the cost of [n] bytes. *)
Inductive writes (k : list byte) (o : option (list byte)) (n : Z) (x : node) : node → Prop :=
  | Writes c c' :
      chunkAt x k c → a_map c' !! k = o → (∀ k', k' ≠ k → a_map c' !! k' = a_map c !! k') →
      a_size c' = a_size c → zlen (enc_log (a_log c')) ≤ zlen (enc_log (a_log c)) + n →
      writes k o n x (<[chunkIndex (zlen x.1) k := Some c']> x.1, x.2).

Lemma enc_log_adds l k v : zlen (enc_log (l ++ [Rec k v])) = zlen (enc_log l) + (12 + zlen k + zlen v).
Proof. rewrite enc_log_app, zlen_app. cbn. rewrite app_nil_r, zlen_enc_rec. unfold body_len. cbn. lia. Qed.

(** A pair that is added, one that is removed and one that stays. *)
Lemma writes_add x k c v n :
  chunkAt x k c → 12 + zlen k + zlen v ≤ n →
  writes k (Some v) n x
    (<[chunkIndex (zlen x.1) k := Some (Abs (<[k := v]> (a_map c)) (a_log c ++ [Rec k v]) (a_size c) (a_drift c))]> x.1, x.2).
Proof.
  intros Hc Hn. eapply Writes; [exact Hc|..]; cbn [a_map a_log a_size]; [apply lookup_insert_eq| |done|].
  - intros k' Hk. by apply lookup_insert_ne.
  - rewrite enc_log_adds. lia.
Qed.

Lemma writes_remove x k c n :
  chunkAt x k c → 12 + zlen k ≤ n →
  writes k None n x
    (<[chunkIndex (zlen x.1) k := Some (Abs (delete k (a_map c)) (a_log c ++ [Rec k []]) (a_size c) (a_drift c))]> x.1, x.2).
Proof.
  intros Hc Hn. eapply Writes; [exact Hc|..]; cbn [a_map a_log a_size]; [apply lookup_delete_eq| |done|].
  - intros k' Hk. by apply lookup_delete_ne.
  - rewrite enc_log_adds. zlen_nil_simpl. lia.
Qed.

Lemma chunkAt_id x k c : chunkAt x k c → (<[chunkIndex (zlen x.1) k := Some c]> x.1, x.2) = x.
Proof. intros Hc. rewrite list_insert_id by exact Hc. by destruct x. Qed.

Lemma writes_same x k c n :
  chunkAt x k c → 0 ≤ n → writes k (a_map c !! k) n x (<[chunkIndex (zlen x.1) k := Some c]> x.1, x.2).
Proof. intros Hc Hn. eapply Writes; [exact Hc|..]; try done; lia. Qed.

Lemma nodeSet_writes x k c v :
  chunkAt x k c → 8 ≤ zlen v → room c k v = true →
  writes k (Some (best (a_map c !! k) v)) (12 + zlen k + zlen v) x (nodeSet k v x) ∧ (spec_set x.1 k v).2 = None.
Proof.
  intros Hc Hv Hroom. unfold nodeSet, spec_set, spec_core. cbn [op_key spec_step]. pose proof Hc as E.
  unfold chunkAt in E. rewrite E. bsimpl. cbn [fst snd].
  unfold spec_Set, spec_write. destruct (Z.ltb_spec (zlen v) 8); [lia|]. rewrite Hroom.
  destruct (a_map c !! k) as [old|] eqn:Ho; cbn [best]; [|split; [by apply writes_add|done]].
  destruct (ts v <=? ts old); cbn [fst snd]; (split; [|done]); [|by apply writes_add].
  rewrite <- Ho. apply writes_same; [done|]. pose proof (zlen_nonneg k). lia.
Qed.

Lemma nodeDel_writes x k c t :
  chunkAt x k c → 8 ≤ zlen t → room c k [] = true →
  writes k (gone (a_map c !! k) (ts t)) (12 + zlen k) x (nodeDel k t x) ∧ (spec_del x k t).2 = None.
Proof.
  intros Hc Ht Hroom. unfold nodeDel, spec_del, spec_core. cbn [op_key spec_step]. pose proof Hc as E.
  unfold chunkAt in E. rewrite E.
  assert (0 ≤ 12 + zlen k) by (pose proof (zlen_nonneg k); lia).
  unfold spec_Del. destruct (a_map c !! k) as [old|] eqn:Ho; bsimpl; cbn [fst snd gone].
  - rewrite check_true by (by apply Z.leb_le). bsimpl. destruct (ts t <? ts old); bsimpl; cbn [fst snd].
    + split; [|done]. rewrite <- Ho. by apply writes_same.
    + rewrite Hroom. bsimpl. cbn [fst snd]. split; [by apply writes_remove|done].
  - split; [|done]. rewrite <- Ho. by apply writes_same.
Qed.

(** The fields of the argument of a CAS. *)
Lemma casValue_fields t old now v :
  let arg := casValue t old now v in
  zlen arg = 24 + zlen v ∧ ts arg = ts (stamp t) ∧ hdr (drop 8 arg) = FNV1a64 old ∧ drop 16 arg = stamp now ++ v.
Proof.
  intros arg. unfold arg, casValue, stamp. pose proof (FNV1a64_range old). split_and!.
  - zl.
  - unfold ts, hdr. by rewrite take_app_le, (take_ge (le_enc 8 _)) by (rewrite le_enc_length; lia).
  - unfold hdr. rewrite drop_app_le, drop_ge, app_nil_l by (rewrite le_enc_length; lia).
    rewrite take_app_le, take_ge by (rewrite le_enc_length; lia). rewrite le_dec_enc. by apply Z.mod_small.
  - rewrite (app_assoc (le_enc 8 _)), drop_app_le, drop_ge; [done|rewrite length_app, !le_enc_length; lia..].
Qed.

(** The server takes the chunk of a key for synchronised. *)
Definition synced (x : node) (k : list byte) : Prop := synched x.2 (Z.of_nat (chunkIndex (zlen x.1) k)).
#[export] Instance synced_dec x k : Decision (synced x k).
Proof. unfold synced. apply _. Defined.

Lemma spec_CAS_expected c k t old now v :
  room c k (stamp now ++ v) = true →
  spec_CAS c k (casValue t old now v) =
    if decide (expected (a_map c !! k) t old) then spec_write c k (stamp now ++ v)
    else (c, Some (match a_map c !! k with
                   | None => errCASEmpty
                   | Some x => if decide (ts x = ts (stamp t)) then errCASHash else errCASTime
                   end)).
Proof.
  intros Hroom. destruct (casValue_fields t old now v) as (Hz & Ht & Hh & Hd).
  unfold spec_CAS. rewrite Ht, Hh, Hd. destruct (Z.ltb_spec (zlen (casValue t old now v)) 24).
  { pose proof (zlen_nonneg v). lia. }
  unfold expected. destruct (a_map c !! k) as [x|]; cycle 1.
  { destruct (Z.eqb_spec (ts (stamp t)) 0), (Z.eqb_spec (FNV1a64 old) (FNV1a64 [])); cbn [negb andb];
      [rewrite decide_True by tauto..|rewrite decide_False by tauto]; done. }
  destruct (Z.eqb_spec (ts x) (ts (stamp t))) as [E|E]; cbn [negb]; cycle 1.
  { rewrite decide_False by tauto. by rewrite decide_False. }
  rewrite (decide_True (P := ts x = ts (stamp t))) by done.
  destruct (Z.eqb_spec (FNV1a64 old) (FNV1a64 (drop 8 x))) as [E'|E']; cbn [negb].
  - rewrite decide_True by (by split). by rewrite Hroom.
  - rewrite decide_False by (intros [_ ?]; congruence). done.
Qed.

Lemma nodeCAS_writes x k c t old now v :
  chunkAt x k c → room c k (stamp now ++ v) = true →
  let arg := casValue t old now v in
  if decide (synced x k ∧ expected (a_map c !! k) t old)
  then writes k (Some (stamp now ++ v)) (12 + zlen k + (8 + zlen v)) x (nodeCAS k arg x) ∧ (spec_cas x k arg).2 = None
  else nodeCAS k arg x = x ∧ ∃ err, (spec_cas x k arg).2 = Some err.
Proof.
  intros Hc Hroom arg. unfold nodeCAS, spec_cas, spec_request, spec_core. cbn [op_key spec_step].
  pose proof Hc as E. unfold chunkAt in E. rewrite E. unfold arg. rewrite spec_CAS_expected by done.
  destruct (decide (synched x.2 (Z.of_nat (chunkIndex (zlen x.1) k)))) as [Hy|Hy]; fold (synced x k) in Hy; cycle 1.
  { rewrite decide_False by tauto. cbn [fst snd]. split; [by destruct x|by eexists]. }
  destruct (decide (expected _ _ _)) as [He|He].
  - rewrite decide_True by done. unfold spec_write. rewrite Hroom. cbn. split; [|done].
    apply writes_add; [done|]. unfold stamp. zl.
  - rewrite decide_False by tauto. bsimpl. cbn [fst snd]. split; [by apply chunkAt_id|by eexists].
Qed.

(** ** The replicas agree *)

Section replicas.
(** The holders of each key. *)
Context (H : list byte → gset addr_t).

(** Every holder that is up has the chunk of its keys, with the values of the map
    and [b] bytes left. *)
Definition agreed (S : netmap) (M : kvmap) (b : Z) : Prop := ∀ k a x,
  a ∈ H k → S !! a = Some x →
  ∃ c, chunkAt x k c ∧ a_map c !! k = M !! k ∧ zlen (enc_log (a_log c)) + b < a_size c.

(** The holders of [k] that are up, and nobody else, give it the value [o]. *)
Definition evolves (k : list byte) (o : option (list byte)) (n : Z) (S S' : netmap) : Prop := ∀ a,
  match S !! a, S' !! a with
  | Some x, Some x' => if decide (a ∈ H k) then writes k o n x x' else x' = x
  | None, None => True
  | _, _ => False
  end.

Lemma evolves_dom k o n S S' : evolves k o n S S' → dom S' = dom S.
Proof.
  intros He. apply set_eq. intros a. rewrite !elem_of_dom. specialize (He a).
  by destruct (S !! a), (S' !! a).
Qed.

Lemma evolves_lookup k o n S S' a x' :
  evolves k o n S S' → S' !! a = Some x' → ∃ x, S !! a = Some x ∧ if decide (a ∈ H k) then writes k o n x x' else x' = x.
Proof. intros He Ha. specialize (He a). rewrite Ha in He. destruct (S !! a) as [x|]; [by exists x|done]. Qed.

Lemma writes_zlen k o n x x' : writes k o n x x' → zlen x'.1 = zlen x.1 ∧ x'.2 = x.2.
Proof. intros []. cbn. unfold zlen. by rewrite length_insert. Qed.

Lemma writes_value k o n x x' : writes k o n x x' → nodeValue k x' = o.
Proof.
  intros [c c' Hc Hv _ _ _]. unfold nodeValue, spec_get, zlen. cbn [fst]. rewrite length_insert. fold (zlen x.1).
  rewrite list_lookup_insert_eq by (by eapply lookup_lt_Some). by rewrite Hv.
Qed.

Lemma evolves_synced k o n S S' a x x' k' :
  evolves k o n S S' → S !! a = Some x → S' !! a = Some x' → synced x' k' ↔ synced x k'.
Proof.
  intros He Hx Hx'. destruct (evolves_lookup _ _ _ _ _ _ _ He Hx') as (y & Hy & Hw). rewrite Hx in Hy. injection Hy as <-.
  unfold synced. case_decide; [|by subst x']. by destruct (writes_zlen _ _ _ _ _ Hw) as [-> ->].
Qed.

Lemma agreed_evolves S S' M M' b k n :
  agreed S M b → 0 ≤ n → evolves k (M' !! k) n S S' → (∀ k', k' ≠ k → M' !! k' = M !! k') → agreed S' M' (b - n).
Proof.
  intros HS Hn He Hm k' a x' Ha Hx'. destruct (evolves_lookup _ _ _ _ _ _ _ He Hx') as (x & Hx & Hw).
  destruct (HS k' a x Ha Hx) as (c' & Hc' & Hv & Hb). case_decide as Hk; cycle 1.
  { subst x'. exists c'. split_and!; [done| |lia]. rewrite Hm; [done|]. by intros ->. }
  destruct Hw as [c d Hc Hd Hoth Hsz Hlen]. unfold chunkAt in *. cbn [fst].
  replace (zlen (<[_:=_]> x.1)) with (zlen x.1) by (unfold zlen; by rewrite length_insert).
  destruct (decide (chunkIndex (zlen x.1) k = chunkIndex (zlen x.1) k')) as [Ei|Hne]; cycle 1.
  { rewrite list_lookup_insert_ne by done. exists c'. split_and!; [done| |lia]. rewrite Hm; [done|]. by intros ->. }
  rewrite <- Ei in *. assert (c = c') as <- by congruence. exists d.
  rewrite list_lookup_insert_eq by (by eapply lookup_lt_Some). split_and!; [done| |lia].
  destruct (decide (k' = k)) as [->|Hk']; [done|]. by rewrite Hoth, Hm.
Qed.

Lemma agreed_weaken S M b b' : agreed S M b → b' ≤ b → agreed S M b'.
Proof. intros HS Hb k a x Ha Hx. destruct (HS k a x Ha Hx) as (c & ? & ? & ?). exists c. split_and!; [done..|lia]. Qed.

Lemma agreed_crash S M b a : agreed S M b → agreed (delete a S) M b.
Proof. intros HS k a' x Ha' Hx. apply lookup_delete_Some in Hx as [_ Hx]. by eapply HS. Qed.

Lemma agreed_value S M b k a : agreed S M b → a ∈ H k → is_Some (S !! a) → valueAt S k a = M !! k.
Proof.
  intros HS Ha [x Hx]. destruct (HS k a x Ha Hx) as (c & Hc & Hv & _). unfold valueAt, nodeValue, spec_get. rewrite Hx. cbn.
  unfold chunkAt in Hc. by rewrite Hc.
Qed.

Lemma agreed_room S M b k a x v :
  agreed S M b → a ∈ H k → S !! a = Some x → 12 + zlen k + zlen v ≤ b →
  ∃ c, chunkAt x k c ∧ a_map c !! k = M !! k ∧ room c k v = true.
Proof.
  intros HS Ha Hx Hb. destruct (HS k a x Ha Hx) as (c & Hc & Hv & Hr). exists c. split_and!; [done..|].
  unfold room. apply Z.ltb_lt. lia.
Qed.
End replicas.

(** ** One call *)

Section call.
Context (H : list byte → gset addr_t) (S : netmap) (M : kvmap) (b : Z).
Context (Hagreed : agreed H S M b).

(** [X] are the holders of [k], apart from servers that are down. *)
Definition sees (X : gset addr_t) (k : list byte) : Prop := ∀ a, is_Some (S !! a) → (a ∈ X ↔ a ∈ H k).

Context (X : gset addr_t) (k : list byte) (Hsees : sees X k).

Lemma set_evolves v :
  8 ≤ zlen v → 12 + zlen k + zlen v ≤ b →
  evolves H k (Some (best (M !! k) v)) (12 + zlen k + zlen v) S (holdersSet S X k v) ∧
  ∀ a, a ∈ X → accepted S k v a ↔ is_Some (S !! a).
Proof using All.
  intros Hv Hb.
  assert (∀ a x, a ∈ H k → S !! a = Some x → writes k (Some (best (M !! k) v)) (12 + zlen k + zlen v) x (nodeSet k v x) ∧
    (spec_set x.1 k v).2 = None) as Hw.
  { intros a x Ha Hx. destruct (agreed_room H S M b k a x v Hagreed Ha Hx Hb) as (c & Hc & Hm & Hr).
    rewrite <- Hm. by apply nodeSet_writes. }
  split.
  - intros a. unfold holdersSet. rewrite map_lookup_imap. destruct (S !! a) as [x|] eqn:Hx; [|done]. cbn.
    specialize (Hsees a ltac:(by rewrite Hx)). destruct (decide (a ∈ H k)), (decide (a ∈ X)); try tauto. by apply (Hw a).
  - intros a Ha. split; [by intros (x & -> & _)|]. intros [x Hx]. exists x. split; [done|].
    apply (Hw a); [|done]. by apply Hsees.
Qed.

Lemma del_evolves t :
  8 ≤ zlen t → 12 + zlen k ≤ b →
  evolves H k (gone (M !! k) (ts t)) (12 + zlen k) S (holdersDel S X k t) ∧
  ∀ a, a ∈ X → accepts (λ x, (spec_del x k t).2) S a ↔ is_Some (S !! a).
Proof using All.
  intros Ht Hb.
  assert (∀ a x, a ∈ H k → S !! a = Some x → writes k (gone (M !! k) (ts t)) (12 + zlen k) x (nodeDel k t x) ∧
    (spec_del x k t).2 = None) as Hw.
  { intros a x Ha Hx. destruct (agreed_room H S M b k a x [] Hagreed Ha Hx) as (c & Hc & Hm & Hr); [zlen_nil_simpl; lia|].
    rewrite <- Hm. by apply nodeDel_writes. }
  split.
  - intros a. unfold holdersDel. rewrite map_lookup_imap. destruct (S !! a) as [x|] eqn:Hx; [|done]. cbn.
    specialize (Hsees a ltac:(by rewrite Hx)). destruct (decide (a ∈ H k)), (decide (a ∈ X)); try tauto. by apply (Hw a).
  - intros a Ha. split; [by intros (x & -> & _)|]. intros [x Hx]. exists x. split; [done|].
    apply (Hw a); [|done]. by apply Hsees.
Qed.

(** The read repair has nothing to do. *)
Lemma repair_idle v : M !! k = Some v → holdersSet S X k v = S.
Proof using All.
  intros Hv. apply map_eq. intros a. unfold holdersSet. rewrite map_lookup_imap. destruct (S !! a) as [x|] eqn:Hx; [|done].
  cbn. case_decide as Ha; [|done]. f_equal. destruct x as [As g]. unfold nodeSet. cbn. f_equal.
  apply (spec_set_old As k v v); [|done]. assert (a ∈ H k) as Ha' by (apply Hsees; [by rewrite Hx|done]).
  destruct (Hagreed k a _ Ha' Hx) as (c & Hc & Hm & _). unfold spec_get. unfold chunkAt in Hc. cbn in Hc. by rewrite Hc, Hm, Hv.
Qed.

(** What is read is the value of the map. *)
Lemma newest_agreed o a : a ∈ H k → is_Some (S !! a) → newest S k (.∈ X) o → o = M !! k.
Proof using All.
  intros Ha Hup Hn. assert (∀ a, a ∈ X → ∀ v, valueAt S k a = Some v → M !! k = Some v) as Hval.
  { intros a' Ha' v Hv. assert (is_Some (S !! a')) as Hu by (unfold valueAt in Hv; destruct (S !! a'); [by eexists|done]).
    rewrite <- Hv. symmetry. eapply agreed_value; [done| |done]. by apply Hsees. }
  destruct o as [v|].
  - destruct Hn as [(a' & Ha' & Hv) _]. by rewrite (Hval a' Ha' v Hv).
  - rewrite <- (agreed_value H S M b k a Hagreed Ha Hup). symmetry. apply Hn. by apply Hsees.
Qed.

(** The master accepts a CAS and the others follow. *)
Lemma cas_evolves a x t old now v :
  a ∈ X → S !! a = Some x → 12 + zlen k + (8 + zlen v) ≤ b → 0 ≤ now < 2 ^ 63 →
  (∀ y, M !! k = Some y → ts y < now) →
  let arg := casValue t old now v in
  if decide (synced x k ∧ expected (M !! k) t old)
  then (spec_cas x k arg).2 = None ∧
    evolves H k (Some (stamp now ++ v)) (12 + zlen k + (8 + zlen v)) S
      (holdersSet (<[a := nodeCAS k arg x]> S) (X ∖ {[a]}) k (stamp now ++ v))
  else nodeCAS k arg x = x ∧ ∃ err, (spec_cas x k arg).2 = Some err.
Proof using All.
  intros Ha Hx Hb Hnow Hold arg. assert (zlen (stamp now ++ v) = 8 + zlen v) as Hz by (unfold stamp; zl).
  assert (a ∈ H k) as Ha' by (apply Hsees; [by rewrite Hx|done]).
  destruct (agreed_room H S M b k a x (stamp now ++ v) Hagreed Ha' Hx) as (c & Hc & Hm & Hr); [lia|].
  pose proof (nodeCAS_writes x k c t old now v Hc Hr) as Hcas. cbv zeta in Hcas. rewrite Hm in Hcas. fold arg in Hcas.
  case_decide; [|done]. destruct Hcas as [Hw He]. split; [done|]. intros a'. unfold holdersSet. rewrite map_lookup_imap.
  destruct (decide (a' = a)) as [->|Hne].
  { rewrite lookup_insert_eq, Hx. cbn. rewrite (decide_True (P := a ∈ H k)) by done. rewrite decide_False by set_solver. done. }
  rewrite lookup_insert_ne by done. destruct (S !! a') as [y|] eqn:Hy; [|done]. cbn.
  pose proof (Hsees a' ltac:(by rewrite Hy)) as Hs. rewrite (decide_ext (a' ∈ X ∖ {[a]}) (a' ∈ H k)); cycle 1.
  { rewrite elem_of_difference, elem_of_singleton, Hs. naive_solver. }
  case_decide as Hk; [|done]. destruct (agreed_room H S M b k a' y (stamp now ++ v) Hagreed Hk Hy) as (d & Hd & Hmd & Hrd); [lia|].
  pose proof (nodeSet_writes y k d (stamp now ++ v) Hd ltac:(pose proof (zlen_nonneg v); lia) Hrd) as [Hset _].
  rewrite Hmd, Hz in Hset. assert (best (M !! k) (stamp now ++ v) = stamp now ++ v) as Eb; [|by rewrite Eb in Hset].
  unfold best. destruct (M !! k) as [z|]; [|done]. specialize (Hold z eq_refl). rewrite ts_stamp by done.
  destruct (Z.leb_spec now (ts z)); [lia|done].
Qed.

Lemma reached_all : (∀ a, a ∈ X → is_Some (S !! a)) ↔ X ⊆ dom S.
Proof. clear. split; intros Hx a Ha; [by apply elem_of_dom, Hx|by apply elem_of_dom, Hx]. Qed.
End call.

(** A set without response. *)
Lemma clientAsyncSet_sim `{KVNet W} g0 (e : env W) S n k v :
  cenv g0 e S → numChunks (e_sg e) = n → 0 < n < 2 ^ 63 → (size (keyHolders g0 n k) ≤ 8)%nat → zlen k + zlen v < 2 ^ 31 →
  let x := stamp (net_now (e_net e)) ++ v in
  ∃ errs e', clientAsyncSet k v e = Ret (errs, e') ∧ cenv g0 e' (holdersSet S (keyHolders g0 n k) k x) ∧
    same_ptrs (e_sg e) (e_sg e') ∧ ((∀ a, a ∈ keyHolders g0 n k → is_Some (S !! a)) → errs = None).
Proof.
  intros He Hn Hr Hsz Hlen x.
  destruct (holdersFor_sim g0 e S n k He Hn Hr Hsz) as (ps & addrs & m & Eh & Hl & Hnd & Hmem).
  unfold clientAsyncSet, set_, getNow. msimpl. rewrite Eh. msimpl.
  assert (msg_ok (Msg Operation.OpAsyncSet 0 k x)) as Hm.
  { unfold msg_ok, msgSize, x, stamp. cbn. unfold Operation.OpAsyncSet. zl. }
  assert (cenv g0 (Env (e_sg e) (e_net e)) S) as He0 by (by destruct He).
  destruct (sendAll_sim g0 _ _ _ m (vsSet_async g0 k x Hm) ps addrs (Env (e_sg e) (e_net e)) S None He0 Hl Hnd)
    as (rs & e1 & E1 & He1 & Hp1 & HF).
  unfold x in E1. rewrite E1. msimpl. cbn [Z.ltb Z.compare snd]. eexists _, e1.
  split_and!; [reflexivity|by rewrite <- (holdersSet_alters _ _ _ _ addrs)|done|]. intros Hup.
  assert (∀ a, a ∈ addrs → is_Some (S !! a)) as Hup' by (intros a Ha; by apply Hup, Hmem). clear -HF Hup'.
  induction HF as [|a r addrs rs Hr HF IH]; [done|]. cbn [lastError foldl].
  destruct Hr as [->|[Hn _]]; [|destruct (Hup' a) as [y Hy]; [by left|cbn in Hn; congruence]].
  apply IH. intros b Hb. apply Hup'. by right.
Qed.

(** The bytes that a call takes in the chunks, and the calls that are sound. *)
Definition cost (r : request) : Z :=
  match r with
  | CGet _ => 0
  | CDel k => 12 + zlen k
  | CSet k v | CAsyncSet k v | CCAS k v _ _ => 12 + zlen k + (8 + zlen v)
  end.

Definition callable (r : request) : Prop :=
  good_key (keyOf r) ∧
  match r with
  | CGet k | CDel k => zlen k < 2 ^ 31
  | CSet k v | CAsyncSet k v | CCAS k v _ _ => zlen k + zlen v < 2 ^ 31
  end.

Record waits (c : DBClient) : Prop := Waits {
  wt_get : 0 < GetTimeout c;
  wt_set : 0 < SetTimeout c;
  wt_del : 0 < DelTimeout c;
  wt_cas : 0 < CASTimeout c
}.

Lemma cost_nonneg r : 0 ≤ cost r.
Proof. destruct r as [k|k v|k v|k|k v t old]; cbn; try pose proof (zlen_nonneg k); try pose proof (zlen_nonneg v); lia. Qed.

Section requests.
Context (H : list byte → gset addr_t) {W : Type} `{KVNet W} (g : group) (n : Z) (c : DBClient).
Context (S : netmap) (M : kvmap) (b : Z) (e : env W) (t : time) (i : nat).
Context (views : nat → list byte → gset addr_t) (insync : addr_t → list byte → Prop).
Context (Hviews : ∀ k, views i k = keyHolders g n k) (Hsync : ∀ a x k, S !! a = Some x → synced x k ↔ insync a k).
Context (He : cenv g e S) (Hnum : numChunks (e_sg e) = n) (Hn : 0 < n < 2 ^ 63) (Hc : waits c).
Context (Hsmall : ∀ k, (size (keyHolders g n k) ≤ 8)%nat) (Hsees : ∀ k, sees H S (keyHolders g n k) k).
Context (Hnow : net_now (e_net e) = t) (Ht : 0 ≤ t < 2 ^ 63) (Hagreed : agreed H S M b).

(** The call [r] is answered as the map says and leaves replicas that agree. *)
Definition answered (r : request) : Prop := ∃ x e' M' S',
  runRequest c r e = Ret (x, e') ∧ cenv g e' S' ∧ same_ptrs (e_sg e) (e_sg e') ∧
  evolves H (keyOf r) (M' !! keyOf r) (cost r) S S' ∧ (∀ k, k ≠ keyOf r → M' !! k = M !! k) ∧
  serves views insync i t (TheStore M (dom S)) r x M'.

Lemma get_answered k a : a ∈ H k → is_Some (S !! a) → callable (CGet k) → answered (CGet k).
Proof using All.
  intros Ha Hup [Hk Hlen]. cbn in Hk.
  destruct (clientGet_sim g e S n c k He Hnum Hn (Hsmall k) Hk (wt_get _ Hc) Hlen)
    as (o & e' & read & E & Hnew & Hread & S' & He' & Hp & ->).
  pose proof (newest_agreed H S M b Hagreed _ _ (Hsees k) o a Ha Hup Hnew) as ->.
  assert (read = true) as ->.
  { apply Hread. exists a. split; [|done]. by apply Hsees. }
  eexists _, e', M, _. unfold runRequest. msimpl. rewrite E. msimpl.
  split_and!; [reflexivity|exact He'|done| |done|apply (serves_get _ _ i t (TheStore M (dom S)) k)].
  assert (match M !! k with Some v => holdersSet S (keyHolders g n k) k v | None => S end = S) as ->.
  { destruct (M !! k) as [v|] eqn:Hv; [|done]. by apply (repair_idle H S M b). }
  intros a'. destruct (S !! a') as [x|] eqn:Hx; [|done]. case_decide as Hk'; [|done]. cbn [keyOf cost].
  destruct (Hagreed k a' x Hk' Hx) as (d & Hd & <- & _). rewrite <- (chunkAt_id x k d Hd) at 2. by apply writes_same.
Qed.

Lemma lww_key k v : lww M (k, v) !! k = Some (best (M !! k) v).
Proof. unfold lww. apply lookup_insert_eq. Qed.
Lemma lww_others k v k' : k' ≠ k → lww M (k, v) !! k' = M !! k'.
Proof. intros Hne. unfold lww. by apply lookup_insert_ne. Qed.

Lemma stamped v : zlen (stamp t ++ v) = 8 + zlen v.
Proof. unfold stamp. zl. Qed.

Lemma set_answered k v a : a ∈ H k → is_Some (S !! a) → callable (CSet k v) → cost (CSet k v) ≤ b → answered (CSet k v).
Proof using All.
  intros Ha Hup [Hk Hlen] Hb. cbn in Hk, Hb. pose proof (zlen_nonneg v).
  destruct (clientSet_sim g e S n c k v He Hnum Hn (Hsmall k) (wt_set _ Hc) Hlen) as (w & errs & e' & E & He' & Hp & Hw & Herr).
  rewrite Hnow in He', Hw, Herr.
  destruct (set_evolves H S M b Hagreed _ k (Hsees k) (stamp t ++ v)) as [Hev Hacc]; [rewrite stamped; lia..|].
  assert (w = true) as ->.
  { apply Hw. assert (a ∈ keyHolders g n k) as Hin by (by apply Hsees). exists a. split; [done|]. by apply Hacc. }
  eexists _, e', _, _. unfold runRequest. msimpl. rewrite E. msimpl.
  split_and!; [reflexivity|exact He'|done| |apply lww_others|eapply serves_set].
  - cbn [keyOf cost]. rewrite lww_key. by rewrite stamped in Hev.
  - cbn [up fst snd]. rewrite Hviews, <- reached_all, Herr. split; intros Hall a' Ha'; specialize (Hall a' Ha'); by apply Hacc.
Qed.

Lemma async_answered k v : callable (CAsyncSet k v) → cost (CAsyncSet k v) ≤ b → answered (CAsyncSet k v).
Proof using All.
  intros [Hk Hlen] Hb. cbn in Hk, Hb. pose proof (zlen_nonneg v).
  destruct (clientAsyncSet_sim g e S n k v He Hnum Hn (Hsmall k) Hlen) as (errs & e' & E & He' & Hp & Herr).
  rewrite Hnow in He'.
  destruct (set_evolves H S M b Hagreed _ k (Hsees k) (stamp t ++ v)) as [Hev _]; [rewrite stamped; lia..|].
  eexists _, e', _, _. unfold runRequest. msimpl. rewrite E. msimpl.
  split_and!; [reflexivity|exact He'|done| |apply lww_others|eapply serves_async].
  - cbn [keyOf cost]. rewrite lww_key. by rewrite stamped in Hev.
  - cbn [up]. rewrite Hviews, <- reached_all. done.
Qed.

Lemma del_answered k : callable (CDel k) → cost (CDel k) ≤ b → answered (CDel k).
Proof using All.
  intros [Hk Hlen] Hb. cbn in Hk, Hb.
  destruct (clientDel_sim g e S n c k He Hnum Hn (Hsmall k) (wt_del _ Hc) Hlen) as (errs & e' & E & He' & Hp & Herr).
  rewrite Hnow in He', Herr. pose proof (stamped []) as Hz. rewrite app_nil_r in Hz.
  assert (ts (stamp t) = t) as Hts by (rewrite <- (app_nil_r (stamp t)); by apply ts_stamp).
  destruct (del_evolves H S M b Hagreed _ k (Hsees k) (stamp t)) as [Hev Hacc]; [rewrite Hz; by zlen_nil_simpl|lia|].
  eexists _, e', _, _. unfold runRequest. msimpl. rewrite E. msimpl.
  split_and!; [reflexivity|exact He'|done| |intros k' Hk'; by apply lookup_partial_alter_ne|eapply serves_del].
  - cbn [keyOf cost the_map]. rewrite lookup_partial_alter_eq. by rewrite Hts in Hev.
  - cbn [up]. rewrite Hviews, <- reached_all, Herr. split; intros Hall a' Ha'; specialize (Hall a' Ha'); by apply Hacc.
Qed.

Lemma CAS_answered k v t' old a :
  a ∈ H k → is_Some (S !! a) → callable (CCAS k v t' old) → cost (CCAS k v t' old) ≤ b →
  (∀ y, M !! k = Some y → ts y < t) → answered (CCAS k v t' old).
Proof using All.
  intros Ha Hup [Hk Hlen] Hb Hold. cbn in Hk, Hb.
  assert (0 < size (keyHolders g n k))%nat as Hpos.
  { destruct (decide (size (keyHolders g n k) = 0%nat)) as [E%size_empty_inv|]; [|lia]. destruct (E a) as [Hno _].
    exfalso. apply not_elem_of_empty in Hno; [done|]. by apply Hsees. }
  destruct (clientCAS_sim g e S n c k v t' old He Hnum Hn (conj Hpos (Hsmall k)) (wt_cas _ Hc) Hlen)
    as (m & r & e' & S' & Hm & _ & E & He' & Hp & Hres). rewrite Hnow in Hres.
  assert (∀ err, ¬ (keyHolders g n k ⊆ dom S ∧ (∀ a, a ∈ keyHolders g n k → insync a k) ∧ expected (M !! k) t' old) →
    serves views insync i t (TheStore M (dom S)) (CCAS k v t' old) (ACAS false (Some err)) M) as Hfail.
  { intros err Hno. apply serves_CAS_fails. cbn [up the_map]. by rewrite Hviews. }
  assert (∀ err, r = (false, Some err) → S' = S →
    ¬ (keyHolders g n k ⊆ dom S ∧ (∀ a, a ∈ keyHolders g n k → insync a k) ∧ expected (M !! k) t' old) →
    answered (CCAS k v t' old)) as Hdone.
  { intros err -> -> Hno. exists (ACAS false (Some err)), e', M, S. unfold runRequest. msimpl. rewrite E. msimpl.
    split_and!; [done|done|done| |done|by apply Hfail]. cbn [keyOf]. intros a'. destruct (S !! a') as [x|] eqn:Hx; [|done].
    case_decide as Hk'; [|done]. destruct (Hagreed k a' x Hk' Hx) as (d & Hd & <- & _).
    rewrite <- (chunkAt_id x k d Hd) at 2. by apply writes_same; [|apply cost_nonneg]. }
  destruct (S !! m) as [x|] eqn:Hx; cycle 1.
  { destruct Hres as (err & -> & ->). apply (Hdone err); [done|done|]. intros [Hsub _].
    apply Hsub, elem_of_dom in Hm as [? ?]. congruence. }
  pose proof (cas_evolves H S M b Hagreed _ k (Hsees k) m x t' old t v Hm Hx Hb Ht Hold) as Hcas. cbv zeta in Hcas.
  case_decide as Hd.
  - destruct Hcas as [Hno Hev]. rewrite Hno in Hres. destruct Hres as [Hr ->]. destruct r as [ok errs]. cbn in Hr. subst ok.
    eexists _, e', _, _. unfold runRequest. msimpl. rewrite E. msimpl.
    split_and!; [reflexivity|exact He'|done| |intros k' Hk'; by apply lookup_insert_ne|eapply serves_CAS, Hd].
    cbn [keyOf cost the_map]. by rewrite lookup_insert_eq.
  - destruct Hcas as [Hsame [err Herr]]. rewrite Herr in Hres. destruct Hres as [-> ->].
    rewrite Hsame, insert_id in * by done. eapply Hdone; [done|done|]. intros (_ & Hin & Hex). apply Hd.
    split; [|done]. by apply (Hsync m x k Hx), Hin.
Qed.
End requests.

(** ** Histories *)

(** The bytes that a history takes, and the calls of [m] clients that are sound. *)
Definition costOf (h : happening) : Z := match h with Call _ _ r => cost r | Crash _ => 0 end.
Definition costs (hs : list happening) : Z := foldr (λ h n, costOf h + n) 0 hs.

Definition sound (m : nat) (h : happening) : Prop :=
  match h with Call i t r => (i < m)%nat ∧ 0 ≤ t < 2 ^ 63 ∧ callable r | Crash _ => True end.

(** Each CAS comes later than [t] and than every call before it. *)
Fixpoint cas_late (t : time) (hs : list happening) : Prop :=
  match hs with
  | [] => True
  | Call _ t' r :: hs => match r with CCAS _ _ _ _ => t < t' | _ => True end ∧ cas_late (Z.max t t') hs
  | Crash _ :: hs => cas_late t hs
  end.

(** The values of a map are no later than [t]. *)
Definition until (M : kvmap) (t : time) : Prop := ∀ k v, M !! k = Some v → ts v ≤ t.

Lemma serves_until views insync i t s r x M' hi :
  serves views insync i t s r x M' → 0 ≤ t < 2 ^ 63 → until (the_map s) hi → until M' (Z.max hi t).
Proof.
  intros Hs Ht Hu. assert (∀ v, ts (stamp t ++ v) = t) as Hts by (intros v; by apply ts_stamp).
  assert (∀ k v, the_map s !! k = Some v → ts v ≤ Z.max hi t) as Hu' by (intros k v Hv; specialize (Hu k v Hv); lia).
  assert (∀ k v, until (lww (the_map s) (k, stamp t ++ v)) (Z.max hi t)) as Hl.
  { intros k v k' v'. rewrite lww_lookup. case_decide; [|apply Hu']. cbn [fst snd] in *. subst k'. intros <-%(inj Some).
    unfold best. destruct (the_map s !! k) as [old|] eqn:Ho; [case_match; [by eapply Hu'|]|]; rewrite Hts; lia. }
  destruct Hs as [k|k v errs _|k v errs _|k errs _|k v t' old errs _|k v t' old err _]; try done; intros k' v' Hv.
  - destruct (decide (k = k')) as [<-|]; [|rewrite lookup_partial_alter_ne in Hv by done; by eapply Hu'].
    rewrite lookup_partial_alter_eq in Hv. unfold gone in Hv. destruct (the_map s !! k) as [old|] eqn:Ho; [|done].
    case_match; [|done]. injection Hv as <-. by eapply Hu'.
  - apply lookup_insert_Some in Hv as [[_ <-]|[_ Hv]]; [rewrite Hts; lia|by eapply Hu'].
Qed.

Section history.
Context (H : list byte → gset addr_t) {W : Type} `{Faulty W} (G : nat → group) (n : Z) (Hn : 0 < n < 2 ^ 63).

(** The client [i] knows [G i], which is right about the servers that are up. *)
Record user_ok (S : netmap) (i : nat) (u : user) : Prop := UserOk {
  us_group : sg_rep (u_group u) (G i);
  us_number : numChunks (u_group u) = n;
  us_waits : waits (u_client u);
  us_small : ∀ k, (size (keyHolders (G i) n k) ≤ 8)%nat;
  us_sees : ∀ k, sees H S (keyHolders (G i) n k) k
}.

Record service_ok (s : service) (S : netmap) (M : kvmap) (b : Z) : Prop := ServiceOk {
  so_net : kv_rep (internet s) S;
  so_users : ∀ i u, users s !! i = Some u → user_ok S i u;
  so_agreed : agreed H S M b
}.

Definition views (i : nat) (k : list byte) : gset addr_t := keyHolders (G i) n k.

Lemma user_ok_dom S S' i u : user_ok S i u → dom S' ⊆ dom S → user_ok S' i u.
Proof.
  intros [H1' H2' H3' H4' H5'] Hd. split; try done. intros k a Ha. apply H5'. apply elem_of_dom, Hd, elem_of_dom, Ha.
Qed.

(** A call. *)
Lemma call_sim s S M b insync i t r hi :
  service_ok s S M b → (∀ a x k, S !! a = Some x → synced x k ↔ insync a k) →
  sound (length (users s)) (Call i t r) → cost r ≤ b → (∃ a, a ∈ H (keyOf r) ∧ is_Some (S !! a)) →
  until M hi → match r with CCAS _ _ _ _ => hi < t | _ => True end →
  ∃ s' x M' S', happen s (Call i t r) = Ret (s', Some x) ∧ serves views insync i t (TheStore M (dom S)) r x M' ∧
    service_ok s' S' M' (b - cost r) ∧ length (users s') = length (users s) ∧ dom S' = dom S ∧
    (∀ a x k, S' !! a = Some x → synced x k ↔ insync a k).
Proof using Hn.
  intros [Hw Hu Ha] Hsync (Hi & Ht & Hr) Hb (a & Hin & Hup) Hhi Hlate.
  destruct (lookup_lt_is_Some_2 (users s) i Hi) as [u Hui]. destruct (Hu i u Hui) as [Hg Hnum Hwt Hsm Hse].
  set (e := Env (u_group u) (net_wait (internet s) t)).
  assert (cenv (G i) e S) as He by (split; [done|by apply kv_wait]).
  assert (answered H (G i) (u_client u) S M e t i views insync r) as (x & e' & M' & S' & E & He' & Hp & Hev & Hoth & Hs).
  { destruct r as [k|k v|k v|k|k v t' old]; cbn [keyOf] in *.
    - eapply get_answered; try done. apply wait_now.
    - eapply set_answered; try done. apply wait_now.
    - eapply async_answered; try done. apply wait_now.
    - eapply del_answered; try done. apply wait_now.
    - eapply CAS_answered; try done; [apply wait_now|]. intros y Hy. specialize (Hhi k y Hy). lia. }
  pose proof (evolves_dom _ _ _ _ _ _ Hev) as Hdom.
  exists (Service (<[i := User (u_client u) (e_sg e')]> (users s)) (e_net e')), x, M', S'. split_and!; [|done| | |done|].
  - cbn [happen]. rewrite Hui. cbn [orPanic]. bsimpl. fold e. by rewrite E.
  - split; cbn; [apply He'| |].
    + intros j u' Hj. apply list_lookup_insert_Some in Hj as [(<- & <- & _)|[_ Hj]].
      * eapply user_ok_dom; [|by rewrite Hdom]. split; cbn; try done; [apply He'|by rewrite (proj1 Hp)].
      * eapply user_ok_dom; [by apply Hu|by rewrite Hdom].
    + eapply agreed_evolves; [done|apply cost_nonneg|done|done].
  - cbn. apply length_insert.
  - intros a' x' k Hx'. destruct (evolves_lookup _ _ _ _ _ _ _ _ Hev Hx') as (y & Hy & _).
    rewrite (evolves_synced _ _ _ _ _ _ _ _ _ _ Hev Hy Hx'). by apply Hsync.
Qed.

Lemma history_sim hs : ∀ s S M b insync hi,
  service_ok s S M b → (∀ a x k, S !! a = Some x → synced x k ↔ insync a k) →
  Forall (sound (length (users s))) hs → costs hs ≤ b → until M hi → cas_late hi hs →
  (∀ k, ∃ a, a ∈ H k ∧ is_Some (S !! a) ∧ Crash a ∉ hs) →
  ∃ s' xs st S', run_history s hs = Ret (s', xs) ∧ serves_all views insync (TheStore M (dom S)) hs xs st ∧
    service_ok s' S' (the_map st) (b - costs hs) ∧ dom S' = up st.
Proof using Hn.
  induction hs as [|h hs IH]; intros s S M b insync hi Hs Hsync Hok Hb Hu Hlate Hlive.
  { eexists s, [], _, S. split_and!; [done|constructor| |done]. destruct Hs as [? ? ?]. split; try done.
    by eapply agreed_weaken; [done|cbn; lia]. }
  apply Forall_cons in Hok as [Hh Hok]. cbn [costs foldr] in Hb. fold (costs hs) in Hb.
  assert (0 ≤ costs hs) as Hpos.
  { clear. induction hs as [|h hs IH]; [done|]. cbn. fold (costs hs). destruct h; cbn; [pose proof (cost_nonneg r)|]; lia. }
  destruct h as [i t r|a]; cbn [cas_late costOf] in *.
  - destruct Hlate as [Hr Hlate]. destruct (call_sim s S M b insync i t r hi Hs Hsync Hh ltac:(lia)) as
      (s1 & x & M1 & S1 & E & Hsv & Hs1 & Hlen & Hdom & Hsync1); [|done|done|].
    { destruct (Hlive (keyOf r)) as (a & Ha & Hup & _). by exists a. }
    destruct (IH s1 S1 M1 (b - cost r) insync (Z.max hi t) Hs1 Hsync1) as (s' & xs & st & S' & E' & Hall & Hs' & Hd').
    + by rewrite Hlen.
    + lia.
    + eapply (serves_until views insync i t (TheStore M (dom S))); [done|apply Hh|done].
    + done.
    + intros k. destruct (Hlive k) as (a & Ha & Hup & Hno). exists a. split_and!; [done|by apply elem_of_dom; rewrite Hdom; apply elem_of_dom|].
      by apply not_elem_of_cons in Hno as [_ ?].
    + exists s', (Some x :: xs), st, S'. cbn [run_history]. rewrite E. bsimpl. cbn [fst snd]. rewrite E'. bsimpl.
      rewrite Hdom in Hall. split_and!; [done|by econstructor| |done].
      cbn [costs foldr costOf]. fold (costs hs). by replace (b - (cost r + costs hs)) with (b - cost r - costs hs) by lia.
  - destruct Hs as [Hw Husers Ha].
    destruct (IH (Service (users s) (net_crash (internet s) a)) (delete a S) M b insync hi) as (s' & xs & st & S' & E' & Hall & Hs' & Hd').
    + split; cbn; [by apply kv_crash| |by apply agreed_crash].
      intros j u Hj. eapply user_ok_dom; [by apply Husers|]. rewrite dom_delete_L. set_solver.
    + intros a' x k Hx. apply lookup_delete_Some in Hx as [_ Hx]. by apply Hsync.
    + done.
    + lia.
    + done.
    + done.
    + intros k. destruct (Hlive k) as (a' & Ha' & Hup & Hno). apply not_elem_of_cons in Hno as [Hne Hno].
      exists a'. split_and!; [done| |done]. rewrite lookup_delete_ne by congruence. done.
    + exists s', (None :: xs), st, S'. cbn [run_history happen]. bsimpl. cbn [fst snd]. rewrite E'. bsimpl.
      rewrite dom_delete_L in Hall. split_and!; [done|by econstructor| |done]. cbn [costs foldr costOf]. fold (costs hs).
      by rewrite Z.add_0_l.
Qed.

End history.

(** What a server takes for synchronised, at the beginning. *)
Definition inSync (S : netmap) (a : addr_t) (k : list byte) : Prop := ∃ x, S !! a = Some x ∧ synced x k.

Lemma inSync_at S a x k : S !! a = Some x → synced x k ↔ inSync S a k.
Proof. intros Hx. unfold inSync. rewrite Hx. naive_solver. Qed.


(** C2. The clients see one map. Any number of clients read, write, delete and
    compare-and-swap, with clocks that need not agree, while servers crash. The
    calls of all clients happen one after another: a call ends before the next
    begins (overlapping ones can leave the holders different, [deletes_diverge]).
    If the holders that are up agree at the beginning, each client is right about
    which servers that are up hold what, the timeouts are above 0 and the clocks
    after 1970, no key has more than eight holders, a holder of each key survives,
    the calls use keys whose hash is not reserved, the records of all the calls
    fit in the chunks and each CAS is later than every value and call before it,
    then every call returns: a read gives the value of the map where the last
    write wins, a write and a delete report an error exactly when a holder that
    the client knows is down, a CAS succeeds only on the value it expects, and
    always then if the holders are up and synchronised. At the end the holders
    that are up agree on that map. *)
Theorem service_refines (H : list byte → gset addr_t) `{Faulty W} G n (s : service) S M b hi hs :
  0 < n < 2 ^ 63 → service_ok H G n s S M b → Forall (sound (length (users s))) hs → costs hs ≤ b →
  until M hi → cas_late hi hs → (∀ k, ∃ a, a ∈ H k ∧ is_Some (S !! a) ∧ Crash a ∉ hs) →
  ∃ s' xs st S', run_history s hs = Ret (s', xs) ∧
    serves_all (views G n) (inSync S) (TheStore M (dom S)) hs xs st ∧
    service_ok H G n s' S' (the_map st) (b - costs hs) ∧ dom S' = up st.
Proof.
  intros Hn Hs Hok Hb Hu Hl Hlive. apply (history_sim H G n Hn hs s S M b (inSync S) hi); try done. apply inSync_at.
Qed.

(** ** A CAS from a clock that is behind *)

(** The values after it: the master has the new one, the others the old. *)
Lemma skewed_values (H : list byte → gset addr_t) S M b k v t old now y m x :
  m ∈ H k → S !! m = Some x → synced x k → (∀ a, a ∈ H k → is_Some (S !! a)) → agreed H S M b →
  12 + zlen k + (8 + zlen v) ≤ b → 0 ≤ now < 2 ^ 63 → M !! k = Some y → now < ts y → expected (Some y) t old →
  let S1 := holdersSet (<[m := nodeCAS k (casValue t old now v) x]> S) (H k ∖ {[m]}) k (stamp now ++ v) in
  (spec_cas x k (casValue t old now v)).2 = None ∧ valueAt S1 k m = Some (stamp now ++ v) ∧
  ∀ a, a ∈ H k → a ≠ m → valueAt S1 k a = Some y.
Proof.
  intros Hm Hx Hsx Hup Hagreed Hb Ht Hy Hlt Hex S1.
  assert (zlen (stamp now ++ v) = 8 + zlen v) as Hz by (unfold stamp; zl).
  destruct (agreed_room H S M b k m x (stamp now ++ v) Hagreed Hm Hx) as (d & Hd & Hmd & Hrd); [lia|].
  pose proof (nodeCAS_writes x k d t old now v Hd Hrd) as Hcas. cbv zeta in Hcas.
  rewrite Hmd, Hy, decide_True in Hcas by done. destruct Hcas as [Hwr Hno]. split_and!; [done|..].
  - unfold valueAt, S1, holdersSet. rewrite map_lookup_imap, lookup_insert_eq. cbn [mbind option_bind].
    rewrite decide_False by set_solver. by eapply writes_value.
  - intros a Ha Hne. destruct (Hup a Ha) as [z Hza]. unfold valueAt, S1, holdersSet.
    rewrite map_lookup_imap, lookup_insert_ne, Hza by done. cbn [mbind option_bind]. rewrite decide_True by set_solver.
    destruct (agreed_room H S M b k a z (stamp now ++ v) Hagreed Ha Hza) as (c1 & Hc1 & Hm1 & Hr1); [lia|].
    destruct (nodeSet_writes z k c1 (stamp now ++ v) Hc1 ltac:(pose proof (zlen_nonneg v); lia) Hr1) as [Hws _].
    rewrite Hm1, Hy in Hws. cbn [best] in Hws. rewrite ts_stamp in Hws by done.
    destruct (Z.leb_spec now (ts y)); [|lia]. by eapply writes_value.
Qed.

(** The master of a key compares the expected time and hash with its value and not
    the time of the new value with the one of the old: a client whose clock is
    behind is told that its CAS succeeded, the other holders refuse the new value
    as too old, and the next read gives the old one and puts it back. *)
Theorem skewed_CAS_is_lost (H : list byte → gset addr_t) `{KVNet W} g n c (e : env W) S M b k v t old y :
  cenv g e S → numChunks (e_sg e) = n → 0 < n < 2 ^ 63 → waits c → keyHolders g n k = H k →
  (1 < size (H k) ≤ 8)%nat → (∀ a, a ∈ H k → inSync S a k) → agreed H S M b → cost (CCAS k v t old) ≤ b →
  callable (CCAS k v t old) → 0 ≤ net_now (e_net e) < 2 ^ 63 →
  M !! k = Some y → net_now (e_net e) < ts y → expected (Some y) t old →
  ∃ errs e', (r ← clientCAS c k v t old; x ← clientGet c k; mret (r, x)) e =
    Ret ((true, errs, (Some (drop 8 y), ts y, true)), e').
Proof.
  intros He Hnum Hn Hw HX Hsz Hsync Hagreed Hb [Hk Hlen] Ht Hy Hlt Hex. cbn in Hk, Hb.
  destruct (clientCAS_sim g e S n c k v t old He Hnum Hn ltac:(rewrite HX; lia) (wt_cas _ Hw) Hlen)
    as (m & r & e1 & S1 & Hm & _ & E1 & He1 & Hp1 & Hres). rewrite HX in Hm, Hres.
  destruct (Hsync m Hm) as (x & Hx & Hsx). rewrite Hx in Hres.
  destruct (skewed_values H S M b k v t old (net_now (e_net e)) y m x) as (Hno & Hvm & Hva); try done.
  { intros a Ha. destruct (Hsync a Ha) as (z & -> & _). by eexists. }
  rewrite Hno in Hres. destruct Hres as [Hr ->]. destruct r as [ok errs]. cbn in Hr. subst ok.
  set (S1 := holdersSet _ _ _ _) in *.
  assert (∃ a, a ∈ H k ∧ a ≠ m) as (a & Ha & Hne).
  { destruct (decide (H k ∖ {[m]} = ∅)) as [Hem|(a & Ha)%set_choose_L]; [|apply elem_of_difference in Ha; exists a; set_solver].
    assert (H k ⊆ {[m]}) as Hsub%subseteq_size.
    { clear -Hem. intros a Ha. destruct (decide (a ∈ ({[m]} : gset addr_t))); [done|]. exfalso.
      apply (not_elem_of_empty (C := gset addr_t) a). rewrite <- Hem. by apply elem_of_difference. }
    rewrite size_singleton in Hsub. lia. }
  destruct (clientGet_sim g e1 S1 n c k He1 ltac:(by rewrite (proj1 Hp1)) Hn ltac:(rewrite HX; lia) Hk (wt_get _ Hw)
    ltac:(pose proof (zlen_nonneg v); lia)) as (o & e2 & read & E2 & Hnew & Hread & _).
  rewrite HX in Hnew, Hread. exists errs, e2. rewrite run_bind, E1. msimpl. rewrite E2. msimpl.
  assert (o = Some y) as ->.
  { destruct o as [z|]; [|specialize (Hva a Ha Hne); by rewrite (Hnew a Ha) in Hva].
    destruct Hnew as [(a' & Ha' & Hz') Hmax]. specialize (Hmax a y Ha (Hva a Ha Hne)).
    destruct (decide (a' = m)) as [->|Hne']; [|by rewrite Hva in Hz'].
    assert (z = stamp (net_now (e_net e)) ++ v) as -> by congruence. rewrite ts_stamp in Hmax by done. lia. }
  rewrite (proj2 Hread); [done|]. exists a. split; [done|]. specialize (Hva a Ha Hne). unfold valueAt in Hva.
  destruct (S1 !! a); [by eexists|done].
Qed.
