(* ===== verification/Cluster.v ===== *)
(** * A network of servers

    An instance of the interface of [Remote] made of the servers themselves: a
    message is marshalled, unmarshalled and processed by the server it is sent
    to; a server that panics is gone.  It keeps the promises of [KVNet], so the
    theorems about the client hold of it. *)
From S2P Require Import Prelude.
From S2P Require Import Hashing.
From S2P Require Import Store.
From S2P Require Import PMap.
From S2P Require Import PMapSpec.
From S2P Require Import Chunk.
From S2P Require Import PMapProps.
From S2P Require Import UdpHeartbeat.
From S2P Require Import TcpMessage.
From S2P Require Import Broker.
From S2P Require Import Core.
From S2P Require Import CoreProps.
From S2P Require Import CoreFiles.
From S2P Require Import ServerGroup.
From S2P Require Import ServerGroupSpec.
From S2P Require Import Remote.
From S2P Require Import Heartbeat.
From S2P Require Import Server.
From S2P Require Import ServerProps.
From S2P Require Import Client.
From S2P Require Import KVNet.
From S2P Require Import ClientProps.
From S2P Require Import ClientCAS.
From S2P Require Import ClientDel.

#[local] Opaque chunkIndex.

(** The servers by address, the transfers they have started and the time. *)
Record cluster := Cluster {
  nodes : gmap addr_t DBServer;
  jobs : list (addr_t * job);
  w_clock : time
}.

Section cluster.
Context {J : Json}.

(** The server at an address processes a message: its response, if any. *)
Definition serve (now : time) (s : DBServer) (m : Message) :
    outcome (DBServer * option Message * option job) :=
  m ← wire m;
  p ← processMessage now s m;
  if 0 <? mType p.1.2 then r ← wire p.1.2; Ret (p.1.1, Some r, p.2) else Ret (p.1.1, None, p.2).

Definition deliverTo (w : cluster) (a : addr_t) (m : Message) : cluster * option Message :=
  match nodes w !! a with
  | None => (w, None)
  | Some s =>
      match serve (w_clock w) s m with
      | Ret (s', r, j) =>
          (Cluster (<[a := s']> (nodes w))
             (jobs w ++ match j with Some j => [(a, j)] | None => [] end) (w_clock w), r)
      | _ => (Cluster (delete a (nodes w)) (jobs w) (w_clock w), None)
      end
  end.

(** The answer of a server to a ping, through the packet of the heartbeat. *)
Definition pong (now : time) (s : DBServer) : outcome (DBServer * (string + AmAlive)) :=
  r ← ListenReply (s_hb s) (s_core s) now;
  b ← AmAliveMarshal r.1.1;
  x ← AmAliveUnMarshal b;
  Ret (mkDB r.2 (s_sg s) r.1.2 (s_stopped s), x).

Definition pingTo (w : cluster) (a : addr_t) : cluster * (error + AmAlive) :=
  let failed := inl "timeout"%string in
  match nodes w !! a with
  | None => (w, failed)
  | Some s =>
      match pong (w_clock w) s with
      | Ret (s', x) =>
          (Cluster (<[a := s']> (nodes w)) (jobs w) (w_clock w),
           match x with inr aa => inr aa | inl _ => failed end)
      | _ => (Cluster (delete a (nodes w)) (jobs w) (w_clock w), failed)
      end
  end.

#[export] Instance clusterNet : Network cluster := {|
  net_now := w_clock;
  net_dial w a := (w, match nodes w !! a with Some _ => None | None => Some "connection refused"%string end);
  net_send w a m := (deliverTo w a m).1;
  net_call w a m t :=
    let r := deliverTo w a m in
    (r.1, match r.2 with Some m => response m | None => timeoutResult EmptyString EmptyString end);
  net_ping := pingTo
|}.

(** ** The promises *)

Definition cluster_rep (w : cluster) (S : netmap) : Prop := ∀ a,
  match S !! a with
  | Some x => ∃ s, nodes w !! a = Some s ∧ server_rep s x.1 x.2
  | None => nodes w !! a = None
  end.

Lemma cluster_rep_at w S a x :
  cluster_rep w S → S !! a = Some x → ∃ s, nodes w !! a = Some s ∧ server_rep s x.1 x.2.
Proof. intros Hw Ha. specialize (Hw a). by rewrite Ha in Hw. Qed.

Lemma cluster_rep_update w S a s x l t :
  cluster_rep w S → server_rep s x.1 x.2 →
  cluster_rep (Cluster (<[a := s]> (nodes w)) l t) (<[a := x]> S).
Proof.
  intros Hw Hs b. cbn. destruct (decide (b = a)) as [->|Hne].
  - rewrite !lookup_insert_eq. by exists s.
  - rewrite !lookup_insert_ne by done. apply Hw.
Qed.

Lemma answer_positive id r : (0 <? mType (answerOf id r)) = true.
Proof. by destruct r as [[v|]|[e|]]. Qed.

Lemma deliver_call w S a As g o As' r :
  cluster_rep w S → S !! a = Some (As, g) → op_ok o → msg_ok (requestOf 0 o) →
  spec_request g As o = Ret (As', r) →
  (deliverTo w a (requestOf 0 o)).2 = Some (answerOf 0 r) ∧
  cluster_rep (deliverTo w a (requestOf 0 o)).1 (<[a := (As', g)]> S).
Proof.
  intros Hw Ha Ho Hm E. destruct (cluster_rep_at w S a _ Hw Ha) as (s & Hs & Hr). cbn in Hr.
  unfold deliverTo, serve. rewrite Hs, wire_ok by done. bsimpl.
  pose proof (process_sim (w_clock w) s As g Hr 0 o Ho) as Hp. rewrite E in Hp.
  destruct Hp as (s' & -> & Hs'). bsimpl. rewrite answer_positive.
  rewrite wire_ok by (by eapply spec_request_answer; [exact Hr|lia|]). bsimpl.
  split; [done|]. by apply cluster_rep_update.
Qed.

Lemma deliver_async w S a As g k v :
  cluster_rep w S → S !! a = Some (As, g) → msg_ok (Msg Operation.OpAsyncSet 0 k v) →
  cluster_rep (deliverTo w a (Msg Operation.OpAsyncSet 0 k v)).1 (<[a := ((spec_set As k v).1, g)]> S).
Proof.
  intros Hw Ha Hm. destruct (cluster_rep_at w S a _ Hw Ha) as (s & Hs & Hr). cbn in Hr.
  unfold deliverTo, serve. rewrite Hs, wire_ok by done. bsimpl.
  destruct (async_sim (w_clock w) s As g Hr 0 k v (msg_ok_sizes _ Hm)) as (s' & As' & r & E & Hs' & ->).
  bsimpl. cbn [mType Z.ltb Z.compare]. rewrite spec_core_set in E.
  apply (f_equal (λ m, match m with Ret x => x.1 | _ => As end)) in E. cbn in E. rewrite E.
  by apply cluster_rep_update.
Qed.

Lemma deliver_nodelay w S a :
  cluster_rep w S → cluster_rep (deliverTo w a (Msg Operation.OpSetNoDelay 0 [] [])).1 S.
Proof.
  intros Hw. unfold deliverTo. destruct (nodes w !! a) as [s|] eqn:Hs; [|done].
  destruct (S !! a) as [x|] eqn:Ha; [|specialize (Hw a); rewrite Ha in Hw; congruence].
  destruct (cluster_rep_at w S a _ Hw Ha) as (s' & Hs' & Hr). assert (s' = s) as -> by congruence.
  unfold serve. rewrite wire_ok by (by vm_compute). bsimpl.
  assert (processMessage (w_clock w) s (Msg Operation.OpSetNoDelay 0 [] []) =
          Ret (s, Msg Operation.OpSetNoDelay 0 [] [], None)) as ->.
  { unfold processMessage. by rewrite (sv_running _ _ _ Hr). }
  bsimpl. cbn [mType]. change (0 <? Operation.OpSetNoDelay) with true. cbn beta iota.
  rewrite wire_ok by (by vm_compute). cbn. rewrite <- (insert_id S a x Ha). by apply cluster_rep_update.
Qed.

Lemma deliver_down w S a m : cluster_rep w S → S !! a = None → deliverTo w a m = (w, None).
Proof. intros Hw Ha. specialize (Hw a). rewrite Ha in Hw. unfold deliverTo. by rewrite Hw. Qed.

(** A stored value has a time, and fits in its chunk. *)
Lemma core_values c As k v :
  core_rep c As → spec_get As k = inr (Some v) → 8 ≤ zlen v < maxChunkSize.
Proof.
  intros Hc E. unfold spec_get in E. destruct (As !! chunkIndex (zlen As) k) as [[a|]|] eqn:Hi; try done.
  assert (a_map a !! k = Some v) as Hv by (by injection E). split; [|by eapply value_small].
  destruct (chunk_at c As Hc _ _ Hi) as (_ & _ & _ & _ & _ & _ & p & _ & d & Hd).
  destruct (d !! k) as [st|] eqn:Hdk.
  - destruct (pd_some _ _ _ Hd k st Hdk) as (v' & Hv' & _ & H8). congruence.
  - rewrite (pd_none _ _ _ Hd k Hdk) in Hv. done.
Qed.

#[export] Instance clusterKV : KVNet cluster.
Proof.
  refine {| kv_rep := cluster_rep |}.
  - intros w S a As g k v Hw Ha E. destruct (cluster_rep_at w S a _ Hw Ha) as (s & _ & Hr).
    by eapply core_values; [apply Hr|].
  - intros w S a As g Hw Ha. destruct (cluster_rep_at w S a _ Hw Ha) as (s & _ & Hr).
    apply (cr_number _ _ (sv_core _ _ _ Hr)).
  - intros w S a Hw. split; [done|]. intros [x Ha]. destruct (cluster_rep_at w S a _ Hw Ha) as (s & Hs & _).
    cbn. by rewrite Hs.
  - intros w S a As g o t As' r Hw Ha Ho Hm _ E.
    destruct (deliver_call w S a As g o As' r Hw Ha Ho Hm E) as [Em Hw']. cbn. rewrite Em.
    split; [apply response_answer|done].
  - intros w S a As g k v Hw Ha Hm. by apply deliver_async.
  - intros w S a Hw. by apply deliver_nodelay.
  - intros w S a m t Hw Ha. cbn. rewrite (deliver_down w S a m Hw Ha). split; [by eexists|done].
  - intros w S a m Hw Ha. cbn. by rewrite (deliver_down w S a m Hw Ha).
Defined.
End cluster.

(** ** A network of one server, and a client that knows it *)

#[local] Existing Instance noJson.

Definition sample_addr : addr_t := str "a:1".
Definition sample_group : group := {[sample_addr := VInfo [AAChunk 0 0] false 0]}.
Definition sample_map : netmap := {[sample_addr := ([Some sample_abs], ∅)]}.
Definition sample_client : DBClient :=
  mkClient newHeartbeater defaultGetTimeout defaultSetTimeout defaultDelTimeout defaultCASTimeout.

Lemma sample_cenv `{GommapLaws} (t : time) :
  ∃ e : env cluster, cenv sample_group e sample_map ∧ numChunks (e_sg e) = 1 ∧ net_now (e_net e) = t.
Proof.
  destruct sample_server as (s & Hs).
  destruct (Create_rep 1 1 []) as (sg0 & _ & Hr & Hn & _); [lia|].
  pose proof (gops_sim [GAdd sample_addr; GSet sample_addr [AAChunk 0 0] 0] sg0 ∅ Hr) as H'. rewrite Hn in H'.
  rewrite spec_one in H' by (repeat constructor; unfold in_range; cbn; lia). destruct H' as (sg & _ & Hrep & Hn' & _).
  exists (Env sg (Cluster {[sample_addr := s]} [] t)). split_and!; [split; [done|]|done|done].
  exact (cluster_rep_update (Cluster ∅ [] t) ∅ sample_addr s ([Some sample_abs], ∅) [] t
           (λ a, eq_refl) Hs).
Qed.

Lemma sample_holders k : keyHolders sample_group 1 k = {[sample_addr]}.
Proof.
  unfold keyHolders, keyChunk. rewrite Z.mod_1_r. apply holdersOf_one. by left.
Qed.

Lemma client_reads_newest_witness :
  let _ := plainGommap in
  ∃ e e' : env cluster, clientGet sample_client (str "b") e = Ret ((Some (str "z"), 6, true), e').
Proof.
  intros G. destruct (@sample_cenv G plainGommap_laws 9) as (e & He & Hn & _).
  destruct (client_reads_newest sample_group e sample_map 1 sample_client (str "b"))
    as (o & e' & read & E & Hnew & Hread & _);
    [exact He|exact Hn|lia|rewrite sample_holders, size_singleton; lia|by vm_compute|by vm_compute|by vm_compute|].
  rewrite sample_holders in Hnew, Hread. exists e, e'.
  assert (valueAt sample_map (str "b") sample_addr = Some (sample_value 6 "z")) as Hv by (vm_compute; reflexivity).
  assert (o = Some (sample_value 6 "z")) as ->.
  { destruct o as [v|]; [|specialize (Hnew sample_addr); rewrite Hv in Hnew; by discriminate Hnew; set_solver].
    destruct Hnew as [(a & ->%elem_of_singleton & Hva) _]. congruence. }
  rewrite (proj2 Hread) in E by (exists sample_addr; split; [set_solver|by eexists]). exact E.
Defined.

(** The server of the sample accepts a new value of a key that it holds or not. *)
Lemma sample_accepts k v : zlen k + zlen v < 100 → 8 ≤ zlen v → accepted sample_map k v sample_addr.
Proof.
  intros Hs H8. exists ([Some sample_abs], ∅). unfold sample_map. rewrite lookup_singleton_eq. split; [done|].
  unfold spec_set, spec_core. cbn [op_key spec_step fst].
  pose proof (chunkIndex_lt [Some sample_abs] k ltac:(by vm_compute)) as Hi. revert Hi.
  generalize (chunkIndex (zlen [Some sample_abs]) k). intros [|i] Hi; [|cbn in Hi; lia]. cbn [lookup list_lookup].
  bsimpl. cbn [snd]. unfold spec_Set, spec_write.
  destruct (Z.ltb_spec (zlen v) 8); [lia|].
  assert (room sample_abs k v = true) as ->.
  { unfold room. apply Z.ltb_lt. change (a_size sample_abs) with 300.
    assert (zlen (enc_log (a_log sample_abs)) = 57) as -> by (by vm_compute). lia. }
  destruct (a_map sample_abs !! k) as [old|]; [|done]. by destruct (ts v <=? ts old).
Qed.

Lemma client_writes_everywhere_witness :
  let _ := plainGommap in
  ∃ e e' : env cluster, clientSet sample_client (str "c") (str "new") e = Ret ((true, None), e').
Proof.
  intros G. destruct (@sample_cenv G plainGommap_laws 9) as (e & He & Hn & Ht).
  destruct (client_writes_everywhere sample_group e sample_map 1 sample_client (str "c") (str "new"))
    as (written & errs & e' & E & _ & _ & Hw & Herr);
    [exact He|exact Hn|lia|rewrite sample_holders, size_singleton; lia|by vm_compute|by vm_compute|].
  rewrite sample_holders in Hw, Herr. rewrite Ht in Hw, Herr. exists e, e'.
  assert (accepted sample_map (str "c") (stamp 9 ++ str "new") sample_addr) as Ha
    by (apply sample_accepts; by vm_compute).
  rewrite (proj2 Hw) in E by (exists sample_addr; split; [set_solver|exact Ha]).
  rewrite (proj2 Herr) in E by (by intros a ->%elem_of_singleton). exact E.
Defined.

Lemma client_reads_its_writes_witness :
  let _ := plainGommap in
  ∃ (e e' : env cluster) errs,
    (w ← clientSet sample_client (str "b") (str "new"); r ← clientGet sample_client (str "b"); mret (w, r)) e =
    Ret ((true, errs, (Some (str "new"), 9, true)), e').
Proof.
  intros G. destruct (@sample_cenv G plainGommap_laws 9) as (e & He & Hn & Ht).
  destruct (client_reads_its_writes sample_group e sample_map 1 sample_client (str "b") (str "new"))
    as (errs & e' & E).
  - exact He.
  - exact Hn.
  - lia.
  - rewrite sample_holders, size_singleton. lia.
  - by vm_compute.
  - by vm_compute.
  - by vm_compute.
  - by vm_compute.
  - rewrite Ht. lia.
  - rewrite sample_holders, Ht. intros a old ->%elem_of_singleton.
    assert (valueAt sample_map (str "b") sample_addr = Some (sample_value 6 "z")) as -> by (vm_compute; reflexivity).
    intros E%(inj Some). rewrite <- E. by vm_compute.
  - rewrite sample_holders, Ht. exists sample_addr. split; [set_solver|]. apply sample_accepts; by vm_compute.
  - rewrite Ht in E. by exists e, e', errs.
Defined.

Lemma client_deletes_key_witness :
  let _ := plainGommap in
  ∃ (e e1 e2 : env cluster) errs read, clientDel sample_client (str "b") e = Ret (errs, e1) ∧
    clientGet sample_client (str "b") e1 = Ret ((None, zero_time, read), e2).
Proof.
  intros G. destruct (@sample_cenv G plainGommap_laws 9) as (e & He & Hn & Ht).
  destruct (client_deletes_key sample_group e sample_map 1 sample_client (str "b"))
    as (errs & e1 & S1 & read & e2 & E1 & _ & _ & _ & _ & E2).
  - exact He.
  - exact Hn.
  - lia.
  - rewrite sample_holders, size_singleton. lia.
  - by vm_compute.
  - by vm_compute.
  - by vm_compute.
  - by vm_compute.
  - rewrite Ht. lia.
  - rewrite sample_holders, Ht. intros a old ->%elem_of_singleton.
    assert (valueAt sample_map (str "b") sample_addr = Some (sample_value 6 "z")) as -> by (vm_compute; reflexivity).
    intros E%(inj Some). rewrite <- E. by vm_compute.
  - by exists e, e1, e2, errs, read.
Defined.

Lemma client_CAS_decided_by_master_witness :
  let _ := plainGommap in
  ∃ (e e' : env cluster) r, clientCAS sample_client (str "b") (str "new") 6 (str "z") e = Ret (r, e') ∧ r.1 = true.
Proof.
  intros G. destruct (@sample_cenv G plainGommap_laws 9) as (e & He & Hn & Ht).
  destruct (client_CAS_decided_by_master sample_group e sample_map 1 sample_client (str "b") (str "new") 6 (str "z"))
    as (a & r & e' & S' & Ha & _ & E & _ & Hres);
    [exact He|exact Hn|lia|rewrite sample_holders, size_singleton; lia|by vm_compute|by vm_compute|].
  rewrite sample_holders in Ha. apply elem_of_singleton in Ha as ->. rewrite Ht in Hres.
  change (sample_map !! sample_addr) with (Some ([Some sample_abs], ∅ : group)) in Hres.
  assert ((spec_cas ([Some sample_abs], ∅) (str "b") (casValue 6 (str "z") 9 (str "new"))).2 = None) as Ec
    by (vm_compute; reflexivity).
  cbv beta iota in Hres. rewrite Ec in Hres. destruct Hres as [Hr _]. exists e, e', r. split; [exact E|exact Hr].
Defined.

Lemma clients_agree_on_master_witness :
  let s1 := mkServer (str "a:1") 0 false [] false false in
  let s2 := mkServer (str "b:1") 0 false [] false false in
  let sg := mkGroup [] 1 2 ∅ [] false (<[0 := s1]> (<[1 := s2]> ∅)) in
  ∃ i i' p p', selectServer sg (str "key") [Some 0; Some 1] = Ret (Z.of_nat i, Some p) ∧
    selectServer sg (str "key") [Some 1; Some 0] = Ret (Z.of_nat i', Some p') ∧
    addrOf sg p = addrOf sg p'.
Proof.
  intros s1 s2 sg.
  destruct (clients_agree_on_master sg sg (str "key") 0 0 [0; 1] [1; 0]
    [str "a:1"; str "b:1"] [str "b:1"; str "a:1"]) as (i & i' & p & p' & a & E & E' & Hp & Hp').
  - repeat constructor; by eexists.
  - repeat constructor; by eexists.
  - intros a. rewrite !elem_of_cons, elem_of_nil. naive_solver.
  - done.
  - intros a b. rewrite !elem_of_cons, !elem_of_nil.
    intros [->|[->|[]]] [->|[->|[]]] Hr; [reflexivity| | |reflexivity]; vm_compute in Hr; discriminate Hr.
  - exists i, i', p, p'. split_and!; [exact E|exact E'|]. by rewrite Hp, Hp'.
Defined.
