(* ===== verification/Repair.v ===== *)
(** * The repair system ([src/dist/repair/repair.go])

    A server whose chunk has a different checksum from the other holders sends
    all the pairs of the chunk to the holders, newest first, and stops when the
    holders agree. *)
From S2P Require Import Prelude.
From S2P Require Import Hashing.
From S2P Require Import Store.
From S2P Require Import PMap.
From S2P Require Import PMapSpec.
From S2P Require Import Chunk.
From S2P Require Import Replicas.
From S2P Require Import PMapProps.
From S2P Require Import PMapIter.
From S2P Require Import TcpMessage.
From S2P Require Import UdpHeartbeat.
From S2P Require Import Broker.
From S2P Require Import Core.
From S2P Require Import CoreProps.
From S2P Require Import CoreFiles.
From S2P Require Import Defrag.
From S2P Require Import ServerGroup.
From S2P Require Import ServerGroupSpec.
From S2P Require Import Remote.
From S2P Require Import Heartbeat.
From S2P Require Import Server.
From S2P Require Import ServerProps.
From S2P Require Import Client.
From S2P Require Import KVNet.
From S2P Require Import ClientProps.
From S2P Require Import Cluster.

#[local] Opaque chunkIndex.

Definition checksTillRepair : Z := 8.

Section repair.
Context {W : Type} `{Network W}.

(** The callback.  The counter [i] of the code is never incremented, so that the
    holders are compared before each pair. *)
Definition repairPair (cid : Z) (e : env W) (key value : list byte) : outcome (env W * bool) :=
  let i := 0 in
  early ← (if i mod 128 =? 0 then IsSynched (e_sg e) cid else Ret false);
  if (early : bool) then Ret (e, false)
  else
    servers ← GetChunkHolders (e_sg e) cid;
    (* the results are dropped *)
    r ← sendAll (λ p, vsSet p key value 0) servers None e;
    Ret (r.2, true).

Definition repair (c : Core) (cid : Z) : comp W unit := λ e,
  r ← CoreBackwardsIterate (repairPair cid) c cid e;
  Ret (tt, match r with inr e => e | inl _ => e end).

(** The loop over the chunks: [m] counts the checks that failed in a row. *)
Fixpoint repairChunks (c : Core) (m : gmap Z Z) (cid : Z) (n : nat) : comp W (gmap Z Z) :=
  match n with
  | O => mret m
  | S n =>
      here ← lift (IsPresent c cid);
      if negb (here : bool) then repairChunks c m (cid + 1) n
      else
        sg ← get_sg;
        synched ← lift (IsSynched sg cid);
        if (synched : bool) then repairChunks c (delete cid m) (cid + 1) n
        else
          let k := default 0 (m !! cid) + 1 in
          _ ← (if checksTillRepair <=? k then repair c cid else mret tt);
          repairChunks c (<[cid := k]> m) (cid + 1) n
  end.

(** One turn of the loop of [StartRepairSystem]. *)
Definition repairTurn (c : Core) (m : gmap Z Z) : comp W (Core * gmap Z Z) :=
  now ← getNow;
  r ← lift (PresentChunksList c now);
  sg ← get_sg;
  now ← getNow;
  sg ← lift (SetServerChunks sg (LocalhostIPPort sg) r.1 now);
  _ ← put_sg sg;
  m ← repairChunks r.2 m 0 (Z.to_nat (numChunks sg));
  mret (r.2, m).
End repair.

(** ** Sending a sequence of pairs *)

Lemma spec_backwards_sim {A B} (foreach : A → list byte → list byte → outcome (A * bool))
    (R : A → B → Prop) (f : B → write → B) (P : write → Prop) :
  (∀ acc b k v, R acc b → P (k, v) → ∃ acc', foreach acc k v = Ret (acc', true) ∧ R acc' (f b (k, v))) →
  ∀ a l suffix acc b, R acc b → Forall P (visible a l suffix) →
  ∃ acc', spec_backwards foreach a (reverse l) suffix acc = Ret acc' ∧
    R acc' (foldl f b (reverse (visible a l suffix))).
Proof.
  intros Hf a l. induction l as [|r l IH] using rev_ind; intros suffix acc b HR HP; [by exists acc|].
  rewrite reverse_snoc, visible_app, reverse_app, foldl_app. cbn [spec_backwards visible].
  rewrite visible_app, Forall_app in HP. destruct HP as [HPl HPr]. cbn [visible app] in *.
  rewrite app_nil_r in *. unfold spec_visit.
  destruct (PMapIter.present a r suffix).
  - apply Forall_cons in HPr as [Hr _]. destruct (Hf acc b _ _ HR Hr) as (acc1 & -> & HR1). bsimpl.
    by apply IH.
  - bsimpl. by apply IH.
Qed.

Definition nodeSets (ws : list write) (x : node) : node := foldl (λ x w, nodeSet w.1 w.2 x) x ws.

Definition holdersSets (S : netmap) (X : gset addr_t) (ws : list write) : netmap :=
  foldl (λ S w, holdersSet S X w.1 w.2) S ws.

Lemma holdersSet_lookup S X k v a :
  holdersSet S X k v !! a = (if decide (a ∈ X) then nodeSet k v else id) <$> S !! a.
Proof. unfold holdersSet. rewrite map_lookup_imap. by destruct (S !! a), (decide (a ∈ X)). Qed.

Lemma holdersSets_lookup X ws a : ∀ S,
  holdersSets S X ws !! a = (if decide (a ∈ X) then nodeSets ws else id) <$> S !! a.
Proof.
  induction ws as [|[k v] ws IH]; intros S; cbn.
  - by destruct (S !! a), (decide (a ∈ X)).
  - fold (holdersSets (holdersSet S X k v) X ws). rewrite IH, holdersSet_lookup.
    by destruct (S !! a), (decide (a ∈ X)).
Qed.

(** ** One repair *)

Section sim.
Context {W : Type} `{KVNet W} (g0 : group) (cid : Z).

Lemma repairPair_sim (e : env W) S n k v :
  cenv g0 e S → numChunks (e_sg e) = n → 0 ≤ cid < n → (size (holdersOf g0 cid) ≤ 8)%nat →
  ¬ synched g0 cid → msg_ok (Msg Operation.OpAsyncSet 0 k v) →
  ∃ e', repairPair cid e k v = Ret (e', true) ∧ cenv g0 e' (holdersSet S (holdersOf g0 cid) k v) ∧
    numChunks (e_sg e') = n.
Proof.
  intros He Hn Hc Hsz Hns Hm. unfold repairPair. change (0 mod 128 =? 0) with true. cbn beta iota.
  rewrite (IsSynched_sim _ _ (ce_group _ _ _ He)) by lia. bsimpl. rewrite bool_decide_false by done.
  destruct (holders_located g0 e S cid He) as (ps & addrs & m & -> & Hl & Hnd & Hmem); [by rewrite Hn|done|].
  bsimpl. destruct (sendAll_sim g0 _ _ _ m (vsSet_async g0 k v Hm) ps addrs e S None He Hl Hnd)
    as (rs & e1 & -> & He1 & Hp1 & _). bsimpl. exists e1.
  split_and!; [done|by rewrite <- (holdersSet_alters _ _ _ _ addrs)|]. by rewrite (proj1 Hp1).
Qed.

(** The pairs that a repair sends, in order. *)
Definition repairWrites (x : abs) : list write := reverse (visible x (a_log x) []).

Lemma in_space (k v : list byte) ws : (k, v) ∈ ws → 12 + zlen k + zlen v ≤ space ws.
Proof.
  induction ws as [|[k' v'] ws IH]; [by intros ?%not_elem_of_nil|]. rewrite space_cons. cbn [fst snd].
  pose proof (space_nonneg ws). intros [[= -> ->]|Hin]%elem_of_cons; [lia|]. specialize (IH Hin). zl.
Qed.

(** The pairs of a chunk are short enough for a message. *)
Lemma visible_msg_ok c As i x :
  core_rep c As → As !! i = Some (Some x) →
  Forall (λ w, msg_ok (Msg Operation.OpAsyncSet 0 w.1 w.2)) (visible x (a_log x) []).
Proof.
  intros Hc Hi. apply Forall_forall. intros [k v] Hin. apply in_space in Hin. cbn.
  pose proof (space_visible x (a_log x) []).
  destruct (chunk_at c As Hc i _ Hi) as (_ & _ & _ & _ & _ & _ & p & _ & d & Hd).
  destruct (pd_store _ _ _ Hd) as [_ Hl _ Hroom _]. destruct (pd_size _ _ _ Hd) as [_ Hmax].
  unfold maxChunkSize in Hmax. unfold msg_ok, msgSize. cbn. unfold Operation.OpAsyncSet. lia.
Qed.

(** A repair sends every pair of the chunk to every holder. *)
Lemma repair_sim (e : env W) S n c As x :
  cenv g0 e S → numChunks (e_sg e) = n → 0 ≤ cid < n → (size (holdersOf g0 cid) ≤ 8)%nat →
  ¬ synched g0 cid → core_rep c As → As !! Z.to_nat cid = Some (Some x) →
  Forall (λ r, good_key (r_key r)) (a_log x) →
  ∃ e', repair c cid e = Ret (tt, e') ∧ cenv g0 e' (holdersSets S (holdersOf g0 cid) (repairWrites x)) ∧
    numChunks (e_sg e') = n.
Proof.
  intros He Hn Hcid Hsz Hns Hc Hx Hg. unfold repair, CoreBackwardsIterate.
  destruct (chunk_at c As Hc _ _ Hx) as (k & _ & Hix & Hp & _ & Hw & p & Hpm & Hrep).
  rewrite Z2Nat.id in Hix by lia. rewrite Hix. bsimpl. rewrite Hp. cbn [negb]. unfold pmOf. rewrite Hpm.
  cbn [orPanic]. bsimpl. rewrite (BackwardsIterate_sim _ p x) by done.
  destruct (spec_backwards_sim (repairPair cid)
    (λ e S, cenv g0 e S ∧ numChunks (e_sg e) = n) (λ S w, holdersSet S (holdersOf g0 cid) w.1 w.2)
    (λ w, msg_ok (Msg Operation.OpAsyncSet 0 w.1 w.2))) with (a := x) (l := a_log x) (suffix := @nil rec)
    (acc := e) (b := S) as (e' & -> & He' & Hn').
  - intros e1 S1 k1 v1 [He1 Hn1] Hm1. cbn in Hm1.
    destruct (repairPair_sim e1 S1 n k1 v1) as (e2 & E2 & He2 & Hn2); try done. by exists e2.
  - done.
  - by eapply visible_msg_ok.
  - bsimpl. exists e'. by split_and!.
Qed.
End sim.

(** ** What the holders store *)

(** The keys of a list of pairs belong to chunk [i] of [n]. *)
Definition placed (n : Z) (i : nat) (ws : list write) : Prop :=
  Forall (λ w, chunkIndex n w.1 = i) ws.

Lemma nodeSet_chunk As g i y k v :
  As !! i = Some (Some y) → chunkIndex (zlen As) k = i →
  nodeSet k v (As, g) = (<[i := Some (spec_Set y k v).1]> As, g).
Proof.
  intros Hy Hi. unfold nodeSet, spec_set, spec_core. cbn [fst snd op_key spec_step]. rewrite Hi, Hy. done.
Qed.

Lemma nodeSets_chunk ws : ∀ As g i y y' rs,
  As !! i = Some (Some y) → placed (zlen As) i ws → spec_exec y (sets ws) = Ret (y', rs) →
  nodeSets ws (As, g) = (<[i := Some y']> As, g).
Proof.
  induction ws as [|[k v] ws IH]; intros As g i y y' rs Hy Hp E.
  - injection E as <- <-. cbn. by rewrite list_insert_id.
  - apply Forall_cons in Hp as [Hk Hp]. cbn [fst] in Hk. cbn [sets map spec_exec spec_step fst snd] in E.
    fold (sets ws) in E. cbn [mbind outcome_bind fst snd] in E.
    destruct (spec_exec (spec_Set y k v).1 (sets ws)) as [[y2 rs2]| |] eqn:E2; try done.
    injection E as <- <-. cbn [nodeSets foldl fst snd]. rewrite (nodeSet_chunk As g i y) by done.
    fold (nodeSets ws (<[i := Some (spec_Set y k v).1]> As, g)).
    rewrite (IH _ g i (spec_Set y k v).1 y2 rs2).
    + by rewrite list_insert_insert_eq.
    + apply list_lookup_insert_eq. by eapply lookup_lt_Some.
    + unfold zlen. by rewrite length_insert.
    + done.
Qed.

Lemma spec_exec_sets ws : ∀ a, ∃ a' rs, spec_exec a (sets ws) = Ret (a', rs).
Proof.
  induction ws as [|[k v] ws IH]; intros a; [by do 2 eexists|]. cbn [sets map spec_exec spec_step]. bsimpl.
  fold (sets ws). destruct (IH (spec_Set a k v).1) as (a' & rs & ->). by do 2 eexists.
Qed.

(** Pairs that are not newer change nothing. *)
Lemma sets_absorb ws : ∀ y,
  (∀ k v, (k, v) ∈ ws → newer (a_map y) k (ts v)) → ∃ rs, spec_exec y (sets ws) = Ret (y, rs).
Proof.
  induction ws as [|[k v] ws IH]; intros y Hnew; [by eexists|]. cbn [sets map spec_exec spec_step fst snd].
  assert ((spec_Set y k v).1 = y) as ->.
  { destruct (Hnew k v) as (old & Ho & Hts); [by left|]. unfold spec_Set. rewrite Ho.
    destruct (Z.leb_spec (ts v) (ts old)); [|lia]. by destruct (zlen v <? 8). }
  bsimpl. fold (sets ws). destruct (IH y) as [rs ->]; [|by eexists]. intros k' v' Hin. apply Hnew. by right.
Qed.

Lemma repairWrites_perm x : abs_wf x → fresh (a_log x) → repairWrites x ≡ₚ map_to_list (a_map x).
Proof. intros Hw Hf. unfold repairWrites. rewrite reverse_Permutation. by apply visible_perm. Qed.

Lemma own_writes_absorbed x k v :
  abs_wf x → fresh (a_log x) → (k, v) ∈ repairWrites x → newer (a_map x) k (ts v).
Proof.
  intros Hw Hf Hin. rewrite (repairWrites_perm x Hw Hf), elem_of_map_to_list in Hin. exists v. split; [done|lia].
Qed.

(** ** Two replicas *)

(** Merging the pairs of one replica into the other, and back, gives the same
    map as collecting the pairs of both. *)
Lemma merge_both (x y : kvmap) (X Y P : list write) :
  X ≡ₚ map_to_list x → Y ≡ₚ map_to_list y → consistent (Y ++ X) →
  P ≡ₚ map_to_list (lwws y X) → lwws x P = lwws y X ∧ lwws y X = lwws ∅ (Y ++ X).
Proof.
  intros HX HY Hc HP. pose proof (lwws_map Y y HY) as Ey. pose proof (lwws_map X x HX) as Ex.
  pose proof (lwws_map P _ HP) as EP.
  assert (lwws y X = lwws ∅ (Y ++ X)) as Em by (rewrite lwws_app, Ey; done).
  split; [|done]. rewrite <- Ex, <- lwws_app.
  assert (consistent (X ++ P)) as Hc'.
  { eapply consistent_sub; [|exact Hc]. intros [k v]. rewrite !elem_of_app. intros [Hin|Hin]; [by right|].
    rewrite HP, elem_of_map_to_list, Em in Hin. apply lwws_from in Hin as [Hin|Hin]; [done|].
    by apply elem_of_app. }
  rewrite (lwws_perm _ (P ++ X)) by (done || apply Permutation_app_comm). rewrite lwws_app, EP.
  apply lwws_absorb. intros k v Hin. by apply lwws_adds.
Qed.

(** A replica of chunk [i] of [n]: written to only, with its own keys. *)
Record replica (n : Z) (i : nat) (As : list (option abs)) (x : abs) : Prop := Replica {
  rp_chunk : As !! i = Some (Some x);
  rp_number : zlen As = n;
  rp_written : write_only x;
  rp_keys : Forall (λ r, good_key (r_key r)) (a_log x);
  rp_placed : placed n i (map_to_list (a_map x))
}.

Lemma write_only_wf x : write_only x → abs_wf x ∧ fresh (a_log x).
Proof.
  intros [Hv Hm Hi]. split; [|by apply increasing_fresh]. split; [|by rewrite Hm].
  eapply Forall_impl; [exact Hv|]. intros r H. by right.
Qed.

Section replica.
Context (n : Z) (i : nat) (As : list (option abs)) (x : abs) (Hx : replica n i As x).

Lemma rp_perm : repairWrites x ≡ₚ map_to_list (a_map x).
Proof using Hx. destruct (write_only_wf x (rp_written _ _ _ _ Hx)). by apply repairWrites_perm. Qed.

Lemma rp_sent_placed : placed n i (repairWrites x).
Proof using Hx. unfold placed. rewrite rp_perm. apply Hx. Qed.

Lemma rp_stamped : stamped (repairWrites x).
Proof using Hx.
  destruct (rp_written _ _ _ _ Hx) as [Hv Hm Hi]. unfold stamped. rewrite rp_perm. apply Forall_forall.
  intros [k v] Hin%elem_of_map_to_list. cbn. rewrite Hm in Hin.
  destruct (replay_split _ _ _ Hin) as (l1 & l2 & El & _). rewrite El in Hv.
  apply Forall_app in Hv as [_ [H8 _]%Forall_cons]. done.
Qed.

Lemma space_perm (l k : list write) : l ≡ₚ k → space l = space k.
Proof. induction 1; cbn [space foldr] in *; unfold space in *; lia. Qed.

Lemma rp_space : space (repairWrites x) ≤ zlen (enc_log (a_log x)).
Proof.
  unfold repairWrites. rewrite (space_perm _ _ (reverse_Permutation _)). apply space_visible.
Qed.

(** The keys of a replica are good. *)
Lemma rp_good k v : (k, v) ∈ repairWrites x → good_key k.
Proof using Hx.
  rewrite rp_perm, elem_of_map_to_list, (wo_map _ (rp_written _ _ _ _ Hx)). intros Hin.
  destruct (replay_split _ _ _ Hin) as (l1 & l2 & El & _). pose proof (rp_keys _ _ _ _ Hx) as Hk.
  rewrite El in Hk. by apply Forall_app in Hk as [_ [? _]%Forall_cons].
Qed.

(** Sending a replica its own pairs changes nothing. *)
Lemma rp_self g : nodeSets (repairWrites x) (As, g) = (As, g).
Proof using Hx.
  destruct (write_only_wf x (rp_written _ _ _ _ Hx)) as [Hw Hf].
  destruct (sets_absorb (repairWrites x) x) as [rs E]; [intros k v; by apply own_writes_absorbed|].
  rewrite (nodeSets_chunk _ As g i x x rs); [|apply Hx|rewrite (rp_number _ _ _ _ Hx); apply rp_sent_placed|done].
  by rewrite list_insert_id by apply Hx.
Qed.
End replica.

Lemma sets_keys (P : list byte → Prop) ws : ∀ a a' rs,
  Forall (λ r, P (r_key r)) (a_log a) → (∀ k v, (k, v) ∈ ws → P k) →
  spec_exec a (sets ws) = Ret (a', rs) → Forall (λ r, P (r_key r)) (a_log a').
Proof.
  induction ws as [|[k v] ws IH]; intros a a' rs Ha Hws E; [by injection E as <- <-|].
  cbn [sets map spec_exec spec_step fst snd] in E. fold (sets ws) in E. cbn [mbind outcome_bind fst snd] in E.
  destruct (spec_exec (spec_Set a k v).1 (sets ws)) as [[a2 rs2]| |] eqn:E2; try done. injection E as <- <-.
  eapply IH; [|intros k' v' Hin; apply (Hws k' v'); by right|exact E2].
  assert (P k) as Hk by (apply (Hws k v); by left).
  unfold spec_Set, spec_write. repeat case_match; cbn [fst a_log]; try done;
    apply Forall_app; split; try done; by repeat constructor.
Qed.

(** A replica that receives the pairs of another one, in any order. *)
Lemma replica_absorbs n i As Bs x y g ws :
  replica n i As x → replica n i Bs y → ws ≡ₚ repairWrites x →
  zlen (enc_log (a_log y)) + space ws < a_size y →
  ∃ y', nodeSets ws (Bs, g) = (<[i := Some y']> Bs, g) ∧
    replica n i (<[i := Some y']> Bs) y' ∧ a_map y' = lwws (a_map y) ws ∧ a_size y' = a_size y ∧
    zlen (enc_log (a_log y')) ≤ zlen (enc_log (a_log y)) + space ws.
Proof.
  intros Hx Hy Hws Hroom. pose proof (rp_stamped _ _ _ _ Hx) as Hst.
  pose proof (rp_sent_placed _ _ _ _ Hx) as Hpl. pose proof (rp_good _ _ _ _ Hx) as Hgood.
  unfold stamped, placed in Hst, Hpl. rewrite <- Hws in Hst, Hpl. setoid_rewrite <- Hws in Hgood.
  destruct (spec_sets_lwws ws y) as (y' & E & Hm & _ & Hsz); [done|lia|].
  exists y'. split_and!.
  - eapply nodeSets_chunk; [apply Hy| |exact E]. by rewrite (rp_number _ _ _ _ Hy).
  - split.
    + apply list_lookup_insert_eq. eapply lookup_lt_Some, Hy.
    + unfold zlen. rewrite length_insert. apply Hy.
    + eapply write_only_sets; [apply Hy|exact E].
    + eapply sets_keys; [apply Hy|exact Hgood|exact E].
    + apply Forall_forall. intros [k v] Hin%elem_of_map_to_list. rewrite Hm in Hin.
      apply lwws_from in Hin as [Hin|Hin].
      * pose proof (rp_placed _ _ _ _ Hy) as Hp. unfold placed in Hp. rewrite Forall_forall in Hp.
        apply (Hp (k, v)). by apply elem_of_map_to_list.
      * rewrite Forall_forall in Hpl. by apply (Hpl (k, v)).
  - done.
  - done.
  - exact (sets_length _ _ _ _ E).
Qed.

Lemma replica_merge n i As Bs x y g ws :
  replica n i As x → replica n i Bs y → ws ≡ₚ repairWrites x →
  zlen (enc_log (a_log y)) + zlen (enc_log (a_log x)) < a_size y →
  ∃ y', nodeSets ws (Bs, g) = (<[i := Some y']> Bs, g) ∧
    replica n i (<[i := Some y']> Bs) y' ∧ a_map y' = lwws (a_map y) ws ∧
    zlen (enc_log (a_log y')) ≤ zlen (enc_log (a_log y)) + zlen (enc_log (a_log x)).
Proof.
  intros Hx Hy Hws Hroom. pose proof (rp_space x) as Hsp. rewrite <- (space_perm _ _ Hws) in Hsp.
  destruct (replica_absorbs n i As Bs x y g ws Hx Hy Hws ltac:(lia)) as (y' & E & Hy' & Hm & _ & Hl).
  exists y'. split_and!; [done..|lia].
Qed.

(** The value of a key of the chunk. *)
Lemma replica_value n i As x g k :
  replica n i As x → chunkIndex n k = i → nodeValue k (As, g) = a_map x !! k.
Proof.
  intros Hx Hk. unfold nodeValue, spec_get. cbn. rewrite (rp_number _ _ _ _ Hx), Hk, (rp_chunk _ _ _ _ Hx). done.
Qed.

(** The value kept from the pairs of both is the newest. *)
Lemma merged_newest S k a b As Bs hA hB x y n i :
  S !! a = Some (As, hA) → S !! b = Some (Bs, hB) → replica n i As x → replica n i Bs y →
  chunkIndex n k = i →
  newest S k (λ c, c = a ∨ c = b) (lwws ∅ (repairWrites y ++ repairWrites x) !! k).
Proof.
  intros HSa HSb Hx Hy Hk.
  assert (∀ v, (k, v) ∈ repairWrites y ++ repairWrites x ↔
               valueAt S k a = Some v ∨ valueAt S k b = Some v) as Hin.
  { intros v. unfold valueAt. rewrite HSa, HSb. cbn.
    rewrite (replica_value n i As x hA k Hx Hk), (replica_value n i Bs y hB k Hy Hk).
    rewrite elem_of_app, (rp_perm _ _ _ _ Hx), (rp_perm _ _ _ _ Hy), !elem_of_map_to_list. tauto. }
  pose proof (lwws_latest (repairWrites y ++ repairWrites x) k) as Hl.
  destruct (lwws ∅ _ !! k) as [v|]; cbn in *.
  - destruct Hl as [Hv Hmax]. split; [apply Hin in Hv as [Hv|Hv]; eauto|].
    intros c v' [->| ->] Hv'; apply Hmax, Hin; [by left|by right].
  - intros c [->| ->]; [destruct (valueAt S k a) as [v|] eqn:E|destruct (valueAt S k b) as [v|] eqn:E];
      try done; destruct (Hl v); apply Hin; first [by left | by right].
Qed.

(** Repair makes two replicas of a chunk converge: when the holders of a
    chunk disagree, and each in turn sends its pairs to both, they end with the
    same value for every key, the newest of the two.  The chunks have been
    written to only, two values of a key at one instant are the same, and there
    is room for the pairs of both. *)
Theorem repair_converges `{KVNet W} gA gB (eA : env W) S n cid a b As Bs hA hB x y cA :
  let i := Z.to_nat cid in
  cenv gA eA S → numChunks (e_sg eA) = n → 0 ≤ cid < n → a ≠ b →
  holdersOf gA cid = {[a; b]} → holdersOf gB cid = {[a; b]} → ¬ synched gA cid → ¬ synched gB cid →
  S !! a = Some (As, hA) → S !! b = Some (Bs, hB) →
  replica n i As x → replica n i Bs y → consistent (map_to_list (a_map y) ++ map_to_list (a_map x)) →
  2 * (zlen (enc_log (a_log x)) + zlen (enc_log (a_log y))) < Z.min (a_size x) (a_size y) →
  core_rep cA As →
  ∃ eA' Bs', repair cA cid eA = Ret (tt, eA') ∧
    ∀ sgB cB, sg_rep sgB gB → numChunks sgB = n → core_rep cB Bs' →
    ∃ eB' S', repair cB cid (Env sgB (e_net eA')) = Ret (tt, eB') ∧ kv_rep (e_net eB') S' ∧
      ∀ k, chunkIndex n k = i →
        valueAt S' k a = valueAt S' k b ∧ newest S k (λ c, c = a ∨ c = b) (valueAt S' k a).
Proof.
  intros i He Hn Hcid Hab HgA HgB HsA HsB HSa HSb Hx Hy Hcons Hroom HcA.
  pose proof (zlen_nonneg (enc_log (a_log x))). pose proof (zlen_nonneg (enc_log (a_log y))).
  assert (size ({[a; b]} : gset addr_t) ≤ 8)%nat as Hsz.
  { rewrite size_union, !size_singleton by set_solver. lia. }
  destruct (replica_merge n i As Bs x y hB (repairWrites x) Hx Hy) as (y' & Ey & Hy' & Hmy & Hly); [done|lia|].
  destruct (repair_sim gA cid eA S n cA As x) as (eA' & E1 & He1 & _);
    [done|done|done|by rewrite HgA|done|done|apply Hx|apply Hx|].
  exists eA', (<[i := Some y']> Bs). split; [done|]. intros sgB cB HrB HnB HcB.
  set (S1 := holdersSets S (holdersOf gA cid) (repairWrites x)) in *.
  assert (S1 !! a = Some (As, hA)) as HS1a.
  { unfold S1. rewrite holdersSets_lookup, HgA, HSa, decide_True by set_solver. cbn. by rewrite (rp_self n i As x Hx). }
  assert (S1 !! b = Some (<[i := Some y']> Bs, hB)) as HS1b.
  { unfold S1. rewrite holdersSets_lookup, HgA, HSb, decide_True by set_solver. cbn. by rewrite Ey. }
  assert (cenv gB (Env sgB (e_net eA')) S1) as HeB by (split; [done|apply He1]).
  destruct (repair_sim gB cid (Env sgB (e_net eA')) S1 n cB (<[i := Some y']> Bs) y') as (eB' & E2 & He2 & _);
    [done|done|done|by rewrite HgB|done|done|apply Hy'|apply Hy'|].
  destruct (replica_merge n i _ As y' x hA (repairWrites y') Hy' Hx) as (x' & Ex & Hx' & Hmx & _); [done|lia|].
  eexists eB', _. split_and!; [done|apply He2|]. intros k Hk. unfold valueAt.
  rewrite !holdersSets_lookup, HgB, !decide_True by set_solver. rewrite HS1a, HS1b.
  cbn [mbind option_bind fmap option_fmap option_map]. rewrite Ex, (rp_self n i _ y' Hy').
  rewrite (replica_value n i _ x' hA k Hx' Hk), (replica_value n i _ y' hB k Hy' Hk), Hmx.
  destruct (merge_both (a_map x) (a_map y) (repairWrites x) (repairWrites y) (repairWrites y')) as [Em Em'].
  { by eapply rp_perm. } { by eapply rp_perm. }
  { eapply consistent_sub; [|exact Hcons]. intros w. rewrite !elem_of_app.
    rewrite (rp_perm _ _ _ _ Hx), (rp_perm _ _ _ _ Hy). done. }
  { rewrite <- Hmy. by eapply rp_perm. }
  rewrite Em, <- Hmy. split; [done|]. rewrite Hmy, Em'.
  apply (merged_newest S k a b As Bs hA hB x y n i); done.
Qed.

(** ** Two servers with a pair each *)

#[local] Existing Instance noJson.

Definition pair_abs (k v : list byte) : abs := (spec_Set (new_abs 300) k v).1.

Lemma pair_core `{GommapLaws} k v :
  zlen k + zlen v < 100 → ∃ c, core_rep c [Some (pair_abs k v)].
Proof.
  intros Hlen. destruct (core_new_rep "db" 300 1) as (c0 & Hnew & Hsz & Hc0); [by vm_compute..|].
  destruct (command_sim c0 _ (SetPresent 0) Hc0 I) as (c1 & _ & Hc1 & _).
  pose proof (core_sim c1 [Some (new_abs 300)] (OpSet k v)) as Hs.
  rewrite Hsz in Hc1. specialize (Hs Hc1 ltac:(cbn; lia)).
  rewrite spec_core_set in Hs. destruct Hs as (c2 & _ & Hc2). exists c2.
  unfold spec_set, spec_core in Hc2. cbn [op_key spec_step] in Hc2.
  pose proof (chunkIndex_lt [Some (new_abs 300)] k ltac:(by vm_compute)) as Hi. revert Hi Hc2.
  generalize (chunkIndex (zlen [Some (new_abs 300)]) k). intros [|j] Hi Hc2; [exact Hc2|cbn in Hi; lia].
Qed.

Lemma pair_replica k v :
  zlen k + zlen v < 100 → 8 ≤ zlen v → good_key k →
  replica 1 0 [Some (pair_abs k v)] (pair_abs k v) ∧ a_log (pair_abs k v) = [Rec k v] ∧
  a_map (pair_abs k v) = {[k := v]}.
Proof.
  intros Hlen H8 Hk. assert (pair_abs k v = Abs {[k := v]} [Rec k v] 300 0) as E.
  { unfold pair_abs, spec_Set, spec_write, new_abs, room. cbn [a_map a_log a_size a_drift].
    destruct (Z.ltb_spec (zlen v) 8); [lia|]. rewrite lookup_empty. cbn [a_map].
    destruct (Z.ltb_spec (zlen (enc_log []) + 12 + zlen k + zlen v) 300); [done|].
    change (zlen (enc_log [])) with 0 in *. lia. }
  rewrite E. split_and!; [|done|done]. split; cbn [a_log a_map].
  - done.
  - done.
  - rewrite <- E. apply write_only_Set, write_only_new.
  - by repeat constructor.
  - apply Forall_forall. intros [k' v'] _. cbn.
    pose proof (chunkIndex_lt [Some (new_abs 300)] k' ltac:(by vm_compute)) as Hi.
    change (zlen [Some (new_abs 300)]) with 1 in Hi. cbn in Hi. lia.
Qed.

Definition addr_a : addr_t := str "a:1".
Definition addr_b : addr_t := str "b:1".
(** Two holders that announced different checksums. *)
Definition feud_group : group :=
  <[addr_a := VInfo [AAChunk 0 1] false 0]> {[addr_b := VInfo [AAChunk 0 2] false 0]}.

Lemma feud_holders : holdersOf feud_group 0 = {[addr_a; addr_b]}.
Proof.
  apply leibniz_equiv. intros c. rewrite elem_of_holdersOf, elem_of_union, !elem_of_singleton.
  unfold feud_group. split.
  - intros (v & Hv & _). apply lookup_insert_Some in Hv as [[<- _]|[_ Hv]]; [by left|].
    apply lookup_singleton_Some in Hv as [<- _]. by right.
  - intros [->| ->]; [exists (VInfo [AAChunk 0 1] false 0)|exists (VInfo [AAChunk 0 2] false 0)].
    + rewrite lookup_insert_eq. split; [done|by left].
    + rewrite lookup_insert_ne, lookup_singleton_eq by done. split; [done|by left].
Qed.

Lemma feud_unsynched : ¬ synched feud_group 0.
Proof.
  intros Hs. unfold synched in Hs. rewrite feud_holders in Hs.
  assert (sumOf feud_group 0 addr_a = sumOf feud_group 0 addr_b) as E.
  { apply (Hs addr_a); set_solver. }
  unfold sumOf, feud_group in E. rewrite lookup_insert_eq, lookup_insert_ne, lookup_singleton_eq in E by done.
  done.
Qed.

Lemma feud_sg : ∃ sg, sg_rep sg feud_group ∧ numChunks sg = 1.
Proof.
  destruct (Create_rep 1 2 []) as (sg0 & _ & Hr & Hn & _); [lia|].
  pose proof (gops_sim [GAdd addr_b; GSet addr_b [AAChunk 0 2] 0] sg0 ∅ Hr) as H1.
  rewrite Hn, spec_one in H1 by (repeat constructor; unfold in_range; cbn; lia).
  destruct H1 as (sg1 & _ & Hr1 & Hn1 & _).
  pose proof (gop_sim sg1 _ (GAdd addr_a) Hr1) as H2. cbn [spec_gop] in H2.
  destruct H2 as (sg2 & _ & Hr2 & Hn2 & _). unfold spec_AddServer in Hr2.
  rewrite lookup_singleton_ne in Hr2 by done.
  pose proof (gop_sim sg2 _ (GSet addr_a [AAChunk 0 1] 0) Hr2) as H3. cbn [spec_gop] in H3.
  unfold spec_SetServerChunks in H3. rewrite lookup_insert_eq in H3.
  rewrite Hn2, Hn1, decide_True in H3 by (repeat constructor; unfold in_range; cbn; lia).
  bsimpl. destruct H3 as (sg3 & _ & Hr3 & Hn3 & _). rewrite insert_insert_eq in Hr3.
  exists sg3. split; [exact Hr3|congruence].
Qed.

Lemma repair_converges_witness :
  let _ := plainGommap in
  ∃ (cA : Core) (eA eA' : env cluster), repair cA 0 eA = Ret (tt, eA').
Proof.
  intros G. set (va := sample_value 5 "x"). set (vb := sample_value 6 "y").
  destruct (@pair_core G plainGommap_laws (str "k") va ltac:(by vm_compute)) as (cA & HcA).
  destruct (@pair_core G plainGommap_laws (str "l") vb ltac:(by vm_compute)) as (cB & HcB).
  destruct (pair_replica (str "k") va) as (Ha & Hla & Hma); [by vm_compute..|].
  destruct (pair_replica (str "l") vb) as (Hb & Hlb & Hmb); [by vm_compute..|].
  destruct feud_sg as (sg & Hsg & Hn).
  destruct (Create_rep 1 1 []) as (sg0 & _ & Hr0 & Hn0 & _); [lia|].
  assert (∀ c x, core_rep c [Some x] → server_rep (mkDB c sg0 newHeartbeater false) [Some x] ∅) as Hsv.
  { intros c x Hc. split; [done|done|exact Hn0|done]. }
  set (w := Cluster (<[addr_a := mkDB cA sg0 newHeartbeater false]> {[addr_b := mkDB cB sg0 newHeartbeater false]}) [] 0).
  set (S := <[addr_a := ([Some (pair_abs (str "k") va)], ∅ : group)]> {[addr_b := ([Some (pair_abs (str "l") vb)], ∅ : group)]} : netmap).
  assert (cluster_rep w S) as Hw.
  { exact (cluster_rep_update (Cluster {[addr_b := mkDB cB sg0 newHeartbeater false]} [] 0)
      {[addr_b := ([Some (pair_abs (str "l") vb)], ∅ : group)]} addr_a _
      ([Some (pair_abs (str "k") va)], ∅ : group) [] 0
      (cluster_rep_update (Cluster ∅ [] 0) ∅ addr_b _ ([Some (pair_abs (str "l") vb)], ∅ : group) [] 0
         (λ c, eq_refl) (Hsv _ _ HcB)) (Hsv _ _ HcA)). }
  destruct (repair_converges feud_group feud_group (Env sg w) S 1 0 addr_a addr_b
    [Some (pair_abs (str "k") va)] [Some (pair_abs (str "l") vb)] ∅ ∅
    (pair_abs (str "k") va) (pair_abs (str "l") vb) cA) as (eA' & Bs' & E & _).
  - split; [exact Hsg|exact Hw].
  - exact Hn.
  - lia.
  - by vm_compute.
  - exact feud_holders.
  - exact feud_holders.
  - exact feud_unsynched.
  - exact feud_unsynched.
  - apply lookup_insert_eq.
  - unfold S. rewrite lookup_insert_ne by done. apply lookup_singleton_eq.
  - exact Ha.
  - exact Hb.
  - rewrite Hma, Hmb, !map_to_list_singleton. intros k v v'. rewrite !elem_of_app, !list_elem_of_singleton.
    intros [[= -> ->]|[= -> ->]] [[= ->]|[= ->]] _; done.
  - rewrite Hla, Hlb. by vm_compute.
  - exact HcA.
  - by exists cA, (Env sg w), eA'.
Defined.
