(* ===== verification/RepairAll.v ===== *)
(** * Repair of a chunk with any number of holders

    Every holder of a chunk that disagrees with the others runs the repair of
    [src/dist/repair/repair.go] in turn.  Whatever the order, they end with the
    same pairs, the newest of each key; and the loop of [StartRepairSystem]
    waits for eight checks in a row before it repairs. *)
From S2P Require Import Prelude.
From S2P Require Import Hashing.
From S2P Require Import Store.
From S2P Require Import PMap.
From S2P Require Import PMapSpec.
From S2P Require Import Chunk.
From S2P Require Import Replicas.
From S2P Require Import PMapProps.
From S2P Require Import PMapIter.
From S2P Require Import TcpMessage.
From S2P Require Import UdpHeartbeat.
From S2P Require Import Broker.
From S2P Require Import Core.
From S2P Require Import CoreProps.
From S2P Require Import CoreFiles.
From S2P Require Import Defrag.
From S2P Require Import ServerGroup.
From S2P Require Import ServerGroupSpec.
From S2P Require Import Remote.
From S2P Require Import Heartbeat.
From S2P Require Import Server.
From S2P Require Import ServerProps.
From S2P Require Import Client.
From S2P Require Import KVNet.
From S2P Require Import ClientProps.
From S2P Require Import Cluster.
From S2P Require Import Repair.

#[local] Opaque chunkIndex.

(** ** Space *)

Lemma space_submseteq (l k : list write) : l ⊆+ k → space l ≤ space k.
Proof.
  induction 1 as [|w l k _ IH|w1 w2 l|w l k _ IH|l1 l2 l3 _ IH1 _ IH2]; rewrite ?space_cons; try lia.
  pose proof (zlen_nonneg w.1). pose proof (zlen_nonneg w.2). lia.
Qed.

Lemma space_subset (l k : list write) : NoDup l → l ⊆ k → space l ≤ space k.
Proof. intros Hnd Hs. by apply space_submseteq, NoDup_submseteq. Qed.

(** The best of a collection of pairs is unique. *)
Lemma latest_unique (m : kvmap) ws :
  consistent ws → (∀ k v, m !! k = Some v → (k, v) ∈ ws) → (∀ k v, (k, v) ∈ ws → newer m k (ts v)) → m = lwws ∅ ws.
Proof.
  intros Hc Hfrom Hnew. apply map_eq. intros k. pose proof (lwws_latest ws k) as Hl.
  destruct (lwws ∅ ws !! k) as [v|]; cbn in Hl.
  - destruct Hl as [Hin Hmax]. destruct (Hnew k v Hin) as (v' & Hv' & Hts). rewrite Hv'. f_equal.
    apply (Hc k); [by apply Hfrom|done|]. specialize (Hmax v' (Hfrom k v' Hv')). lia.
  - destruct (m !! k) as [v|] eqn:E; [|done]. destruct (Hl v). by apply Hfrom.
Qed.

(** ** A round of repairs *)

Section round.
Context `{Json} (n cid : Z).
Abbreviation i := (Z.to_nat cid).

(** The repair that runs on the server at [a], with its core and its group. *)
Definition repairAt (w : cluster) (a : addr_t) : outcome cluster :=
  match nodes w !! a with
  | None => Panic
  | Some s =>
      r ← repair (s_core s) cid (Env (s_sg s) w);
      let w' := e_net r.2 in
      Ret (Cluster (alter (λ s, mkDB (s_core s) (e_sg r.2) (s_hb s) (s_stopped s)) a (nodes w')) (jobs w') (w_clock w'))
  end.

Fixpoint repairsAt (w : cluster) (l : list addr_t) : outcome cluster :=
  match l with
  | [] => Ret w
  | a :: l => w ← repairAt w a; repairsAt w l
  end.

(** The pairs of the chunk at [a]. *)
Definition mapAt (S : netmap) (a : addr_t) : kvmap :=
  match S !! a with
  | Some x => match x.1 !! i with Some (Some y) => a_map y | _ => ∅ end
  | None => ∅
  end.

Context (l : list addr_t) (ws : list write) (g : addr_t → group).
Context (Hcid : 0 ≤ cid < n) (Hlen : (length l ≤ 8)%nat) (Hnd : NoDup l).
Context (Hholders : ∀ a, a ∈ l → holdersOf (g a) cid = list_to_set l ∧ ¬ synched (g a) cid).

(** Every holder has a replica with pairs of [ws], and room for [budget] bytes. *)
Definition party (S : netmap) (budget : Z) : Prop := ∀ a, a ∈ l →
  ∃ As y, S !! a = Some (As, g a) ∧ replica n i As y ∧ map_to_list (a_map y) ⊆ ws ∧
    zlen (enc_log (a_log y)) + budget < a_size y.

Lemma party_map S b a As y : party S b → a ∈ l → S !! a = Some (As, g a) → replica n i As y → mapAt S a = a_map y.
Proof. intros _ _ HS Hy. unfold mapAt. rewrite HS. cbn. by rewrite (rp_chunk _ _ _ _ Hy). Qed.

Lemma repairAt_sim w S p b :
  cluster_rep w S → p ∈ l → 0 ≤ b → party S (space ws + b) →
  ∃ w' S', repairAt w p = Ret w' ∧ cluster_rep w' S' ∧ party S' b ∧
    ∀ a, a ∈ l → ∃ sent, sent ≡ₚ map_to_list (mapAt S p) ∧ mapAt S' a = lwws (mapAt S a) sent.
Proof using All.
  intros Hw Hp Hb Hparty. destruct (Hparty p Hp) as (As & x & HSp & Hx & Hsub & Hroom).
  destruct (Hholders p Hp) as [Hh Hns]. destruct (cluster_rep_at _ _ _ _ Hw HSp) as (s & Hs & Hr). cbn in Hr.
  assert (size (holdersOf (g p) cid) ≤ 8)%nat as Hsz by (rewrite Hh, size_list_to_set by done; done).
  destruct (repair_sim (g p) cid (Env (s_sg s) w) S n (s_core s) As x) as (e' & E & He' & Hn');
    [split; [apply Hr|exact Hw]|cbn; rewrite (sv_chunks _ _ _ Hr); apply Hx|done|done|done|apply Hr|apply Hx|apply Hx|].
  set (S' := holdersSets S (holdersOf (g p) cid) (repairWrites x)) in *.
  pose proof (rp_perm _ _ _ _ Hx) as Hperm.
  assert (space (repairWrites x) ≤ space ws) as Hspace.
  { apply space_subset; [rewrite Hperm; apply NoDup_map_to_list|]. intros w1 Hw1. apply Hsub. by rewrite <- Hperm. }
  assert (∀ a, a ∈ l → ∃ Bs y, S' !! a = Some (Bs, g a) ∧ replica n i Bs y ∧
    map_to_list (a_map y) ⊆ ws ∧ zlen (enc_log (a_log y)) + b < a_size y ∧
    a_map y = lwws (mapAt S a) (repairWrites x)) as Hafter.
  { intros a Ha. destruct (Hparty a Ha) as (Bs & y & HSa & Hy & Hsuby & Hroomy).
    destruct (replica_absorbs n i As Bs x y (g a) (repairWrites x) Hx Hy) as (y' & Ey & Hy' & Hm & Hsize & Hlog);
      [done|lia|].
    rewrite (party_map S _ a Bs y Hparty Ha HSa Hy). exists (<[i := Some y']> Bs), y'. split_and!; [|done| |lia|done].
    - unfold S'. rewrite holdersSets_lookup, HSa, Hh, decide_True by (by apply elem_of_list_to_set). cbn. by rewrite Ey.
    - intros [k v] Hin%elem_of_map_to_list. rewrite Hm in Hin. apply lwws_from in Hin as [Hin|Hin].
      + apply Hsuby. by apply elem_of_map_to_list.
      + apply Hsub. by rewrite <- Hperm. }
  unfold repairAt. rewrite Hs, E. bsimpl. eexists _, S'. split_and!; [reflexivity| | |].
  - destruct (Hafter p Hp) as (Bs & y & HS'p & _). destruct (cluster_rep_at _ _ _ _ (ce_net _ _ _ He') HS'p) as (s' & Hs' & Hr').
    cbn [fst snd] in Hr'. cbn [snd]. rewrite (alter_at _ _ _ s' Hs').
    rewrite <- (insert_id S' p _ HS'p). apply cluster_rep_update; [apply He'|]. cbn [fst snd].
    split; cbn; [apply Hr'|apply He'| |apply Hr']. rewrite Hn'. rewrite <- (rp_number _ _ _ _ Hx).
    pose proof (rp_number _ _ _ _ Hx). pose proof (sv_chunks _ _ _ Hr'). destruct (Hafter p Hp) as (Bs' & y' & HS'' & Hy' & _).
    assert (Bs' = Bs) as -> by congruence. by rewrite (rp_number _ _ _ _ Hy').
  - intros a Ha. destruct (Hafter a Ha) as (Bs & y & H1 & H2 & H3 & H4 & _). by exists Bs, y.
  - intros a Ha. destruct (Hafter a Ha) as (Bs & y & H1 & H2 & _ & _ & Hm). exists (repairWrites x).
    rewrite (party_map S _ p As x Hparty Hp HSp Hx). split; [done|]. unfold mapAt at 1. rewrite H1. cbn.
    by rewrite (rp_chunk _ _ _ _ H2).
Qed.
(** After the repairs of [ps] every holder has something at least as new as each
    pair that one of [ps] had. *)
Lemma repairsAt_sim ps : ∀ w S,
  cluster_rep w S → (∀ p, p ∈ ps → p ∈ l) → party S (Z.of_nat (length ps) * space ws) →
  ∃ w' S', repairsAt w ps = Ret w' ∧ cluster_rep w' S' ∧ party S' 0 ∧
    (∀ a k t, a ∈ l → newer (mapAt S a) k t → newer (mapAt S' a) k t) ∧
    ∀ p a k v, p ∈ ps → a ∈ l → mapAt S p !! k = Some v → newer (mapAt S' a) k (ts v).
Proof using All.
  induction ps as [|p ps IH]; intros w S Hw Hps Hparty.
  { exists w, S. split_and!; try done. by intros p a k v ?%not_elem_of_nil. }
  pose proof (space_nonneg ws) as Hsp.
  destruct (repairAt_sim w S p (Z.of_nat (length ps) * space ws) Hw) as (w1 & S1 & E1 & Hw1 & Hparty1 & Hmap).
  { apply Hps. by left. } { lia. }
  { replace (space ws + _) with (Z.of_nat (length (p :: ps)) * space ws) by (cbn [length]; lia). done. }
  destruct (IH w1 S1 Hw1) as (w' & S' & E & Hw' & Hparty' & Hmono & Hall); [intros q Hq; apply Hps; by right|done|].
  exists w', S'. cbn [repairsAt]. rewrite E1. bsimpl.
  assert (∀ a k t, a ∈ l → newer (mapAt S a) k t → newer (mapAt S1 a) k t) as Hmono1.
  { intros a k t Ha Hn. destruct (Hmap a Ha) as (sent & _ & ->). by apply lwws_newer. }
  split_and!; [done|done|done|by eauto|]. intros q a k v [->|Hq]%elem_of_cons Ha Hv.
  - apply Hmono; [done|]. destruct (Hmap a Ha) as (sent & Hsent & ->). apply lwws_adds.
    rewrite Hsent. by apply elem_of_map_to_list.
  - assert (newer (mapAt S1 q) k (ts v)) as (v' & Hv' & Hts).
    { apply Hmono1; [apply Hps; by right|]. exists v. split; [done|lia]. }
    destruct (Hall q a k v' Hq Ha Hv') as (v'' & Hv'' & Hts'). exists v''. split; [done|lia].
Qed.
End round.

(** The pairs that the servers of a list hold. *)
Definition pairsAt (cid : Z) (S : netmap) (l : list addr_t) : list write :=
  concat (map (λ a, map_to_list (mapAt cid S a)) l).

Lemma elem_of_pairsAt cid S (l : list addr_t) k v : (k, v) ∈ pairsAt cid S l ↔ ∃ a, a ∈ l ∧ mapAt cid S a !! k = Some v.
Proof.
  unfold pairsAt. rewrite list_elem_of_In, in_concat. split.
  - intros (x & Hx & Hin). apply in_map_iff in Hx as (a & <- & Ha). exists a. rewrite list_elem_of_In. split; [done|].
    apply elem_of_map_to_list. by apply list_elem_of_In.
  - intros (a & Ha & Hv). exists (map_to_list (mapAt cid S a)). split; [|by apply list_elem_of_In, elem_of_map_to_list].
    apply in_map_iff. exists a. by rewrite <- list_elem_of_In.
Qed.

(** C5. Repair makes all the replicas of a chunk converge: when its holders
    disagree and each of them, in any order, sends its pairs to all, they end with
    the same value for every key of the chunk, the newest that any of them had.
    There are at most eight holders; the chunks have been written to only; two
    values of a key at one instant are the same; and each has room for the pairs
    of all, once for each holder. *)
Theorem repairs_converge `{Json} (n cid : Z) (l : list addr_t) (g : addr_t → group) (w : cluster) (S : netmap) :
  let i := Z.to_nat cid in
  let ws := pairsAt cid S l in
  cluster_rep w S → 0 ≤ cid < n → (length l ≤ 8)%nat → NoDup l →
  (∀ a, a ∈ l → holdersOf (g a) cid = list_to_set l ∧ ¬ synched (g a) cid) →
  (∀ a, a ∈ l → ∃ As y, S !! a = Some (As, g a) ∧ replica n i As y ∧
     zlen (enc_log (a_log y)) + Z.of_nat (length l) * space ws < a_size y) →
  consistent ws →
  ∃ w' S', repairsAt cid w l = Ret w' ∧ cluster_rep w' S' ∧
    ∀ k a, chunkIndex n k = i → a ∈ l →
      newest S k (.∈ l) (valueAt S' k a) ∧ ∀ b, b ∈ l → valueAt S' k b = valueAt S' k a.
Proof.
  intros i ws Hw Hcid Hlen Hnd Hh Hrep Hc. subst i.
  assert (party n cid l ws g S (Z.of_nat (length l) * space ws)) as Hparty.
  { intros a Ha. destruct (Hrep a Ha) as (As & y & HS & Hy & Hroom). exists As, y. split_and!; [done|done| |done].
    intros [k v] Hin%elem_of_map_to_list. apply elem_of_pairsAt. exists a. split; [done|]. unfold mapAt. rewrite HS. cbn.
    by rewrite (rp_chunk _ _ _ _ Hy). }
  destruct (repairsAt_sim n cid l ws g Hcid Hlen Hnd Hh l w S Hw ltac:(done) Hparty) as (w' & S' & E & Hw' & Hparty' & _ & Hall).
  exists w', S'. split_and!; [done|done|]. intros k a Hk Ha.
  assert (∀ T b, party n cid l ws g T 0 → b ∈ l → valueAt T k b = mapAt cid T b !! k) as Hval.
  { intros T b HT Hb. destruct (HT b Hb) as (As & y & HS & Hy & _). unfold valueAt, mapAt. rewrite HS. cbn.
    rewrite (rp_chunk _ _ _ _ Hy). by apply (replica_value n (Z.to_nat cid)). }
  assert (∀ b, b ∈ l → mapAt cid S' b = lwws ∅ ws) as Hmap.
  { intros b Hb. apply latest_unique; [done| |].
    - intros k' v Hv. destruct (Hparty' b Hb) as (As & y & HS & Hy & Hsub & _). apply Hsub, elem_of_map_to_list.
      unfold mapAt in Hv. rewrite HS in Hv. cbn in Hv. by rewrite (rp_chunk _ _ _ _ Hy) in Hv.
    - intros k' v (p & Hp & Hv)%elem_of_pairsAt. by apply (Hall p b k' v). }
  split; [|intros b Hb; by rewrite !Hval, !Hmap by done].
  rewrite (Hval S' a Hparty' Ha), Hmap by done. pose proof (lwws_latest ws k) as Hl.
  assert (party n cid l ws g S 0) as Hparty0.
  { intros b Hb. destruct (Hparty b Hb) as (As & y & ? & ? & ? & Hroom). exists As, y. split_and!; try done.
    pose proof (space_nonneg ws). nia. }
  assert (∀ v, (k, v) ∈ ws ↔ ∃ b, b ∈ l ∧ valueAt S k b = Some v) as Hin.
  { intros v. unfold ws. rewrite elem_of_pairsAt. split; intros (b & Hb & Hv); exists b; by rewrite (Hval S b) in *. }
  destruct (lwws ∅ ws !! k) as [v|]; cbn in *.
  - destruct Hl as [Hv Hmax]. split; [by apply Hin|]. intros b v' Hb Hv'. apply Hmax, Hin. eauto.
  - intros b Hb. destruct (valueAt S k b) as [v|] eqn:Ev; [|done]. destruct (Hl v). apply Hin. eauto.
Qed.

(** ** The loop *)

Section loop.
Context `{KVNet W} (g : group) (n : Z) (c : Core) (As : list (option abs)).
Context (Hc : core_rep c As) (Hn : zlen As = n).
Context (Hsmall : ∀ cid, (size (holdersOf g cid) ≤ 8)%nat).
Context (Hgood : ∀ i x, As !! i = Some (Some x) → Forall (λ r, good_key (r_key r)) (a_log x)).

(** The checks in a row that found the chunk different, after one more. *)
Definition checked (m : gmap Z Z) (cid : Z) : option Z :=
  match As !! Z.to_nat cid with
  | Some (Some _) => if decide (synched g cid) then None else Some (default 0 (m !! cid) + 1)
  | _ => m !! cid
  end.

(** What a check sends: nothing, or the pairs of the chunk to its holders. *)
Definition mended (m : gmap Z Z) (S : netmap) (cid : Z) : netmap :=
  match As !! Z.to_nat cid with
  | Some (Some x) =>
      if decide (synched g cid) then S
      else if checksTillRepair <=? default 0 (m !! cid) + 1
      then holdersSets S (holdersOf g cid) (repairWrites x) else S
  | _ => S
  end.

Lemma present_cases cid : 0 ≤ cid < n → ∃ o, As !! Z.to_nat cid = Some o ∧ IsPresent c cid = Ret (bool_decide (is_Some o)).
Proof using Hc Hn.
  intros Hcid. destruct (lookup_lt_is_Some_2 As (Z.to_nat cid)) as [o Ho]; [unfold zlen in Hn; lia|].
  exists o. split; [done|]. apply (IsPresent_sim c As); [done|lia|done].
Qed.

Lemma repairChunks_sim k : ∀ cid m (e : env W) S,
  cenv g e S → numChunks (e_sg e) = n → 0 ≤ cid → cid + Z.of_nat k = n →
  ∃ m' e', repairChunks c m cid k e = Ret (m', e') ∧ numChunks (e_sg e') = n ∧
    cenv g e' (foldl (mended m) S (seqZ cid (Z.of_nat k))) ∧
    ∀ i, m' !! i = if decide (cid ≤ i < n) then checked m i else m !! i.
Proof using All.
  induction k as [|k IH]; intros cid m e S He He' Hpos Hk.
  { exists m, e. split_and!; [done|done|done|]. intros i. rewrite decide_False by lia. done. }
  rewrite seqZ_cons by lia. change (Z.succ cid) with (cid + 1). replace (Z.pred (Z.of_nat (Datatypes.S k))) with (Z.of_nat k) by lia.
  cbn [repairChunks foldl]. msimpl.
  destruct (present_cases cid ltac:(lia)) as (o & Ho & Ep). rewrite Ep. msimpl.
  assert (∀ m1 e1 S1, cenv g e1 S1 → numChunks (e_sg e1) = n → mended m S cid = S1 →
    (∀ i, i ≠ cid → m1 !! i = m !! i) → m1 !! cid = checked m cid →
    ∃ m' e', repairChunks c m1 (cid + 1) k e1 = Ret (m', e') ∧ numChunks (e_sg e') = n ∧
      cenv g e' (foldl (mended m) (mended m S cid) (seqZ (cid + 1) (Z.of_nat k))) ∧
      ∀ i, m' !! i = if decide (cid ≤ i < n) then checked m i else m !! i) as Hrest.
  { intros m1 e1 S1 He1 Hn1 <- Hm Hmc. destruct (IH (cid + 1) m1 e1 (mended m S cid)) as (m' & e' & E & Hn' & He2 & Hm'); [done|done|lia|lia|].
    exists m', e'. split_and!; [done|done| |].
    - replace (foldl (mended m) _ _) with (foldl (mended m1) (mended m S cid) (seqZ (cid + 1) (Z.of_nat k))); [done|].
      assert (∀ l T, Forall (λ i, cid < i) l → foldl (mended m1) T l = foldl (mended m) T l) as Hext.
      { induction l as [|i l IHl]; intros T HF; [done|]. apply Forall_cons in HF as [Hi HF]. cbn. rewrite IHl by done.
        f_equal. unfold mended. by rewrite Hm by lia. }
      apply Hext, Forall_forall. intros i Hi%elem_of_seqZ. lia.
    - intros i. rewrite Hm'. destruct (decide (i = cid)) as [->|Hne].
      + rewrite decide_False, decide_True by lia. done.
      + unfold checked. rewrite Hm by done. destruct (decide (cid + 1 ≤ i < n)), (decide (cid ≤ i < n)); try lia; done. }
  destruct o as [x|]; cycle 1.
  { rewrite bool_decide_false by (by intros [? [=]]). cbn [negb].
    apply (Hrest m e S); [done|done|unfold mended; by rewrite Ho|done|unfold checked; by rewrite Ho]. }
  rewrite bool_decide_true by (by eexists). cbn [negb]. msimpl.
  rewrite (IsSynched_sim _ _ (ce_group _ _ _ He)) by lia. msimpl. destruct (bool_decide_reflect (synched g cid)) as [Hs|Hs].
  - apply (Hrest (delete cid m) e S); [done|done|unfold mended; by rewrite Ho, decide_True| |].
    + intros i Hi. by rewrite lookup_delete_ne.
    + unfold checked. by rewrite Ho, decide_True, lookup_delete_eq.
  - set (due := checksTillRepair <=? default 0 (m !! cid) + 1).
    assert (∃ e1, (if due then repair c cid else mret ()) e = Ret (tt, e1) ∧
      cenv g e1 (if due then holdersSets S (holdersOf g cid) (repairWrites x) else S) ∧
      numChunks (e_sg e1) = n) as (e1 & E1 & He1 & Hn1).
    { destruct due; [|by exists e]. eapply repair_sim; try done; [lia|by eapply Hgood]. }
    rewrite run_bind, E1. msimpl. eapply Hrest; [exact He1|exact Hn1|unfold mended; by rewrite Ho, decide_False| |].
    + intros i Hi. by rewrite lookup_insert_ne.
    + unfold checked. by rewrite Ho, decide_False, lookup_insert_eq.
Qed.
End loop.

(** C24. A turn of the repair loop first puts the server's own chunks on its
    group. Then it leaves alone the chunks that are not here; forgets the count of
    those whose holders agree; counts one more check for the others; and sends the
    pairs of a chunk to its holders exactly when the holders have disagreed for at
    least eight checks in a row: at the eighth, and at every later one until they
    agree, since a repair does not reset the count. The server knows itself, no
    chunk has more than eight holders and the chunks have good keys. *)
Theorem repair_after_eight_checks `{KVNet W} g n c As m (e : env W) S :
  let lh := LocalhostIPPort (e_sg e) in
  cenv g e S → numChunks (e_sg e) = n → zlen As = n → core_rep c As → counted c As → is_Some (g !! lh) →
  (∀ cid, (size (holdersOf g cid ∪ {[lh]}) ≤ 8)%nat) →
  (∀ i x, As !! i = Some (Some x) → Forall (λ r, good_key (r_key r)) (a_log x)) →
  ∃ c' m' e' v,
    let g' := <[lh := v]> g in
    repairTurn c m e = Ret ((c', m'), e') ∧ core_rep c' As ∧ map aID (v_held v) = present_ids 0 As ∧
    cenv g' e' (foldl (mended g' As m) S (seqZ 0 n)) ∧
    ∀ i, m' !! i = if decide (0 ≤ i < n) then checked g' As m i else m !! i.
Proof.
  intros lh He Hn HAs Hc Hcnt Hlh Hsmall Hgood. pose proof (zlen_nonneg As) as Hpos. unfold repairTurn, getNow. msimpl.
  destruct (PresentChunksList_sim c As (net_now (e_net e)) Hc Hcnt) as (l & c' & -> & Hl & _ & Hc'). msimpl.
  set (v := VInfo l false (net_now (e_net e))).
  pose proof (SetServerChunks_sim (e_sg e) g lh l (net_now (e_net e)) (ce_group _ _ _ He)) as Hset.
  unfold spec_SetServerChunks in Hset. destruct Hlh as [v0 Hv0]. rewrite Hv0, Hn, decide_True in Hset; cycle 1.
  { apply Forall_forall. intros k Hk. assert (aID k ∈ present_ids 0 As) as Hp by (rewrite <- Hl; by apply list_elem_of_fmap_2).
    apply present_ids_spec in Hp as (Hp & x & Hx). apply lookup_lt_Some in Hx. unfold in_range, zlen in *. lia. }
  destruct Hset as (sg & Eset & Hr & Hn' & _). unfold lh in Eset. rewrite Eset. msimpl. fold v in Hr.
  destruct (repairChunks_sim (<[lh := v]> g) n c' As Hc' HAs) with
    (k := Z.to_nat n) (cid := 0) (m := m) (e := Env sg (e_net e)) (S := S) as (m' & e' & E & Hn2 & He' & Hm');
    [| |split; [exact Hr|apply He]|cbn; congruence|lia|lia|].
  { intros cid. etrans; [|apply (Hsmall cid)]. apply subseteq_size. intros a (y & Hy & Hh)%elem_of_holdersOf.
    apply lookup_insert_Some in Hy as [[<- _]|[_ Hy]]; [set_solver|]. apply elem_of_union_l, elem_of_holdersOf. eauto. }
  { done. }
  replace (numChunks sg) with n by congruence. rewrite E. msimpl. exists c', m', e', v. rewrite Z2Nat.id in He' by lia. split_and!; done.
Qed.
