(* ===== verification/Transfer.v ===== *)
(** * Copying a chunk to another server

    The goroutine that [OpTransfer] starts ([src/server/server.go]) sends the
    pairs of a chunk, oldest first, to the address of the request.  The proof is
    against the interface of the network. *)
From S2P Require Import Prelude.
From S2P Require Import Hashing.
From S2P Require Import Store.
From S2P Require Import PMap.
From S2P Require Import PMapSpec.
From S2P Require Import Chunk.
From S2P Require Import Replicas.
From S2P Require Import PMapProps.
From S2P Require Import PMapIter.
From S2P Require Import TcpMessage.
From S2P Require Import UdpHeartbeat.
From S2P Require Import Broker.
From S2P Require Import Core.
From S2P Require Import CoreProps.
From S2P Require Import CoreFiles.
From S2P Require Import ServerGroup.
From S2P Require Import ServerGroupSpec.
From S2P Require Import Remote.
From S2P Require Import Heartbeat.
From S2P Require Import Server.
From S2P Require Import ServerProps.
From S2P Require Import Client.
From S2P Require Import KVNet.
From S2P Require Import ClientProps.
From S2P Require Import Cluster.
From S2P Require Import Repair.

#[local] Opaque chunkIndex.

Lemma spec_iterate_sim {A B} (foreach : A → list byte → list byte → outcome (A * bool))
    (R : A → B → Prop) (f : B → write → B) (P : write → Prop) :
  (∀ acc b k v, R acc b → P (k, v) → ∃ acc', foreach acc k v = Ret (acc', true) ∧ R acc' (f b (k, v))) →
  ∀ a l acc b, R acc b → Forall P (visible a l []) →
  ∃ acc', spec_iterate foreach a l acc = Ret acc' ∧ R acc' (foldl f b (visible a l [])).
Proof.
  intros Hf a l. induction l as [|r l IH]; intros acc b HR HP; [by exists acc|].
  cbn [spec_iterate visible] in *. unfold spec_visit. rewrite app_nil_r in *.
  rewrite foldl_app. apply Forall_app in HP as [HPr HPl]. destruct (PMapIter.present a r l).
  - apply Forall_cons in HPr as [Hr _]. destruct (Hf acc b _ _ HR Hr) as (acc1 & -> & HR1). bsimpl. by apply IH.
  - bsimpl. by apply IH.
Qed.

(** Last write wins, one key at a time, when each key comes once. *)
Lemma lwws_lookup ws k : NoDup ws.*1 → ∀ m,
  lwws m ws !! k =
  match (list_to_map ws : kvmap) !! k with Some v => Some (best (m !! k) v) | None => m !! k end.
Proof.
  induction ws as [|[k' v] ws IH]; intros Hnd m; [done|].
  apply NoDup_cons in Hnd as [Hn Hnd]. rewrite lwws_cons, IH, lww_lookup by done. cbn [fst snd list_to_map foldr].
  destruct (decide (k' = k)) as [->|Hne].
  - rewrite lookup_insert_eq, not_elem_of_list_to_map_1 by done. done.
  - by rewrite lookup_insert_ne.
Qed.

Section transfer.
Context {W : Type} `{KVNet W}.

(** One pair, with or without a response. *)
Lemma transferPair_sim S b x i (w : W) k v :
  kv_rep w S → S !! b = Some x → msg_ok (Msg Operation.OpAsyncSet 0 k v) →
  ∃ w', transferPair b (i, w) k v = Ret ((i + 1, w'), true) ∧ kv_rep w' (<[b := nodeSet k v x]> S).
Proof.
  intros Hw Hb Hm. destruct x as [Bs g]. unfold transferPair. cbn [fst snd].
  destruct (i mod 100 =? 0); eexists; (split; [reflexivity|]).
  - destruct (kv_call w S b Bs g (OpSet k v) requestTimeout _ _ Hw Hb (msg_ok_sizes _ Hm) Hm
      eq_refl (spec_request_set g Bs k v)) as [_ Hw']. exact Hw'.
  - by apply kv_send.
Qed.

(** The whole chunk. *)
Lemma runTransfer_sim S b z (w : W) c As cid x :
  kv_rep w S → S !! b = Some z → core_rep c As → 0 ≤ cid → As !! Z.to_nat cid = Some (Some x) →
  Forall (λ r, good_key (r_key r)) (a_log x) →
  ∃ w', runTransfer c (Transfer cid b) w = Ret w' ∧
    kv_rep w' (<[b := nodeSets (visible x (a_log x) []) z]> S).
Proof.
  intros Hw Hb Hc Hpos Hx Hg. unfold runTransfer. cbn [j_addr j_chunk].
  destruct (kv_dial w S b Hw) as [Hw1 ->]; [|by eexists].
  destruct (chunk_at c As Hc _ _ Hx) as (k & _ & Hix & Hp & _ & Hwf & p & Hpm & Hrep).
  rewrite Z2Nat.id in Hix by lia. unfold CoreIterate. rewrite Hix. bsimpl. rewrite Hp. cbn [negb].
  unfold pmOf. rewrite Hpm. cbn [orPanic]. bsimpl. rewrite (Iterate_sim _ p x) by done.
  destruct (spec_iterate_sim (transferPair b) (λ (acc : Z * W) y, kv_rep acc.2 (<[b := y]> S))
    (λ y w, nodeSet w.1 w.2 y) (λ w, msg_ok (Msg Operation.OpAsyncSet 0 w.1 w.2)))
    with (a := x) (l := a_log x) (acc := (0, (net_dial w b).1)) (b := z) as (acc' & -> & Hacc).
  - intros [i w1] y k1 v1 Hy Hm. cbn [fst snd] in *.
    destruct (transferPair_sim (<[b := y]> S) b y i w1 k1 v1 Hy) as (w2 & E & Hw2);
      [apply lookup_insert_eq|done|]. rewrite insert_insert_eq in Hw2. by eexists.
  - cbn [snd]. by rewrite insert_id.
  - by eapply visible_msg_ok.
  - bsimpl. exists acc'.2. by split.
Qed.
End transfer.

(** The value that a copy ends with: its own one when that one is not older. *)
Definition merged (mine theirs : option (list byte)) : option (list byte) :=
  match theirs with Some v => Some (best mine v) | None => mine end.

Lemma transfer_sim `{KVNet W} (w : W) S n cid b c As Bs hB x y :
  let i := Z.to_nat cid in
  kv_rep w S → 0 ≤ cid → core_rep c As → replica n i As x →
  S !! b = Some (Bs, hB) → replica n i Bs y →
  zlen (enc_log (a_log y)) + zlen (enc_log (a_log x)) < a_size y →
  ∃ w' S', runTransfer c (Transfer cid b) w = Ret w' ∧ kv_rep w' S' ∧
    (∀ a, a ≠ b → S' !! a = S !! a) ∧
    ∀ k, chunkIndex n k = i → valueAt S' k b = merged (valueAt S k b) (a_map x !! k).
Proof.
  intros i Hw Hpos Hc Hx HSb Hy Hroom.
  destruct (write_only_wf x (rp_written _ _ _ _ Hx)) as [Hwf Hf].
  destruct (runTransfer_sim S b (Bs, hB) w c As cid x) as (w' & E & Hw'); [done|done|done|done|apply Hx..|].
  destruct (replica_merge n i As Bs x y hB (visible x (a_log x) []) Hx Hy) as (y' & Ey & Hy' & Hm & _); [|done|].
  { unfold repairWrites. by rewrite reverse_Permutation. }
  rewrite Ey in Hw'. exists w', (<[b := (<[i := Some y']> Bs, hB)]> S). split_and!; [done|done| |].
  { intros a Ha. by rewrite lookup_insert_ne. }
  intros k Hk. unfold valueAt. rewrite lookup_insert_eq, HSb. cbn [mbind option_bind].
  rewrite (replica_value n i _ y' hB k Hy' Hk), (replica_value n i _ y hB k Hy Hk), Hm.
  assert (visible x (a_log x) [] ≡ₚ map_to_list (a_map x)) as Hv.
  { rewrite <- (repairWrites_perm x Hwf Hf). unfold repairWrites. by rewrite reverse_Permutation. }
  assert (NoDup (visible x (a_log x) []).*1) as Hnd by (rewrite Hv; apply NoDup_fst_map_to_list).
  rewrite lwws_lookup by done. unfold merged.
  by rewrite (list_to_map_proper _ (map_to_list (a_map x))), list_to_map_to_list by done.
Qed.

(** A transfer brings a copy of a chunk up to date: for each key of the
    chunk the destination ends with the newer of the value it had and the value
    of the sender, and nothing else in the network changes.  So a copy that was
    empty becomes equal to the sender's.  The chunks have been written to only
    and the destination has room for the pairs of both. *)
Theorem transfer_copies `{KVNet W} (w : W) S n cid b c As Bs hB x y :
  let i := Z.to_nat cid in
  kv_rep w S → 0 ≤ cid → core_rep c As → replica n i As x →
  S !! b = Some (Bs, hB) → replica n i Bs y →
  zlen (enc_log (a_log y)) + zlen (enc_log (a_log x)) < a_size y →
  ∃ w' S', runTransfer c (Transfer cid b) w = Ret w' ∧ kv_rep w' S' ∧
    (∀ a, a ≠ b → S' !! a = S !! a) ∧
    ∀ k, chunkIndex n k = i → valueAt S' k b = merged (valueAt S k b) (a_map x !! k).
Proof. apply transfer_sim. Qed.
