(* ===== verification/Float64.v ===== *)
(** * Floating-point numbers of 64 bits

    The type [float64] of Go, with the operations that the load rebalancer uses
    ([src/dist/rebalance/rebalance.go]): the binary format with 53 bits of
    precision of the Standard Library's specification of IEEE 754, rounding to
    nearest, ties to even. *)
From Stdlib Require Import Floats.SpecFloat.
From S2P Require Import Prelude.

Abbreviation float64 := spec_float.
Abbreviation prec64 := 53.
Abbreviation emax64 := 1024.

Definition of_int (z : Z) : float64 := binary_normalize prec64 emax64 z 0 false.
Definition fadd : float64 → float64 → float64 := SFadd prec64 emax64.
Definition fsub : float64 → float64 → float64 := SFsub prec64 emax64.
Definition fmul : float64 → float64 → float64 := SFmul prec64 emax64.
Definition fdiv : float64 → float64 → float64 := SFdiv prec64 emax64.
Definition flt (x y : float64) : bool := SFltb x y.
Definition fle (x y : float64) : bool := SFleb x y.

(** The conversion to [int64] cuts the fraction off.  What it gives for a number
    that does not fit is left open by the language; here the amd64 processor's
    answer. *)
Definition to_int64 (x : float64) : Z :=
  match x with
  | S754_zero _ => 0
  | S754_finite s m e =>
      let z := if 0 <=? e then Zpos m * 2 ^ e else Zpos m / 2 ^ (- e) in
      let z := if s then - z else z in
      if (- 2 ^ 63 <=? z) && (z <? 2 ^ 63) then z else - 2 ^ 63
  | _ => - 2 ^ 63
  end.

Definition isNaN (x : float64) : bool := match x with S754_nan => true | _ => false end.

(** ** Comparison *)

Lemma compare_sym x y : SFcompare y x = CompOpp <$> SFcompare x y.
Proof.
  destruct x as [|s| |s m e], y as [|s'| |s' m' e']; try (by destruct s, s'); try (by destruct s); try (by destruct s');
    try done.
  cbn. f_equal. rewrite (Z.compare_antisym e e').
  assert (Pos.compare_cont Eq m' m = CompOpp (Pos.compare_cont Eq m m')) as E by (by rewrite Pos.compare_cont_antisym).
  destruct s, s', (e ?= e'); cbn; try done; by rewrite E.
Qed.

Lemma compare_total x y : isNaN x = false → isNaN y = false → is_Some (SFcompare x y).
Proof. destruct x, y; cbn; eauto; discriminate. Qed.

(** Of two numbers one is not smaller. *)
Lemma fle_or_lt x y : isNaN x = false → isNaN y = false → fle x y = negb (flt y x).
Proof.
  intros Hx Hy. unfold fle, flt, SFleb, SFltb. rewrite (compare_sym x y).
  destruct (compare_total x y Hx Hy) as [c ->]. by destruct c.
Qed.

(** ** Rounding *)

Lemma digits_bounds p : 2 ^ (Zpos (digits2_pos p) - 1) ≤ Zpos p < 2 ^ Zpos (digits2_pos p).
Proof.
  assert (∀ q, 2 ^ (Zpos (Pos.succ q) - 1) = 2 * 2 ^ (Zpos q - 1) ∧ 2 ^ Zpos (Pos.succ q) = 2 * 2 ^ Zpos q) as Hs.
  { intros q. rewrite Pos2Z.inj_succ, <- !Z.pow_succ_r by lia. split; f_equal; lia. }
  induction p as [p IH|p IH|]; cbn [digits2_pos]; [destruct (Hs (digits2_pos p)) as [-> ->]; lia..|done].
Qed.

Lemma shr_1_half r : 0 ≤ shr_m r → shr_m (shr_1 r) = shr_m r / 2.
Proof.
  destruct r as [[|[p|p|]|p] b c]; cbn; intros Hm; try lia; try done.
  - apply Z.div_unique with 1; lia.
  - apply Z.div_unique with 0; lia.
Qed.

Lemma shr_iter p : ∀ r, 0 ≤ shr_m r → shr_m (SpecFloat.iter_pos shr_1 p r) = shr_m r / 2 ^ Zpos p.
Proof.
  assert (∀ x k, 0 ≤ x → 0 ≤ x / 2 ^ k) as Hpos.
  { intros x k Hx. destruct (decide (0 ≤ k)); [apply Z.div_pos; lia|]. rewrite Z.pow_neg_r by lia. by rewrite Z.div_0_r. }
  induction p as [p IH|p IH|]; intros r Hr; cbn [SpecFloat.iter_pos]; [| |by rewrite shr_1_half].
  - assert (0 ≤ shr_m (shr_1 r)) as H1 by (rewrite shr_1_half by done; apply Z.div_pos; lia).
    rewrite IH by (rewrite IH by done; by apply Hpos). rewrite IH, shr_1_half by done.
    rewrite !Z.div_div by lia. f_equal. replace (Zpos p~1) with (1 + Zpos p + Zpos p) by lia.
    rewrite !Z.pow_add_r by lia. lia.
  - rewrite IH by (rewrite IH by done; by apply Hpos). rewrite IH by done.
    rewrite !Z.div_div by lia. f_equal. replace (Zpos p~0) with (Zpos p + Zpos p) by lia.
    by rewrite Z.pow_add_r by lia.
Qed.

(** The bits that the exponent of the result shifts out. *)
Definition shift (m e : Z) : Z := Z.max 0 (fexp prec64 emax64 (Zdigits2 m + e) - e).

Lemma shr_fexp_spec m e l : 0 ≤ m →
  shr_m (shr_fexp prec64 emax64 m e l).1 = m / 2 ^ shift m e ∧ (shr_fexp prec64 emax64 m e l).2 = e + shift m e.
Proof.
  intros Hm. unfold shr_fexp, shift. assert (shr_m (shr_record_of_loc m l) = m) as E by (by destruct l as [|[]]).
  destruct (fexp _ _ _ - e) as [|p|p]; cbn -[Z.pow]; rewrite ?shr_iter, E by (by rewrite E); split; try done;
    rewrite ?Z.pow_0_r, ?Z.div_1_r; lia.
Qed.

Lemma nearest_next m l : round_nearest_even m l = m ∨ round_nearest_even m l = m + 1.
Proof. destruct l as [|[]]; cbn; auto. destruct (Z.even m); auto. Qed.

(** Rounding gives a number. *)
Lemma round_number s m e l : 0 ≤ m → isNaN (binary_round_aux prec64 emax64 s m e l) = false.
Proof.
  intros Hm. unfold binary_round_aux. destruct (shr_fexp_spec m e l Hm) as [Hm1 _].
  destruct (shr_fexp _ _ m e l) as [r e1]. cbn [fst snd] in Hm1.
  set (m2 := round_nearest_even _ _).
  assert (0 ≤ m2) as Hm2.
  { assert (0 ≤ shr_m r) by (rewrite Hm1; apply Z.div_pos; [done|]; apply Z.pow_pos_nonneg; unfold shift; lia).
    unfold m2. destruct (nearest_next (shr_m r) (loc_of_shr_record r)); lia. }
  destruct (shr_fexp_spec m2 e1 loc_Exact Hm2) as [Hm3 _].
  destruct (shr_fexp _ _ m2 e1 loc_Exact) as [r2 e2]. cbn [fst snd] in Hm3.
  assert (0 ≤ shr_m r2) by (rewrite Hm3; apply Z.div_pos; [done|]; apply Z.pow_pos_nonneg; unfold shift; lia).
  destruct (shr_m r2); [done|by destruct (_ <=? _)|lia].
Qed.

(** ** Numbers below a power of two *)

Definition below (B : Z) (x : float64) : Prop :=
  match x with
  | S754_zero _ => True
  | S754_finite _ m e => Zpos m < 2 ^ (B - e)
  | _ => False
  end.

Lemma below_number B x : below B x → isNaN x = false.
Proof. by destruct x. Qed.

Lemma shift_below B m e : 1 ≤ m < 2 ^ (B - e) → 0 ≤ B →
  e + shift m e ≤ B ∧ m / 2 ^ shift m e < 2 ^ (B - (e + shift m e)).
Proof.
  intros Hm HB. destruct m as [|p|p]; [lia| |lia].
  assert (0 < B - e) as He.
  { destruct (Z.le_gt_cases (B - e) 0) as [Hle|]; [|done]. destruct (Z.eq_dec (B - e) 0) as [E|]; [rewrite E in Hm; cbn in Hm; lia|].
    rewrite Z.pow_neg_r in Hm by lia. lia. }
  assert (Zpos (digits2_pos p) + e ≤ B) as Hd.
  { destruct (digits_bounds p) as [Hlo _].
    assert (Zpos (digits2_pos p) - 1 < B - e); [|lia]. apply (Z.pow_lt_mono_r_iff 2); lia. }
  assert (e + shift (Zpos p) e ≤ B) as Hs.
  { unfold shift, fexp, emin. cbn [Zdigits2]. lia. }
  split; [done|]. assert (0 ≤ shift (Zpos p) e) by (unfold shift; lia).
  apply Z.div_lt_upper_bound; [apply Z.pow_pos_nonneg; lia|]. rewrite <- Z.pow_add_r by lia.
  replace (shift (Zpos p) e + (B - (e + shift (Zpos p) e))) with (B - e) by lia. lia.
Qed.

Lemma round_below B s m e l : 1 ≤ m < 2 ^ (B - e) → 0 ≤ B ≤ 900 → below (B + 1) (binary_round_aux prec64 emax64 s m e l).
Proof.
  intros Hm HB. unfold binary_round_aux. destruct (shr_fexp_spec m e l ltac:(lia)) as [Hm1 He1].
  destruct (shift_below B m e Hm ltac:(lia)) as [Hs1 Hlt1].
  destruct (shr_fexp _ _ m e l) as [r e1]. cbn [fst snd] in Hm1, He1. rewrite <- He1 in Hs1, Hlt1. rewrite <- Hm1 in Hlt1.
  assert (0 ≤ shr_m r) as Hr by (rewrite Hm1; apply Z.div_pos; [lia|]; apply Z.pow_pos_nonneg; unfold shift; lia).
  assert (2 ^ (B + 1 - e1) = 2 * 2 ^ (B - e1)) as Hdouble by (rewrite <- Z.pow_succ_r by lia; f_equal; lia).
  set (m2 := round_nearest_even _ _).
  assert (0 ≤ m2 ≤ shr_m r + 1) as Hm2.
  { unfold m2. destruct (nearest_next (shr_m r) (loc_of_shr_record r)); lia. }
  destruct (shr_fexp_spec m2 e1 loc_Exact ltac:(lia)) as [Hm3 He2].
  destruct (shr_fexp _ _ m2 e1 loc_Exact) as [r2 e2]. cbn [fst snd] in Hm3, He2.
  destruct (decide (m2 = 0)) as [E|Hne].
  { rewrite E, Z.div_0_l in Hm3 by (apply Z.pow_nonzero; unfold shift; lia). by rewrite Hm3. }
  destruct (shift_below (B + 1) m2 e1 ltac:(lia) ltac:(lia)) as [Hs2 Hlt2].
  rewrite <- He2 in Hs2, Hlt2. rewrite <- Hm3 in Hlt2.
  assert (0 ≤ shr_m r2) as Hr2 by (rewrite Hm3; apply Z.div_pos; [lia|]; apply Z.pow_pos_nonneg; unfold shift; lia).
  destruct (shr_m r2) as [|q|q]; [done| |lia]. destruct (Z.leb_spec e2 (1024 - 53)); [done|lia].
Qed.

Lemma shl_align_value m e e' :
  e' ≤ e → Zpos (shl_align m e e').1 = Zpos m * 2 ^ (e - e') ∧ (shl_align m e e').2 = e'.
Proof.
  intros He. unfold shl_align. destruct (e' - e) as [|p|p] eqn:E; [|lia|]; cbn [fst snd].
  - replace (e - e') with 0 by lia. lia.
  - replace (e - e') with (Zpos p) by lia. split; [|done].
    assert (∀ q, Zpos (Pos.iter xO m q) = Zpos m * 2 ^ Zpos q) as Hit; [|apply Hit].
    intros q. induction q as [|q IH] using Pos.peano_ind; [cbn; lia|].
    rewrite Pos.iter_succ, Pos2Z.inj_succ, Z.pow_succ_r by lia. lia.
Qed.

Lemma normalize_below B m e z : Z.abs m < 2 ^ (B - e) → 0 ≤ B ≤ 900 → below (B + 1) (binary_normalize prec64 emax64 m e z).
Proof.
  intros Hm HB.
  assert (∀ s p, Zpos p < 2 ^ (B - e) → below (B + 1) (binary_round prec64 emax64 s p e)) as Hround.
  { intros s p Hp. unfold binary_round. set (e' := fexp _ _ _).
    destruct (Z.le_gt_cases e' e) as [Hle|Hgt].
    - destruct (shl_align_value p e e' Hle) as [Hv He]. destruct (shl_align p e e') as [q e2]. cbn [fst snd] in *.
      subst e2. apply round_below; [|done]. rewrite Hv. split; [pose proof (Z.pow_pos_nonneg 2 (e - e')); lia|].
      assert (0 < B - e) as He.
      { destruct (Z.le_gt_cases (B - e) 0) as [Hle'|]; [|done].
        destruct (Z.eq_dec (B - e) 0) as [E|]; [rewrite E in Hp; cbn in Hp; lia|]. rewrite Z.pow_neg_r in Hp by lia. lia. }
      replace (B - e') with (B - e + (e - e')) by lia. rewrite Z.pow_add_r by lia.
      apply Z.mul_lt_mono_pos_r; [apply Z.pow_pos_nonneg; lia|done].
    - unfold shl_align. destruct (e' - e) as [|d|d] eqn:E; [lia| |lia]. apply round_below; [lia|done]. }
  destruct m as [|p|p]; cbn; [done|by apply Hround..].
Qed.

Lemma of_int_below z : Z.abs z < 2 ^ 63 → below 64 (of_int z).
Proof. intros Hz. apply (normalize_below 63); [by rewrite Z.sub_0_r|lia]. Qed.

(** An integer other than zero does not round to zero. *)
Lemma shift_positive m e : 1 ≤ m → -1074 ≤ e → 1 ≤ m / 2 ^ shift m e.
Proof.
  intros Hm He. destruct m as [|p|p]; [lia| |lia]. destruct (digits_bounds p) as [Hlo _].
  assert (0 ≤ shift (Zpos p) e ≤ Zpos (digits2_pos p) - 1) as Hs by (unfold shift, fexp, emin; cbn [Zdigits2]; lia).
  apply Z.div_le_lower_bound; [apply Z.pow_pos_nonneg; lia|]. rewrite Z.mul_1_r. etrans; [|exact Hlo].
  apply Z.pow_le_mono_r; lia.
Qed.

Lemma round_nonzero s m e l : 1 ≤ m → -1074 ≤ e →
  match binary_round_aux prec64 emax64 s m e l with S754_zero _ => False | _ => True end.
Proof.
  intros Hm He. unfold binary_round_aux. destruct (shr_fexp_spec m e l ltac:(lia)) as [Hm1 He1].
  pose proof (shift_positive m e Hm He) as Hp1. destruct (shr_fexp _ _ m e l) as [r e1]. cbn [fst snd] in Hm1, He1.
  set (m2 := round_nearest_even _ _).
  assert (1 ≤ m2) as Hm2 by (unfold m2; destruct (nearest_next (shr_m r) (loc_of_shr_record r)); lia).
  destruct (shr_fexp_spec m2 e1 loc_Exact ltac:(lia)) as [Hm3 _].
  pose proof (shift_positive m2 e1 Hm2 ltac:(rewrite He1; unfold shift; lia)) as Hp2.
  destruct (shr_fexp _ _ m2 e1 loc_Exact) as [r2 e2]. cbn [fst snd] in Hm3.
  destruct (shr_m r2) as [|q|q]; [lia|by destruct (_ <=? _)|done].
Qed.

Lemma of_int_finite z : 0 < z < 2 ^ 63 → ∃ s m e, of_int z = S754_finite s m e.
Proof.
  intros Hz. pose proof (of_int_below z ltac:(lia)) as Hb. unfold of_int in *. destruct z as [|p|p]; [lia| |lia].
  cbn [binary_normalize] in *. unfold binary_round in *. set (e' := fexp _ _ _) in *.
  assert (-1074 ≤ e') by (unfold e', fexp, emin; lia).
  assert (-1074 ≤ (shl_align p 0 e').2).
  { destruct (Z.le_gt_cases e' 0); [by rewrite (proj2 (shl_align_value p 0 e' ltac:(done)))|].
    unfold shl_align. destruct (e' - 0) as [|d|d]; cbn; lia. }
  destruct (shl_align p 0 e') as [q e2]. cbn [snd] in *.
  pose proof (round_nonzero false (Zpos q) e2 loc_Exact ltac:(lia) ltac:(done)) as Hnz.
  destruct (binary_round_aux _ _ _ _ _ _); try done. eauto.
Qed.

(** ** The operations *)

Lemma normalize_number m e z : isNaN (binary_normalize prec64 emax64 m e z) = false.
Proof.
  assert (∀ s p, isNaN (binary_round prec64 emax64 s p e) = false) as Hr.
  { intros s p. unfold binary_round. destruct (shl_align _ _ _). apply round_number. lia. }
  destruct m; cbn; [done|apply Hr..].
Qed.

Lemma fadd_number x B y : isNaN x = false → below B y → isNaN (fadd x y) = false.
Proof. destruct x as [[]| | |], y as [[]| | |]; cbn; try done. intros _ _. apply normalize_number. Qed.

Lemma fsub_number x B y : isNaN x = false → below B y → isNaN (fsub x y) = false.
Proof. destruct x as [[]| | |], y as [[]| | |]; cbn; try done. intros _ _. apply normalize_number. Qed.

Lemma fmul_number x s m e : isNaN x = false → isNaN (fmul x (S754_finite s m e)) = false.
Proof. destruct x; cbn; try done. intros _. apply round_number. lia. Qed.

Lemma div_core_nonneg m1 e1 m2 e2 : 0 ≤ (SFdiv_core_binary prec64 emax64 (Zpos m1) e1 (Zpos m2) e2).1.1.
Proof.
  unfold SFdiv_core_binary. cbv zeta. set (s := _ - _ - _). set (m' := match s with Z0 => _ | _ => _ end).
  assert (0 ≤ m') as Hm by (unfold m'; destruct s; [lia|by apply Z.shiftl_nonneg|lia]).
  pose proof (Z.div_pos m' (Zpos m2) Hm ltac:(lia)) as Hq. unfold Z.div in Hq.
  by destruct (Z.div_eucl m' (Zpos m2)).
Qed.

(** A finite number that is not zero divides a finite number, and is divided by
    any number. *)
Lemma fdiv_number B x s m e : below B x → isNaN (fdiv x (S754_finite s m e)) = false.
Proof.
  destruct x as [| | |sx mx ex]; cbn; try done. intros _. pose proof (div_core_nonneg mx ex m e) as Hq.
  destruct (SFdiv_core_binary _ _ _ _ _ _) as [[q e'] l]. by apply round_number.
Qed.

Lemma finite_fdiv_number s m e y : isNaN y = false → isNaN (fdiv (S754_finite s m e) y) = false.
Proof.
  destruct y as [| | |sy my ey]; cbn; try done. intros _. pose proof (div_core_nonneg m e my ey) as Hq.
  destruct (SFdiv_core_binary _ _ _ _ _ _) as [[q e'] l]. by apply round_number.
Qed.

Lemma fmul_below A B x y : below A x → below B y → 0 ≤ A + B ≤ 900 → below (A + B + 1) (fmul x y).
Proof.
  destruct x as [| | |sx mx ex], y as [| | |sy my ey]; cbn; try done. intros Hx Hy HB.
  apply round_below; [|done]. rewrite Pos2Z.inj_mul. split; [lia|].
  assert (∀ z k, Zpos z < 2 ^ k → 0 ≤ k) as Hpos.
  { intros z k Hz. destruct (Z.le_gt_cases 0 k); [done|]. rewrite Z.pow_neg_r in Hz; lia. }
  replace (A + B - (ex + ey)) with (A - ex + (B - ey)) by lia. rewrite Z.pow_add_r by (by eapply Hpos).
  apply Z.mul_lt_mono_nonneg; lia.
Qed.

Lemma fadd_below B x y : below B x → below B y → 0 ≤ B ≤ 800 → below (B + 2) (fadd x y).
Proof.
  assert (∀ s m e, Zpos m < 2 ^ (B - e) → below (B + 2) (S754_finite s m e)) as Hwide.
  { intros s m e Hm. cbn. etrans; [exact Hm|]. apply Z.pow_lt_mono_r; [lia| |lia].
    destruct (Z.le_gt_cases 0 (B - e)); [lia|]. rewrite Z.pow_neg_r in Hm; lia. }
  destruct x as [[]| | |sx mx ex], y as [[]| | |sy my ey]; cbn -[below]; try done; intros Hx Hy HB; try (by apply Hwide).
  replace (B + 2) with (B + 1 + 1) by lia. set (ez := Z.min ex ey).
  assert (∀ m e, Zpos m < 2 ^ (B - e) → ez ≤ e → Zpos (shl_align m e ez).1 < 2 ^ (B - ez)) as Hal.
  { intros m e Hm He. rewrite (proj1 (shl_align_value m e ez He)).
    assert (0 ≤ B - e) by (destruct (Z.le_gt_cases 0 (B - e)); [done|]; rewrite Z.pow_neg_r in Hm; lia).
    replace (B - ez) with (B - e + (e - ez)) by lia. rewrite Z.pow_add_r by lia.
    apply Z.mul_lt_mono_pos_r; [apply Z.pow_pos_nonneg; lia|done]. }
  pose proof (Hal mx ex Hx ltac:(lia)). pose proof (Hal my ey Hy ltac:(lia)).
  apply normalize_below; [|lia].
  assert (0 ≤ B - ez) by (destruct (Z.le_gt_cases 0 (B - ez)) as [|Hn]; [done|]; rewrite (Z.pow_neg_r 2 (B - ez)) in *; lia).
  replace (B + 1 - ez) with (Z.succ (B - ez)) by lia. rewrite Z.pow_succ_r by lia.
  unfold cond_Zopp. destruct sx, sy; lia.
Qed.

(** ** Conversion to an integer *)

(** The mantissa has at most 53 bits. *)
Definition narrow (x : float64) : Prop := match x with S754_finite _ m _ => Zpos m < 2 ^ 53 | _ => True end.

Lemma shift_narrow m e : 0 ≤ m → m / 2 ^ shift m e < 2 ^ 53.
Proof.
  intros Hm. assert (0 ≤ shift m e) by (unfold shift; lia). destruct m as [|p|p]; [rewrite Z.div_0_l by (apply Z.pow_nonzero; lia); lia| |lia].
  destruct (digits_bounds p) as [_ Hhi]. apply Z.div_lt_upper_bound; [apply Z.pow_pos_nonneg; lia|].
  eapply Z.lt_le_trans; [exact Hhi|]. rewrite <- Z.pow_add_r by lia. apply Z.pow_le_mono_r; [lia|].
  unfold shift, fexp, emin. cbn [Zdigits2]. lia.
Qed.

Lemma round_narrow s m e l : 0 ≤ m → narrow (binary_round_aux prec64 emax64 s m e l).
Proof.
  intros Hm. unfold binary_round_aux. destruct (shr_fexp_spec m e l Hm) as [Hm1 _].
  destruct (shr_fexp _ _ m e l) as [r e1]. cbn [fst snd] in Hm1. set (m2 := round_nearest_even _ _).
  assert (0 ≤ m2) as Hm2.
  { assert (0 ≤ shr_m r) by (rewrite Hm1; apply Z.div_pos; [done|]; apply Z.pow_pos_nonneg; unfold shift; lia).
    unfold m2. destruct (nearest_next (shr_m r) (loc_of_shr_record r)); lia. }
  destruct (shr_fexp_spec m2 e1 loc_Exact Hm2) as [Hm3 _]. pose proof (shift_narrow m2 e1 Hm2) as Hn.
  destruct (shr_fexp _ _ m2 e1 loc_Exact) as [r2 e2]. cbn [fst snd] in Hm3. rewrite <- Hm3 in Hn.
  destruct (shr_m r2) as [|q|q]; [done|by destruct (_ <=? _)|done].
Qed.

Lemma fadd_narrow x y : narrow x → narrow y → narrow (fadd x y).
Proof.
  assert (∀ m e z, narrow (binary_normalize prec64 emax64 m e z)) as Hn.
  { assert (∀ s p e, narrow (binary_round prec64 emax64 s p e)) as Hr.
    { intros s p e. unfold binary_round. destruct (shl_align _ _ _). apply round_narrow. lia. }
    intros [|p|p] e z; cbn; [done|apply Hr..]. }
  destruct x as [[]|[]| |sx mx ex], y as [[]|[]| |sy my ey]; cbn -[narrow]; try done; intros _ _; apply Hn.
Qed.

(** Rounding a number of at most [V] and cutting the fraction off gives at most
    [V]: the last place of the rounded number is below the point. *)
Lemma round_cut V m e l :
  0 ≤ V < 2 ^ 40 → e ≤ -1 → 1 ≤ m ≤ V * 2 ^ (- e) →
  0 ≤ to_int64 (binary_round_aux prec64 emax64 false m e l) ≤ V.
Proof.
  intros HV He Hm. unfold binary_round_aux. destruct (shr_fexp_spec m e l ltac:(lia)) as [Hm1 He1].
  assert (0 ≤ shift m e) as Hk by (unfold shift; lia).
  assert (∀ x y, 1 ≤ x < 2 ^ (41 - y) → y ≤ -1 → y + shift x y ≤ -1) as Hpoint.
  { intros [|p|p] y Hx Hy; [lia| |lia]. destruct (digits_bounds p) as [Hlo _].
    assert (Zpos (digits2_pos p) - 1 < 41 - y); [apply (Z.pow_lt_mono_r_iff 2); lia|].
    unfold shift, fexp, emin. cbn [Zdigits2]. lia. }
  assert (∀ y, y ≤ -1 → V * 2 ^ (- y) + 1 < 2 ^ (41 - y)) as Hfit.
  { intros y Hy. assert (2 ^ (41 - y) = 2 ^ 40 * 2 ^ (- y) + 2 ^ 40 * 2 ^ (- y)) as -> by
      (replace (41 - y) with (41 + - y) by lia; rewrite Z.pow_add_r by lia; change (2 ^ 41) with (2 * 2 ^ 40); lia).
    pose proof (Z.pow_pos_nonneg 2 (- y)). nia. }
  pose proof (Hpoint m e ltac:(pose proof (Hfit e He); lia) He) as Hp1.
  destruct (shr_fexp _ _ m e l) as [r e1]. cbn [fst snd] in Hm1, He1. rewrite <- He1 in Hp1.
  assert (0 ≤ shr_m r ≤ V * 2 ^ (- e1)) as Hr.
  { rewrite Hm1. split; [apply Z.div_pos; [lia|]; apply Z.pow_pos_nonneg; lia|].
    etrans; [apply Z.div_le_mono; [apply Z.pow_pos_nonneg; lia|apply Hm]|].
    replace (- e) with (- e1 + shift m e) by lia. rewrite Z.pow_add_r, Z.mul_assoc, Z.div_mul by (try apply Z.pow_nonzero; lia). lia. }
  set (m2 := round_nearest_even _ _).
  assert (0 ≤ m2 ≤ V * 2 ^ (- e1) + 1) as Hm2.
  { unfold m2. destruct (nearest_next (shr_m r) (loc_of_shr_record r)); lia. }
  destruct (shr_fexp_spec m2 e1 loc_Exact ltac:(lia)) as [Hm3 He2].
  assert (0 ≤ shift m2 e1) as Hk2 by (unfold shift; lia).
  destruct (decide (m2 = 0)) as [E|Hne].
  { destruct (shr_fexp _ _ m2 e1 loc_Exact) as [r2 e2]. cbn [fst snd] in Hm3.
    rewrite E, Z.div_0_l in Hm3 by (apply Z.pow_nonzero; unfold shift; lia). rewrite Hm3. cbn. lia. }
  pose proof (Hpoint m2 e1 ltac:(pose proof (Hfit e1 Hp1); lia) Hp1) as Hp2.
  destruct (shr_fexp _ _ m2 e1 loc_Exact) as [r2 e2]. cbn [fst snd] in Hm3, He2. rewrite <- He2 in Hp2.
  assert (0 ≤ shr_m r2) by (rewrite Hm3; apply Z.div_pos; [lia|]; apply Z.pow_pos_nonneg; lia).
  destruct (shr_m r2) as [|q|q] eqn:Eq; [cbn; lia| |lia].
  destruct (Z.leb_spec e2 (1024 - 53)); [|lia]. cbn [to_int64]. destruct (Z.leb_spec 0 e2); [lia|].
  assert (Zpos q / 2 ^ (- e2) = m2 / 2 ^ (- e1)) as ->.
  { rewrite Hm3, Z.div_div by (try apply Z.pow_nonzero; try apply Z.pow_pos_nonneg; lia).
    rewrite <- Z.pow_add_r by lia. do 2 f_equal. lia. }
  assert (2 ≤ 2 ^ (- e1)) by (change 2 with (2 ^ 1) at 1; apply Z.pow_le_mono_r; lia).
  assert (0 ≤ m2 / 2 ^ (- e1) ≤ V) as Hfin.
  { split; [apply Z.div_pos; lia|]. assert (m2 / 2 ^ (- e1) < V + 1); [|lia]. apply Z.div_lt_upper_bound; nia. }
  assert (2 ^ 40 < 2 ^ 63) by lia.
  destruct (Z.leb_spec (- 2 ^ 63) (m2 / 2 ^ (- e1))), (Z.ltb_spec (m2 / 2 ^ (- e1)) (2 ^ 63)); cbn [andb]; lia.
Qed.
