(* ===== verification/Progress.v ===== *)
(** * The progress display ([src/tlfmt/progress.go])

    A counter that prints how much of a total is done, about once per percent.
    The counter is advanced under a mutex; the text is printed after it is
    released. *)
From Stdlib Require Import Floats.SpecFloat.
From stdpp Require Import pretty.
From S2P Require Import Prelude.
From S2P Require Import Float64.

Record Progress := mkProgress {
  reason : list byte;
  pindex : Z;
  total : Z;
  lastPrintedIndex : Z
}.

(** [%.0f]: the nearest whole number, the even one of two. *)
Definition formatInt (x : float64) : list byte :=
  let sign (s : bool) : list byte := if s then str "-" else [] in
  match x with
  | S754_zero s => sign s ++ str "0"
  | S754_infinity s => (if s then str "-" else str "+") ++ str "Inf"
  | S754_nan => str "NaN"
  | S754_finite s m e =>
      let n := if 0 <=? e then Zpos m * 2 ^ e
               else
                 let d := 2 ^ (- e) in
                 let q := Zpos m / d in
                 let r := Zpos m mod d in
                 if (2 * r <? d) || ((2 * r =? d) && Z.even q) then q else q + 1 in
      sign s ++ str (pretty n)
  end.

Definition print (p : Progress) (index : Z) : list byte :=
  let text percent := [x0d] ++ reason p ++ str " " ++ formatInt percent ++ str "%" ++ [x09; x09] in
  if index =? total p then text (of_int 100) ++ [x0a]
  else text (fdiv (fmul (of_int 100) (of_int index)) (of_int (total p))).

Definition NewProgress (reason : list byte) (total : Z) : Progress * list byte :=
  let p := mkProgress reason 0 (total - 1) 0 in (p, print p 0).

(** The part of [Inc] under the mutex: the counter, and the index to print. *)
Definition advance (p : Progress) : Progress * option Z :=
  let i := pindex p + 1 in
  if (Z.quot (total p) 100 <? i - lastPrintedIndex p) || (i =? total p)
  then (mkProgress (reason p) i (total p) i, Some i)
  else (mkProgress (reason p) i (total p) (lastPrintedIndex p), None).

Definition Inc (p : Progress) : Progress * option (list byte) :=
  let r := advance p in (r.1, print r.1 <$> r.2).

(** [n] calls of [Inc], one after another. *)
Fixpoint Incs (p : Progress) (n : nat) : Progress * list (list byte) :=
  match n with
  | O => (p, [])
  | S n => let r := Inc p in let rs := Incs r.1 n in (rs.1, option_list r.2 ++ rs.2)
  end.

(** Everything that is printed from the creation through [n] steps. *)
Definition display (reason : list byte) (total : Z) (n : nat) : list (list byte) :=
  let r := NewProgress reason total in r.2 :: (Incs r.1 n).2.

Example display_four :
  display (str "x") 5 4 = map (λ s, [x0d] ++ str s ++ [x09; x09]) ["x 0%"; "x 25%"; "x 50%"; "x 75%"] ++
    [[x0d] ++ str "x 100%" ++ [x09; x09; x0a]].
Proof. by vm_compute. Qed.

(** ** How often it prints *)

(** The calls before the last one: what is printed are indexes in order, each
    more than a hundredth of the total after the one before. *)
Lemma Incs_before n : ∀ p,
  0 ≤ total p → pindex p + Z.of_nat n < total p → lastPrintedIndex p ≤ pindex p →
  ∃ l, (Incs p n).2 = map (print p) l ∧ Forall (λ i, pindex p < i < total p) l ∧
    Z.of_nat (length l) * (total p / 100 + 1) ≤ pindex p + Z.of_nat n - lastPrintedIndex p ∧
    reason (Incs p n).1 = reason p ∧ total (Incs p n).1 = total p ∧ pindex (Incs p n).1 = pindex p + Z.of_nat n.
Proof.
  induction n as [|n IH]; intros p Ht Hn Hl.
  { exists []. cbn. split_and!; try done; lia. }
  cbn [Incs]. unfold Inc, advance. rewrite Z.quot_div_nonneg by lia.
  rewrite (proj2 (Z.eqb_neq _ _)) by lia. rewrite orb_false_r.
  set (p1 := mkProgress (reason p) (pindex p + 1) (total p) (pindex p + 1)).
  set (p2 := mkProgress (reason p) (pindex p + 1) (total p) (lastPrintedIndex p)).
  destruct (Z.ltb_spec (total p / 100) (pindex p + 1 - lastPrintedIndex p)) as [Hlt|Hge]; cbn [fst snd fmap option_fmap option_map].
  - destruct (IH p1) as (l & -> & Hall & Hlen & Hr & Hto & Hi); [done|cbn; lia|cbn; lia|]. cbn in Hall, Hlen, Hr, Hto, Hi.
    exists (pindex p + 1 :: l). split_and!; [|constructor; [lia|]|cbn [length]; lia|done|done|lia].
    + reflexivity.
    + eapply Forall_impl; [exact Hall|]. cbn. lia.
  - destruct (IH p2) as (l & -> & Hall & Hlen & Hr & Hto & Hi); [done|cbn; lia|cbn; lia|]. cbn in Hall, Hlen, Hr, Hto, Hi.
    exists l. split_and!; [|eapply Forall_impl; [exact Hall|]; cbn; lia|lia|done|done|lia].
    reflexivity.
Qed.

Lemma Incs_snoc n : ∀ p, (Incs p (S n)).2 = (Incs p n).2 ++ option_list (Inc (Incs p n).1).2.
Proof.
  induction n as [|n IH]; intros p; [cbn; by rewrite app_nil_r|].
  cbn [Incs] in *. cbn [snd fst] in *. rewrite (IH (Inc p).1), app_assoc. done.
Qed.

Definition finished (reason : list byte) : list byte := [x0d] ++ reason ++ str " 100%" ++ [x09; x09; x0a].

Lemma print_finished p : print p (total p) = finished (reason p).
Proof. unfold print, finished. rewrite Z.eqb_refl. by rewrite <- !app_assoc. Qed.

(** The display of a total of [n + 1] prints, through [n] steps, at most 101
    times, and the last thing that it prints, and no other, is the line of
    100%. *)
Theorem progress_ends_at_100 reason n :
  (0 < n)%nat →
  ∃ l, display reason (Z.of_nat n + 1) n = map (print (NewProgress reason (Z.of_nat n + 1)).1) l ++ [finished reason] ∧
    Forall (λ i, 0 ≤ i < Z.of_nat n) l ∧ (length l ≤ 100)%nat.
Proof.
  intros Hn. unfold display. cbn [NewProgress fst snd]. set (p := mkProgress _ _ _ _).
  destruct n as [|n]; [lia|]. assert (total p = Z.of_nat (S n)) as Ht by (cbn; lia).
  destruct (Incs_before n p) as (l & E & Hall & Hlen & Hr & Hto & Hi); [lia|cbn [pindex p]; lia|done|].
  cbn [pindex lastPrintedIndex p] in Hall, Hlen, Hi. exists (0 :: l). rewrite Incs_snoc, E. split_and!.
  - cbn [map app]. f_equal. f_equal. unfold Inc, advance. rewrite Hi, Hto, Ht.
    replace (0 + Z.of_nat n + 1) with (Z.of_nat (S n)) by lia. rewrite Z.eqb_refl, orb_true_r.
    cbn [snd fst fmap option_fmap option_map option_list]. rewrite Hr.
    exact (f_equal (λ x, [x]) (print_finished (mkProgress reason (Z.of_nat (S n)) (Z.of_nat (S n)) (Z.of_nat (S n))))).
  - rewrite <- Ht. constructor; [lia|]. eapply Forall_impl; [exact Hall|]. cbn beta. lia.
  - cbn [length]. pose proof (Z.div_pos (total p) 100). pose proof (Z.div_mod (total p) 100). pose proof (Z.mod_pos_bound (total p) 100).
    rewrite Ht in *. nia.
Qed.

Lemma progress_ends_at_100_witness :
  last (display (str "x") 1001 1000) = Some (finished (str "x")).
Proof.
  destruct (progress_ends_at_100 (str "x") 1000) as (l & E & _); [lia|].
  change (Z.of_nat 1000 + 1) with 1001 in E. rewrite E. by rewrite last_snoc.
Defined.

(** The tests make as many steps as the total says, one more than it takes: with
    a small total the display goes beyond 100%. *)
Example progress_overshoots : last (display (str "x") 5 5) = Some ([x0d] ++ str "x 125%" ++ [x09; x09]).
Proof. by vm_compute. Qed.
