(* ===== verification/Rebalance.v ===== *)
(** * Rebalancing ([src/dist/rebalance/rebalance.go])

    A server with too few chunks copies some from their holders, and a server
    with too many drops some that have more holders than needed, after asking
    the other holders to protect theirs.  The functions below are the bodies of
    the goroutines: the load rebalancer, the duplicator and the releaser. *)
From S2P Require Import Prelude.
From S2P Require Import Float64.
From S2P Require Import Store.
From S2P Require Import PMap.
From S2P Require Import UdpHeartbeat.
From S2P Require Import TcpMessage.
From S2P Require Import Broker.
From S2P Require Import Core.
From S2P Require Import ServerGroup.
From S2P Require Import Remote.
From S2P Require Import Heartbeat.
From S2P Require Import Server.

(** The local chunks, and the queues of the duplicator and of the releaser. *)
Record rebalancer := mkReb {
  rb_core : Core;
  duplicateChannel : list Z;
  releaseChannel : list Z
}.

Definition set_rcore (r : rebalancer) (c : Core) : rebalancer :=
  mkReb c (duplicateChannel r) (releaseChannel r).

(** [Stop] tells the duplicator to end. *)
Definition RebalancerStop (r : rebalancer) : rebalancer :=
  mkReb (rb_core r) (duplicateChannel r ++ [-1]) (releaseChannel r).

Section rebalance.
Context {W : Type} `{Network W} `{Gommap}.

(** ** The duplicator *)

Definition maxUint64 : Z := 2 ^ 64 - 1.
Definition freeSpace : Z := 1000000000.

(** [duplicate], with the number that [rand.Intn] draws.  A chunk with pairs
    enters the queue of transfers after a while. *)
Definition duplicate (pick : Z) (r : rebalancer) (cid : Z) : comp W rebalancer :=
  sg ← get_sg;
  s ← lift (GetAnyHolder sg cid pick);
  match s with
  | None => mret r
  | Some p =>
      length ← vsGetChunkInfo p cid;
      if length =? maxUint64 then mret r
      else if freeSpace <? length then mret r
      else
        c ← lift (ChunkSetPresent (rb_core r) cid);
        mret (mkReb c (duplicateChannel r ++ (if length =? 0 then [] else [cid])) (releaseChannel r))
  end.

(** Is the pointer one of a holder other than the local server? *)
Definition otherHolder (sg : ServerGroup) (s : option sptr) : outcome (option sptr) :=
  match s with
  | None => Ret None
  | Some p => v ← deref sg p; Ret (if decide (Phy v = LocalhostIPPort sg) then None else Some p)
  end.

(** Ask the other holders for the chunk until one accepts. *)
Fixpoint transferFrom (cid : Z) (servers : list (option sptr)) : comp W bool :=
  match servers with
  | [] => mret false
  | s :: servers =>
      sg ← get_sg;
      o ← lift (otherHolder sg s);
      match o with
      | None => transferFrom cid servers
      | Some p =>
          err ← vsTransfer p (LocalhostIPPort sg) cid;
          match err with Some _ => transferFrom cid servers | None => mret true end
      end
  end.

(** One turn of the duplicator on the chunk at the head of its queue. *)
Definition duplicatorTurn (pick : Z) (r : rebalancer) : comp W rebalancer :=
  match duplicateChannel r with
  | [] => mret r
  | cid :: q =>
      let r := mkReb (rb_core r) q (releaseChannel r) in
      sg ← get_sg;
      servers ← lift (GetChunkHolders sg cid);
      transferred ← transferFrom cid servers;
      if (transferred : bool) then mret r else duplicate pick r cid
  end.

(** ** The releaser

    The releasers of other servers, and everything else on the network, go on
    between the requests of a release: [others i] is what happens to the network
    before the request with [i] entries of the list of holders to go, and
    [others 0] what happens before the copy is dropped. *)

Definition meanwhile (f : W → W) : comp W unit := on_net (λ w, (f w, tt)).

(** Nothing happens. *)
Definition quiet (i : nat) (w : W) : W := w.

(** Ask the other holders to protect the chunk, until one refuses. *)
Fixpoint protectHolders (others : nat → W → W) (cid : Z) (servers : list (option sptr)) : comp W bool :=
  match servers with
  | [] => mret true
  | s :: servers =>
      sg ← get_sg;
      o ← lift (otherHolder sg s);
      match o with
      | None => protectHolders others cid servers
      | Some p =>
          _ ← meanwhile (others (S (length servers)));
          ok ← vsProtect p cid;
          if (ok : bool) then protectHolders others cid servers else mret false
      end
  end.

Definition requestProtection (others : nat → W → W) (cid : Z) : comp W bool :=
  sg ← get_sg; servers ← lift (GetChunkHolders sg cid); protectHolders others cid servers.

(** Drop the local copy and tell the group. *)
Definition dropChunk (c : Core) (cid : Z) : comp W Core :=
  c ← lift (ChunkSetNoPresent c cid);
  now ← getNow;
  l ← lift (PresentChunksList c now);
  sg ← get_sg;
  now ← getNow;
  sg ← lift (SetServerChunks sg (LocalhostIPPort sg) l.1 now);
  _ ← put_sg sg;
  mret l.2.

(** The releaser on one chunk: the core, and whether the copy was dropped. *)
Definition releaseChunk (others : nat → W → W) (c : Core) (cid : Z) : comp W (Core * bool) :=
  isProtected ← lift (IsProtected c cid);
  if (isProtected : bool) then mret (c, false)
  else
    ok ← requestProtection others cid;
    if (ok : bool) then _ ← meanwhile (others 0%nat); c ← dropChunk c cid; mret (c, true) else mret (c, false).

Definition releaserTurn (others : nat → W → W) (r : rebalancer) : comp W rebalancer :=
  match releaseChannel r with
  | [] => mret r
  | cid :: q =>
      x ← releaseChunk others (rb_core r) cid;
      mret (mkReb x.1 (duplicateChannel r) q)
  end.

(** ** The load rebalancer *)

Definition maxRebalanceWaitSeconds : Z := 3.

(** The mean number of chunks of a server. *)
Definition average (numChunks redundancy servers : Z) : float64 :=
  fdiv (fmul (of_int numChunks) (of_int redundancy)) (of_int servers).

(** The seconds to wait before the next turn; the constant 0.95 is the number
    closest to 95/100. *)
Definition timetowait (known avg : float64) : float64 :=
  let w := fadd (fdiv (of_int 1) (fsub (fmul avg (fdiv (of_int 95) (of_int 100))) (fadd known (of_int 1)))) (of_int 1) in
  if fle w (of_int 0) || flt (of_int maxRebalanceWaitSeconds) w then of_int maxRebalanceWaitSeconds else w.

(** [time.Duration(float64(time.Second) * timetowait)], in nanoseconds. *)
Definition sleepTime (w : float64) : Z := to_int64 (fmul (of_int second) w).

(** Copy the chunks that have too few holders. *)
Fixpoint keepRedundancy (pick : Z → Z) (r : rebalancer) (i : Z) (n : nat) : comp W rebalancer :=
  match n with
  | O => mret r
  | S n =>
      sg ← get_sg;
      h ← lift (NumHolders sg i);
      r ← (if h <? redundancy sg then
             here ← lift (IsPresent (rb_core r) i);
             if (here : bool) then mret r else duplicate (pick i) r i
           else mret r);
      keepRedundancy pick r (i + 1) n
  end.

(** The first chunk of a list that has more holders than needed. *)
Fixpoint overRedundant (sg : ServerGroup) (c : Core) (l : list AmAliveChunk) : outcome (option Z) :=
  match l with
  | [] => Ret None
  | k :: l =>
      here ← IsPresent c (aID k);
      if negb (here : bool) then overRedundant sg c l
      else
        h ← NumHolders sg (aID k);
        if redundancy sg <? h then Ret (Some (aID k)) else overRedundant sg c l
  end.

(** One turn of the loop: the new state and the nanoseconds to sleep; [chosen] is
    what [rand.Int31n] draws from, and it panics on an argument below 1. *)
Definition rebalanceTurn (pick : Z → Z) (chosen : Z) (r : rebalancer) : comp W (rebalancer * Z) :=
  sg ← get_sg;
  let known := of_int (PresentChunks (rb_core r)) in
  let avg := average (numChunks sg) (redundancy sg) (NumServers sg) in
  r ← keepRedundancy pick r 0 (Z.to_nat (numChunks sg));
  sg ← get_sg;
  r ← (if flt (fadd known (of_int 1)) avg then
         let n := s32 (numChunks sg) in
         _ ← lift (check (0 <? n));
         let c := chosen mod n in
         here ← lift (IsPresent (rb_core r) c);
         if (here : bool) then mret r
         else
           h ← lift (NumHolders sg c);
           if h <=? redundancy sg then duplicate (pick c) r c else mret r
       else if fle avg known then
         now ← getNow;
         l ← lift (PresentChunksList (rb_core r) now);
         let r := set_rcore r l.2 in
         o ← lift (overRedundant sg (rb_core r) l.1);
         match o with
         | None => mret r
         | Some cid => mret (mkReb (rb_core r) (duplicateChannel r) (releaseChannel r ++ [cid]))
         end
       else mret r);
  mret (r, sleepTime (timetowait known avg)).
End rebalance.
