(* ===== verification/RebalanceProps.v ===== *)
(** * What rebalancing guarantees, and what it does not

    In a network of servers: a copy is dropped only when every other holder that
    the server knows has the chunk and has protected it.  Two holders that
    release at the same time protect each other and both drop the chunk. *)
From S2P Require Import Prelude.
From S2P Require Import Store.
From S2P Require Import PMap.
From S2P Require Import PMapSpec.
From S2P Require Import PMapIter.
From S2P Require Import UdpHeartbeat.
From S2P Require Import TcpMessage.
From S2P Require Import Broker.
From S2P Require Import Core.
From S2P Require Import CoreProps.
From S2P Require Import CoreFiles.
From S2P Require Import ServerGroup.
From S2P Require Import ServerGroupSpec.
From S2P Require Import Remote.
From S2P Require Import Heartbeat.
From S2P Require Import Server.
From S2P Require Import ServerProps.
From S2P Require Import Client.
From S2P Require Import KVNet.
From S2P Require Import ClientProps.
From S2P Require Import Cluster.
From S2P Require Import Rebalance.

(** ** Protection over the network *)

(** A property of the chunk [cid] of the server at [a]. *)
Definition chunk_at_node (cid : Z) (Q : metaChunk → Prop) (w : cluster) (a : addr_t) : Prop :=
  ∃ s k, nodes w !! a = Some s ∧ index (Core.chunks (s_core s)) cid = Ret k ∧ Q k.

(** The server at [a] holds the chunk and protects it. *)
Definition guards (cid : Z) : cluster → addr_t → Prop :=
  chunk_at_node cid (λ k, Core.present k = true ∧ Core.protected k = true).

Section cluster.
Context {J : Json}.

Definition protectMsg (cid : Z) : Message := message Operation.OpProtect (chunkKey cid) [].

Lemma wire_protect cid : wire (protectMsg cid) = Ret (protectMsg cid).
Proof.
  apply wire_ok. unfold msg_ok, msgSize, protectMsg, message, chunkKey. cbn.
  rewrite zlen_le_enc. zlen_nil_simpl. unfold Operation.OpProtect. lia.
Qed.

Lemma chunkKey_dec cid : 0 ≤ cid < 2 ^ 32 → get_le 4 (chunkKey cid) = Ret cid.
Proof.
  intros Hc. unfold chunkKey. rewrite get_le_all by (by rewrite zlen_le_enc).
  rewrite le_dec_enc. change (256 ^ Z.of_nat 4) with (2 ^ 32). by rewrite u32_small, Z.mod_small by lia.
Qed.

Lemma insert_chunk (c : Core) cid k k' :
  index (Core.chunks c) cid = Ret k → index (Core.chunks (setChunk c cid k')) cid = Ret k'.
Proof.
  intros [H0 Hk]%index_Ret_inv. apply index_lookup; [done|]. cbn.
  apply list_lookup_insert_eq. by eapply lookup_lt_Some.
Qed.

(** How a server answers a request to protect a chunk. *)
Lemma process_protect now s cid :
  0 ≤ cid < 2 ^ 32 →
  processMessage now s (protectMsg cid) =
    if s_stopped s then Ret (s, Msg 0 0 [] [], None)
    else
      n ← NumHolders (s_sg s) cid;
      if redundancy (s_sg s) <? n then
        r ← ChunkSetProtected (s_core s) cid now;
        Ret (set_core s r.1, outcomeResponse 0 r.2, None)
      else Ret (s, Msg Operation.OpErr 0 [] [], None).
Proof.
  intros Hc. unfold processMessage, protectMsg, message. cbn [mType mID mKey mValue].
  destruct (s_stopped s); [done|].
  change (Operation.OpProtect =? Operation.OpProtect) with true.
  repeat match goal with |- context [Operation.OpProtect =? ?x] => change (Operation.OpProtect =? x) with false end.
  cbn beta iota. by rewrite chunkKey_dec.
Qed.

Lemma deliver_other w a m b : b ≠ a → nodes (deliverTo w a m).1 !! b = nodes w !! b.
Proof.
  intros Hne. unfold deliverTo. destruct (nodes w !! a) as [s|]; [|done].
  destruct (serve _ _ _) as [[[s' r] j]| |]; cbn; [by rewrite lookup_insert_ne|by rewrite lookup_delete_ne..].
Qed.

(** The server at [a] grants protection. *)
Definition willing (cid : Z) (w : cluster) (a : addr_t) : Prop :=
  ∃ s n k, nodes w !! a = Some s ∧ s_stopped s = false ∧ NumHolders (s_sg s) cid = Ret n ∧
    redundancy (s_sg s) < n ∧ index (Core.chunks (s_core s)) cid = Ret k ∧ Core.present k = true.

Lemma willing_granted w a cid :
  0 ≤ cid < 2 ^ 32 → willing cid w a →
  ∃ m, (deliverTo w a (protectMsg cid)).2 = Some m ∧ r_err (response m) = None.
Proof.
  intros Hc (s & n & k & Hs & Hst & Hn & Hlt & Hk & Hp). unfold deliverTo, serve. rewrite Hs, wire_protect. bsimpl.
  rewrite process_protect, Hst, Hn by done. bsimpl. destruct (Z.ltb_spec (redundancy (s_sg s)) n); [|lia].
  unfold ChunkSetProtected. rewrite Hk. bsimpl. rewrite Hp. cbn [negb]. bsimpl.
  change (0 <? mType (outcomeResponse 0 None)) with true. cbn beta iota.
  rewrite wire_ok by (by vm_compute). bsimpl. by eexists.
Qed.

(** Turning buffering off changes nothing. *)
Lemma nodelay_id w a : (deliverTo w a (Msg Operation.OpSetNoDelay 0 [] [])).1 = w.
Proof.
  unfold deliverTo, serve. destruct (nodes w !! a) as [s|] eqn:Hs; [|done]. rewrite wire_ok by (by vm_compute). bsimpl.
  assert (∃ m, processMessage (w_clock w) s (Msg Operation.OpSetNoDelay 0 [] []) = Ret (s, m, None) ∧
    (m = Msg 0 0 [] [] ∨ m = Msg Operation.OpSetNoDelay 0 [] [])) as (m & -> & Hm).
  { unfold processMessage. destruct (s_stopped s); eexists; (split; [reflexivity|auto]). }
  bsimpl. destruct w as [ns js t]. cbn [nodes jobs w_clock] in *.
  destruct Hm as [->| ->]; cbn [mType].
  - change (0 <? 0) with false. cbn. by rewrite app_nil_r, insert_id.
  - change (0 <? Operation.OpSetNoDelay) with true. cbn beta iota.
    rewrite wire_ok by (by vm_compute). cbn. by rewrite app_nil_r, insert_id.
Qed.

(** The servers store what they stored, and know the group that they knew. *)
Definition kept (cid : Z) (w w' : cluster) : Prop := ∀ b,
  match nodes w !! b with
  | None => nodes w' !! b = None
  | Some s => ∀ As g, server_rep s As g → 0 ≤ cid < zlen As →
      ∃ s', nodes w' !! b = Some s' ∧ s_sg s' = s_sg s ∧ server_rep s' As g ∧
        (counted (s_core s) As → counted (s_core s') As)
  end.

Lemma kept_refl cid w : kept cid w w.
Proof. intros b. destruct (nodes w !! b) as [s|]; [|done]. intros As g Hs _. by exists s. Qed.

Lemma kept_trans cid w1 w2 w3 : kept cid w1 w2 → kept cid w2 w3 → kept cid w1 w3.
Proof.
  intros H12 H23 b. specialize (H12 b). specialize (H23 b). destruct (nodes w1 !! b) as [s1|].
  - intros As g Hs1 Hc. destruct (H12 As g Hs1 Hc) as (s2 & E2 & Hg2 & Hs2 & Hk2). rewrite E2 in H23.
    destruct (H23 As g Hs2 Hc) as (s3 & E3 & Hg3 & Hs3 & Hk3). exists s3. split_and!; [done|congruence|done|auto].
  - by rewrite H12 in H23.
Qed.

(** A message that changes no contents. *)
Lemma kept_deliver cid w a m :
  (∀ s As g, server_rep s As g → 0 ≤ cid < zlen As →
     ∃ s' r j, serve (w_clock w) s m = Ret (s', r, j) ∧ s_sg s' = s_sg s ∧ server_rep s' As g ∧
       (counted (s_core s) As → counted (s_core s') As)) →
  kept cid w (deliverTo w a m).1.
Proof.
  intros H b. destruct (decide (b = a)) as [->|Hne].
  - unfold deliverTo. destruct (nodes w !! a) as [s|] eqn:Hs; [|done]. intros As g Hr Hc.
    destruct (H s As g Hr Hc) as (s' & r & j & -> & Hs'). exists s'. split; [apply lookup_insert_eq|done].
  - rewrite deliver_other by done. apply kept_refl.
Qed.

Lemma kept_rep cid w w' S :
  kept cid w w' → cluster_rep w S → (∀ b x, S !! b = Some x → 0 ≤ cid < zlen x.1) → cluster_rep w' S.
Proof.
  intros Hk Hw Hin b. specialize (Hw b). specialize (Hk b). destruct (S !! b) as [x|] eqn:Hb.
  - destruct Hw as (s & Hs & Hr). rewrite Hs in Hk.
    destruct (Hk _ _ Hr (Hin b x Hb)) as (s' & Hs' & _ & Hr' & _). by exists s'.
  - by rewrite Hw in Hk.
Qed.

(** Protection changes nothing of what the servers store. *)
Lemma protect_kept cid w a : 0 ≤ cid < 2 ^ 32 → kept cid w (deliverTo w a (protectMsg cid)).1.
Proof.
  intros Hc. apply kept_deliver. intros s As g Hr Hcid. unfold serve.
  rewrite wire_protect. bsimpl. rewrite process_protect, (sv_running _ _ _ Hr) by done.
  rewrite (NumHolders_sim _ _ (sv_group _ _ _ Hr)) by (by rewrite (sv_chunks _ _ _ Hr)). bsimpl.
  destruct (redundancy (s_sg s) <? _); bsimpl.
  - destruct (ChunkSetProtected_sim _ As cid (w_clock w) (sv_core _ _ _ Hr) Hcid) as (c' & er & Ec & Hc').
    assert ((er = None ∨ er = Some errProtect) ∧ knownChunks c' = knownChunks (s_core s)) as [Her Hkn].
    { revert Ec. unfold ChunkSetProtected. destruct (index _ cid) as [k| |]; cbn; try done.
      destruct (negb (present k)); intros [= <- <-]; split; [by right|done|by left|done]. }
    rewrite Ec. bsimpl. destruct Her as [->| ->]; change (0 <? mType (outcomeResponse 0 _)) with true;
      cbn beta iota; rewrite wire_ok by (by vm_compute); (eexists _, _, _; split_and!; [reflexivity|done| |]);
      try (by eapply server_rep_core); unfold counted; cbn; by rewrite Hkn.
  - change (0 <? mType (Msg Operation.OpErr 0 [] [])) with true. cbn beta iota.
    rewrite wire_ok by (by vm_compute). by eexists _, _, _.
Qed.

(** A positive answer means that the chunk is guarded. *)
Lemma deliver_protect w a cid m :
  0 ≤ cid < 2 ^ 32 → (deliverTo w a (protectMsg cid)).2 = Some m → r_err (response m) = None →
  guards cid (deliverTo w a (protectMsg cid)).1 a.
Proof.
  intros Hc. unfold deliverTo, serve. destruct (nodes w !! a) as [s|] eqn:Hs; [|done].
  rewrite wire_protect. bsimpl. rewrite process_protect by done.
  destruct (s_stopped s); [done|]. destruct (NumHolders (s_sg s) cid) as [n| |]; bsimpl; try done.
  destruct (redundancy (s_sg s) <? n); bsimpl; cycle 1.
  { change (0 <? mType (Msg Operation.OpErr 0 [] [])) with true. cbn beta iota.
    rewrite wire_ok by (by vm_compute). bsimpl. by intros [= <-]. }
  unfold ChunkSetProtected. destruct (index (Core.chunks (s_core s)) cid) as [k| |] eqn:Hk; bsimpl; try done.
  destruct (Core.present k) eqn:Hp; cbn [negb]; bsimpl; cycle 1.
  { change (0 <? mType (outcomeResponse 0 (Some errProtect))) with true. cbn beta iota.
    rewrite wire_ok by (by vm_compute). bsimpl. by intros [= <-]. }
  intros _ _. change (0 <? mType (outcomeResponse 0 None)) with true. cbn beta iota.
  rewrite wire_ok by (by vm_compute). bsimpl. cbn [fst]. eexists _, _. cbn [nodes].
  split; [apply lookup_insert_eq|]. split; [by eapply insert_chunk|done].
Qed.

(** ** The group while messages are sent *)

Definition same_view (sg sg' : ServerGroup) : Prop :=
  same_ptrs sg sg' ∧ LocalhostIPPort sg' = LocalhostIPPort sg ∧ servers sg' = servers sg ∧ redundancy sg' = redundancy sg.

Lemma same_view_trans sg1 sg2 sg3 : same_view sg1 sg2 → same_view sg2 sg3 → same_view sg1 sg3.
Proof.
  intros (H1 & H2 & H3 & H4) (H1' & H2' & H3' & H4'). split_and!; [by eapply same_ptrs_trans|congruence..].
Qed.

Lemma same_view_refl sg : same_view sg sg.
Proof. by split_and!; [apply same_ptrs_refl|..]. Qed.

(** Making sure that there is a connection. *)
Lemma needConnection_cluster (e : env cluster) p s g :
  sg_rep (e_sg e) g → mem (e_sg e) !! p = Some s →
  ∃ r e', needConnection p e = Ret (r, e') ∧ sg_rep (e_sg e') g ∧ same_view (e_sg e) (e_sg e') ∧
    e_net e' = e_net e ∧ (r = inr (Phy s) ∨ (nodes (e_net e) !! Phy s = None ∧ ∃ err, r = inl err)).
Proof.
  intros Hr Hs. unfold needConnection, deref. msimpl. rewrite Hs. msimpl.
  destruct (conn s); msimpl.
  { do 2 eexists. split_and!; [reflexivity|done|apply same_view_refl|done|by left]. }
  cbn [net_dial clusterNet]. msimpl. destruct (nodes (e_net e) !! Phy s) eqn:Hnode; msimpl; cycle 1.
  { do 2 eexists. split_and!; [reflexivity|done|apply same_view_refl|done|by right; eauto]. }
  destruct (set_conn_rep g (e_sg e) p s true Hr Hs) as [Hg Hsame].
  destruct (vsNoDelay s); unfold connSetNoDelay, connSend; msimpl; cbn [Z.eqb]; msimpl;
    do 2 eexists; (split_and!; [reflexivity|done|by split_and!| |by left]); cbn; [|done].
  apply nodelay_id.
Qed.

(** A request on a connection: the message goes to the server, and the result
    is its response or an error. *)
Lemma sendAndReceive_cluster (e : env cluster) a op k v :
  sendAndReceive a op k v requestTimeout e =
  let d := deliverTo (e_net e) a (message op k v) in
  Ret (match d.2 with Some m => response m | None => timeoutResult EmptyString EmptyString end,
       Env (e_sg e) d.1).
Proof.
  unfold sendAndReceive, connSend. change (requestTimeout =? 0) with false. msimpl.
  change (check (0 <? requestTimeout)) with (Ret tt). by msimpl.
Qed.

Lemma vsProtect_cluster (e : env cluster) p s cid g :
  sg_rep (e_sg e) g → 0 ≤ cid < 2 ^ 32 → mem (e_sg e) !! p = Some s →
  ∃ ok e', vsProtect p cid e = Ret (ok, e') ∧ sg_rep (e_sg e') g ∧ same_view (e_sg e) (e_sg e') ∧
    (∀ b, b ≠ Phy s → nodes (e_net e') !! b = nodes (e_net e) !! b) ∧
    (ok = true → guards cid (e_net e') (Phy s)) ∧
    (willing cid (e_net e) (Phy s) → ok = true) ∧
    kept cid (e_net e) (e_net e').
Proof.
  intros Hr Hc Hs. unfold vsProtect, connected. msimpl.
  destruct (needConnection_cluster e p s g Hr Hs) as (r & e1 & -> & Hr1 & Hv1 & En & Hres).
  msimpl. destruct Hres as [->|[Hnone [err ->]]]; msimpl; cycle 1.
  { exists false, e1. rewrite En. split_and!; try done; [|apply kept_refl].
    intros (s' & _ & _ & Hs' & _). congruence. }
  unfold connProtect. msimpl. rewrite sendAndReceive_cluster, En. cbv zeta. fold (protectMsg cid). msimpl.
  pose proof (deliver_protect (e_net e) (Phy s) cid) as Hg.
  pose proof (willing_granted (e_net e) (Phy s) cid Hc) as Hw.
  pose proof (protect_kept cid (e_net e) (Phy s) Hc) as Hk.
  pose proof (deliver_other (e_net e) (Phy s) (protectMsg cid)) as Hn.
  destruct (deliverTo (e_net e) (Phy s) (protectMsg cid)) as [w2 o]. cbn [fst snd] in *.
  destruct o as [m|]; [destruct (r_err (response m)) as [er|] eqn:Er|]; cbn [r_err timeoutResult]; msimpl;
    do 2 eexists; (split_and!; [reflexivity|done|exact Hv1|done| | |done]); try done.
  - intros (m' & [= <-] & Hm')%Hw. congruence.
  - intros _. by apply (Hg m).
  - by intros (m & [=] & _)%Hw.
Qed.

Lemma guards_other cid w w' a : nodes w' !! a = nodes w !! a → guards cid w a → guards cid w' a.
Proof. intros E (s & k & Hs & Hk). exists s, k. by rewrite E. Qed.

Lemma env_eta {W} (e : env W) : Env (e_sg e) (e_net e) = e.
Proof. by destruct e. Qed.

Lemma protectHolders_cluster cid g n ps : ∀ addrs (e : env cluster),
  sg_rep (e_sg e) g → 0 ≤ cid < 2 ^ 32 → located (e_sg e) ps addrs → NoDup addrs →
  ∃ ok e', protectHolders quiet cid (map Some ps ++ replicate n None) e = Ret (ok, e') ∧
    sg_rep (e_sg e') g ∧ same_view (e_sg e) (e_sg e') ∧
    (∀ b, b ∉ addrs ∨ b = LocalhostIPPort (e_sg e) → nodes (e_net e') !! b = nodes (e_net e) !! b) ∧
    (ok = true → ∀ a, a ∈ addrs → a ≠ LocalhostIPPort (e_sg e) → guards cid (e_net e') a) ∧
    ((∀ a, a ∈ addrs → a ≠ LocalhostIPPort (e_sg e) → willing cid (e_net e) a) → ok = true) ∧
    kept cid (e_net e) (e_net e').
Proof.
  induction ps as [|p ps IH]; intros addrs e Hr Hc Hl Hnd.
  - apply Forall2_nil_inv_l in Hl as ->. exists true, e. cbn [map app].
    split_and!; [|done|apply same_view_refl|done|by intros _ a ?%not_elem_of_nil|done|apply kept_refl].
    induction n as [|n IHn]; [done|]. cbn [replicate protectHolders]. msimpl. cbn [otherHolder]. by msimpl.
  - apply Forall2_cons_inv_l in Hl as (a & l & (s & Hs & <-) & Hl & ->).
    apply NoDup_cons in Hnd as [Hn Hnd]. cbn [map app protectHolders]. msimpl.
    cbn [otherHolder]. unfold deref. rewrite Hs. msimpl. case_decide as Hloc; msimpl.
    + destruct (IH l e Hr Hc Hl Hnd) as (ok & e' & E & Hr' & Hv & Hno & Hg & Hw & HS). exists ok, e'.
      split_and!; [done|done|done| | | |done].
      * intros b Hb. apply Hno. destruct Hb as [Hb|]; [left; set_solver|by right].
      * intros Hok b [->|Hb]%elem_of_cons Hne; [done|]. by apply Hg.
      * intros Hall. apply Hw. intros b Hb. apply Hall. by right.
    + unfold meanwhile. msimpl. change (quiet _ (e_net e)) with (e_net e). rewrite env_eta.
      destruct (vsProtect_cluster e p s cid g Hr Hc Hs) as (ok & e1 & -> & Hr1 & Hv1 & Hn1 & Hg1 & Hw1 & HS1). msimpl.
      assert (∀ b, b ∉ Phy s :: l ∨ b = LocalhostIPPort (e_sg e) → nodes (e_net e1) !! b = nodes (e_net e) !! b) as Hn1'.
      { intros b [Hb| ->]; apply Hn1; [set_solver|by intros E]. }
      destruct ok; msimpl; cycle 1.
      { exists false, e1. split_and!; [done|done|done|done|done| |done]. intros Hall. apply Hw1, Hall; [by left|done]. }
      destruct (IH l e1 Hr1 Hc (located_mono _ _ _ _ (proj1 Hv1) Hl) Hnd)
        as (ok & e2 & E & Hr2 & Hv2 & Hn2 & Hg2 & Hw2 & HS2).
      rewrite (proj1 (proj2 Hv1)) in Hn2, Hg2, Hw2.
      exists ok, e2. split_and!; [done|done|by eapply same_view_trans| | | |].
      * intros b Hb. rewrite Hn2; [by apply Hn1'|]. destruct Hb as [Hb|]; [left; set_solver|by right].
      * intros Hok b [->|Hb]%elem_of_cons Hne.
        { eapply guards_other; [by apply Hn2; left|]. by apply Hg1. }
        by apply Hg2.
      * intros Hall. apply Hw2. intros b Hb Hne. destruct (Hall b) as (s' & Hs'); [by right|done|].
        exists s'. rewrite Hn1; [done|]. by intros ->.
      * by eapply kept_trans.
Qed.

(** What the releaser asks of the other holders. *)
Lemma requestProtection_cluster (e : env cluster) cid g :
  sg_rep (e_sg e) g → 0 ≤ cid < numChunks (e_sg e) → numChunks (e_sg e) ≤ 2 ^ 32 →
  (size (holdersOf g cid) ≤ 8)%nat →
  ∃ ok e', requestProtection quiet cid e = Ret (ok, e') ∧ sg_rep (e_sg e') g ∧ same_view (e_sg e) (e_sg e') ∧
    (∀ b, b = LocalhostIPPort (e_sg e) → nodes (e_net e') !! b = nodes (e_net e) !! b) ∧
    (ok = true → ∀ a, a ∈ holdersOf g cid → a ≠ LocalhostIPPort (e_sg e) → guards cid (e_net e') a) ∧
    ((∀ a, a ∈ holdersOf g cid → a ≠ LocalhostIPPort (e_sg e) → willing cid (e_net e) a) → ok = true) ∧
    kept cid (e_net e) (e_net e').
Proof.
  intros Hr Hc Hn Hsz. unfold requestProtection. msimpl.
  destruct (holders_of_group (e_sg e) g cid Hr Hc Hsz) as (ps & addrs & m & -> & Hl & Hnd & Hmem). msimpl.
  destruct (protectHolders_cluster cid g m ps addrs e Hr ltac:(lia) Hl Hnd) 
    as (ok & e' & E & Hr' & Hv & Hno & Hg & Hw & HS).
  exists ok, e'. setoid_rewrite Hmem in Hg. setoid_rewrite Hmem in Hw. split_and!; try done.
  intros b Hb. apply Hno. by right.
Qed.

(** The same while the rest of the network goes on, as long as it leaves the
    protected copies alone. *)
Section meanwhile.
Context (cid : Z) (others : nat → cluster → cluster).
Context (Hkeep : ∀ i w a, guards cid w a → guards cid (others i w) a).

Lemma protectHolders_guards g n ps : ∀ addrs (e : env cluster),
  sg_rep (e_sg e) g → 0 ≤ cid < 2 ^ 32 → located (e_sg e) ps addrs →
  ∃ ok e', protectHolders others cid (map Some ps ++ replicate n None) e = Ret (ok, e') ∧
    sg_rep (e_sg e') g ∧ same_view (e_sg e) (e_sg e') ∧
    (ok = true → ∀ a, guards cid (e_net e) a → guards cid (e_net e') a) ∧
    (ok = true → ∀ a, a ∈ addrs → a ≠ LocalhostIPPort (e_sg e) → guards cid (e_net e') a).
Proof using Hkeep.
  induction ps as [|p ps IH]; intros addrs e Hr Hc Hl.
  - apply Forall2_nil_inv_l in Hl as ->. exists true, e. cbn [map app].
    split_and!; [|done|apply same_view_refl|done|by intros _ a ?%not_elem_of_nil].
    induction n as [|n IHn]; [done|]. cbn [replicate protectHolders]. msimpl. cbn [otherHolder]. by msimpl.
  - apply Forall2_cons_inv_l in Hl as (a & l & (s & Hs & <-) & Hl & ->). cbn [map app protectHolders]. msimpl.
    cbn [otherHolder]. unfold deref. rewrite Hs. msimpl. case_decide as Hloc; msimpl.
    + destruct (IH l e Hr Hc Hl) as (ok & e' & E & Hr' & Hv & Hst & Hg). exists ok, e'. split_and!; [done..|].
      intros Hok b [->|Hb]%elem_of_cons Hne; [done|]. by apply Hg.
    + unfold meanwhile. msimpl. set (i := S _).
      destruct (vsProtect_cluster (Env (e_sg e) (others i (e_net e))) p s cid g Hr Hc Hs)
        as (ok & e1 & -> & Hr1 & Hv1 & Hn1 & Hg1 & _). cbn [e_sg e_net] in *. msimpl.
      destruct ok; msimpl; [|by exists false, e1; split_and!].
      assert (∀ b, guards cid (e_net e) b → guards cid (e_net e1) b) as Hst1.
      { intros b Hb%(Hkeep i). destruct (decide (b = Phy s)) as [->|Hne]; [by apply Hg1|].
        by eapply guards_other; [apply Hn1|]. }
      destruct (IH l e1 Hr1 Hc (located_mono _ _ _ _ (proj1 Hv1) Hl)) as (ok & e2 & E & Hr2 & Hv2 & Hst2 & Hg2).
      rewrite (proj1 (proj2 Hv1)) in Hg2. exists ok, e2. split_and!; [done|done|by eapply same_view_trans| |].
      * intros Hok b Hb. by apply Hst2, Hst1.
      * intros Hok b [->|Hb]%elem_of_cons Hne; [by apply Hst2, Hg1|by apply Hg2].
Qed.

Lemma requestProtection_guards (e : env cluster) g :
  sg_rep (e_sg e) g → 0 ≤ cid < numChunks (e_sg e) → numChunks (e_sg e) ≤ 2 ^ 32 →
  (size (holdersOf g cid) ≤ 8)%nat →
  ∃ ok e', requestProtection others cid e = Ret (ok, e') ∧ sg_rep (e_sg e') g ∧ same_view (e_sg e) (e_sg e') ∧
    (ok = true → ∀ a, a ∈ holdersOf g cid → a ≠ LocalhostIPPort (e_sg e) → guards cid (e_net e') a).
Proof using Hkeep.
  intros Hr Hc Hn Hsz. unfold requestProtection. msimpl.
  destruct (holders_of_group (e_sg e) g cid Hr Hc Hsz) as (ps & addrs & m & -> & Hl & _ & Hmem). msimpl.
  destruct (protectHolders_guards g m ps addrs e Hr ltac:(lia) Hl) as (ok & e' & E & Hr' & Hv & _ & Hg).
  exists ok, e'. setoid_rewrite Hmem in Hg. by split_and!.
Qed.
End meanwhile.
End cluster.

(** ** Dropping a copy *)

Lemma present_ids_range As : ∀ i k, k ∈ present_ids i As → i ≤ k < i + zlen As.
Proof.
  induction As as [|[a|] As IH]; intros i k; cbn [present_ids].
  - by intros ?%not_elem_of_nil.
  - rewrite zlen_cons. intros [->|Hk]%elem_of_cons; [zl|]. apply IH in Hk. lia.
  - rewrite zlen_cons. intros Hk%IH. lia.
Qed.

Lemma dropChunk_sim `{GommapLaws} `{Network W} (e : env W) c As g cid o :
  sg_rep (e_sg e) g → core_rep c As → counted c As → numChunks (e_sg e) = zlen As →
  0 ≤ cid → As !! Z.to_nat cid = Some o →
  ∃ c' e' g', dropChunk c cid e = Ret (c', e') ∧ core_rep c' (<[Z.to_nat cid := None]> As) ∧
    sg_rep (e_sg e') g' ∧ e_net e' = e_net e.
Proof.
  intros Hr Hc Hcount Hn Hpos Ho. unfold dropChunk, getNow. msimpl.
  pose proof (command_sim c As (SetNoPresent cid) Hc I) as Hs. cbn [spec_command run_command] in Hs.
  rewrite (index_lookup As cid o) in Hs by done. cbn [mbind outcome_bind] in Hs.
  assert (match o with Some _ => <[Z.to_nat cid := None]> As | None => As end = <[Z.to_nat cid := None]> As) as EAs.
  { destruct o; [done|]. by rewrite list_insert_id. }
  rewrite EAs in Hs. destruct Hs as (c1 & E1 & Hc1 & _ & Hcount1).
  destruct (ChunkSetNoPresent c cid) as [c2| |]; try done. injection E1 as ->. msimpl.
  destruct (PresentChunksList_sim c1 _ (net_now (e_net e)) Hc1 (Hcount1 Hcount)) as (l & c3 & -> & Hl & _ & Hc3).
  msimpl. pose proof (SetServerChunks_sim (e_sg e) g (LocalhostIPPort (e_sg e)) l (net_now (e_net e)) Hr) as Hset.
  assert (Forall (in_range (numChunks (e_sg e))) l) as Hrange.
  { apply Forall_forall. intros x Hx. unfold in_range. rewrite Hn.
    assert (aID x ∈ present_ids 0 (<[Z.to_nat cid := None]> As)) as Hid by (rewrite <- Hl; by apply list_elem_of_fmap_2).
    apply present_ids_range in Hid. unfold zlen in *. rewrite length_insert in Hid. lia. }
  unfold spec_SetServerChunks in Hset.
  destruct (g !! LocalhostIPPort (e_sg e)); [rewrite decide_True in Hset by done|];
    destruct Hset as (sg' & -> & Hr' & _); msimpl; eexists _, _, _; by split_and!.
Qed.


(** ** Two releasers at the same time *)

(** The duplicator takes the mark that [Stop] sends for a chunk, which none has. *)
Lemma Stop_crashes_duplicator `{Network W} `{Gommap} pick r (e : env W) :
  duplicateChannel r = [] → duplicatorTurn pick (RebalancerStop r) e = Panic.
Proof. intros Hq. unfold duplicatorTurn, RebalancerStop. cbn [duplicateChannel]. rewrite Hq. reflexivity. Qed.

Section race.
Context `{Json} `{GommapLaws} (cid : Z).

(** A goroutine of the server at [a]: its core and its group are the server's. *)
Definition runAt {A} (w : cluster) (a : addr_t) (m : Core → comp cluster (Core * A)) : outcome (A * cluster) :=
  match nodes w !! a with
  | None => Panic
  | Some s =>
      r ← m (s_core s) (Env (s_sg s) w);
      let w' := e_net r.2 in
      Ret (r.1.2, Cluster (<[a := mkDB r.1.1 (e_sg r.2) (s_hb s) (s_stopped s)]> (nodes w')) (jobs w') (w_clock w'))
  end.

(** The three steps of [releaseChunk]. *)
Definition releaseCheck (c : Core) : comp cluster (Core * bool) :=
  p ← lift (IsProtected c cid); mret (c, p).
Definition releaseRequest (c : Core) : comp cluster (Core * bool) :=
  ok ← requestProtection quiet cid; mret (c, ok).
Definition releaseDrop (c : Core) : comp cluster (Core * unit) :=
  c ← dropChunk c cid; mret (c, tt).

(** A server that knows more holders than needed. *)
Definition member (w : cluster) (a : addr_t) (As : list (option abs)) (g : group) : Prop :=
  ∃ s, nodes w !! a = Some s ∧ server_rep s As g ∧ counted (s_core s) As ∧
    LocalhostIPPort (s_sg s) = a ∧ redundancy (s_sg s) < Z.of_nat (size (holdersOf g cid)).

Lemma member_willing w a As g x :
  member w a As g → 0 ≤ cid → As !! Z.to_nat cid = Some (Some x) → willing cid w a.
Proof.
  intros (s & Hs & Hr & _ & _ & Hred) Hpos Hx.
  assert (0 ≤ cid < zlen As) as Hc by (apply lookup_lt_Some in Hx; unfold zlen; lia).
  destruct (chunk_at _ As (sv_core _ _ _ Hr) _ _ Hx) as (k & _ & Hk & Hp & _).
  rewrite Z2Nat.id in Hk by done. exists s, (Z.of_nat (size (holdersOf g cid))), k.
  split_and!; [done|apply Hr| |done|done|done]. apply NumHolders_sim; [apply Hr|by rewrite (sv_chunks _ _ _ Hr)].
Qed.

(** A request of protection that the other holder grants. *)
Lemma request_member w a b As Bs gA gB x :
  member w a As gA → member w b Bs gB → a ≠ b → holdersOf gA cid = {[a; b]} →
  0 ≤ cid < zlen As → zlen As ≤ 2 ^ 32 → zlen Bs = zlen As → Bs !! Z.to_nat cid = Some (Some x) →
  ∃ w', runAt w a releaseRequest = Ret (true, w') ∧ member w' a As gA ∧ member w' b Bs gB.
Proof.
  intros Ha Hb Hne Hh Hc Hmax Hn Hx. pose proof (member_willing w b Bs gB x Hb ltac:(lia) Hx) as Hw.
  destruct Ha as (s & Hs & Hr & Hcnt & Hl & Hred). destruct Hb as (t & Ht & Hrt & Hcntt & Hlt & Hredt).
  unfold runAt, releaseRequest. rewrite Hs. msimpl.
  destruct (requestProtection_cluster (Env (s_sg s) w) cid gA) as (ok & e' & -> & Hr' & Hv & Hown & _ & Hok & Hk);
    cbn [e_sg e_net] in *.
  - apply Hr.
  - by rewrite (sv_chunks _ _ _ Hr).
  - by rewrite (sv_chunks _ _ _ Hr).
  - rewrite Hh, size_union, !size_singleton by set_solver. lia.
  - rewrite Hok; cycle 1.
    { rewrite Hl, Hh. intros c Hc' ?. assert (c = b) as -> by set_solver. done. }
    msimpl. eexists. split; [reflexivity|]. destruct Hv as (Hptr & Hl' & _ & Hred').
    split.
    + eexists. cbn [nodes]. rewrite lookup_insert_eq. split_and!; [done| |done|cbn; congruence|cbn; by rewrite Hred'].
      split; cbn; [apply Hr|done|rewrite (proj1 Hptr); apply Hr|apply Hr].
    + specialize (Hk b). rewrite Ht in Hk. destruct (Hk Bs gB Hrt) as (t' & Ht' & Hsg & Hrt' & Hcntt'); [lia|].
      exists t'. cbn [nodes]. rewrite lookup_insert_ne by done. split_and!; [done|done|auto|congruence|congruence].
Qed.

Lemma drop_member w a As g o :
  member w a As g → 0 ≤ cid → As !! Z.to_nat cid = Some o →
  ∃ w', runAt w a releaseDrop = Ret (tt, w') ∧ chunk_at_node cid (λ k, Core.present k = false) w' a ∧
    ∀ b, b ≠ a → nodes w' !! b = nodes w !! b.
Proof.
  intros (s & Hs & Hr & Hcnt & _) Hpos Ho. unfold runAt, releaseDrop. rewrite Hs. msimpl.
  destruct (dropChunk_sim (Env (s_sg s) w) (s_core s) As g cid o) as (c' & e' & g' & -> & Hc' & Hg' & Enet);
    [apply Hr|apply Hr|done|apply Hr|done|done|].
  cbn [e_net] in Enet. msimpl. eexists. split; [reflexivity|]. split.
  - assert (<[Z.to_nat cid := None]> As !! Z.to_nat cid = Some None) as E
      by (apply list_lookup_insert_eq; by eapply lookup_lt_Some).
    destruct (index_both c' _ cid Hc') as [(o' & k & _ & _ & Hk & Ho' & Hrep)|[E' _]]; cycle 1.
    { rewrite (index_lookup _ cid None) in E' by done. done. }
    rewrite E in Ho'. injection Ho' as <-. eexists _, k. cbn [nodes]. rewrite lookup_insert_eq.
    split_and!; [done|done|apply Hrep].
  - intros b Hb. cbn [nodes]. rewrite lookup_insert_ne by done. by rewrite Enet.
Qed.

Lemma check_unprotected w a :
  chunk_at_node cid (λ k, Core.protected k = false) w a → runAt w a releaseCheck = Ret (false, w).
Proof.
  intros (s & k & Hs & Hk & Hp). unfold runAt, releaseCheck, IsProtected. rewrite Hs. msimpl. rewrite Hk. msimpl.
  rewrite Hp. destruct s, w. cbn in *. by rewrite insert_id.
Qed.
End race.

(** C39. Protection does not exclude two releases at the same time.  When the two
    holders of a chunk each check their own protection before either has asked
    the other for it, each grants the protection of its copy and then drops that
    copy: the chunk is lost, with the redundancy at 1. *)
Theorem release_race_loses_chunk `{Json} `{GommapLaws} w a b As Bs gA gB cid x y :
  a ≠ b → member cid w a As gA → member cid w b Bs gB →
  holdersOf gA cid = {[a; b]} → holdersOf gB cid = {[a; b]} →
  zlen As ≤ 2 ^ 32 → zlen Bs = zlen As → 0 ≤ cid →
  As !! Z.to_nat cid = Some (Some x) → Bs !! Z.to_nat cid = Some (Some y) →
  chunk_at_node cid (λ k, Core.protected k = false) w a → chunk_at_node cid (λ k, Core.protected k = false) w b →
  runAt w a (releaseCheck cid) = Ret (false, w) ∧ runAt w b (releaseCheck cid) = Ret (false, w) ∧
  ∃ w1 w2 w3 w4,
    runAt w a (releaseRequest cid) = Ret (true, w1) ∧ runAt w1 b (releaseRequest cid) = Ret (true, w2) ∧
    runAt w2 a (releaseDrop cid) = Ret (tt, w3) ∧ runAt w3 b (releaseDrop cid) = Ret (tt, w4) ∧
    chunk_at_node cid (λ k, Core.present k = false) w4 a ∧
    chunk_at_node cid (λ k, Core.present k = false) w4 b.
Proof.
  intros Hne Ha Hb HgA HgB Hmax Hn Hpos Hx Hy Hpa Hpb. split_and!; [by apply check_unprotected..|].
  assert (0 ≤ cid < zlen As) as Hc by (apply lookup_lt_Some in Hx; unfold zlen; lia).
  destruct (request_member cid w a b As Bs gA gB y) as (w1 & E1 & Ha1 & Hb1); try done.
  destruct (request_member cid w1 b a Bs As gB gA x) as (w2 & E2 & Hb2 & Ha2); try done; [|lia..|].
  { rewrite HgB. set_solver. }
  destruct (drop_member cid w2 a As gA (Some x)) as (w3 & E3 & Hd3 & Hn3); try done.
  assert (member cid w3 b Bs gB) as Hb3.
  { destruct Hb2 as (s & Hs & Hrest). exists s. by rewrite Hn3. }
  destruct (drop_member cid w3 b Bs gB (Some y)) as (w4 & E4 & Hd4 & Hn4); try done.
  exists w1, w2, w3, w4. split_and!; try done.
  destruct Hd3 as (s & k & Hs & Hk). exists s, k. by rewrite Hn4.
Qed.
