(* ===== verification/Duplication.v ===== *)
(** * Getting a copy of a chunk

    What the duplicator ([src/dist/rebalance/rebalance.go]) achieves in a network
    of servers: the whole course of a duplication, and its failure when the holder
    cannot be reached. *)
From S2P Require Import Prelude.
From S2P Require Import Hashing.
From S2P Require Import Store.
From S2P Require Import PMap.
From S2P Require Import PMapSpec.
From S2P Require Import Chunk.
From S2P Require Import Replicas.
From S2P Require Import PMapProps.
From S2P Require Import PMapIter.
From S2P Require Import UdpHeartbeat.
From S2P Require Import TcpMessage.
From S2P Require Import Broker.
From S2P Require Import Core.
From S2P Require Import CoreProps.
From S2P Require Import CoreFiles.
From S2P Require Import Defrag.
From S2P Require Import ServerGroup.
From S2P Require Import ServerGroupSpec.
From S2P Require Import Remote.
From S2P Require Import Heartbeat.
From S2P Require Import Server.
From S2P Require Import ServerProps.
From S2P Require Import Client.
From S2P Require Import KVNet.
From S2P Require Import ClientProps.
From S2P Require Import Cluster.
From S2P Require Import Repair.
From S2P Require Import Transfer.
From S2P Require Import Rebalance.
From S2P Require Import RebalanceProps.

#[local] Opaque chunkIndex.

(** The length that a server reports for a chunk, and 0 when it is down. *)
Definition reported (S : netmap) (cid : Z) (a : addr_t) : Z :=
  match S !! a with
  | None => 0
  | Some x => match x.1 !! Z.to_nat cid with
              | Some (Some y) => zlen (enc_log (a_log y))
              | _ => maxUint64
              end
  end.

Lemma LengthOfChunk_reported c As cid o :
  core_rep c As → 0 ≤ cid → As !! Z.to_nat cid = Some o →
  LengthOfChunk c cid = Ret (match o with Some y => zlen (enc_log (a_log y)) | None => maxUint64 end).
Proof.
  intros Hc Hpos Ho. destruct o as [y|].
  { rewrite <- (Z2Nat.id cid) by done. by eapply LengthOfChunk_sim. }
  unfold LengthOfChunk. destruct (index_both c As cid Hc) as [(o' & k & _ & _ & -> & Ho' & Hk)|[E _]]; cycle 1.
  { by rewrite (index_lookup As cid None) in E. }
  rewrite Ho in Ho'. injection Ho' as <-. bsimpl. by destruct Hk as [-> _].
Qed.

Lemma reported_range w S cid a `{Json} : cluster_rep w S → 0 ≤ reported S cid a < 2 ^ 64.
Proof.
  intros Hw. unfold reported, maxUint64. destruct (S !! a) as [x|] eqn:Ha; [|lia].
  destruct (x.1 !! Z.to_nat cid) as [[y|]|] eqn:Hy; [|lia..].
  destruct (cluster_rep_at w S a x Hw Ha) as (s & _ & Hr).
  destruct (chunk_at _ _ (sv_core _ _ _ Hr) _ _ Hy) as (_ & _ & _ & _ & _ & _ & p & _ & d & Hd).
  destruct (pd_store _ _ _ Hd) as [_ Hl _ Hroom _]. destruct (pd_size _ _ _ Hd) as [_ Hmax].
  unfold maxChunkSize in Hmax. pose proof (zlen_nonneg (enc_log (a_log y))). lia.
Qed.

Section cluster.
Context {J : Json}.

Definition infoMsg (cid : Z) : Message := message Operation.OpGetChunkInfo (chunkKey cid) [].

Lemma wire_info cid : wire (infoMsg cid) = Ret (infoMsg cid).
Proof.
  apply wire_ok. unfold msg_ok, msgSize, infoMsg, message, chunkKey. cbn.
  rewrite zlen_le_enc. zlen_nil_simpl. unfold Operation.OpGetChunkInfo. lia.
Qed.

Lemma deliver_info w S a x cid :
  cluster_rep w S → S !! a = Some x → 0 ≤ cid < zlen x.1 → zlen x.1 ≤ 2 ^ 32 →
  deliverTo w a (infoMsg cid) = (w, Some (Msg Operation.OpResponse 0 [] (le_enc 8 (reported S cid a)))).
Proof.
  intros Hw Ha Hc Hmax. destruct (cluster_rep_at w S a x Hw Ha) as (s & Hs & Hr).
  unfold deliverTo, serve, reported. rewrite Hs, wire_info, Ha. bsimpl.
  destruct (lookup_lt_is_Some_2 x.1 (Z.to_nat cid)) as [o Ho]; [unfold zlen in Hc; lia|]. rewrite Ho.
  set (n := match o with Some y => zlen (enc_log (a_log y)) | None => maxUint64 end).
  assert (processMessage (w_clock w) s (infoMsg cid) =
    Ret (s, Msg Operation.OpResponse 0 [] (le_enc 8 n), None)) as ->.
  { unfold processMessage, infoMsg, message. cbn [mType mID mKey mValue]. rewrite (sv_running _ _ _ Hr).
    change (Operation.OpGetChunkInfo =? Operation.OpGetChunkInfo) with true.
    repeat match goal with |- context [Operation.OpGetChunkInfo =? ?x] =>
      change (Operation.OpGetChunkInfo =? x) with false end.
    cbn beta iota. rewrite chunkKey_dec by lia. bsimpl.
    by rewrite (LengthOfChunk_reported _ _ _ _ (sv_core _ _ _ Hr) (proj1 Hc) Ho). }
  bsimpl. cbn [mType]. change (0 <? Operation.OpResponse) with true. cbn beta iota.
  rewrite wire_ok; cycle 1.
  { unfold msg_ok, msgSize. cbn. rewrite zlen_le_enc. zlen_nil_simpl. unfold Operation.OpResponse. lia. }
  bsimpl. rewrite app_nil_r, insert_id by done. by destruct w, o.
Qed.

(** Servers with as many chunks as the group. *)
Definition sized (S : netmap) (n : Z) : Prop := ∀ a x, S !! a = Some x → zlen x.1 = n.

Lemma vsGetChunkInfo_cluster (e : env cluster) S p s cid g :
  sg_rep (e_sg e) g → cluster_rep (e_net e) S → sized S (numChunks (e_sg e)) →
  0 ≤ cid < numChunks (e_sg e) → numChunks (e_sg e) ≤ 2 ^ 32 → mem (e_sg e) !! p = Some s →
  ∃ e', vsGetChunkInfo p cid e = Ret (reported S cid (Phy s), e') ∧ sg_rep (e_sg e') g ∧
    same_view (e_sg e) (e_sg e') ∧ e_net e' = e_net e.
Proof.
  intros Hr Hw Hsz Hc Hmax Hs. unfold vsGetChunkInfo, connected. msimpl.
  destruct (needConnection_cluster e p s g Hr Hs) as (r & e1 & -> & Hr1 & Hv1 & En & Hres). msimpl.
  destruct (S !! Phy s) as [x|] eqn:Ha.
  - destruct Hres as [->|[Hnone _]]; cycle 1.
    { destruct (cluster_rep_at _ _ _ _ Hw Ha) as (s' & Hs' & _). congruence. }
    unfold connGetChunkInfo. msimpl. rewrite sendAndReceive_cluster, En. cbv zeta. fold (infoMsg cid).
    rewrite (deliver_info _ S _ x) by (done || rewrite (Hsz _ _ Ha); lia). msimpl.
    change (response (Msg Operation.OpResponse 0 [] ?v)) with (Result v None). cbn [r_err r_value]. msimpl.
    rewrite get_le_all by (by rewrite zlen_le_enc). rewrite le_dec_enc. msimpl.
    change (256 ^ Z.of_nat 8) with (2 ^ 64).
    rewrite Z.mod_small by (by eapply reported_range). by eexists.
  - unfold reported. rewrite Ha. destruct Hres as [->|[_ [err ->]]]; msimpl; [|by eexists].
    unfold connGetChunkInfo. msimpl. rewrite sendAndReceive_cluster, En. cbv zeta.
    rewrite (deliver_down _ S) by done. cbn [fst snd timeoutResult r_err]. msimpl. cbn [timeoutResult r_err]. msimpl.
    by eexists.
Qed.

Definition transferMsg (cid : Z) (dest : addr_t) : Message := message Operation.OpTransfer (chunkKey cid) dest.

(** A server that is asked for a transfer starts it. *)
Lemma deliver_transfer w S a x cid dest :
  cluster_rep w S → S !! a = Some x → 0 ≤ cid < 2 ^ 32 → zlen dest < 2 ^ 16 →
  deliverTo w a (transferMsg cid dest) =
    (Cluster (nodes w) (jobs w ++ [(a, Transfer cid dest)]) (w_clock w), Some (Msg Operation.OpOK 0 [] [])).
Proof.
  intros Hw Ha Hc Hd. destruct (cluster_rep_at w S a x Hw Ha) as (s & Hs & Hr).
  unfold deliverTo, serve. rewrite Hs, wire_ok; cycle 1.
  { unfold msg_ok, msgSize, transferMsg, message, chunkKey. cbn. rewrite zlen_le_enc.
    unfold Operation.OpTransfer. pose proof (zlen_nonneg dest). lia. }
  bsimpl.
  assert (processMessage (w_clock w) s (transferMsg cid dest) =
    Ret (s, Msg Operation.OpOK 0 [] [], Some (Transfer cid dest))) as ->.
  { unfold processMessage, transferMsg, message. cbn [mType mID mKey mValue]. rewrite (sv_running _ _ _ Hr).
    change (Operation.OpTransfer =? Operation.OpTransfer) with true.
    repeat match goal with |- context [Operation.OpTransfer =? ?x] => change (Operation.OpTransfer =? x) with false end.
    cbn beta iota. by rewrite chunkKey_dec by lia. }
  bsimpl. cbn [mType]. change (0 <? Operation.OpOK) with true. cbn beta iota.
  rewrite wire_ok by (by vm_compute). bsimpl. by rewrite insert_id.
Qed.

Lemma vsTransfer_cluster (e : env cluster) S p s cid dest g :
  sg_rep (e_sg e) g → cluster_rep (e_net e) S → is_Some (S !! Phy s) → 0 ≤ cid < 2 ^ 32 → zlen dest < 2 ^ 16 →
  mem (e_sg e) !! p = Some s →
  ∃ e', vsTransfer p dest cid e = Ret (None, e') ∧ sg_rep (e_sg e') g ∧ same_view (e_sg e) (e_sg e') ∧
    e_net e' = Cluster (nodes (e_net e)) (jobs (e_net e) ++ [(Phy s, Transfer cid dest)]) (w_clock (e_net e)).
Proof.
  intros Hr Hw [x Ha] Hc Hd Hs. unfold vsTransfer, connected. msimpl.
  destruct (needConnection_cluster e p s g Hr Hs) as (r & e1 & -> & Hr1 & Hv1 & En & Hres). msimpl.
  destruct Hres as [->|[Hnone _]]; cycle 1.
  { destruct (cluster_rep_at _ _ _ _ Hw Ha) as (s' & Hs' & _). congruence. }
  unfold connTransfer. msimpl. rewrite sendAndReceive_cluster, En. cbv zeta. fold (transferMsg cid dest).
  rewrite (deliver_transfer _ S _ x) by done. msimpl. by eexists.
Qed.

(** The first other holder is asked, and accepts. *)
Lemma transferFrom_cluster (e : env cluster) S cid g n : ∀ ps addrs,
  sg_rep (e_sg e) g → cluster_rep (e_net e) S → 0 ≤ cid < 2 ^ 32 → zlen (LocalhostIPPort (e_sg e)) < 2 ^ 16 →
  located (e_sg e) ps addrs → (∀ a, a ∈ addrs → a ≠ LocalhostIPPort (e_sg e) → is_Some (S !! a)) →
  (∃ a, a ∈ addrs ∧ a ≠ LocalhostIPPort (e_sg e)) →
  ∃ a e', transferFrom cid (map Some ps ++ replicate n None) e = Ret (true, e') ∧
    a ∈ addrs ∧ a ≠ LocalhostIPPort (e_sg e) ∧ sg_rep (e_sg e') g ∧ same_view (e_sg e) (e_sg e') ∧
    e_net e' = Cluster (nodes (e_net e)) (jobs (e_net e) ++ [(a, Transfer cid (LocalhostIPPort (e_sg e)))])
                 (w_clock (e_net e)).
Proof.
  induction ps as [|p ps IH]; intros addrs Hr Hw Hc Hd Hl Hlive (b & Hb & Hbl).
  { apply Forall2_nil_inv_l in Hl as ->. by apply not_elem_of_nil in Hb. }
  apply Forall2_cons_inv_l in Hl as (a & l & (s & Hs & <-) & Hl & ->). cbn [map app transferFrom]. msimpl.
  cbn [otherHolder]. unfold deref. rewrite Hs. msimpl. case_decide as Hloc; msimpl.
  - destruct (IH l Hr Hw Hc Hd Hl) as (a & e' & E & Ha & Hrest).
    + intros a Ha. apply Hlive. by apply elem_of_cons; right.
    + exists b. apply elem_of_cons in Hb as [->|Hb]; [done|by split].
    + exists a, e'. split; [done|]. split; [by right|exact Hrest].
  - destruct (vsTransfer_cluster e S p s cid (LocalhostIPPort (e_sg e)) g Hr Hw) as (e' & -> & Hr' & Hv' & En);
      [apply Hlive; [by left|done]|done..|].
    msimpl. exists (Phy s), e'. split_and!; [done|by left|done..].
Qed.

(** [duplicate]: some holder reports the length of the chunk. *)
Lemma duplicate_cluster `{GommapLaws} (e : env cluster) S r As g cid pick :
  sg_rep (e_sg e) g → cluster_rep (e_net e) S → sized S (numChunks (e_sg e)) →
  core_rep (rb_core r) As → counted (rb_core r) As → zlen As = numChunks (e_sg e) →
  0 ≤ cid < zlen As → zlen As ≤ 2 ^ 32 → As !! Z.to_nat cid = Some None → holdersOf g cid ≠ ∅ →
  ∃ a r' e', a ∈ holdersOf g cid ∧ duplicate pick r cid e = Ret (r', e') ∧ sg_rep (e_sg e') g ∧
    same_view (e_sg e) (e_sg e') ∧ e_net e' = e_net e ∧ chunkSize (rb_core r') = chunkSize (rb_core r) ∧
    releaseChannel r' = releaseChannel r ∧
    let n := reported S cid a in
    if decide (n = maxUint64 ∨ freeSpace < n) then r' = r
    else core_rep (rb_core r') (<[Z.to_nat cid := Some (new_abs (chunkSize (rb_core r)))]> As) ∧
         counted (rb_core r') (<[Z.to_nat cid := Some (new_abs (chunkSize (rb_core r)))]> As) ∧
         duplicateChannel r' = duplicateChannel r ++ (if n =? 0 then [] else [cid]).
Proof.
  intros Hr Hw Hsz Hc Hcnt Hn Hcid Hmax Hno Hne. unfold duplicate, GetAnyHolder. msimpl.
  destruct (chunk_holders (e_sg e) g Hr cid) as (c & -> & _ & Hmem & HF); [lia|]. msimpl.
  assert (0 < zlen (holders c)) as Hpos.
  { destruct (holders c) as [|p ps]; [|rewrite zlen_cons; zl]. exfalso. apply Hne, leibniz_equiv.
    intros a. rewrite <- Hmem. cbn [map]. set_solver. }
  destruct (Z.ltb_spec (zlen (holders c)) 1); [lia|].
  pose proof (Z.mod_pos_bound pick (zlen (holders c)) Hpos) as Hpick.
  destruct (lookup_lt_is_Some_2 (holders c) (Z.to_nat (pick mod zlen (holders c)))) as [p Hp].
  { unfold zlen in *. lia. }
  rewrite (index_lookup _ _ p) by (done || lia). msimpl.
  rewrite Forall_forall in HF. destruct (HF p) as (v & s & Hgv & Hderef & _); [by eapply list_elem_of_lookup_2|].
  assert (mem (e_sg e) !! p = Some s) as Hs.
  { unfold deref in Hderef. destruct (mem (e_sg e) !! p); [by injection Hderef as ->|done]. }
  assert (Phy s ∈ holdersOf g cid) as Ha.
  { apply Hmem. replace (Phy s) with (addrOf (e_sg e) p) by (unfold addrOf; by rewrite Hs).
    apply list_elem_of_fmap_2. by eapply list_elem_of_lookup_2. }
  destruct (vsGetChunkInfo_cluster e S p s cid g Hr Hw Hsz) as (e' & -> & Hr' & Hv' & En); [lia..|done|]. msimpl.
  exists (Phy s). cbv zeta. destruct (Z.eqb_spec (reported S cid (Phy s)) maxUint64) as [Em|Em].
  { exists r, e'. split_and!; try done. rewrite decide_True by auto. done. }
  destruct (Z.ltb_spec freeSpace (reported S cid (Phy s))) as [Ef|Ef].
  { exists r, e'. split_and!; try done. rewrite decide_True by auto. done. }
  pose proof (command_sim (rb_core r) As (SetPresent cid) Hc I) as Hcmd. cbn [spec_command run_command] in Hcmd.
  rewrite (index_lookup As cid None) in Hcmd by (done || lia). cbn [mbind outcome_bind] in Hcmd.
  destruct Hcmd as (c1 & E1 & Hc1 & Hsize & Hcnt1).
  destruct (ChunkSetPresent (rb_core r) cid) as [c2| |]; try done. injection E1 as ->. msimpl.
  do 2 eexists. split_and!; [done|reflexivity|done|done|done|done|done|].
  rewrite decide_False by (intros [?|?]; [done|lia]). cbn [rb_core duplicateChannel releaseChannel]. auto.
Qed.
End cluster.

(** ** The course of a duplication *)

(** [duplicate] and a turn of the duplicator, with the queue of transfers. *)
Definition duplicateStep `{Network W} `{Gommap} (pick cid : Z) (q : list Z) (c : Core) : comp W (Core * list Z) :=
  r ← duplicate pick (mkReb c q []) cid; mret (rb_core r, duplicateChannel r).
Definition duplicatorStep `{Network W} `{Gommap} (pick : Z) (q : list Z) (c : Core) : comp W (Core * list Z) :=
  r ← duplicatorTurn pick (mkReb c q []); mret (rb_core r, duplicateChannel r).

(** The server at [l] of a network knows other holders of a chunk that it lacks. *)
Record lacks (w : cluster) (S : netmap) (l : addr_t) (s : DBServer) (Bs : list (option abs)) (g : group)
    (n cid : Z) : Prop := Lacks {
  lk_net : cluster_rep w S;
  lk_sized : sized S n;
  lk_node : nodes w !! l = Some s;
  lk_local : LocalhostIPPort (s_sg s) = l;
  lk_here : S !! l = Some (Bs, g);
  lk_counted : counted (s_core s) Bs;
  lk_chunk : 0 ≤ cid < n;
  lk_number : n ≤ 2 ^ 32;
  lk_absent : Bs !! Z.to_nat cid = Some None;
  lk_holders : holdersOf g cid ≠ ∅;
  lk_few : (size (holdersOf g cid) ≤ 8)%nat;
  lk_others : l ∉ holdersOf g cid
}.

(** The chunks of the server once it has the empty copy. *)
Definition emptied (s : DBServer) (Bs : list (option abs)) (cid : Z) : list (option abs) :=
  <[Z.to_nat cid := Some (new_abs (chunkSize (s_core s)))]> Bs.

Section course.
Context `{Json} `{GommapLaws} w S l s Bs g n cid (Hl : lacks w S l s Bs g n cid).

Lemma lk_server : server_rep s Bs g.
Proof using Hl.
  destruct (cluster_rep_at _ _ _ _ (lk_net _ _ _ _ _ _ _ _ Hl) (lk_here _ _ _ _ _ _ _ _ Hl)) as (s' & Hs' & Hr).
  rewrite (lk_node _ _ _ _ _ _ _ _ Hl) in Hs'. by injection Hs' as ->.
Qed.

(** The copy is made present, and waits for its transfer when a holder reports
    a length. *)
Lemma duplicateStep_sim pick q :
  (∀ a, a ∈ holdersOf g cid → reported S cid a ≤ freeSpace) →
  ∃ a w' s', a ∈ holdersOf g cid ∧
    runAt w l (duplicateStep pick cid q) = Ret (q ++ (if reported S cid a =? 0 then [] else [cid]), w') ∧
    nodes w' !! l = Some s' ∧ server_rep s' (emptied s Bs cid) g ∧ LocalhostIPPort (s_sg s') = l ∧
    cluster_rep w' (<[l := (emptied s Bs cid, g)]> S) ∧ jobs w' = jobs w.
Proof using All.
  intros Hrep. pose proof lk_server as Hr. destruct Hl as [Hw Hsz Hs Hloc Hh Hcnt Hcid Hn Hab Hne _ _].
  assert (zlen Bs = n) as EB by (apply (Hsz l _ Hh)). pose proof (sv_chunks _ _ _ Hr) as En.
  unfold runAt, duplicateStep. rewrite Hs. msimpl.
  destruct (duplicate_cluster (Env (s_sg s) w) S (mkReb (s_core s) q []) Bs g cid pick)
    as (a & r' & e' & Ha & -> & Hr' & Hv & Enet & _ & _ & Hres); cbn [e_sg e_net rb_core duplicateChannel] in *;
    [apply Hr|done|by rewrite En, EB|apply Hr|done|done|lia|lia|done|done|].
  assert (¬ (reported S cid a = maxUint64 ∨ freeSpace < reported S cid a)) as Hno.
  { specialize (Hrep a Ha). unfold maxUint64, freeSpace in *. lia. }
  cbv zeta in Hres. rewrite decide_False in Hres by done. destruct Hres as (Hc' & Hcnt' & Hq). msimpl.
  rewrite Hq, Enet. do 3 eexists. split_and!; [exact Ha|reflexivity|apply lookup_insert_eq| | | |done].
  - split; cbn; [exact Hc'|done| |apply Hr]. rewrite (proj1 (proj1 Hv)), En.
    unfold emptied, zlen. by rewrite length_insert.
  - cbn. by rewrite (proj1 (proj2 Hv)).
  - apply (cluster_rep_update w S l _ (emptied s Bs cid, g)); [done|]. cbn [fst snd].
    split; cbn; [exact Hc'|done| |apply Hr]. rewrite (proj1 (proj1 Hv)), En.
    unfold emptied, zlen. by rewrite length_insert.
Qed.
End course.

(** A turn of the duplicator: one of the other holders starts a transfer. *)
Lemma duplicatorStep_sim `{Json} `{GommapLaws} w S l s Bs g cid pick q :
  cluster_rep w S → nodes w !! l = Some s → server_rep s Bs g → S !! l = Some (Bs, g) →
  LocalhostIPPort (s_sg s) = l → 0 ≤ cid < zlen Bs → zlen Bs ≤ 2 ^ 32 → zlen l < 2 ^ 16 →
  (size (holdersOf g cid) ≤ 8)%nat → holdersOf g cid ≠ ∅ → l ∉ holdersOf g cid →
  (∀ a, a ∈ holdersOf g cid → is_Some (S !! a)) →
  ∃ a w', runAt w l (duplicatorStep pick (cid :: q)) = Ret (q, w') ∧ a ∈ holdersOf g cid ∧
    cluster_rep w' S ∧ jobs w' = jobs w ++ [(a, Transfer cid l)].
Proof.
  intros Hw Hs Hr Hh Hloc Hcid Hn Hlen Hfew Hne Hself Hlive. pose proof (sv_chunks _ _ _ Hr) as En.
  unfold runAt, duplicatorStep, duplicatorTurn. rewrite Hs. cbn [duplicateChannel rb_core releaseChannel]. msimpl.
  destruct (holders_of_group (s_sg s) g cid (sv_group _ _ _ Hr)) as (ps & addrs & m & -> & Hl & Hnd & Hmem);
    [lia|done|]. msimpl.
  destruct (transferFrom_cluster (Env (s_sg s) w) S cid g m ps addrs) as (a & e' & -> & Ha & _ & Hr' & Hv & Enet);
    cbn [e_sg e_net] in *; rewrite ?Hloc; try done; [apply Hr|lia| | |].
  - intros b Hb _. apply Hlive. by apply Hmem.
  - apply set_choose_L in Hne as [b Hb]. exists b. split; [by apply Hmem|]. by intros ->.
  - msimpl. rewrite Enet, Hloc. cbn [rb_core duplicateChannel nodes jobs w_clock].
    exists a. eexists. split_and!; [reflexivity|by apply Hmem| |done].
    rewrite <- (insert_id S l _ Hh). apply (cluster_rep_update w S l _ (Bs, g)); [done|]. cbn [fst snd].
    split; cbn; [apply Hr|done| |apply Hr]. by rewrite (proj1 (proj1 Hv)).
Qed.

(** C7. The whole course of a duplication.  A server that lacks a chunk, and that
    can reach the holders that it knows, makes an empty copy present, asks one of
    the holders for the chunk, and ends with the values of that holder for every
    key of the chunk; nothing changes at the other servers.  Each holder has
    written pairs, less than the free space and than the size of a chunk. *)
Theorem duplication_copies_chunk `{Json} `{GommapLaws} w S l s Bs g n cid pick pick' :
  lacks w S l s Bs g n cid → zlen l < 2 ^ 16 →
  (∀ a, a ∈ holdersOf g cid → ∃ As h x, S !! a = Some (As, h) ∧ replica n (Z.to_nat cid) As x ∧
     0 < zlen (enc_log (a_log x)) < Z.min (chunkSize (s_core s)) freeSpace) →
  ∃ w1 w2 w3 S3 a sa,
    runAt w l (duplicateStep pick cid []) = Ret ([cid], w1) ∧
    runAt w1 l (duplicatorStep pick' [cid]) = Ret ([], w2) ∧ jobs w2 = jobs w ++ [(a, Transfer cid l)] ∧
    a ∈ holdersOf g cid ∧ nodes w2 !! a = Some sa ∧
    runTransfer (s_core sa) (Transfer cid l) w2 = Ret w3 ∧ cluster_rep w3 S3 ∧
    (∀ b, b ≠ l → S3 !! b = S !! b) ∧
    ∀ k, chunkIndex n k = Z.to_nat cid → valueAt S3 k l = valueAt S k a.
Proof.
  intros Hl Hlen Hreps.
  assert (∀ a, a ∈ holdersOf g cid → 0 < reported S cid a < freeSpace) as Hreport.
  { intros a Ha. destruct (Hreps a Ha) as (As & h & x & HSa & Hx & Hsz). unfold reported. rewrite HSa. cbn [fst].
    rewrite (rp_chunk _ _ _ _ Hx). lia. }
  destruct (duplicateStep_sim w S l s Bs g n cid Hl pick []) as (a0 & w1 & s1 & Ha0 & E1 & Hs1 & Hr1 & Hl1 & Hw1 & Hj1).
  { intros a Ha. specialize (Hreport a Ha). lia. }
  destruct (Z.eqb_spec (reported S cid a0) 0) as [E0|_]; [specialize (Hreport a0 Ha0); lia|].
  pose proof (lk_others _ _ _ _ _ _ _ _ Hl) as Hself. pose proof (lk_chunk _ _ _ _ _ _ _ _ Hl) as Hcid.
  pose proof (lk_number _ _ _ _ _ _ _ _ Hl) as Hn.
  assert (zlen (emptied s Bs cid) = n) as HB.
  { unfold emptied, zlen. rewrite length_insert. apply (lk_sized _ _ _ _ _ _ _ _ Hl l _ (lk_here _ _ _ _ _ _ _ _ Hl)). }
  destruct (duplicatorStep_sim w1 (<[l := (emptied s Bs cid, g)]> S) l s1 (emptied s Bs cid) g cid pick' [])
    as (a & w2 & E2 & Ha & Hw2 & Hj2); try done; try lia; try (apply Hl).
  { apply lookup_insert_eq. }
  { intros b Hb. rewrite lookup_insert_ne by (by intros ->). destruct (Hreps b Hb) as (As & h & x & -> & _). by eexists. }
  destruct (Hreps a Ha) as (As & h & x & HSa & Hx & Hsz). assert (a ≠ l) as Hal by (by intros ->).
  destruct (cluster_rep_at w2 _ a (As, h) Hw2) as (sa & Hsa & Hra); [by rewrite lookup_insert_ne|].
  assert (replica n (Z.to_nat cid) (emptied s Bs cid) (new_abs (chunkSize (s_core s)))) as Hnew.
  { split; [|done|apply write_only_new|constructor|apply Forall_forall; intros kv Hin; cbn in Hin].
    - apply list_lookup_insert_eq. eapply lookup_lt_Some, (lk_absent _ _ _ _ _ _ _ _ Hl).
    - rewrite map_to_list_empty in Hin. by apply not_elem_of_nil in Hin. }
  destruct (transfer_sim w2 (<[l := (emptied s Bs cid, g)]> S) n cid l (s_core sa) As (emptied s Bs cid) g x (new_abs (chunkSize (s_core s)))) as (w3 & S3 & E3 & Hw3 & Hoth & Hval);
    [exact Hw2|apply Hcid|apply Hra|exact Hx|apply lookup_insert_eq|done|
     change (zlen (enc_log (a_log (new_abs _)))) with 0; cbn [new_abs a_size]; lia|].
  exists w1, w2, w3, S3, a, sa. split_and!; try done.
  - by rewrite Hj2, Hj1.
  - intros b Hb. by rewrite Hoth, lookup_insert_ne.
  - intros k Hk. rewrite Hval by done. unfold valueAt. rewrite lookup_insert_eq, HSa. cbn [mbind option_bind].
    rewrite (replica_value n _ _ _ g k Hnew Hk), (replica_value n _ As x h k Hx Hk). cbn [new_abs a_map].
    rewrite lookup_empty. by destruct (a_map x !! k).
Qed.

(** When the holders of a chunk cannot be reached, a duplication makes the
    chunk present and empty, and queues no transfer: the server becomes a holder
    without the data. *)
Theorem unreachable_duplication_is_empty `{Json} `{GommapLaws} w S l s Bs g n cid pick q :
  lacks w S l s Bs g n cid → (∀ a, a ∈ holdersOf g cid → S !! a = None) →
  ∃ w', runAt w l (duplicateStep pick cid q) = Ret (q, w') ∧
    cluster_rep w' (<[l := (emptied s Bs cid, g)]> S) ∧
    ∀ k, chunkIndex n k = Z.to_nat cid → valueAt (<[l := (emptied s Bs cid, g)]> S) k l = None.
Proof.
  intros Hl Hdown. assert (∀ a, a ∈ holdersOf g cid → reported S cid a = 0) as Hreport.
  { intros a Ha. unfold reported. by rewrite Hdown. }
  destruct (duplicateStep_sim w S l s Bs g n cid Hl pick q) as (a & w1 & s1 & Ha & E1 & _ & _ & _ & Hw1 & _).
  { intros a Ha. by rewrite Hreport. }
  rewrite (Hreport a Ha), app_nil_r in E1. exists w1. split_and!; [done|done|]. intros k Hk.
  unfold valueAt. rewrite lookup_insert_eq. cbn [mbind option_bind]. unfold nodeValue, spec_get. cbn [fst].
  assert (zlen (emptied s Bs cid) = n) as ->.
  { unfold emptied, zlen. rewrite length_insert. apply (lk_sized _ _ _ _ _ _ _ _ Hl l _ (lk_here _ _ _ _ _ _ _ _ Hl)). }
  rewrite Hk. unfold emptied.
  rewrite list_lookup_insert_eq by (eapply lookup_lt_Some, (lk_absent _ _ _ _ _ _ _ _ Hl)). apply lookup_empty.
Qed.
