(* ===== verification/LoadRebalance.v ===== *)
(** * A turn of the load rebalancer

    What a turn of the loop of [StartRebalance]
    ([src/dist/rebalance/rebalance.go]) does to the chunks of the server and to
    the queue of the releaser. *)
From Stdlib Require Import Floats.SpecFloat.
From S2P Require Import Prelude.
From S2P Require Import Store.
From S2P Require Import PMap.
From S2P Require Import PMapSpec.
From S2P Require Import PMapIter.
From S2P Require Import UdpHeartbeat.
From S2P Require Import TcpMessage.
From S2P Require Import Broker.
From S2P Require Import Core.
From S2P Require Import CoreProps.
From S2P Require Import CoreFiles.
From S2P Require Import ServerGroup.
From S2P Require Import ServerGroupSpec.
From S2P Require Import Remote.
From S2P Require Import Heartbeat.
From S2P Require Import Server.
From S2P Require Import ServerProps.
From S2P Require Import Client.
From S2P Require Import KVNet.
From S2P Require Import Cluster.
From S2P Require Import Float64.
From S2P Require Import Rebalance.
From S2P Require Import RebalanceProps.
From S2P Require Import Duplication.

Section turn.
Context `{Json} `{GommapLaws} (g : group) (S : netmap) (red : Z).

(** The state that a turn needs: the rebalancer's chunks, its view of the group
    and the network. *)
Record rb_rep (r : rebalancer) (As : list (option abs)) (e : env cluster) : Prop := RbRep {
  rb_group : sg_rep (e_sg e) g;
  rb_red : redundancy (e_sg e) = red;
  rb_net : cluster_rep (e_net e) S;
  rb_sized : sized S (numChunks (e_sg e));
  rb_chunks : core_rep (rb_core r) As;
  rb_counted : counted (rb_core r) As;
  rb_number : zlen As = numChunks (e_sg e);
  rb_max : zlen As ≤ 2 ^ 32
}.

Context (Hfit : ∀ i a, a ∈ holdersOf g i → reported S i a ≤ freeSpace).

(** The chunk [i] has holders, but fewer than needed. *)
Definition scarce (i : Z) : Prop := (0 < size (holdersOf g i))%nat ∧ Z.of_nat (size (holdersOf g i)) < red.

(** A duplication of a chunk that is not here: it becomes present if it has a
    holder. *)
Lemma duplicate_rb r As e i pick :
  rb_rep r As e → 0 ≤ i → As !! Z.to_nat i = Some None →
  ∃ r' e' o, duplicate pick r i e = Ret (r', e') ∧ rb_rep r' (<[Z.to_nat i := o]> As) e' ∧
    (is_Some o ↔ (0 < size (holdersOf g i))%nat) ∧ releaseChannel r' = releaseChannel r.
Proof using All.
  intros Hr Hi Hno. pose proof Hr as [Hg Hred Hnet Hsz Hc Hcnt Hn Hmax].
  assert (0 ≤ i < zlen As) as Hi' by (apply lookup_lt_Some in Hno; unfold zlen; lia).
  destruct (decide (holdersOf g i = ∅)) as [Hem|Hne].
  - exists r, e, None. split_and!; [|by rewrite list_insert_id|rewrite Hem, size_empty; split; [by intros [? [=]]|lia]|done].
    unfold duplicate, GetAnyHolder. msimpl.
    pose proof (NumHolders_sim _ _ Hg i) as Hnum. rewrite Hem, size_empty in Hnum. unfold NumHolders in Hnum.
    destruct (index _ i) as [c| |]; bsimpl; [|by discriminate Hnum; lia..].
    assert (zlen (holders c) = 0) as -> by (specialize (Hnum ltac:(lia)); by injection Hnum). done.
  - destruct (duplicate_cluster e S r As g i pick) as (a & r' & e' & Ha & E & Hg' & Hv & Enet & Hsize & Hrel & Hres); try done.
    cbv zeta in Hres. rewrite decide_False in Hres; cycle 1.
    { specialize (Hfit i a Ha). unfold maxUint64, freeSpace in *. lia. }
    destruct Hres as (Hc' & Hcnt' & _). exists r', e', (Some (new_abs (chunkSize (rb_core r)))).
    destruct Hv as (Hptr & Hl & _ & Hred'). split_and!; [done| | |done].
    + split; try done; [congruence|by rewrite Enet|by rewrite (proj1 Hptr)| |];
        unfold zlen; rewrite length_insert; [by rewrite (proj1 Hptr)|exact Hmax].
    + split; [intros _|by eexists]. assert (size (holdersOf g i) ≠ 0%nat); [|lia].
      by intros ?%size_empty_inv%leibniz_equiv.
Qed.

(** No chunk that is present is lost. *)
Definition grows (As As' : list (option abs)) : Prop :=
  length As' = length As ∧ ∀ j x, As !! j = Some (Some x) → As' !! j = Some (Some x).

Lemma grows_refl As : grows As As.
Proof. done. Qed.
Lemma grows_trans As1 As2 As3 : grows As1 As2 → grows As2 As3 → grows As1 As3.
Proof. intros [L12 H12] [L23 H23]. split; [congruence|auto]. Qed.
Lemma grows_insert As i o : As !! i = Some None → grows As (<[i := o]> As).
Proof.
  intros Hi. split; [by rewrite length_insert|]. intros j x Hj. destruct (decide (i = j)) as [->|Hne]; [congruence|].
  by rewrite list_lookup_insert_ne.
Qed.

Lemma rb_lookup r As e i : rb_rep r As e → 0 ≤ i < numChunks (e_sg e) → ∃ o, As !! Z.to_nat i = Some o.
Proof.
  intros Hr Hi. apply lookup_lt_is_Some_2. pose proof (rb_number _ _ _ Hr). unfold zlen in *. lia.
Qed.

Lemma keepRedundancy_sim pick n : ∀ i r As e,
  rb_rep r As e → 0 ≤ i → i + Z.of_nat n = zlen As →
  ∃ r' e' As', keepRedundancy pick r i n e = Ret (r', e') ∧ rb_rep r' As' e' ∧ grows As As' ∧
    releaseChannel r' = releaseChannel r ∧
    ∀ j, i ≤ j < zlen As → scarce j → ∃ x, As' !! Z.to_nat j = Some (Some x).
Proof using All.
  induction n as [|n IH]; intros i r As e Hr Hi Hn.
  { exists r, e, As. split_and!; [done|done|apply grows_refl|done|]. intros j Hj. lia. }
  cbn [keepRedundancy]. msimpl. pose proof (rb_number _ _ _ Hr) as Hnum.
  rewrite (NumHolders_sim _ _ (rb_group _ _ _ Hr)) by lia. msimpl. rewrite (rb_red _ _ _ Hr).
  destruct (rb_lookup r As e i Hr) as [o Ho]; [lia|].
  assert (∃ r1 e1 As1, (if Z.of_nat (size (holdersOf g i)) <? red
      then here ← lift (IsPresent (rb_core r) i); if (here : bool) then mret r else duplicate (pick i) r i
      else mret r) e = Ret (r1, e1) ∧ rb_rep r1 As1 e1 ∧ grows As As1 ∧ releaseChannel r1 = releaseChannel r ∧
      (scarce i → ∃ x, As1 !! Z.to_nat i = Some (Some x))) as (r1 & e1 & As1 & -> & Hr1 & Hg1 & Hrel1 & Hs1).
  { destruct (Z.ltb_spec (Z.of_nat (size (holdersOf g i))) red); cycle 1.
    { exists r, e, As. split_and!; [done|done|apply grows_refl|done|]. intros [_ ?]. lia. }
    msimpl. rewrite (IsPresent_sim _ As i o (rb_chunks _ _ _ Hr) Hi Ho). msimpl. destruct o as [x|].
    - rewrite bool_decide_true by (by eexists). exists r, e, As. split_and!; [done|done|apply grows_refl|done|eauto].
    - rewrite bool_decide_false by (by intros [? [=]]).
      destruct (duplicate_rb r As e i (pick i) Hr Hi Ho) as (r1 & e1 & o1 & E & Hr1 & Ho1 & Hrel).
      exists r1, e1, (<[Z.to_nat i := o1]> As). split_and!; [done|done|by apply grows_insert|done|].
      intros [Hpos _]. apply Ho1 in Hpos as [x ->]. exists x. apply list_lookup_insert_eq. by eapply lookup_lt_Some. }
  msimpl. assert (zlen As1 = zlen As) as Hz by (unfold zlen; by rewrite (proj1 Hg1)).
  destruct (IH (i + 1) r1 As1 e1 Hr1) as (r2 & e2 & As2 & E2 & Hr2 & Hg2 & Hrel2 & Hs2); [lia|lia|].
  exists r2, e2, As2. split_and!; [done|done|by eapply grows_trans|congruence|].
  intros j Hj Hsc. destruct (decide (j = i)) as [->|Hne]; [|apply Hs2; [lia|done]].
  destruct (Hs1 Hsc) as [x Hx]. exists x. by apply Hg2.
Qed.

End turn.

(** The chunk that is given up. *)
Lemma overRedundant_sim sg g c As l :
  sg_rep sg g → core_rep c As → zlen As = numChunks sg → Forall (λ k, aID k ∈ present_ids 0 As) l →
  ∃ o, overRedundant sg c l = Ret o ∧
    ∀ i, o = Some i → (∃ x, As !! Z.to_nat i = Some (Some x)) ∧ redundancy sg < Z.of_nat (size (holdersOf g i)).
Proof.
  intros Hg Hc Hn. induction 1 as [|k l Hk _ IH]; [by exists None|]. cbn [overRedundant].
  destruct (present_ids_spec As 0 (aID k) Hk) as (Hpos & x & Hx). rewrite Z.sub_0_r in Hx.
  rewrite (IsPresent_sim _ As _ _ Hc Hpos Hx). bsimpl. rewrite bool_decide_true by (by eexists). cbn [negb].
  rewrite (NumHolders_sim _ _ Hg) by (rewrite <- Hn; apply lookup_lt_Some in Hx; unfold zlen; lia).
  bsimpl. destruct (Z.ltb_spec (redundancy sg) (Z.of_nat (size (holdersOf g (aID k))))); [|exact IH].
  eexists. split; [reflexivity|]. intros i [= <-]. eauto.
Qed.

(** ** The wait *)

Lemma average_number n red servers :
  Z.abs n < 2 ^ 63 → Z.abs red < 2 ^ 63 → 0 < servers < 2 ^ 63 → isNaN (average n red servers) = false.
Proof.
  intros Hn Hr Hs. unfold average. destruct (of_int_finite servers Hs) as (s & m & e & ->).
  apply (fdiv_number (64 + 64 + 1)). apply fmul_below; [by apply of_int_below..|lia].
Qed.

(** The seconds are a number above 0 and at most 3, of the usual precision. *)
Definition goodWait (w : float64) : Prop := narrow w ∧
  flt (of_int 0) w = true ∧ fle w (of_int maxRebalanceWaitSeconds) = true.

Lemma timetowait_good known avg : Z.abs known < 2 ^ 63 → isNaN avg = false → goodWait (timetowait (of_int known) avg).
Proof.
  intros Hk Ha. unfold goodWait, timetowait. set (w := fadd (fdiv _ _) _).
  assert (narrow w) as Hnw.
  { apply fadd_narrow; [|by vm_compute]. unfold fdiv, SFdiv. change (of_int 1) with (S754_finite false 4503599627370496 (-52)).
    destruct (fsub _ _) as [| | |s m e]; try done. pose proof (div_core_nonneg 4503599627370496 (-52) m e) as Hq.
    destruct (SFdiv_core_binary _ _ _ _ _ _) as [[q e'] l]. by apply round_narrow. }
  assert (isNaN w = false) as Hw.
  { assert (∃ s m e, fdiv (of_int 95) (of_int 100) = S754_finite s m e) as (s2 & m2 & e2 & E2) by (vm_compute; eauto).
    assert (below 64 (of_int 1)) as H1 by (apply of_int_below; lia).
    unfold w. rewrite E2. apply (fadd_number _ 64); [|done].
    destruct (of_int_finite 1 ltac:(lia)) as (s1 & m1 & e1 & E1). rewrite E1 at 1. apply finite_fdiv_number.
    apply (fsub_number _ (64 + 2)); [by apply fmul_number|]. apply fadd_below; [by apply of_int_below|done|lia]. }
  assert (narrow (of_int maxRebalanceWaitSeconds) ∧ flt (of_int 0) (of_int maxRebalanceWaitSeconds) = true ∧
    fle (of_int maxRebalanceWaitSeconds) (of_int maxRebalanceWaitSeconds) = true) as H3 by (by vm_compute).
  clearbody w. rewrite (fle_or_lt w (of_int 0)) by done. destruct (flt (of_int 0) w) eqn:H0; cbn [negb orb]; [|done].
  destruct (flt (of_int maxRebalanceWaitSeconds) w) eqn:Hm; [done|]. split_and!; [done|done|]. by rewrite (fle_or_lt w), Hm.
Qed.

(** As a duration it lies between 0 and 3 seconds. *)
Lemma sleepTime_range w : goodWait w → 0 ≤ sleepTime w ≤ maxRebalanceWaitSeconds * second.
Proof.
  intros (Hn & Hpos & Hle). unfold sleepTime. change (of_int second) with (S754_finite false 8388608000000000 (-23)).
  change (of_int maxRebalanceWaitSeconds) with (S754_finite false 6755399441055744 (-51)) in Hle.
  unfold fle, SFleb in Hle. destruct w as [s|[]| |[] m e]; try done.
  cbn [SFcompare] in Hle. cbn [narrow] in Hn.
  assert (e ≤ -51 ∧ Zpos m ≤ 3 * 2 ^ (- e)) as [He Hm].
  { destruct (Z.compare_spec e (-51)) as [->|Hlt|]; [split; [done|]|split; [lia|]|done].
    - change (3 * 2 ^ (- -51)) with (Zpos 6755399441055744). remember 6755399441055744%positive as M eqn:EM. clear EM.
      pose proof (Pos.compare_spec m M) as Hc. unfold Pos.compare in Hc. destruct Hc; [subst; lia|lia|done].
    - etrans; [apply Z.lt_le_incl, Hn|]. assert (2 ^ 52 ≤ 2 ^ (- e)) by (apply Z.pow_le_mono_r; lia). lia. }
  apply (round_cut (3 * second)); [by vm_compute|lia|]. rewrite Pos2Z.inj_mul. split; [lia|].
  replace (- (-23 + e)) with (23 + - e) by lia. rewrite Z.pow_add_r by lia. unfold second. change (2 ^ 23) with 8388608. lia.
Qed.

(** The wait can be nothing at all: with 20 chunks, a redundancy of 2 and 19
    servers, a server with 2 chunks computes some 2e-16 seconds. *)
Example no_wait : sleepTime (timetowait (of_int 2) (average 20 2 19)) = 0.
Proof. by vm_compute. Qed.

(** C20. A turn of the load rebalancer does not panic; it loses no chunk that the
    server holds; every chunk that has fewer holders than the redundancy, and at
    least one, becomes present; and it queues at most one chunk for release, one
    that the server holds and that has more holders than the redundancy. Then it
    sleeps for at most 3 seconds, possibly not at all ([no_wait]). Each holder
    that the server knows and that is up has the chunk, of at most 1 GB; the core
    counts its chunks right; and there are fewer than 2^31 chunks. *)
Theorem rebalance_turn_is_safe `{Json} `{GommapLaws} g S red pick chosen r As e :
  rb_rep g S red r As e → 0 < zlen As < 2 ^ 31 → (∀ i a, a ∈ holdersOf g i → reported S i a ≤ freeSpace) →
  0 < Z.of_nat (size g) < 2 ^ 63 → Z.abs red < 2 ^ 63 →
  ∃ r' e' As' released wait, rebalanceTurn pick chosen r e = Ret ((r', wait), e') ∧ core_rep (rb_core r') As' ∧
    grows As As' ∧
    (∀ i, 0 ≤ i < zlen As → scarce g red i → ∃ x, As' !! Z.to_nat i = Some (Some x)) ∧
    releaseChannel r' = releaseChannel r ++ option_list released ∧
    (∀ i, released = Some i → (∃ x, As' !! Z.to_nat i = Some (Some x)) ∧ red < Z.of_nat (size (holdersOf g i))) ∧
    0 ≤ wait ≤ 3 * second.
Proof.
  intros Hr Hpos Hfit Hsize Hredb. unfold rebalanceTurn. msimpl. pose proof (rb_number _ _ _ _ _ _ Hr) as Hnum.
  assert (0 ≤ sleepTime (timetowait (of_int (PresentChunks (rb_core r)))
    (average (numChunks (e_sg e)) (redundancy (e_sg e)) (NumServers (e_sg e)))) ≤ 3 * second) as Hwait.
  { pose proof (rb_max _ _ _ _ _ _ Hr). apply sleepTime_range. apply timetowait_good.
    - unfold PresentChunks. rewrite (rb_counted _ _ _ _ _ _ Hr). pose proof (count_range As). lia.
    - rewrite (rb_red _ _ _ _ _ _ Hr), (NumServers_sim _ _ (rb_group _ _ _ _ _ _ Hr)). apply average_number; lia. }
  revert Hwait. set (wait := sleepTime _). intros [Hw0 Hw3].
  destruct (keepRedundancy_sim g S red Hfit pick (Z.to_nat (numChunks (e_sg e))) 0 r As e Hr)
    as (r1 & e1 & As1 & -> & Hr1 & Hg1 & Hrel1 & Hs1); [lia|lia|]. msimpl.
  pose proof (rb_number _ _ _ _ _ _ Hr1) as Hnum1.
  assert (zlen As1 = zlen As) as Hz by (unfold zlen; by rewrite (proj1 Hg1)).
  destruct (flt _ _); [|destruct (fle _ _)].
  - msimpl. cbv zeta. rewrite s32_small by lia. rewrite check_true by (apply Z.ltb_lt; lia). msimpl.
    pose proof (Z.mod_pos_bound chosen (numChunks (e_sg e1)) ltac:(lia)) as Hc.
    destruct (rb_lookup g S red r1 As1 e1 _ Hr1 Hc) as [o Ho].
    rewrite (IsPresent_sim _ As1 _ o (rb_chunks _ _ _ _ _ _ Hr1) (proj1 Hc) Ho). msimpl. destruct o as [x|].
    { rewrite bool_decide_true by (by eexists). exists r1, e1, As1, None, wait. cbn. rewrite app_nil_r.
      split_and!; try done. apply Hr1. }
    rewrite bool_decide_false by (by intros [? [=]]). msimpl.
    rewrite (NumHolders_sim _ _ (rb_group _ _ _ _ _ _ Hr1)) by done. msimpl.
    destruct (Z.of_nat _ <=? _); msimpl; cycle 1.
    { exists r1, e1, As1, None, wait. cbn. rewrite app_nil_r. split_and!; try done. apply Hr1. }
    destruct (duplicate_rb g S red Hfit r1 As1 e1 _ (pick (chosen mod numChunks (e_sg e1))) Hr1 (proj1 Hc) Ho)
      as (r2 & e2 & o2 & -> & Hr2 & _ & Hrel2). msimpl.
    pose proof (grows_insert As1 _ o2 Ho) as Hg2.
    eexists r2, e2, _, None, wait. cbn. rewrite app_nil_r. split_and!; [done|apply Hr2|by eapply grows_trans| |congruence|done|done|done].
    intros i Hi Hsc. destruct (Hs1 i Hi Hsc) as [x Hx]. exists x. by apply Hg2.
  - unfold getNow. msimpl.
    destruct (PresentChunksList_sim (rb_core r1) As1 (net_now (e_net e1)) (rb_chunks _ _ _ _ _ _ Hr1)
      (rb_counted _ _ _ _ _ _ Hr1)) as (l & c' & -> & Hl & _ & Hc'). msimpl.
    destruct (overRedundant_sim (e_sg e1) g c' As1 l (rb_group _ _ _ _ _ _ Hr1) Hc' Hnum1) as (o & E & Ho).
    { rewrite <- Hl. apply Forall_forall. intros k Hk. by apply list_elem_of_fmap_2. }
    cbn [set_rcore rb_core]. rewrite E. msimpl. rewrite (rb_red _ _ _ _ _ _ Hr1) in Ho.
    destruct o as [i|]; msimpl; eexists _, _, As1; [exists (Some i), wait|exists None, wait];
      (split; [reflexivity|]); cbn; rewrite ?app_nil_r, ?Hrel1; by split_and!.
  - exists r1, e1, As1, None, wait. cbn. rewrite app_nil_r. split_and!; try done. apply Hr1.
Qed.
