(* ===== verification/Queues.v ===== *)
(** * The goroutines of the rebalancer ([src/dist/rebalance/rebalance.go])

    [StartRebalance] runs three loops: the load rebalancer, the duplicator and the
    releaser.  The load rebalancer hands chunks to the releaser over a channel of
    1024 places.  A duplication starts a goroutine that sleeps for four seconds, so
    that the heartbeats announce the chunk, and then hands it to the duplicator
    over another such channel; the duplicator starts another duplication when no
    holder accepts.  A channel that is full blocks the sender.

    The bodies of the loops are those of [Rebalance]; here they are interleaved,
    with each other, with the sleeping goroutines, with the clock and with
    everything else that changes the chunks and the group. *)
From stdpp Require Import relations.
From S2P Require Import Prelude.
From S2P Require Import Float64.
From S2P Require Import Store.
From S2P Require Import UdpHeartbeat.
From S2P Require Import Broker.
From S2P Require Import Core.
From S2P Require Import ServerGroup.
From S2P Require Import Remote.
From S2P Require Import Rebalance.

(** [const duplicationWaitTime = time.Second * 4], and the places of a channel. *)
Definition duplicationWaitTime : Z := 4 * second.
Definition channelSize : nat := 1024.

(** Where the load rebalancer is: at the head of its loop, at the channel of the
    releaser with a chunk, asleep, or past the loop. *)
Inductive loader := L_loop | L_release (cid : Z) (wait : Z) | L_sleep (wait : Z) | L_end.

(** Where the duplicator is: at the head of its loop, at its channel, or past the
    loop. *)
Inductive duplicator := D_loop | D_receive | D_end.

Record goroutines {W : Type} := Go {
  g_core : Core;
  g_env : env W;
  (** The sleeping goroutines: when each was started, and its chunk. *)
  sleepers : list (time * Z);
  (** The channels; a chunk of the duplicator keeps the time of its goroutine. *)
  duplicating : list (time * Z);
  releasing : list Z;
  load : loader;
  dupl : duplicator;
  shouldStop : bool
}.
Arguments goroutines : clear implicits.

Section goroutines.
Context {W : Type} `{Network W} `{Gommap}.
Abbreviation clock e := (net_now (e_net e)).

(** The goroutines that a body started: their chunks are what it added to an empty
    queue. *)
Definition started (t : time) (r : rebalancer) : list (time * Z) := map (pair t) (duplicateChannel r).

(** The actions.  [a_taken] carries the start of the sleeper and the time at which
    the duplicator begins. *)
Inductive action :=
  | a_start (l : list (time * Z))
  | a_taken (t : time) (cid : Z) (now : time) (l : list (time * Z))
  | a_release (cid : Z)
  | a_released (cid : Z)
  | a_stop
  | a_internal.

Inductive go_step : goroutines W → action → goroutines W → Prop :=
  (** The load rebalancer. *)
  | s_turn pick chosen c e sl q rq d r wait e' :
      rebalanceTurn pick chosen (mkReb c [] []) e = Ret ((r, wait), e') → clock e ≤ clock e' →
      go_step (Go _ c e sl q rq L_loop d false) (a_start (started (clock e) r))
        (Go _ (rb_core r) e' (sl ++ started (clock e) r) q rq
           (match releaseChannel r with [] => L_sleep wait | cid :: _ => L_release cid wait end) d false)
  | s_release c e sl q rq d b cid wait :
      (length rq < channelSize)%nat →
      go_step (Go _ c e sl q rq (L_release cid wait) d b) (a_release cid) (Go _ c e sl q (rq ++ [cid]) (L_sleep wait) d b)
  | s_wake c e sl q rq d b wait : go_step (Go _ c e sl q rq (L_sleep wait) d b) a_internal (Go _ c e sl q rq L_loop d b)
  | s_load_end c e sl q rq d : go_step (Go _ c e sl q rq L_loop d true) a_internal (Go _ c e sl q rq L_end d true)
  (** A sleeping goroutine sends its chunk. *)
  | s_send c e sl1 sl2 q rq l d b t cid :
      t + duplicationWaitTime ≤ clock e → (length q < channelSize)%nat →
      go_step (Go _ c e (sl1 ++ (t, cid) :: sl2) q rq l d b) a_internal (Go _ c e (sl1 ++ sl2) (q ++ [(t, cid)]) rq l d b)
  (** The duplicator. *)
  | s_dup_loop c e sl q rq l b :
      go_step (Go _ c e sl q rq l D_loop b) a_internal (Go _ c e sl q rq l (if b then D_end else D_receive) b)
  | s_duplicate pick c e sl q rq l b t cid r e' :
      duplicatorTurn pick (mkReb c [cid] []) e = Ret (r, e') → clock e ≤ clock e' →
      go_step (Go _ c e sl ((t, cid) :: q) rq l D_receive b) (a_taken t cid (clock e) (started (clock e) r))
        (Go _ (rb_core r) e' (sl ++ started (clock e) r) q rq l D_loop b)
  (** The releaser, which never ends. *)
  | s_releaser others c e sl q rq l d b cid r e' :
      releaserTurn others (mkReb c [] [cid]) e = Ret (r, e') → clock e ≤ clock e' →
      go_step (Go _ c e sl q (cid :: rq) l d b) (a_released cid) (Go _ (rb_core r) e' sl q rq l d b)
  (** The rest of the server, and the clock. *)
  | s_stop c e sl q rq l d : go_step (Go _ c e sl q rq l d false) a_stop (Go _ c e sl q rq l d true)
  | s_others c c' e e' sl q rq l d b :
      clock e ≤ clock e' → go_step (Go _ c e sl q rq l d b) a_internal (Go _ c' e' sl q rq l d b).

Inductive go_run : goroutines W → list action → goroutines W → Prop :=
  | go_nil s : go_run s [] s
  | go_snoc s l s1 a s2 : go_run s l s1 → go_step s1 a s2 → go_run s (l ++ [a]) s2.

Definition go_init (c : Core) (e : env W) : goroutines W := Go _ c e [] [] [] L_loop D_loop false.

(** ** What is in the channels *)

(** The goroutines started, those whose chunk was taken, and the chunks handed to
    and taken by the releaser. *)
Definition starts (l : list action) : list (time * Z) :=
  concat (map (λ a, match a with a_start x | a_taken _ _ _ x => x | _ => [] end) l).
Definition takes (l : list action) : list (time * Z) :=
  omap (λ a, match a with a_taken t cid _ _ => Some (t, cid) | _ => None end) l.
Definition releases (l : list action) : list Z := omap (λ a, match a with a_release cid => Some cid | _ => None end) l.
Definition released (l : list action) : list Z := omap (λ a, match a with a_released cid => Some cid | _ => None end) l.

(** A duplication is taken four seconds after its start at the earliest. *)
Definition waited (a : action) : Prop :=
  match a with a_taken t _ now _ => t + duplicationWaitTime ≤ now | _ => True end.

Record queues_ok (l : list action) (s : goroutines W) : Prop := QueuesOk {
  qo_dup : (length (duplicating s) ≤ channelSize)%nat;
  qo_rel : (length (releasing s) ≤ channelSize)%nat;
  qo_all : starts l ≡ₚ takes l ++ duplicating s ++ sleepers s;
  qo_fifo : releases l = released l ++ releasing s;
  qo_awake : Forall (λ x, x.1 + duplicationWaitTime ≤ clock (g_env s)) (duplicating s);
  qo_waited : Forall waited l
}.

Lemma starts_snoc l a : starts (l ++ [a]) = starts l ++ starts [a].
Proof. unfold starts. by rewrite map_app, concat_app. Qed.
Lemma takes_snoc l a : takes (l ++ [a]) = takes l ++ takes [a].
Proof. apply omap_app. Qed.
Lemma releases_snoc l a : releases (l ++ [a]) = releases l ++ releases [a].
Proof. apply omap_app. Qed.
Lemma released_snoc l a : released (l ++ [a]) = released l ++ released [a].
Proof. apply omap_app. Qed.

Lemma awake_later (q : list (time * Z)) t t' :
  Forall (λ x, x.1 + duplicationWaitTime ≤ t) q → t ≤ t' → Forall (λ x, x.1 + duplicationWaitTime ≤ t') q.
Proof. intros HF Ht. eapply Forall_impl; [exact HF|]. cbn. lia. Qed.

Lemma queues_init c e : queues_ok [] (go_init c e).
Proof. split; cbn; try done; unfold channelSize; lia. Qed.

Lemma queues_step l s a s' : queues_ok l s → go_step s a s' → queues_ok (l ++ [a]) s'.
Proof.
  intros [Hd Hr Hall Hf Ha Hw] Hs.
  assert (waited a) as Hwa by (destruct Hs; cbn in *; try done; by apply Forall_cons in Ha as [? _]).
  destruct Hs; cbn in *; split; cbn [g_env sleepers duplicating releasing];
    rewrite ?starts_snoc, ?takes_snoc, ?releases_snoc, ?released_snoc; cbn [starts takes releases released map concat omap list_omap];
    rewrite ?app_nil_r; try done; try (apply Forall_app; by split; [|apply Forall_singleton]).
  all: try (by eapply awake_later).
  all: rewrite ?length_app; cbn [length]; try lia.
  - by rewrite Hall, <- !app_assoc.
  - by rewrite Hf, <- app_assoc.
  - rewrite Hall, <- app_assoc. do 2 apply Permutation_app_head. cbn. symmetry. apply Permutation_middle.
  - rewrite Hall, <- !app_assoc. cbn. by rewrite <- app_assoc.
  - apply Forall_cons in Ha as [_ Ha]. by eapply awake_later.
  - by rewrite Hf, <- app_assoc.
Qed.

Lemma queues_run c e l s : go_run (go_init c e) l s → queues_ok l s.
Proof.
  remember (go_init c e) as s0 eqn:E. induction 1 as [s|s l s1 a s2 _ IH Hs]; subst; [apply queues_init|].
  eapply queues_step; [by apply IH|done].
Qed.

(** The channels of the rebalancer lose nothing.  However the loops, the
    sleeping goroutines, the clock and the rest of the server are interleaved:
    the channels never hold more than 1024 chunks; a duplication that was started
    is asleep, in the channel or was taken by the duplicator, exactly once; the
    releaser gets the chunks in the order in which they were given up; and no
    transfer is requested within four seconds of the start of the duplication,
    the time that the heartbeats have to announce the chunk. *)
Theorem queues_lose_nothing c e l s :
  go_run (go_init c e) l s →
  (length (duplicating s) ≤ channelSize)%nat ∧ (length (releasing s) ≤ channelSize)%nat ∧
  starts l ≡ₚ takes l ++ duplicating s ++ sleepers s ∧ releases l = released l ++ releasing s ∧ Forall waited l.
Proof. intros [H1 H2 H3 H4 _ H6]%queues_run. by split_and!. Qed.

(** A full channel of the releaser holds the load rebalancer up only until the
    releaser has taken a chunk. *)
Theorem release_unblocks c0 e0 l s cid wait :
  go_run (go_init c0 e0) l s → load s = L_release cid wait →
  (∀ k, ∃ others r e', releaserTurn others (mkReb (g_core s) [] [k]) (g_env s) = Ret (r, e') ∧ clock (g_env s) ≤ clock e') →
  ∃ l' s', go_run s l' s' ∧ load s' = L_sleep wait ∧ (length l' ≤ 2)%nat ∧ a_release cid ∈ l'.
Proof.
  intros Hrun Hl Ht. pose proof (qo_rel _ _ (queues_run _ _ _ _ Hrun)) as Hle. destruct s as [c e sl q rq ld d b]. cbn in *. subst ld.
  destruct (decide (length rq < channelSize)%nat) as [Hlt|Hge].
  { exists ([] ++ [a_release cid]). eexists. split_and!; [eapply go_snoc; [apply go_nil|by apply s_release]|done|cbn; lia|by left]. }
  destruct rq as [|k rq]; [cbn in Hge; unfold channelSize in Hge; lia|]. destruct (Ht k) as (others & r & e' & E & Hck). cbn in Hle.
  exists (([] ++ [a_released k]) ++ [a_release cid]). eexists.
  split_and!; [eapply go_snoc; [eapply go_snoc; [apply go_nil|eapply s_releaser; [exact E|exact Hck]]|apply s_release; lia]|done|cbn; lia|].
  apply elem_of_app. right. by left.
Qed.

(** ** Stopping *)

(** What the duplicator may still take after the stop. *)
Definition credit (d : duplicator) : nat := match d with D_receive => 1 | _ => 0 end.

Lemma stopped_step s a s' :
  shouldStop s = true → go_step s a s' →
  shouldStop s' = true ∧ (length (takes [a]) + credit (dupl s') ≤ credit (dupl s))%nat ∧ (∀ x, a ≠ a_start x).
Proof. intros Hb Hs. destruct Hs; cbn in *; subst; try done; split_and!; try done; try lia. Qed.

(** After the stop the load rebalancer makes no turn and the duplicator takes one
    chunk at most. *)
Theorem stop_ends_rebalancing s l s' :
  go_run s l s' → shouldStop s = true → (length (takes l) ≤ 1)%nat ∧ ∀ x, a_start x ∉ l.
Proof.
  intros Hrun Hb. assert (shouldStop s' = true ∧ (length (takes l) + credit (dupl s') ≤ credit (dupl s))%nat ∧ ∀ x, a_start x ∉ l) as (_ & Hc & Hx).
  { induction Hrun as [s|s l s1 a s2 _ IH Hs]; [split_and!; [done|cbn; lia|intros x; apply not_elem_of_nil]|].
    destruct (IH Hb) as (Hb1 & Hc1 & Hx1). destruct (stopped_step s1 a s2 Hb1 Hs) as (Hb2 & Hc2 & Hx2).
    split_and!; [done| |].
    - rewrite takes_snoc, length_app. lia.
    - intros x [Hin|Hin]%elem_of_app; [by eapply Hx1|]. apply list_elem_of_singleton in Hin. by apply (Hx2 x). }
  split; [|done]. assert (credit (dupl s) ≤ 1)%nat by (destruct (dupl s); cbn; lia). lia.
Qed.

(** The duplicator that waits at an empty channel is never ended, and the
    releaser has no end at all: both goroutines outlive the server. *)
Theorem stop_leaves_duplicator c e :
  ∃ l s, go_run (go_init c e) l s ∧ shouldStop s = true ∧ load s = L_end ∧
    ∀ l' s', go_run s l' s' → dupl s' = D_receive.
Proof.
  exists ((([] ++ [a_internal]) ++ [a_stop]) ++ [a_internal]), (Go _ c e [] [] [] L_end D_receive true). split_and!; [|done|done|].
  - eapply go_snoc; [eapply go_snoc; [eapply go_snoc; [apply go_nil|apply s_dup_loop]|apply s_stop]|apply s_load_end].
  - intros l' s' Hrun. assert (sleepers s' = [] ∧ duplicating s' = [] ∧ load s' = L_end ∧ dupl s' = D_receive) as (_ & _ & _ & ?); [|done].
    remember (Go W c e [] [] [] L_end D_receive true) as s0 eqn:E. induction Hrun as [s|s l s1 a s2 _ IH Hs]; subst; [done|].
    destruct (IH eq_refl) as (H1 & H2 & H3 & H4). destruct Hs; cbn in *; subst; try done. by destruct sl1.
Qed.
End goroutines.

(** ** A sample run

    The local server has no chunk; the other server of the group holds the chunk 0
    and answers every request with the 8 bytes of a length. *)

Definition echoNet : Network time := {|
  net_now w := w;
  net_dial w _ := (w, None);
  net_send w _ _ := w;
  net_call w _ _ _ := (w, Result (le_enc 8 5) None);
  net_ping w _ := (w, inl "timeout"%string)
|}.

Definition echo_group : outcome ServerGroup :=
  sg ← CreateServerGroup 1 2 (str "a:1");
  let sg := (AddServerToGroup (AddServerToGroup sg (str "a:1")).1 (str "b:1")).1 in
  SetServerChunks sg (str "b:1") [AAChunk 0 7] 0.

(** The turn starts a duplication, and the duplicator has it transferred. *)
Definition echo_run {G : Gommap} : bool :=
  match CoreNew "" 300 1, echo_group with
  | Ret c, Ret sg =>
      match @rebalanceTurn time echoNet G (λ _, 0) 0 (mkReb c [] []) (Env sg 0) with
      | Ret ((r, _), e) =>
          bool_decide (duplicateChannel r = [0]) && bool_decide (releaseChannel r = []) && (e_net e =? 0) &&
          match @duplicatorTurn time echoNet G 0 (mkReb (rb_core r) [0] []) (Env (e_sg e) (5 * second)) with
          | Ret (r, e) => bool_decide (duplicateChannel r = []) && (e_net e =? 5 * second)
          | _ => false
          end
      | _ => false
      end
  | _, _ => false
  end.

Lemma echo_run_ok : @echo_run plainGommap = true.
Proof. by vm_compute. Qed.

Lemma queues_lose_nothing_witness :
  let _ := plainGommap in let _ := echoNet in
  ∃ (c : Core) (e : env time) s,
    go_run (go_init c e) [a_start [(0, 0)]; a_internal; a_internal; a_internal; a_taken 0 0 (5 * second) []] s ∧
    waited (a_taken 0 0 (5 * second) []).
Proof.
  intros G N. pose proof echo_run_ok as Hok. unfold echo_run in Hok.
  destruct (CoreNew "" 300 1) as [c| |]; [|discriminate Hok..]. destruct echo_group as [sg| |]; [|discriminate Hok..].
  destruct (rebalanceTurn _ _ _ _) as [[[r wait] e']| |] eqn:E in Hok; [|discriminate Hok..].
  apply andb_prop in Hok as [Hok Hok2]. apply andb_prop in Hok as [Hok Ht]. apply andb_prop in Hok as [Hd Hr].
  apply bool_decide_eq_true_1 in Hd, Hr. apply Z.eqb_eq in Ht.
  destruct (duplicatorTurn _ _ _) as [[r2 e2]| |] eqn:E2 in Hok2; [|discriminate Hok2..].
  apply andb_prop in Hok2 as [Hd2 Ht2]. apply bool_decide_eq_true_1 in Hd2. apply Z.eqb_eq in Ht2.
  set (e := Env sg (0 : time)).
  assert (go_run (go_init c e) [a_start [(0, 0)]; a_internal; a_internal; a_internal; a_taken 0 0 (5 * second) []]
    (Go _ (rb_core r2) e2 [] [] [] (L_sleep wait) D_loop false)) as Hrun.
  { change [a_start [(0, 0)]; a_internal; a_internal; a_internal; a_taken 0 0 (5 * second) []]
      with ((((([] ++ [a_start [(0, 0)]]) ++ [a_internal]) ++ [a_internal]) ++ [a_internal]) ++ [a_taken 0 0 (5 * second) []]).
    eapply go_snoc. 1: eapply go_snoc. 1: eapply go_snoc. 1: eapply go_snoc. 1: eapply go_snoc. 1: apply go_nil.
    - pose proof (s_turn (λ _, 0) 0 c e [] [] [] D_loop r wait e' E) as Hs. rewrite Hr in Hs. unfold started in Hs.
      rewrite Hd in Hs. apply Hs. apply Z.eq_le_incl. symmetry. exact Ht.
    - apply (s_others _ (rb_core r) _ (Env (e_sg e') (5 * second))). etrans; [apply Z.eq_le_incl, Ht|done].
    - apply (s_send _ _ [] []); [done|cbn; unfold channelSize; lia].
    - apply s_dup_loop.
    - pose proof (s_duplicate 0 (rb_core r) (Env (e_sg e') (5 * second)) [] [] [] (L_sleep wait) false 0 0 r2 e2 E2) as Hs.
      unfold started in Hs. rewrite Hd2 in Hs. apply Hs. apply Z.eq_le_incl. symmetry. exact Ht2. }
  exists c, e, (Go _ (rb_core r2) e2 [] [] [] (L_sleep wait) D_loop false). split; [exact Hrun|].
  destruct (queues_lose_nothing c e _ _ Hrun) as (_ & _ & _ & _ & Hw). do 4 apply Forall_cons in Hw as [_ Hw].
  by apply Forall_cons in Hw as [Hw _].
Defined.
