(* ===== verification/Boot.v ===== *)
(** * Starting a server

    [Create] ([src/server/server.go]) establishes the invariant that the
    theorems about servers assume; [Assoc] ([src/dist/servergroup]) gives a
    newcomer the group of a running server. *)
From S2P Require Import Prelude.
From S2P Require Import Hashing.
From S2P Require Import Store.
From S2P Require Import PMap.
From S2P Require Import PMapSpec.
From S2P Require Import Chunk.
From S2P Require Import PMapProps.
From S2P Require Import UdpHeartbeat.
From S2P Require Import TcpMessage.
From S2P Require Import Broker.
From S2P Require Import Core.
From S2P Require Import CoreProps.
From S2P Require Import CoreFiles.
From S2P Require Import ServerGroup.
From S2P Require Import ServerGroupSpec.
From S2P Require Import Remote.
From S2P Require Import Heartbeat.
From S2P Require Import Server.
From S2P Require Import ServerProps.
From S2P Require Import Client.
From S2P Require Import KVNet.
From S2P Require Import Cluster.
From S2P Require Import Rebalance.
From S2P Require Import RebalanceProps.

(** ** Creation *)

(** The loop that makes the chunks present. *)
Lemma setAllPresent_sim `{GommapLaws} m : ∀ c i,
  let sz := chunkSize c in
  core_rep c (replicate i (Some (new_abs sz)) ++ replicate m None) →
  counted c (replicate i (Some (new_abs sz)) ++ replicate m None) →
  ∃ c', setAllPresent c (Z.of_nat i) m = Ret c' ∧ chunkSize c' = sz ∧
    core_rep c' (replicate (i + m) (Some (new_abs sz))) ∧ counted c' (replicate (i + m) (Some (new_abs sz))).
Proof.
  induction m as [|m IH]; intros c i sz Hc Hcnt.
  { exists c. cbn [setAllPresent]. rewrite Nat.add_0_r. rewrite app_nil_r in Hc, Hcnt. done. }
  cbn [setAllPresent replicate]. pose proof (command_sim c _ (SetPresent (Z.of_nat i)) Hc I) as Hs.
  cbn [spec_command run_command] in Hs.
  assert ((replicate i (Some (new_abs sz)) ++ replicate (S m) None) !! i = Some None) as Hi.
  { rewrite lookup_app_r, length_replicate, Nat.sub_diag by (rewrite length_replicate; lia). done. }
  rewrite (index_lookup _ _ None) in Hs by (rewrite ?Nat2Z.id; done || lia). cbn [mbind outcome_bind] in Hs.
  assert (<[Z.to_nat (Z.of_nat i) := Some (new_abs (chunkSize c))]>
    (replicate i (Some (new_abs sz)) ++ replicate (S m) None) =
    replicate (S i) (Some (new_abs sz)) ++ replicate m None) as E.
  { rewrite Nat2Z.id, insert_app_r_alt, length_replicate, Nat.sub_diag by (rewrite length_replicate; lia).
    rewrite (replicate_S_end i), <- app_assoc. done. }
  rewrite E in Hs. destruct Hs as (c1 & E1 & Hc1 & Hsz & Hcnt1).
  destruct (ChunkSetPresent c (Z.of_nat i)) as [c2| |]; try done. injection E1 as ->. bsimpl.
  destruct (IH c1 (S i)) as (c' & E' & Hsz' & Hc' & Hcnt'); rewrite ?Hsz in *; [done|auto|].
  replace (Z.of_nat i + 1) with (Z.of_nat (S i)) by lia. exists c'.
  replace (i + S m)%nat with (S i + m)%nat by lia. by rewrite E'.
Qed.

(** A group whose only server is the local one asks nobody. *)
Lemma HBStart_alone `{Network W} (e : env W) g fuel :
  sg_rep (e_sg e) g → (∀ a, is_Some (g !! a) → a = LocalhostIPPort (e_sg e)) →
  HBStart (S fuel) e = Ret (newHeartbeater, e).
Proof.
  intros Hr Hloc. unfold HBStart. msimpl.
  assert (∀ p, p ∈ Servers (e_sg e) → ∃ s, mem (e_sg e) !! p = Some s ∧ Phy s = LocalhostIPPort (e_sg e)) as Hp.
  { intros p. unfold Servers. rewrite list_elem_of_fmap. intros ([a q] & -> & Hin%elem_of_map_to_list).
    destruct (sr_known _ _ Hr _ _ Hin) as (s & Hs & Ha & Hg). exists s. split; [done|].
    rewrite Ha. apply Hloc. by eexists. }
  induction (Servers (e_sg e)) as [|p ps IH]; [done|]. cbn [requestAll]. msimpl.
  destruct (Hp p) as (s & Hs & Hl); [by left|]. unfold deref. rewrite Hs. msimpl. cbn [request]. msimpl.
  rewrite decide_True by done. msimpl. apply IH. intros q Hq. apply Hp. by right.
Qed.

Lemma allChunks_range n : Forall (in_range n) (allChunks n).
Proof.
  apply Forall_forall. intros c Hc. apply list_elem_of_fmap in Hc as (i & -> & Hi%elem_of_seq).
  unfold in_range. cbn. lia.
Qed.

(** What [Create] does once it has its chunks, new or opened. *)
Lemma Create_group `{Network W} `{GommapLaws} fuel ip port path files sz (openDB : bool) n red (w : W) c0 c As :
  0 < n < 2 ^ 63 → CoreNew path sz n = Ret c0 →
  (if openDB then CoreOpen c0 files else setAllPresent c0 0 (Z.to_nat n)) = Ret c → core_rep c As → zlen As = n →
  let addr := hostPort ip port in
  let g := {[addr := VInfo (allChunks n) false (net_now w)]} in
  ∃ s, Create (S fuel) ip port path files sz openDB n red w = Ret (s, w) ∧ server_rep s As g ∧ s_core s = c ∧
    LocalhostIPPort (s_sg s) = addr ∧ redundancy (s_sg s) = red ∧ s_hb s = newHeartbeater ∧
    ∀ i, 0 ≤ i < n → holdersOf g i = {[addr]}.
Proof.
  intros Hn E0 Ec Hc Hz addr g. unfold Create. fold addr. rewrite E0. bsimpl. rewrite Ec. bsimpl.
  destruct (Create_rep n red addr) as (sg0 & Esg & Hr0 & Hn0 & Hred0); [lia|]. rewrite Esg. bsimpl.
  assert (LocalhostIPPort sg0 = addr) as Hl0.
  { revert Esg. unfold CreateServerGroup. destruct (newChunks n); cbn; try done. by intros [= <-]. }
  pose proof (gop_sim sg0 ∅ (GAdd addr) Hr0) as Hadd. cbn [spec_gop gop_run] in Hadd.
  destruct Hadd as (sg1 & E1 & Hr1 & Hn1 & Hred1). pose proof (local_fixed sg0 (GAdd addr) _ _ E1) as Hl1. cbn [gop_run] in *.
  injection E1 as -> _. unfold spec_AddServer in Hr1. rewrite lookup_empty in Hr1.
  pose proof (SetServerChunks_sim sg1 _ addr (allChunks n) (net_now w) Hr1) as Hset. unfold spec_SetServerChunks in Hset.
  rewrite lookup_insert_eq, Hn1, Hn0, decide_True in Hset by apply allChunks_range.
  destruct Hset as (sg2 & E2 & Hr2 & Hn2 & Hred2). rewrite insert_insert_eq in Hr2. fold g in Hr2.
  assert (LocalhostIPPort sg2 = addr) as Hl2.
  { pose proof (local_fixed sg1 (GSet addr (allChunks n) (net_now w)) sg2 None) as Hfix. cbn [gop_run] in Hfix.
    rewrite E2 in Hfix. rewrite Hfix by done. congruence. }
  rewrite E2. bsimpl.
  rewrite (HBStart_alone (Env sg2 w) g fuel); cbn [e_sg e_net]; [|exact Hr2|].
  - bsimpl. eexists. split; [reflexivity|]. cbn [s_core s_sg]. split_and!; [|done|exact Hl2|cbn; congruence|reflexivity|].
    + split; cbn [s_core s_sg s_stopped]; [exact Hc|exact Hr2|cbn; lia|done].
    + intros i Hi. apply holdersOf_one. cbn. unfold holds. apply list_elem_of_fmap.
      exists (AAChunk i 0). split; [done|]. apply list_elem_of_fmap. exists (Z.to_nat i).
      rewrite Z2Nat.id by lia. split; [done|]. apply elem_of_seq. lia.
  - intros a [v Hv]. apply lookup_singleton_Some in Hv as [<- _]. done.
Qed.

Lemma Create_sim `{Network W} `{GommapLaws} fuel ip port path files sz n red (w : W) :
  0 < sz ≤ maxChunkSize → 0 < n < 2 ^ 63 →
  let addr := hostPort ip port in
  let As := replicate (Z.to_nat n) (Some (new_abs sz)) in
  let g := {[addr := VInfo (allChunks n) false (net_now w)]} in
  ∃ s, Create (S fuel) ip port path files sz false n red w = Ret (s, w) ∧ server_rep s As g ∧
    counted (s_core s) As ∧ LocalhostIPPort (s_sg s) = addr ∧ redundancy (s_sg s) = red ∧ s_hb s = newHeartbeater ∧
    ∀ i, 0 ≤ i < n → holdersOf g i = {[addr]}.
Proof.
  intros Hsz Hn addr As g.
  destruct (core_new_rep path sz n Hsz Hn) as (c0 & E0 & Hsize & Hc0). pose proof (core_new_counted path sz n c0 E0) as Hcnt0.
  destruct (setAllPresent_sim (Z.to_nat n) c0 0) as (c & Ec & _ & Hc & Hcnt); [done..|].
  change (Z.of_nat 0) with 0 in Ec. rewrite Hsize in *. cbn [Nat.add] in Hc, Hcnt.
  destruct (Create_group fuel ip port path files sz false n red w c0 c As Hn E0 Ec Hc) as (s & E & Hr & Ecore & Hl & Hred & Hhb & Hh);
    [unfold As; rewrite zlen_replicate; lia|].
  exists s. rewrite Ecore. by split_and!.
Qed.

(** A new server keeps its files where it is told to. *)
Lemma setAllPresent_dbpath `{Gommap} n : ∀ c i c', setAllPresent c i n = Ret c' → dbpath c' = dbpath c.
Proof.
  induction n as [|n IH]; intros c i c'; cbn [setAllPresent]; intros E; [by injection E as ->|].
  apply bind_Ret_inv in E as (c1 & E1 & E). rewrite (IH _ _ _ E). unfold ChunkSetPresent in E1.
  apply bind_Ret_inv in E1 as (k & _ & E1). destruct (negb (present k)); [|by injection E1 as ->].
  apply bind_Ret_inv in E1 as (q & _ & E1). by injection E1 as <-.
Qed.

Lemma Create_dbpath `{Network W} `{Gommap} fuel ip port path files sz n red (w w' : W) s :
  Create fuel ip port path files sz false n red w = Ret (s, w') → dbpath (s_core s) = path.
Proof.
  unfold Create. intros E. apply bind_Ret_inv in E as (c0 & E0 & E). apply bind_Ret_inv in E as (c & Ec & E).
  apply bind_Ret_inv in E as (sg & _ & E). apply bind_Ret_inv in E as (sg1 & _ & E). apply bind_Ret_inv in E as (r & _ & E).
  injection E as <- _. cbn [s_core]. rewrite (setAllPresent_dbpath _ _ _ _ Ec). unfold CoreNew in E0.
  apply bind_Ret_inv in E0 as (? & _ & E0). by injection E0 as <-.
Qed.

(** [Create] returns a server that is ready: all its chunks are present and
    empty, and its group is the server itself, that announced them all.  From
    there on the theorems about well-formed servers hold. *)
Theorem created_server_is_ready `{Network W} `{GommapLaws} fuel ip port path files sz n red (w : W) :
  0 < sz ≤ maxChunkSize → 0 < n < 2 ^ 63 →
  let addr := hostPort ip port in
  let As := replicate (Z.to_nat n) (Some (new_abs sz)) in
  let g := {[addr := VInfo (allChunks n) false (net_now w)]} in
  ∃ s, Create (S fuel) ip port path files sz false n red w = Ret (s, w) ∧ server_rep s As g ∧
    counted (s_core s) As ∧ LocalhostIPPort (s_sg s) = addr ∧ redundancy (s_sg s) = red ∧
    ∀ i, 0 ≤ i < n → holdersOf g i = {[addr]}.
Proof.
  intros Hsz Hn addr As g. destruct (Create_sim fuel ip port path files sz n red w Hsz Hn) as (s & E & Hr & Hc & Hl & Hred & _ & Hh).
  exists s. by split_and!.
Qed.

Lemma created_server_is_ready_witness :
  let _ := plainGommap in let _ := noJson in
  ∃ s, Create 1 (str "10.0.0.1") 9876 "db" [] 300 false 8 2 (Cluster ∅ [] 0) = Ret (s, Cluster ∅ [] 0).
Proof.
  intros G J. destruct (@created_server_is_ready cluster _ G plainGommap_laws 0 (str "10.0.0.1") 9876 "db" [] 300 8 2
    (Cluster ∅ [] 0)) as (s & E & _).
  - by vm_compute.
  - lia.
  - by exists s.
Defined.

(** ** Joining *)

Section join.
Context {J : Json}.

(** The effect of a newcomer on a server. *)
Definition welcomes (lh : addr_t) (x : node) : node := (x.1, spec_AddServer x.2 lh).

Definition confMsg : Message := message Operation.OpGetConf [] [].
Definition addMsg (lh : addr_t) : Message := message Operation.OpAddServerToGroup lh [].

Lemma deliver_conf w a s As g :
  nodes w !! a = Some s → server_rep s As g → zlen (json_marshal (Marshal (s_sg s))) < 2 ^ 31 →
  deliverTo w a confMsg = (w, Some (Msg Operation.OpResponse 0 [] (json_marshal (Marshal (s_sg s))))).
Proof.
  intros Hs Hr Hlen. unfold deliverTo, serve. rewrite Hs, wire_ok by (by vm_compute). bsimpl.
  assert (processMessage (w_clock w) s confMsg =
    Ret (s, Msg Operation.OpResponse 0 [] (json_marshal (Marshal (s_sg s))), None)) as ->.
  { unfold processMessage. by rewrite (sv_running _ _ _ Hr). }
  bsimpl. cbn [mType]. change (0 <? Operation.OpResponse) with true. cbn beta iota.
  rewrite wire_ok; [bsimpl; rewrite app_nil_r, insert_id by done; by destruct w|].
  pose proof (zlen_nonneg (json_marshal (Marshal (s_sg s)))).
  unfold msg_ok, msgSize. cbn. zlen_nil_simpl. unfold Operation.OpResponse. lia.
Qed.

(** The servers keep their chunks, and their news tell of [lh] and of nobody
    else that was not there. *)
Definition news_of (lh : addr_t) (w w' : cluster) : Prop := ∀ b s', nodes w' !! b = Some s' →
  ∃ s, nodes w !! b = Some s ∧ s_core s' = s_core s ∧
    ∀ c, is_Some (recentlyAddedServers (s_hb s') !! c) → c = lh ∨ is_Some (recentlyAddedServers (s_hb s) !! c).

#[export] Instance news_of_preorder lh : PreOrder (news_of lh).
Proof.
  split; [intros w b s Hs; exists s; auto|]. intros w1 w2 w3 H12 H23 b s3 H3.
  destruct (H23 b s3 H3) as (s2 & H2 & Hc2 & Hn2). destruct (H12 b s2 H2) as (s1 & H1 & Hc1 & Hn1).
  exists s1. split_and!; [done|congruence|]. intros c [->|Hc]%Hn2; [by left|by apply Hn1].
Qed.

Lemma deliver_add w S a x lh :
  cluster_rep w S → S !! a = Some x → zlen lh < 2 ^ 16 →
  ∃ w', deliverTo w a (addMsg lh) = (w', Some (Msg Operation.OpOK 0 [] [])) ∧
    cluster_rep w' (<[a := welcomes lh x]> S) ∧ news_of lh w w'.
Proof.
  intros Hw Ha Hlen. destruct (cluster_rep_at w S a x Hw Ha) as (s & Hs & Hr).
  unfold deliverTo, serve. rewrite Hs, wire_ok; cycle 1.
  { pose proof (zlen_nonneg lh). unfold msg_ok, msgSize. cbn. zlen_nil_simpl.
    unfold Operation.OpAddServerToGroup. lia. }
  bsimpl.
  assert (processMessage (w_clock w) s (addMsg lh) =
    Ret (mkDB (s_core s) (AddServerToGroup (s_sg s) lh).1 (GossipAdded (s_hb s) lh (w_clock w)) (s_stopped s),
         Msg Operation.OpOK 0 [] [], None)) as ->.
  { unfold processMessage. by rewrite (sv_running _ _ _ Hr). }
  bsimpl. cbn [mType]. change (0 <? Operation.OpOK) with true. cbn beta iota.
  rewrite wire_ok by (by vm_compute). bsimpl. eexists. split; [reflexivity|]. split.
  - apply cluster_rep_update; [done|]. cbn [welcomes fst snd].
    split; cbn; [apply Hr|by apply AddServer_sim, Hr| |apply Hr].
    rewrite (proj1 (AddServer_config _ _)). apply Hr.
  - intros b s'. cbn [nodes]. intros [[<- <-]|[Hne Hb]]%lookup_insert_Some; [|exists s'; auto].
    exists s. split_and!; [done|done|]. cbn. intros c [y [[<- _]|[_ Hy]]%lookup_insert_Some]; [by left|right].
    apply map_lookup_filter_Some in Hy as [Hy _]. by eexists.
Qed.

Lemma groupAssoc_cluster (e : env cluster) a s As g lh :
  nodes (e_net e) !! a = Some s → server_rep s As g →
  json_unmarshal (json_marshal (Marshal (s_sg s))) = inr (Marshal (s_sg s)) →
  zlen (json_marshal (Marshal (s_sg s))) < 2 ^ 31 →
  ∃ e', groupAssoc a lh e = Ret (None, e') ∧ e_net e' = e_net e ∧
    sg_rep (e_sg e') ((λ _, VInfo [] false zero_time) <$> g) ∧ LocalhostIPPort (e_sg e') = lh ∧
    numChunks (e_sg e') = zlen As ∧ redundancy (e_sg e') = redundancy (s_sg s).
Proof.
  intros Hs Hr Hj Hlen. unfold groupAssoc. msimpl. cbn [net_dial clusterNet]. msimpl. rewrite Hs. msimpl.
  unfold connGetAccessInfo. msimpl. rewrite sendAndReceive_cluster. cbv zeta. cbn [e_net]. fold confMsg.
  rewrite (deliver_conf _ _ s As g) by done. msimpl.
  change (response (Msg Operation.OpResponse 0 [] ?v)) with (Result v None). cbn [r_err r_value]. rewrite Hj. msimpl.
  destruct (Unmarshal_rep (s_sg s) g (sv_group _ _ _ Hr)) as (sg' & -> & Hr' & Hn & Hred).
  { rewrite (sv_chunks _ _ _ Hr). apply zlen_nonneg. }
  msimpl. eexists. split; [reflexivity|]. cbn. split_and!; [done| |done|by rewrite Hn, (sv_chunks _ _ _ Hr)|done].
  destruct Hr'. by split.
Qed.

Lemma vsAddServerToGroup_cluster (e : env cluster) S p s lh g :
  sg_rep (e_sg e) g → cluster_rep (e_net e) S → zlen lh < 2 ^ 16 → mem (e_sg e) !! p = Some s →
  ∃ err e', vsAddServerToGroup p lh e = Ret (err, e') ∧ sg_rep (e_sg e') g ∧ same_ptrs (e_sg e) (e_sg e') ∧
    cluster_rep (e_net e') (alter (welcomes lh) (Phy s) S) ∧ news_of lh (e_net e) (e_net e') ∧
    LocalhostIPPort (e_sg e') = LocalhostIPPort (e_sg e) ∧ (err = None ↔ is_Some (S !! Phy s)).
Proof.
  intros Hr Hw Hlen Hs. unfold vsAddServerToGroup, connected. msimpl.
  destruct (needConnection_cluster e p s g Hr Hs) as (r & e1 & -> & Hr1 & Hv1 & En & Hres). msimpl.
  destruct (S !! Phy s) as [x|] eqn:Ha.
  - destruct Hres as [->|[Hnone _]]; cycle 1.
    { destruct (cluster_rep_at _ _ _ _ Hw Ha) as (s' & Hs' & _). congruence. }
    unfold connAddServerToGroup. msimpl. rewrite sendAndReceive_cluster, En. cbv zeta. fold (addMsg lh).
    destruct (deliver_add _ S _ x lh Hw Ha Hlen) as (w' & -> & Hw' & Hnews). msimpl.
    do 2 eexists. split_and!; [reflexivity|done|apply Hv1|by rewrite (alter_at _ _ _ x)|done|apply Hv1|].
    split; [by eexists|done].
  - rewrite (alter_down _ _ _ Ha). destruct Hres as [->|[_ [err ->]]]; msimpl; cycle 1.
    { do 2 eexists. split_and!; [reflexivity|done|apply Hv1|by rewrite En|by rewrite En|apply Hv1|]. split; [done|by intros [? [=]]]. }
    unfold connAddServerToGroup. msimpl. rewrite sendAndReceive_cluster, En. cbv zeta.
    rewrite (deliver_down _ S) by done. msimpl.
    do 2 eexists. split_and!; [reflexivity|done|apply Hv1|done|done|apply Hv1|]. split; [done|by intros [? [=]]].
Qed.

Lemma announceTo_cluster lh g : ∀ ps addrs (e : env cluster) S added,
  sg_rep (e_sg e) g → cluster_rep (e_net e) S → zlen lh < 2 ^ 16 → located (e_sg e) ps addrs → NoDup addrs →
  ∃ added' e', announceTo lh ps added e = Ret (added', e') ∧ sg_rep (e_sg e') g ∧
    numChunks (e_sg e') = numChunks (e_sg e) ∧ LocalhostIPPort (e_sg e') = LocalhostIPPort (e_sg e) ∧
    cluster_rep (e_net e') (alters (welcomes lh) addrs S) ∧ news_of lh (e_net e) (e_net e') ∧
    (added' = true ↔ added = true ∨ ∃ a, a ∈ addrs ∧ is_Some (S !! a)).
Proof.
  induction ps as [|p ps IH]; intros addrs e S added Hr Hw Hlen Hl Hnd.
  { apply Forall2_nil_inv_l in Hl as ->. exists added, e. split_and!; [done|done|done|done|done|done|].
    split; [by left|]. by intros [?|(a & ?%not_elem_of_nil & _)]. }
  apply Forall2_cons_inv_l in Hl as (a & l & (s & Hs & <-) & Hl & ->). apply NoDup_cons in Hnd as [Hn Hnd].
  cbn [announceTo]. msimpl.
  destruct (vsAddServerToGroup_cluster e S p s lh g Hr Hw Hlen Hs) as (err & e1 & -> & Hr1 & Hp1 & Hw1 & Hnews1 & Hl1 & Herr). msimpl.
  destruct (IH l e1 (alter (welcomes lh) (Phy s) S) (match err with None => true | Some _ => added end))
    as (added' & e2 & E2 & Hr2 & Hn2 & Hl2 & Hw2 & Hnews2 & Hadd); [done|done|done|by eapply located_mono|done|].
  exists added', e2. split_and!; [done|done|rewrite Hn2; apply Hp1|congruence|done|by etrans|]. rewrite Hadd. setoid_rewrite elem_of_cons.
  assert (∀ b, b ∈ l → alter (welcomes lh) (Phy s) S !! b = S !! b) as Hsame.
  { intros b Hb. rewrite lookup_alter_ne; [done|]. by intros <-. }
  split.
  - intros [Hacc|(b & Hb & Hl')]; [|right; exists b; rewrite Hsame in Hl' by done; auto].
    destruct err; [by left|]. right. exists (Phy s). split; [by left|by apply Herr].
  - intros [->|(b & [->|Hb] & Hl')]; [left; by destruct err|left; by rewrite (proj2 Herr Hl')|].
    right. exists b. by rewrite Hsame.
Qed.
End join.

(** A newcomer that asks a running server for its group learns its
    configuration and every server that it knows, with no chunks yet, and then
    makes itself known to each of these that can be reached, and to nobody else.
    It goes on exactly when one of them could be reached.  The encoding of the
    group in JSON has to be readable. *)
Theorem newcomer_is_announced `{Json} (e : env cluster) S a s As g lh :
  cluster_rep (e_net e) S → nodes (e_net e) !! a = Some s → S !! a = Some (As, g) →
  json_unmarshal (json_marshal (Marshal (s_sg s))) = inr (Marshal (s_sg s)) →
  zlen (json_marshal (Marshal (s_sg s))) < 2 ^ 31 → zlen lh < 2 ^ 16 →
  ∃ e1 e2 S2 added,
    groupAssoc a lh e = Ret (None, e1) ∧ announceTo lh (Servers (e_sg e1)) false e1 = Ret (added, e2) ∧
    sg_rep (e_sg e2) ((λ _, VInfo [] false zero_time) <$> g) ∧ cluster_rep (e_net e2) S2 ∧
    (∀ b, S2 !! b = if decide (is_Some (g !! b)) then welcomes lh <$> S !! b else S !! b) ∧
    (added = true ↔ ∃ b, is_Some (g !! b) ∧ is_Some (S !! b)).
Proof.
  intros Hw Hs Ha Hj Hlen Hlh. destruct (cluster_rep_at _ _ _ _ Hw Ha) as (s' & Hs' & Hr). cbn in Hr.
  assert (s' = s) as -> by congruence.
  destruct (groupAssoc_cluster e a s As g lh Hs Hr Hj Hlen) as (e1 & E1 & En & Hr1 & _).
  destruct (Servers_located _ _ Hr1) as (Hl & Hnd & Hmem).
  destruct (announceTo_cluster lh _ (Servers (e_sg e1)) (map_to_list (servers (e_sg e1))).*1 e1 S false Hr1) as (added & e2 & E2 & Hr2 & _ & _ & Hw2 & _ & Hadd);
    [by rewrite En|done|done|done|].
  assert (∀ b, b ∈ (map_to_list (servers (e_sg e1))).*1 ↔ is_Some (g !! b)) as Hdom.
  { intros b. rewrite Hmem, lookup_fmap. apply fmap_is_Some. }
  eexists e1, e2, _, added. split_and!; [done|done|done|exact Hw2| |].
  - intros b. rewrite alters_lookup by done. repeat case_decide; naive_solver.
  - rewrite Hadd. naive_solver.
Qed.
