(* ===== verification/Duo.v ===== *)
(** * A network of two servers

    Concrete instances of the theorems on rebalancing and on joining a group:
    two servers with one chunk, in a group that both know. *)
From S2P Require Import Prelude.
From S2P Require Import Hashing.
From S2P Require Import Store.
From S2P Require Import PMap.
From S2P Require Import PMapSpec.
From S2P Require Import Chunk.
From S2P Require Import Replicas.
From S2P Require Import PMapProps.
From S2P Require Import PMapIter.
From S2P Require Import UdpHeartbeat.
From S2P Require Import TcpMessage.
From S2P Require Import Broker.
From S2P Require Import Core.
From S2P Require Import CoreProps.
From S2P Require Import CoreFiles.
From S2P Require Import Defrag.
From S2P Require Import ServerGroup.
From S2P Require Import ServerGroupSpec.
From S2P Require Import Remote.
From S2P Require Import Heartbeat.
From S2P Require Import Server.
From S2P Require Import ServerProps.
From S2P Require Import Client.
From S2P Require Import KVNet.
From S2P Require Import ClientProps.
From S2P Require Import Cluster.
From S2P Require Import Repair.
From S2P Require Import RepairAll.
From S2P Require Import Transfer.
From S2P Require Import Rebalance.
From S2P Require Import RebalanceProps.
From S2P Require Import Duplication.
From S2P Require Import LoadRebalance.
From S2P Require Import Boot.

#[local] Opaque chunkIndex.
#[local] Existing Instance noJson.

(** The same group, seen from [lh]. *)
Definition seenFrom (sg : ServerGroup) (lh : addr_t) (r : Z) : ServerGroup :=
  mkGroup lh (numChunks sg) r (servers sg) (ServerGroup.chunks sg) (noDelay sg) (mem sg).

Lemma seenFrom_rep sg g lh r : sg_rep sg g → sg_rep (seenFrom sg lh r) g.
Proof. intros []. by split. Qed.

(** A core of one chunk, absent or empty. *)
Lemma absent_core `{GommapLaws} :
  ∃ c, core_rep c [None] ∧ counted c [None] ∧ chunkSize c = 300.
Proof.
  destruct (core_new_rep "db" 300 1) as (c & E & Hsz & Hc); [by vm_compute..|].
  exists c. split_and!; [exact Hc| |done]. exact (core_new_counted "db" 300 1 c E).
Qed.

Lemma empty_core `{GommapLaws} :
  ∃ c k, core_rep c [Some (new_abs 300)] ∧ counted c [Some (new_abs 300)] ∧
    index (Core.chunks c) 0 = Ret k ∧ Core.protected k = false.
Proof.
  destruct (core_new_rep "db" 300 1) as (c0 & E0 & Hsz & Hc0); [by vm_compute..|].
  pose proof (core_new_counted "db" 300 1 c0 E0) as Hcnt.
  destruct (command_sim c0 _ (SetPresent 0) Hc0 I) as (c1 & E1 & Hc1 & _ & Hcnt1). rewrite Hsz in Hc1, Hcnt1.
  cbn [run_command] in E1. vm_compute in E0. injection E0 as <-. unfold ChunkSetPresent in E1.
  cbn in E1. destruct (PMap.New _ _) as [p| |]; cbn in E1; try done. injection E1 as <-.
  eexists _, _. split_and!; [exact Hc1|by apply Hcnt1|reflexivity|done].
Qed.

(** The network of two servers, [a:1] and [b:1]. *)
Definition duo (sA sB : DBServer) : cluster := Cluster (<[addr_a := sA]> {[addr_b := sB]}) [] 0.
Definition duo_map (x y : node) : netmap := <[addr_a := x]> {[addr_b := y]}.

Lemma duo_rep sA sB x y : server_rep sA x.1 x.2 → server_rep sB y.1 y.2 → cluster_rep (duo sA sB) (duo_map x y).
Proof.
  intros HA HB. exact (cluster_rep_update (Cluster {[addr_b := sB]} [] 0) {[addr_b := y]} addr_a _ x [] 0
    (cluster_rep_update (Cluster ∅ [] 0) ∅ addr_b _ y [] 0 (λ c, eq_refl) HB) HA).
Qed.

Lemma duo_at_a {A} (x y : A) : (<[addr_a := x]> {[addr_b := y]} : gmap addr_t A) !! addr_a = Some x.
Proof. apply lookup_insert_eq. Qed.
Lemma duo_at_b {A} (x y : A) : (<[addr_a := x]> {[addr_b := y]} : gmap addr_t A) !! addr_b = Some y.
Proof. rewrite lookup_insert_ne by done. apply lookup_singleton_eq. Qed.

Definition duo_server (c : Core) (sg : ServerGroup) (lh : addr_t) : DBServer :=
  mkDB c (seenFrom sg lh 1) newHeartbeater false.

Lemma duo_server_rep c sg lh x g :
  core_rep c [x] → sg_rep sg g → numChunks sg = 1 → server_rep (duo_server c sg lh) [x] g.
Proof. intros Hc Hg Hn. split; [done|by apply seenFrom_rep|done|done]. Qed.

Lemma two_consistent (k l v v' : list byte) : k ≠ l → consistent [(k, v); (l, v')].
Proof. intros Hne x y z. rewrite !elem_of_cons, !elem_of_nil. naive_solver. Qed.

Lemma repairs_converge_witness :
  let _ := plainGommap in
  ∃ w w' : cluster, repairsAt 0 w [addr_a; addr_b] = Ret w'.
Proof.
  intros G. set (va := sample_value 5 "x"). set (vb := sample_value 6 "y").
  destruct (@pair_core G plainGommap_laws (str "k") va ltac:(by vm_compute)) as (cA & HcA).
  destruct (@pair_core G plainGommap_laws (str "l") vb ltac:(by vm_compute)) as (cB & HcB).
  destruct (pair_replica (str "k") va) as (Ha & Hla & Hma); [by vm_compute..|].
  destruct (pair_replica (str "l") vb) as (Hb & Hlb & Hmb); [by vm_compute..|]. destruct feud_sg as (sg & Hsg & Hn).
  set (w := duo (duo_server cA sg addr_a) (duo_server cB sg addr_b)).
  set (S := duo_map ([Some (pair_abs (str "k") va)], feud_group) ([Some (pair_abs (str "l") vb)], feud_group)).
  assert (pairsAt 0 S [addr_a; addr_b] = [(str "k", va); (str "l", vb)]) as Hws.
  { unfold pairsAt, mapAt, S, duo_map. cbn [map concat]. rewrite duo_at_a, duo_at_b. cbn [fst].
    change ([Some (pair_abs (str "k") va)] !! Z.to_nat 0) with (Some (Some (pair_abs (str "k") va))).
    change ([Some (pair_abs (str "l") vb)] !! Z.to_nat 0) with (Some (Some (pair_abs (str "l") vb))). cbv beta iota.
    by rewrite Hma, Hmb, !map_to_list_singleton. }
  destruct (repairs_converge 1 0 [addr_a; addr_b] (λ _, feud_group) w S) as (w' & S' & E & _).
  - by apply duo_rep; apply duo_server_rep.
  - lia.
  - cbn. lia.
  - by apply NoDup_cons; split; [set_solver|]; apply NoDup_singleton.
  - intros a _. split; [|exact feud_unsynched]. rewrite feud_holders. cbn. set_solver.
  - intros a [->|[->|?%not_elem_of_nil]%elem_of_cons]%elem_of_cons; [| |done].
    + eexists _, _. split; [apply duo_at_a|]. split; [exact Ha|]. rewrite Hws, Hla. by vm_compute.
    + eexists _, _. split; [apply duo_at_b|]. split; [exact Hb|]. rewrite Hws, Hlb. by vm_compute.
  - rewrite Hws. apply two_consistent. by vm_compute.
  - by exists w, w'.
Defined.

Lemma repair_after_eight_checks_witness :
  let _ := plainGommap in
  ∃ (c c' : Core) (e e' : env cluster) m', repairTurn c {[0 := 7]} e = Ret ((c', m'), e').
Proof.
  intros G. destruct (@empty_core G plainGommap_laws) as (c & k & Hc & Hcnt & _). destruct feud_sg as (sg & Hsg & Hn).
  set (w := duo (duo_server c sg addr_a) (duo_server c sg addr_b)).
  set (S := duo_map ([Some (new_abs 300)], feud_group) ([Some (new_abs 300)], feud_group)).
  destruct (repair_after_eight_checks feud_group 1 c [Some (new_abs 300)] {[0 := 7]} (Env (seenFrom sg addr_a 1) w) S)
    as (c' & m' & e' & v & E & _).
  - split; [by apply seenFrom_rep|]. by apply duo_rep; apply duo_server_rep.
  - exact Hn.
  - by vm_compute.
  - exact Hc.
  - exact Hcnt.
  - cbn [e_sg seenFrom LocalhostIPPort]. unfold feud_group. rewrite lookup_insert_eq. by eexists.
  - intros cid. apply (Nat.le_trans _ (size ({[addr_a; addr_b]} : gset addr_t))).
    + apply subseteq_size. intros a. rewrite elem_of_union, elem_of_singleton. cbn [e_sg seenFrom LocalhostIPPort].
      intros [(y & Hy & _)%elem_of_holdersOf|Ea]; [|subst a; set_solver].
      unfold feud_group in Hy. apply lookup_insert_Some in Hy as [[<- _]|[_ [<- _]%lookup_singleton_Some]]; set_solver.
    + rewrite size_union, !size_singleton by set_solver. lia.
  - intros [|i] x; [|done]. intros [= <-]. constructor.
  - by exists c, c', (Env (seenFrom sg addr_a 1) w), e', m'.
Defined.

Lemma release_race_loses_chunk_witness :
  let _ := plainGommap in
  ∃ w w1 w2 w3 w4 : cluster,
    runAt w addr_a (releaseRequest 0) = Ret (true, w1) ∧ runAt w1 addr_b (releaseRequest 0) = Ret (true, w2) ∧
    runAt w2 addr_a (releaseDrop 0) = Ret (tt, w3) ∧ runAt w3 addr_b (releaseDrop 0) = Ret (tt, w4).
Proof.
  intros G. destruct (@empty_core G plainGommap_laws) as (c & k & Hc & Hcnt & Hk & Hp).
  destruct feud_sg as (sg & Hsg & Hn). set (w := duo (duo_server c sg addr_a) (duo_server c sg addr_b)).
  assert (∀ lh, server_rep (duo_server c sg lh) [Some (new_abs 300)] feud_group) as Hrep
    by (intros lh; by apply duo_server_rep).
  assert (∀ lh, nodes w !! lh = Some (duo_server c sg lh) → member 0 w lh [Some (new_abs 300)] feud_group) as Hmem.
  { intros lh Hlh. exists (duo_server c sg lh). split_and!; [exact Hlh|apply Hrep|exact Hcnt|done|].
    rewrite feud_holders, size_union, !size_singleton by set_solver. cbn. lia. }
  destruct (@release_race_loses_chunk noJson G plainGommap_laws w addr_a addr_b [Some (new_abs 300)] [Some (new_abs 300)]
    feud_group feud_group 0 (new_abs 300) (new_abs 300)) as (_ & _ & w1 & w2 & w3 & w4 & E1 & E2 & E3 & E4 & _).
  - by vm_compute.
  - apply Hmem, duo_at_a.
  - apply Hmem, duo_at_b.
  - exact feud_holders.
  - exact feud_holders.
  - by vm_compute.
  - done.
  - lia.
  - done.
  - done.
  - exists (duo_server c sg addr_a), k. split_and!; [apply duo_at_a|exact Hk|exact Hp].
  - exists (duo_server c sg addr_b), k. split_and!; [apply duo_at_b|exact Hk|exact Hp].
  - by exists w, w1, w2, w3, w4.
Defined.


(** A group where only [b:1] holds the chunk. *)
Definition lone_group : group := {[addr_b := VInfo [AAChunk 0 2] false 0]}.

Lemma lone_holders : holdersOf lone_group 0 = {[addr_b]}.
Proof. apply holdersOf_one. by left. Qed.

Lemma lone_sg : ∃ sg, sg_rep sg lone_group ∧ numChunks sg = 1.
Proof.
  destruct (Create_rep 1 1 []) as (sg0 & _ & Hr & Hn & _); [lia|].
  pose proof (gops_sim [GAdd addr_b; GSet addr_b [AAChunk 0 2] 0] sg0 ∅ Hr) as H1.
  rewrite Hn, spec_one in H1 by (repeat constructor; unfold in_range; cbn; lia).
  destruct H1 as (sg1 & _ & Hr1 & Hn1 & _). exists sg1. split; [exact Hr1|congruence].
Qed.

Lemma lone_lacks `{GommapLaws} w S c sg :
  core_rep c [None] → counted c [None] → sg_rep sg lone_group → numChunks sg = 1 →
  cluster_rep w S → sized S 1 → nodes w !! addr_a = Some (duo_server c sg addr_a) →
  S !! addr_a = Some ([None], lone_group) →
  lacks w S addr_a (duo_server c sg addr_a) [None] lone_group 1 0.
Proof.
  intros Hc Hcnt Hsg Hn Hw Hsz Hs Ha.
  split; [exact Hw|exact Hsz|exact Hs|reflexivity|exact Ha|exact Hcnt|lia|lia|reflexivity| | |];
    rewrite lone_holders; [set_solver|by rewrite size_singleton; lia|by rewrite elem_of_singleton].
Qed.

Lemma duplication_copies_chunk_witness :
  let _ := plainGommap in
  ∃ w w1 w2 w3 : cluster, ∃ sa,
    runAt w addr_a (duplicateStep 0 0 []) = Ret ([0], w1) ∧ runAt w1 addr_a (duplicatorStep 0 [0]) = Ret ([], w2) ∧
    runTransfer (s_core sa) (Transfer 0 addr_a) w2 = Ret w3.
Proof.
  intros G. set (v := sample_value 5 "x").
  destruct (@absent_core G plainGommap_laws) as (cA & HcA & Hcnt & Hsz).
  destruct (@pair_core G plainGommap_laws (str "k") v ltac:(by vm_compute)) as (cB & HcB).
  destruct (pair_replica (str "k") v) as (Hb & Hlb & _); [by vm_compute..|]. destruct lone_sg as (sg & Hsg & Hn).
  set (w := duo (duo_server cA sg addr_a) (duo_server cB sg addr_b)).
  set (S := duo_map ([None], lone_group) ([Some (pair_abs (str "k") v)], lone_group)).
  assert (cluster_rep w S) as Hw by (by apply duo_rep; apply duo_server_rep).
  assert (lacks w S addr_a (duo_server cA sg addr_a) [None] lone_group 1 0) as Hl.
  { apply (@lone_lacks G plainGommap_laws w S cA sg HcA Hcnt Hsg Hn Hw).
    - intros c x. unfold S, duo_map. intros [[_ <-]|[_ [_ <-]%lookup_singleton_Some]]%lookup_insert_Some; reflexivity.
    - apply duo_at_a.
    - apply duo_at_a. }
  destruct (@duplication_copies_chunk noJson G plainGommap_laws w S addr_a (duo_server cA sg addr_a) [None] lone_group 1 0 0 0 Hl)
    as (w1 & w2 & w3 & S3 & a & sa & E1 & E2 & _ & _ & _ & E3 & _).
  - by vm_compute.
  - intros a. rewrite lone_holders. intros ->%elem_of_singleton.
    exists [Some (pair_abs (str "k") v)], lone_group, (pair_abs (str "k") v).
    split; [apply duo_at_b|]. split; [exact Hb|].
    rewrite Hlb. cbn [duo_server s_core]. rewrite Hsz. by vm_compute.
  - by exists w, w1, w2, w3, sa.
Defined.

Lemma unreachable_duplication_is_empty_witness :
  let _ := plainGommap in
  ∃ w w' : cluster, runAt w addr_a (duplicateStep 0 0 []) = Ret ([], w').
Proof.
  intros G. destruct (@absent_core G plainGommap_laws) as (cA & HcA & Hcnt & Hsz). destruct lone_sg as (sg & Hsg & Hn).
  set (w := Cluster {[addr_a := duo_server cA sg addr_a]} [] 0).
  set (S := {[addr_a := ([None], lone_group)]} : netmap).
  assert (cluster_rep w S) as Hw.
  { exact (cluster_rep_update (Cluster ∅ [] 0) ∅ addr_a _ ([None], lone_group) [] 0 (λ c, eq_refl)
      (duo_server_rep cA sg addr_a None lone_group HcA Hsg Hn)). }
  assert (lacks w S addr_a (duo_server cA sg addr_a) [None] lone_group 1 0) as Hl.
  { apply (@lone_lacks G plainGommap_laws w S cA sg HcA Hcnt Hsg Hn Hw).
    - intros c x. unfold S. intros [_ <-]%lookup_singleton_Some; reflexivity.
    - apply lookup_singleton_eq.
    - apply lookup_singleton_eq. }
  destruct (@unreachable_duplication_is_empty noJson G plainGommap_laws w S addr_a (duo_server cA sg addr_a) [None] lone_group 1 0 0 [] Hl)
    as (w' & E & _).
  - intros a. rewrite lone_holders. intros ->%elem_of_singleton. by apply lookup_singleton_ne.
  - by exists w, w'.
Defined.

Lemma transfer_copies_witness :
  let _ := plainGommap in
  ∃ (c : Core) (w w' : cluster), runTransfer c (Transfer 0 addr_b) w = Ret w'.
Proof.
  intros G. set (va := sample_value 5 "x"). set (vb := sample_value 6 "y").
  destruct (@pair_core G plainGommap_laws (str "k") va ltac:(by vm_compute)) as (cA & HcA).
  destruct (@pair_core G plainGommap_laws (str "l") vb ltac:(by vm_compute)) as (cB & HcB).
  destruct (pair_replica (str "k") va) as (Ha & Hla & _); [by vm_compute..|].
  destruct (pair_replica (str "l") vb) as (Hb & Hlb & _); [by vm_compute..|]. destruct lone_sg as (sg & Hsg & Hn).
  set (w := duo (duo_server cA sg addr_a) (duo_server cB sg addr_b)).
  destruct (transfer_copies w (duo_map ([Some (pair_abs (str "k") va)], lone_group) ([Some (pair_abs (str "l") vb)], lone_group))
    1 0 addr_b cA [Some (pair_abs (str "k") va)] [Some (pair_abs (str "l") vb)] lone_group
    (pair_abs (str "k") va) (pair_abs (str "l") vb)) as (w' & S' & E & _).
  - apply duo_rep; by apply duo_server_rep.
  - lia.
  - exact HcA.
  - exact Ha.
  - apply duo_at_b.
  - exact Hb.
  - rewrite Hla, Hlb. by vm_compute.
  - by exists cA, w, w'.
Defined.

Lemma lone_holder i a : a ∈ holdersOf lone_group i → i = 0 ∧ a = addr_b.
Proof.
  rewrite elem_of_holdersOf. unfold lone_group. intros (v & [<- <-]%lookup_singleton_Some & Hi). split; [|done].
  by apply list_elem_of_singleton in Hi.
Qed.

Lemma rebalance_turn_is_safe_witness :
  let _ := plainGommap in
  ∃ (r r' : rebalancer) (e e' : env cluster) wait, rebalanceTurn (λ _, 0) 0 r e = Ret ((r', wait), e').
Proof.
  intros G. set (v := sample_value 5 "x").
  destruct (@absent_core G plainGommap_laws) as (cA & HcA & Hcnt & Hsz).
  destruct (@pair_core G plainGommap_laws (str "k") v ltac:(by vm_compute)) as (cB & HcB).
  destruct (pair_replica (str "k") v) as (Hb & Hlb & _); [by vm_compute..|]. destruct lone_sg as (sg & Hsg & Hn).
  set (w := duo (duo_server cA sg addr_a) (duo_server cB sg addr_b)).
  set (S := duo_map ([None], lone_group) ([Some (pair_abs (str "k") v)], lone_group)).
  destruct (@rebalance_turn_is_safe noJson G plainGommap_laws lone_group S 2 (λ _, 0) 0 (mkReb cA [] []) [None]
    (Env (seenFrom sg addr_a 2) w)) as (r' & e' & As' & o & wait & E & _).
  - split.
    + by apply seenFrom_rep.
    + reflexivity.
    + by apply duo_rep; apply duo_server_rep.
    + cbn [e_sg seenFrom numChunks]. rewrite Hn. intros c x. unfold S, duo_map.
      intros [[_ <-]|[_ [_ <-]%lookup_singleton_Some]]%lookup_insert_Some; reflexivity.
    + exact HcA.
    + exact Hcnt.
    + symmetry. exact Hn.
    + by vm_compute.
  - by vm_compute.
  - intros i a [-> ->]%lone_holder. unfold reported, S, duo_map. rewrite duo_at_b. cbn [fst].
    change ([Some (pair_abs (str "k") v)] !! Z.to_nat 0) with (Some (Some (pair_abs (str "k") v))).
    cbv beta iota. rewrite Hlb. by vm_compute.
  - by vm_compute.
  - by vm_compute.
  - by exists (mkReb cA [] []), r', (Env (seenFrom sg addr_a 2) w), e', wait.
Defined.

(** An encoding that can be read back, of one group. *)
Definition oneJson (sg : ServerGroup) : Json :=
  {| json_marshal _ := []; json_unmarshal _ := inr (ServerGroup.Marshal sg) |}.

Lemma newcomer_is_announced_witness :
  let _ := plainGommap in
  ∃ (J : Json) (e e1 : env cluster), groupAssoc addr_b (str "c:1") e = Ret (None, e1).
Proof.
  intros G. destruct (@empty_core G plainGommap_laws) as (c & k & Hc & _). destruct lone_sg as (sg & Hsg & Hn).
  set (sB := duo_server c sg addr_b).
  set (e := Env sg (duo (duo_server c sg addr_a) sB) : env cluster).
  destruct (@newcomer_is_announced (oneJson (s_sg sB)) e
    (duo_map ([Some (new_abs 300)], lone_group) ([Some (new_abs 300)], lone_group)) addr_b sB [Some (new_abs 300)]
    lone_group (str "c:1")) as (e1 & e2 & S2 & added & E & _).
  - by apply duo_rep; apply duo_server_rep.
  - apply duo_at_b.
  - apply duo_at_b.
  - reflexivity.
  - by vm_compute.
  - by vm_compute.
  - by exists (oneJson (s_sg sB)), e, e1.
Defined.
