(* ===== verification/Connect.v ===== *)
(** * Connecting a client to a network of servers

    A server answers a ping with the chunks that it holds, through the packet of
    the heartbeat; [Connect] ([src/client/client.go]) asks a server for its
    group and pings the servers of the group and those that they gossip about.
    The result is a view of the group from which the client reads and writes. *)
From S2P Require Import Prelude.
From S2P Require Import Hashing.
From S2P Require Import SyncChecksum.
From S2P Require Import Store.
From S2P Require Import PMap.
From S2P Require Import PMapSpec.
From S2P Require Import Chunk.
From S2P Require Import PMapProps.
From S2P Require Import UdpHeartbeat.
From S2P Require Import TcpMessage.
From S2P Require Import Broker.
From S2P Require Import Core.
From S2P Require Import CoreProps.
From S2P Require Import CoreFiles.
From S2P Require Import ServerGroup.
From S2P Require Import ServerGroupSpec.
From S2P Require Import Remote.
From S2P Require Import Heartbeat.
From S2P Require Import HeartbeatProps.
From S2P Require Import HeartbeatTurn.
From S2P Require Import Server.
From S2P Require Import ServerProps.
From S2P Require Import Client.
From S2P Require Import KVNet.
From S2P Require Import ClientProps.
From S2P Require Import Cluster.
From S2P Require Import Repair.
From S2P Require Import Rebalance.
From S2P Require Import RebalanceProps.
From S2P Require Import Duplication.
From S2P Require Import LoadRebalance.
From S2P Require Import Boot.
From S2P Require Import Duo.

#[local] Opaque chunkIndex.

(** ** The answer to a ping *)

Lemma Checksum_again p now v p' : Checksum p now = (v, p') → Checksum p' now = (v, p').
Proof.
  unfold Checksum. pose proof (checksum_again (cks p) now) as E. destruct (checksum (cks p) now) as [x s]. cbn [fst snd] in *.
  intros [= <- <-]. cbn [cks set_cks]. by rewrite E.
Qed.

Lemma presentList_again now ks : ∀ id l ks',
  presentList now id ks = Ret (l, ks') → presentList now id ks' = Ret (l, ks').
Proof.
  induction ks as [|k ks IH]; intros id l ks'; cbn [presentList]; [by intros [= <- <-]|].
  destruct (present k) eqn:Hp; intros E; outcome_inv.
  - destruct (Checksum a now) as [v p'] eqn:Ec, a0 as [l1 ks1]. cbn [fst snd] in E. injection E as <- <-.
    cbn [presentList]. change (present (set_pm k (Some p'))) with (present k). rewrite Hp.
    change (pmOf (set_pm k (Some p'))) with (Ret p'). bsimpl. rewrite (IH _ _ _ E1), (Checksum_again _ _ _ _ Ec). done.
  - destruct a as [l1 ks1]. cbn [fst snd] in *. injection E as <- <-. cbn [presentList].
    by rewrite Hp, (IH _ _ _ E0).
Qed.

Lemma cleanNews_again h t : cleanNews (cleanNews h t) t = cleanNews h t.
Proof. unfold cleanNews. cbn. by rewrite !map_filter_filter_l by naive_solver. Qed.

Lemma ListenReply_again h c now aa h' c' :
  ListenReply h c now = Ret (aa, h', c') → ListenReply h' c' now = Ret (aa, h', c').
Proof.
  unfold ListenReply, PresentChunksList. rewrite cleanNews_again. intros E. outcome_inv.
  destruct a1 as [l ks]. subst a. injection E as <- <- <-. cbn [fst snd knownChunks Core.chunks]. rewrite E1. cbn [check]. bsimpl.
  rewrite (presentList_again _ _ _ _ _ E2). bsimpl. cbn [fst snd]. by rewrite !cleanNews_again.
Qed.

Lemma pong_again t s s' x : pong t s = Ret (s', x) → pong t s' = Ret (s', x).
Proof.
  unfold pong. intros E. outcome_inv. destruct a as [[aa h] c]. cbn [fst snd] in *. injection E as <- <-.
  cbn [s_hb s_core s_sg s_stopped]. rewrite (ListenReply_again _ _ _ _ _ _ E0). bsimpl. cbn [fst snd].
  rewrite E1. bsimpl. by rewrite E2.
Qed.

Lemma presentList_sums sz now ks As : Forall2 (chunk_rep sz) ks As → ∀ id l ks',
  presentList now id ks = Ret (l, ks') → Forall (λ k, 0 ≤ aChecksum k < 2 ^ 64) l.
Proof.
  induction 1 as [|k o ks As Hk _ IH]; intros id l ks'; cbn [presentList]; [intros [= <- _]; constructor|].
  destruct o as [a|]; cbn in Hk.
  - destruct Hk as (Hp & _ & _ & p & Hpm & Hr). rewrite Hp. unfold pmOf. rewrite Hpm. cbn [orPanic]. bsimpl.
    pose proof (Checksum_range p a now Hr). destruct (Checksum p now) as [v p'].
    intros E. outcome_inv. destruct a0 as [l1 ks1]. injection E as <- _. constructor; [done|]. by eapply IH.
  - destruct Hk as [Hp _]. rewrite Hp. intros E. outcome_inv. destruct a as [l1 ks1]. injection E as <- _. by eapply IH.
Qed.

(** A server whose answers fit in a packet: at most 116 chunks present, and the
    servers it heard of have an address. *)
Record talks (s : DBServer) (As : list (option abs)) : Prop := Talks {
  tk_counted : counted (s_core s) As;
  tk_packet : count As ≤ 116;
  tk_ids : zlen As ≤ 2 ^ 32;
  tk_news : ∀ b, is_Some (recentlyAddedServers (s_hb s) !! b) → b ≠ []
}.

(** It announces the chunks that it holds. *)
Lemma pong_ok t s As g :
  server_rep s As g → talks s As →
  ∃ s' aa, pong t s = Ret (s', inr aa) ∧ server_rep s' As g ∧
    map aID (KnownChunks aa) = present_ids 0 As ∧ RecentlyDeadServers aa = [] ∧
    ∀ b, b ∈ RecentlyAddedServers aa → is_Some (recentlyAddedServers (s_hb s) !! b).
Proof.
  intros Hr [Hcnt H116 Hids Hnews]. unfold pong, ListenReply.
  destruct (PresentChunksList_sim (s_core s) As t (sv_core _ _ _ Hr) Hcnt) as (l & c' & E & Hl & Hlen & Hc').
  rewrite E. bsimpl. cbn [fst snd].
  set (aa := AmAliveMsg _ _ _). set (h := cleanNews _ t).
  assert (Forall (λ b, is_Some (recentlyAddedServers (s_hb s) !! b)) (RecentlyAddedServers aa)) as Hadd.
  { apply Forall_forall. intros b ([b' x] & -> & Hb%elem_of_map_to_list)%list_elem_of_fmap.
    unfold h, cleanNews in Hb. cbn in Hb. apply map_lookup_filter_Some in Hb as [Hb _].
    apply map_lookup_filter_Some in Hb as [Hb _]. by eexists. }
  destruct (heartbeat_roundtrip aa) as (msg & -> & _ & Eu).
  - apply Forall_forall. intros k Hk. split.
    + assert (aID k ∈ present_ids 0 As) as Hp by (rewrite <- Hl; by apply list_elem_of_fmap_2).
      apply present_ids_spec in Hp as (Hp & x & Hx). apply lookup_lt_Some in Hx. unfold zlen in Hids. lia.
    + revert Hk. revert k. apply Forall_forall. unfold PresentChunksList in E. outcome_inv. destruct a0 as [l1 ks1].
      injection E as <- _. eapply presentList_sums; [apply (sv_core _ _ _ Hr)|done].
  - cbn [KnownChunks aa]. rewrite Hlen. unfold PresentChunks. by rewrite Hcnt.
  - eapply Forall_impl; [exact Hadd|exact Hnews].
  - bsimpl. rewrite Eu. bsimpl. eexists _, _. split; [reflexivity|]. split_and!; [|exact Hl|done|].
    + split; cbn; [done|apply Hr..].
    + intros b Hb. cbn [RecentlyAddedServers] in Hb. pose proof (zlen_nonneg (KnownChunks aa)).
      pose proof (fitting_Forall _ 64 _ (MaxHeartbeatSize - 2 - 12 * zlen (KnownChunks aa)) ltac:(lia) ltac:(lia) Hadd) as HF.
      by apply (proj1 (Forall_forall _ _) HF).
Qed.

Lemma ListenReply_rep h c now aa h' c' As :
  core_rep c As → ListenReply h c now = Ret (aa, h', c') → core_rep c' As.
Proof.
  intros [H1 H2 H3]. destruct (presentList_spec _ now _ _ H1 0) as (l & ks & E & _ & Hks).
  unfold ListenReply, PresentChunksList. rewrite E. destruct (0 <=? knownChunks c); cbn; [|done].
  intros [= _ _ <-]. by split.
Qed.

Lemma pong_rep t s s' x As g : server_rep s As g → pong t s = Ret (s', x) → server_rep s' As g.
Proof.
  unfold pong. intros Hr. destruct (ListenReply _ _ _) as [[[aa h] c]| |] eqn:El; [|done..]. bsimpl. cbn [fst snd].
  intros E. outcome_inv. injection E as <- _. split; cbn; [|apply Hr..].
  eapply ListenReply_rep; [apply Hr|exact El].
Qed.

Lemma pong_group t s s' x : pong t s = Ret (s', x) → s_sg s' = s_sg s.
Proof. unfold pong. intros E. outcome_inv. by injection E as <- _. Qed.

Lemma ListenReply_talks h c now aa h' c' :
  ListenReply h c now = Ret (aa, h', c') →
  knownChunks c' = knownChunks c ∧ recentlyAddedServers h' ⊆ recentlyAddedServers h.
Proof.
  unfold ListenReply, PresentChunksList. rewrite cleanNews_again. intros E. outcome_inv. subst a.
  injection E as _ <- <-. split; [done|]. cbn. apply map_filter_subseteq.
Qed.

Lemma pong_talks t s s' x As : pong t s = Ret (s', x) → talks s As → talks s' As.
Proof.
  unfold pong. destruct (ListenReply _ _ _) as [[[aa h] c]| |] eqn:El; [|done..]. bsimpl. cbn [fst snd].
  destruct (ListenReply_talks _ _ _ _ _ _ El) as [Hk Hn]. intros E. outcome_inv. injection E as <- _.
  intros [Hc H1 H2 H3]. split; cbn; [|done|done|].
  - unfold counted. by rewrite Hk.
  - intros b [y Hy]. apply H3. exists y. by eapply lookup_weaken.
Qed.

(** ** The network as it answers pings *)

(** Every server of the network can be pinged. *)
Definition talking (w : cluster) (S : netmap) : Prop :=
  ∀ a s x, nodes w !! a = Some s → S !! a = Some x → talks s x.1.

Section pings.
Context {J : Json} (w0 : cluster) (S : netmap) (live : gmap addr_t AmAlive).
Abbreviation t := (w_clock w0).

(** The servers of [S] answer as in [live]; their groups are those of [w0]. *)
Record pongs (w : cluster) : Prop := Pongs {
  po_rep : cluster_rep w S;
  po_clock : w_clock w = t;
  po_talking : talking w S;
  po_groups : ∀ a, s_sg <$> nodes w !! a = s_sg <$> nodes w0 !! a;
  po_answers : ∀ a,
    match live !! a with
    | Some aa => ∃ s s', nodes w !! a = Some s ∧ pong t s = Ret (s', inr aa)
    | None => nodes w !! a = None
    end
}.

Lemma pongs_ping : pings_as pongs live.
Proof.
  intros w a [Hw Ht Htk Hgr Hl]. pose proof (Hl a) as Ha. cbn [net_ping clusterNet]. unfold pingTo. rewrite Ht.
  destruct (live !! a) as [aa|] eqn:Haa; cycle 1.
  { rewrite Ha. split; [by split|by eexists]. }
  destruct Ha as (s & s' & Hs & Ep). rewrite Hs, Ep. split; [|done].
  destruct (S !! a) as [x|] eqn:Hx; [|specialize (Hw a); rewrite Hx in Hw; congruence].
  destruct (cluster_rep_at w S a x Hw Hx) as (s0 & Hs0 & Hr0). assert (s0 = s) as -> by congruence.
  split; [|done|..].
  - rewrite <- (insert_id S a x Hx). apply cluster_rep_update; [done|]. by eapply pong_rep.
  - intros b sb y. cbn [nodes fst]. intros [[<- <-]|[Hne Hb]]%lookup_insert_Some Hy; [|by eapply Htk].
    assert (y = x) as -> by congruence. eapply pong_talks; [exact Ep|by eapply Htk].
  - intros b. cbn [nodes fst]. destruct (decide (a = b)) as [<-|Hne].
    + rewrite lookup_insert_eq, <- Hgr, Hs. cbn. by rewrite (pong_group _ _ _ _ Ep).
    + by rewrite lookup_insert_ne.
  - intros b. destruct (decide (a = b)) as [<-|Hne].
    + rewrite Haa. exists s', s'. split; [apply lookup_insert_eq|by eapply pong_again].
    + cbn [nodes fst]. rewrite lookup_insert_ne by done. apply Hl.
Qed.
End pings.

(** What the server at an address answers. *)
Record speaks (w : cluster) (S : netmap) (a : addr_t) (aa : AmAlive) : Prop := Speaks {
  sp_node : ∃ s x, nodes w !! a = Some s ∧ S !! a = Some x ∧ map aID (KnownChunks aa) = present_ids 0 x.1 ∧
    ∀ b, b ∈ RecentlyAddedServers aa → is_Some (recentlyAddedServers (s_hb s) !! b);
  sp_dead : RecentlyDeadServers aa = []
}.

Lemma talking_pongs w S :
  cluster_rep w S → talking w S →
  ∃ live, pongs w S live w ∧ ∀ a aa, live !! a = Some aa → speaks w S a aa.
Proof.
  intros Hw Ht.
  set (answer s := match pong (w_clock w) s with Ret (_, inr aa) => Some aa | _ => None end).
  assert (∀ a s, nodes w !! a = Some s → ∃ x s' aa, S !! a = Some x ∧ pong (w_clock w) s = Ret (s', inr aa) ∧ speaks w S a aa) as Hok.
  { intros a s Hs. destruct (S !! a) as [x|] eqn:Hx; [|specialize (Hw a); rewrite Hx in Hw; congruence].
    destruct (cluster_rep_at w S a x Hw Hx) as (s0 & Hs0 & Hr0). assert (s0 = s) as -> by congruence.
    destruct (pong_ok (w_clock w) s _ _ Hr0 (Ht a s x Hs Hx)) as (s' & aa & E & _ & Hids & Hd & Hadd).
    exists x, s', aa. split_and!; [done..|]. split; [by exists s, x|done]. }
  exists (omap answer (nodes w)). split; [split; [done..|]|].
  - intros a. rewrite lookup_omap. destruct (nodes w !! a) as [s|] eqn:Hs; [|done]. cbn.
    destruct (Hok a s Hs) as (x & s' & aa & _ & E & _). unfold answer. rewrite E. by exists s, s'.
  - intros a aa. rewrite lookup_omap. destruct (nodes w !! a) as [s|] eqn:Hs; [|done]. cbn.
    destruct (Hok a s Hs) as (x & s' & aa' & _ & E & Hsp). unfold answer. rewrite E. by intros [= <-].
Qed.

(** ** Connect *)

(** The servers where the chunk [i] is present. *)
Definition carriers (S : netmap) (i : Z) : gset addr_t :=
  dom (filter (λ kv, kv.2.1 !! Z.to_nat i ≫= id ≠ None) S).

Lemma elem_of_carriers S i b :
  b ∈ carriers S i ↔ ∃ x y, S !! b = Some x ∧ x.1 !! Z.to_nat i = Some (Some y).
Proof.
  unfold carriers. rewrite elem_of_dom. unfold is_Some. setoid_rewrite map_lookup_filter_Some. cbn. split.
  - intros (x & Hx & Hp). exists x. destruct (x.1 !! Z.to_nat i) as [[y|]|]; naive_solver.
  - intros (x & y & Hx & Hy). exists x. by rewrite Hy.
Qed.

(** A group as it comes over the network: the addresses only. *)
Abbreviation forgotten g := ((λ _ : vinfo, VInfo [] false zero_time) <$> (g : group)).

Section connect.
Context {J : Json}.

(** The server at [a] and its network, as a client finds them: the servers
    answer pings, all have [n] chunks, none has an empty address, and the
    encoding of the group of [a] can be read. *)
Record gate (w : cluster) (S : netmap) (a : addr_t) (n : Z) (g : group) : Prop := Gate {
  gt_rep : cluster_rep w S;
  gt_talking : talking w S;
  gt_sized : sized S n;
  gt_group : ∃ As, S !! a = Some (As, g);
  gt_named : S !! [] = None ∧ g !! [] = None;
  gt_json : ∀ sg, s_sg <$> nodes w !! a = Some sg →
    json_unmarshal (json_marshal (Marshal sg)) = inr (Marshal sg) ∧ zlen (json_marshal (Marshal sg)) < 2 ^ 31
}.

Definition newClient (h : Heartbeater) : DBClient :=
  mkClient h defaultGetTimeout defaultSetTimeout defaultDelTimeout defaultCASTimeout.

Lemma speaks_range w S n a aa : sized S n → speaks w S a aa → Forall (in_range n) (KnownChunks aa).
Proof.
  intros Hsz [(s & x & _ & Hx & Hids & _) _]. apply Forall_forall. intros k Hk.
  assert (aID k ∈ present_ids 0 x.1) as Hp by (rewrite <- Hids; by apply list_elem_of_fmap_2).
  apply present_ids_spec in Hp as (Hp & y & Hy). apply lookup_lt_Some in Hy.
  unfold in_range. rewrite <- (Hsz a x Hx). unfold zlen. lia.
Qed.

Lemma speaks_holds w S a aa v i :
  speaks w S a aa → v_held v = KnownChunks aa → 0 ≤ i → holds (v_held v) i ↔ a ∈ carriers S i.
Proof.
  intros [(s & x & _ & Hx & Hids & _) _] Hv Hi. unfold holds. rewrite Hv, elem_of_carriers, Hx, Hids. split.
  - intros (_ & y & Hy)%present_ids_spec. rewrite Z.sub_0_r in Hy. eauto.
  - intros (x' & y & [= <-] & Hy). eapply present_ids_intro; [done|]. by rewrite Z.sub_0_r.
Qed.

(** A refreshed server is a holder of the chunks that it has. *)
Lemma refreshed_holder w S live lh g i b :
  (∀ aa, live !! b = Some aa → speaks w S b aa) → (is_Some (live !! b) ↔ is_Some (S !! b)) →
  refreshed live lh g b → 0 ≤ i → b ∈ holdersOf g i ↔ b ∈ carriers S i.
Proof.
  intros Hsp Hdom Hr Hi. rewrite elem_of_holdersOf. unfold refreshed in Hr. destruct (live !! b) as [bb|] eqn:Hb.
  - destruct Hr as [(v & x & Hv & Hx & Hh & _) _]. assert (x = bb) as -> by congruence.
    rewrite <- (speaks_holds w S b bb v i (Hsp bb eq_refl) Hh Hi). rewrite Hv. naive_solver.
  - destruct Hr as (v & Hv & _ & Hh). rewrite Hv, elem_of_carriers. split.
    + intros (v' & [= <-] & Hin). unfold holds in Hin. rewrite Hh in Hin. by apply not_elem_of_nil in Hin.
    + intros (x & _ & Hx & _). destruct Hdom as [_ Hd]. destruct Hd; [eauto|done].
Qed.

(** What a server or a client that starts its heartbeater learns of the network
    [S], from a group [g]. *)
Record learned (lh : addr_t) (w : cluster) (S : netmap) (g g' : group) : Prop := Learned {
  ln_known : ∀ b, is_Some (g !! b) → is_Some (g' !! b);
  ln_real : ∀ b, is_Some (g' !! b) → is_Some (g !! b) ∨ is_Some (S !! b);
  ln_holders : ∀ i b, 0 ≤ i → b ≠ lh → b ∈ holdersOf g' i ↔ is_Some (g' !! b) ∧ b ∈ carriers S i;
  ln_gossip : ∀ b s s' aa c, is_Some (g' !! b) → b ≠ lh → nodes w !! b = Some s →
    pong (w_clock w) s = Ret (s', inr aa) → c ∈ RecentlyAddedServers aa → c ≠ lh → is_Some (S !! c) →
    is_Some (g' !! c)
}.

(** The network after pings. *)
Record pinged (w w' : cluster) (S : netmap) : Prop := Pinged {
  pg_rep : cluster_rep w' S;
  pg_talking : talking w' S;
  pg_clock : w_clock w' = w_clock w;
  pg_groups : ∀ a, s_sg <$> nodes w' !! a = s_sg <$> nodes w !! a
}.

Lemma HBStart_cluster fuel (e : env cluster) S n g lh :
  sg_rep (e_sg e) g → numChunks (e_sg e) = n → LocalhostIPPort (e_sg e) = lh →
  cluster_rep (e_net e) S → talking (e_net e) S → sized S n → (size S + 4 ≤ fuel)%nat →
  ∃ h e' g', HBStart fuel e = Ret (h, e') ∧ sg_rep (e_sg e') g' ∧ numChunks (e_sg e') = n ∧
    LocalhostIPPort (e_sg e') = lh ∧ pinged (e_net e) (e_net e') S ∧ learned lh (e_net e) S g g'.
Proof.
  intros Hr Hn Hl Hw Htalk Hsz Hf.
  destruct (talking_pongs (e_net e) S Hw Htalk) as (live & Hp & Hsp). unfold HBStart. msimpl.
  assert (∀ b, is_Some (live !! b) ↔ is_Some (S !! b)) as Hdom.
  { intros b. pose proof (po_answers _ _ _ _ Hp b) as Hpb. split.
    - intros [aa Haa]. destruct (Hsp b aa Haa) as [(? & x & _ & Hx & _) _]. eauto.
    - intros [x Hx]. destruct (cluster_rep_at _ _ _ _ Hw Hx) as (? & ? & _). destruct (live !! b); [eauto|congruence]. }
  destruct (turn_refreshes (pongs (e_net e) S live) live lh n) with (fuel := fuel) (h := newHeartbeater) (e := e) (g := g)
    as (h & e2 & g' & -> & [Hr2 Hn2 Hl2 [Hw2 Ht2 Htk2 Hgr2 _]] & _ & Hpr & Hrf).
  - intros b bb c Hb. destruct (Hsp b bb Hb) as [_ ->]. by intros ?%not_elem_of_nil.
  - apply pongs_ping.
  - intros b bb Hb. eapply speaks_range; [done|by apply Hsp].
  - by split.
  - done.
  - assert (size live ≤ size S)%nat; [|lia]. rewrite <- !(size_dom (D := gset addr_t)). apply subseteq_size.
    intros b. rewrite !elem_of_dom. apply Hdom.
  - eexists h, e2, g'. split_and!; [done|done|done|done|by split|]. split.
    + apply Hpr.
    + intros b Hb. destruct (pr_live _ _ _ _ Hpr b Hb); [by left|right; by apply Hdom].
    + intros i b Hi Hne. assert (∀ v, g' !! b = Some v → b ∈ holdersOf g' i ↔ b ∈ carriers S i) as Hiff.
      { intros v Hv. eapply (refreshed_holder (e_net e)); [apply Hsp|apply Hdom|apply Hrf; eauto|done]. }
      split; [intros Hh|intros [[v Hv] Hc]; by apply (Hiff v Hv)].
      pose proof Hh as (v & Hv & _)%elem_of_holdersOf. split; [by eexists|by apply (Hiff v Hv)].
    + intros b sb sb' aa c Hb Hnb Hsb Epong Hc Hne Hlc. specialize (Hrf b Hb Hnb). unfold refreshed in Hrf.
      pose proof (po_answers _ _ _ _ Hp b) as Hpb. destruct (live !! b) as [bb|]; [|congruence].
      destruct Hpb as (s0 & s0' & Hs0 & Ep0). assert (s0 = sb) as -> by congruence.
      rewrite Epong in Ep0. injection Ep0 as _ <-. destruct Hrf as [_ [Hadd _]]. apply Hadd; [done|by apply Hdom|done].
Qed.

(** The view of a client: the servers that the server at [a] knows are on it,
    and the holders of a chunk on it are those of its servers that have the
    chunk. *)
Record view (S : netmap) (g g' : group) : Prop := View {
  vw_known : ∀ b, is_Some (g !! b) → is_Some (g' !! b);
  vw_real : ∀ b, is_Some (g' !! b) → is_Some (g !! b) ∨ is_Some (S !! b);
  vw_holders : ∀ i b, 0 ≤ i → b ∈ holdersOf g' i ↔ is_Some (g' !! b) ∧ b ∈ carriers S i
}.

Lemma forgotten_known g b : is_Some (forgotten g !! b) ↔ is_Some (g !! b).
Proof. rewrite lookup_fmap. apply fmap_is_Some. Qed.

Lemma connect_sim fuel a (e : env cluster) S n g :
  gate (e_net e) S a n g → (size S + 4 ≤ fuel)%nat →
  ∃ h e' g', Connect fuel a e = Ret (inr (newClient h), e') ∧ cenv g' e' S ∧ numChunks (e_sg e') = n ∧
    view S g g' ∧ net_now (e_net e') = net_now (e_net e) ∧
    (∀ b gb, gate (e_net e) S b n gb → gate (e_net e') S b n gb) ∧
    ∀ b sb sb' aa c, is_Some (g' !! b) → nodes (e_net e) !! b = Some sb →
      pong (w_clock (e_net e)) sb = Ret (sb', inr aa) → c ∈ RecentlyAddedServers aa → is_Some (S !! c) →
      is_Some (g' !! c).
Proof.
  intros [Hw Htalk Hsz [As HSa] [Hn1 Hn2] Hj] Hf. unfold Connect. msimpl.
  destruct (cluster_rep_at _ _ _ _ Hw HSa) as (s & Hs & Hr). cbn in Hr.
  destruct (Hj (s_sg s)) as [Hjson Hlen]; [by rewrite Hs|].
  destruct (groupAssoc_cluster e a s As g [] Hs Hr Hjson Hlen) as (e1 & -> & En & Hr1 & Hl1 & Hn & _). msimpl.
  rewrite (Hsz _ _ HSa : zlen As = n) in Hn.
  destruct (HBStart_cluster fuel e1 S n _ [] Hr1 Hn Hl1) as (h & e2 & g' & -> & Hr2 & Hn' & Hl2 & [Hw2 Htk2 Ht2 Hgr2] & [Hk Hreal Hh Hgos]);
    [by rewrite En..|done|done|]. rewrite En in *. msimpl.
  assert (∀ b, is_Some (g' !! b) → is_Some (g !! b) ∨ is_Some (S !! b)) as Hgrow.
  { intros b [Hb|Hb]%Hreal; [left; by apply forgotten_known|by right]. }
  assert (∀ b, is_Some (g' !! b) → b ≠ []) as Hne.
  { intros b Hb ->. destruct (Hgrow [] Hb) as [[? ?]|[? ?]]; congruence. }
  eexists h, e2, g'. split_and!; [reflexivity|by split|done|split; [|done|]|exact Ht2| |].
  - intros b Hb. by apply Hk, forgotten_known.
  - intros i b Hi. destruct (decide (b = [])) as [->|Hb]; [|by apply Hh]. split.
    + intros (v & Hv & _)%elem_of_holdersOf. destruct (Hne [] (mk_is_Some _ _ Hv)). done.
    + intros [Hb _]. by destruct (Hne [] Hb).
  - intros b gb [_ _ ? ? ? Hjb]. split; try done. intros sg Hsg. apply Hjb. by rewrite <- Hgr2.
  - intros b sb sb' aa c Hb Hsb Epong Hc Hlc. eapply Hgos; [done|by apply Hne|done..| |done].
    intros ->. destruct Hlc. congruence.
Qed.
End connect.

(** C14. A client that connects to a running server learns its group: it knows
    every server that this one knows, and those that the gossip of the servers it
    knows tells of, if they can be reached; and for each chunk it lists as holders
    exactly the servers it knows where the chunk is present. Connecting changes no
    chunk and no group of a server. Its recursion is no deeper than the number of
    servers plus 4. The servers answer pings and do not change meanwhile, all have
    the same number of chunks, none has an empty address, and the JSON of the
    group can be read back. *)
Theorem connect_learns_holders `{Json} fuel a (e : env cluster) S n g :
  gate (e_net e) S a n g → (size S + 4 ≤ fuel)%nat →
  ∃ h e' g', Connect fuel a e = Ret (inr (newClient h), e') ∧ cenv g' e' S ∧ numChunks (e_sg e') = n ∧
    view S g g' ∧
    ∀ b sb sb' aa c, is_Some (g' !! b) → nodes (e_net e) !! b = Some sb →
      pong (w_clock (e_net e)) sb = Ret (sb', inr aa) → c ∈ RecentlyAddedServers aa → is_Some (S !! c) →
      is_Some (g' !! c).
Proof.
  intros Hg Hf. destruct (connect_sim fuel a e S n g Hg Hf) as (h & e' & g' & E & He & Hn & Hv & _ & _ & Hgos).
  by exists h, e', g'.
Qed.

(** What one client writes another reads, although each connects through a
    server of its own: one server that both of these know has to hold the chunk
    of the key and to accept the value, the values stored before have to be
    older, and at most eight servers may hold the chunk. *)
Theorem clients_share_data `{Json} fuel a b (w : cluster) S n ga gb sgA sgB k v h :
  gate w S a n ga → gate w S b n gb → (size S + 4 ≤ fuel)%nat → 0 < n < 2 ^ 63 →
  (size (carriers S (keyChunk n k)) ≤ 8)%nat → good_key k → zlen k + zlen v < 2 ^ 31 →
  let t := w_clock w in
  0 ≤ t < 2 ^ 63 → (∀ c old, valueAt S k c = Some old → ts old < t) →
  is_Some (ga !! h) → is_Some (gb !! h) → h ∈ carriers S (keyChunk n k) → accepted S k (stamp t ++ v) h →
  ∃ cA cB eA eB eA' eB' errs,
    Connect fuel a (Env sgA w) = Ret (inr cA, eA) ∧
    Connect fuel b (Env sgB (e_net eA)) = Ret (inr cB, eB) ∧
    clientSet cA k v (Env (e_sg eA) (e_net eB)) = Ret ((true, errs), eA') ∧
    clientGet cB k (Env (e_sg eB) (e_net eA')) = Ret ((Some v, t, true), eB').
Proof.
  intros HgA HgB Hf Hn Hsz Hk Hlen t Ht Hold HhA HhB Hh Hacc.
  destruct (connect_sim fuel a (Env sgA w) S n ga HgA Hf) as (hA & eA & gA & EA & HeA & HnA & HvA & HtA & HgA' & _).
  destruct (connect_sim fuel b (Env sgB (e_net eA)) S n gb (HgA' b gb HgB) Hf)
    as (hB & eB & gB & EB & HeB & HnB & HvB & HtB & _).
  assert (0 ≤ keyChunk n k) as Hi by (apply Z.mod_pos_bound; lia).
  assert (∀ g0 g', view S g0 g' → (size (keyHolders g' n k) ≤ 8)%nat) as Hsize.
  { intros g0 g' Hv. etrans; [|exact Hsz]. apply subseteq_size. intros c Hc. by apply (vw_holders _ _ _ Hv) in Hc as [_ ?]. }
  assert (∀ g0 g', view S g0 g' → is_Some (g0 !! h) → h ∈ keyHolders g' n k) as Hin.
  { intros g0 g' Hv H0. apply (vw_holders _ _ _ Hv); [done|]. split; [by apply (vw_known _ _ _ Hv)|done]. }
  pose proof (ts_stamp t v Ht) as Hts.
  assert (net_now (e_net eB) = t) as Hnow by (rewrite HtB; exact HtA).
  destruct (clientSet_sim gA (Env (e_sg eA) (e_net eB)) S n (newClient hA) k v)
    as (written & errs & eA' & ES & HeA' & _ & Hw & _); [by destruct HeA, HeB|done|done|by eapply Hsize|done|done|].
  cbn [e_net] in *. rewrite Hnow in HeA', Hw. rewrite (proj2 Hw) in ES by (exists h; split; [by eapply Hin|done]).
  destruct (clientGet_sim gB (Env (e_sg eB) (e_net eA')) (holdersSet S (keyHolders gA n k) k (stamp t ++ v)) n (newClient hB) k)
    as (o & eB' & read & EG & Hnew & Hread & _);
    [by destruct HeA', HeB|done|done|by eapply Hsize|done|done|pose proof (zlen_nonneg v); lia|].
  assert (o = Some (stamp t ++ v)) as ->.
  { apply (newest_written S (keyHolders gA n k) (keyHolders gB n k) k _ h); [by eapply Hin|by eapply Hin|done| |done]. intros c old _. rewrite Hts. apply Hold. }
  rewrite (proj2 Hread) in EG; cycle 1.
  { exists h. split; [by eapply Hin|]. unfold holdersSet. rewrite map_lookup_imap.
    destruct Hacc as (y & -> & _). cbn. eauto. }
  exists (newClient hA), (newClient hB), eA, eB, eA', eB', errs. split_and!; [done|done|done|].
  rewrite EG. cbn [fmap option_fmap option_map default]. rewrite Hts. unfold stamp.
  by rewrite drop_app_le, drop_ge by (rewrite le_enc_length; lia).
Qed.

(** ** From an empty network *)

(** What [Marshal] writes of the servers: their addresses. *)
Lemma Marshal_group sg g : sg_rep sg g → ss_servers (Marshal sg) = map_imap (λ a _, Some a) g.
Proof.
  intros Hr. apply map_eq. intros a. cbn. rewrite lookup_omap, map_lookup_imap.
  destruct (servers sg !! a) as [p|] eqn:Hp; cbn.
  - destruct (sr_known _ _ Hr _ _ Hp) as (s & -> & <- & Hg). by rewrite Hg.
  - by rewrite (sr_unknown _ _ Hr _ Hp).
Qed.

(** A new chunk has room for a pair. *)
Lemma blank_accepts n sz k x :
  0 < n → 8 ≤ zlen x → 12 + zlen k + zlen x < sz → (spec_set (replicate (Z.to_nat n) (Some (new_abs sz))) k x).2 = None.
Proof.
  intros Hn H8 Hroom. unfold spec_set, spec_core. cbn [op_key spec_step].
  pose proof (chunkIndex_lt (replicate (Z.to_nat n) (Some (new_abs sz))) k) as Hi.
  rewrite zlen_replicate in * by lia. rewrite length_replicate in Hi. specialize (Hi Hn).
  rewrite lookup_replicate_2 by done. bsimpl. cbn [snd]. unfold spec_Set, spec_write.
  destruct (Z.ltb_spec (zlen x) 8); [lia|]. cbn [new_abs a_map]. rewrite lookup_empty.
  unfold room. cbn [a_log new_abs a_size enc_log map concat]. zlen_nil_simpl.
  destruct (Z.ltb_spec (0 + 12 + zlen k + zlen x) sz); [done|lia].
Qed.
Section fresh.
Context `{Json} `{GommapLaws} (sz n red : Z) (addr : addr_t) (t : time).
Abbreviation As := (replicate (Z.to_nat n) (Some (new_abs sz))).
Abbreviation g := ({[addr := VInfo (allChunks n) false t]} : group).

(** The network of a server that was just created. *)
Lemma fresh_gate s :
  server_rep s As g → counted (s_core s) As → s_hb s = newHeartbeater → redundancy (s_sg s) = red →
  addr ≠ [] → 0 < n ≤ 116 →
  (let conf := Serializable n red {[addr := addr]} in
   json_unmarshal (json_marshal conf) = inr conf ∧ zlen (json_marshal conf) < 2 ^ 31) →
  gate (Cluster {[addr := s]} [] t) {[addr := (As, g)]} addr n g.
Proof.
  intros Hr Hcnt Hhb Hred Haddr Hn Hj. split.
  - exact (cluster_rep_update (Cluster ∅ [] t) ∅ addr s (As, g) [] t (λ a, eq_refl) Hr).
  - intros b s' x. cbn [nodes]. intros [_ <-]%lookup_singleton_Some [_ <-]%lookup_singleton_Some. split; [done| | |].
    + pose proof (count_range As). cbn [fst]. rewrite zlen_replicate in * by lia. lia.
    + cbn [fst]. rewrite zlen_replicate by lia. lia.
    + rewrite Hhb. by intros b' [? ?].
  - intros b x [_ <-]%lookup_singleton_Some. cbn [fst]. rewrite zlen_replicate; lia.
  - exists As. apply lookup_singleton_eq.
  - by rewrite !lookup_singleton_ne.
  - cbn [nodes]. rewrite lookup_singleton_eq. intros sg [= <-].
    assert (Marshal (s_sg s) = Serializable n red {[addr := addr]}) as ->; [|exact Hj].
    pose proof (Marshal_group _ _ (sv_group _ _ _ Hr)) as Em. unfold Marshal in *. cbn in Em. rewrite Em, Hred.
    rewrite (sv_chunks _ _ _ Hr), zlen_replicate by lia. f_equal. unfold singletonM, map_singleton. by rewrite (map_imap_insert_Some _ _ _ _ addr), map_imap_empty.
Qed.
End fresh.

(** The system from nothing: a server is created with its own copy of every
    chunk, a client connects to it, writes a pair and reads it back, with the
    time of the write and without errors.  The pair has to fit in a chunk, the
    JSON of the configuration has to be read back as it was written, and 116
    chunks fit in a heartbeat. *)
Theorem fresh_server_serves `{Json} `{GommapLaws} fuel ip port path files sz n red sg0 t k v :
  let addr := hostPort ip port in
  let conf := Serializable n red {[addr := addr]} in
  0 < sz ≤ maxChunkSize → 0 < n ≤ 116 →
  json_unmarshal (json_marshal conf) = inr conf ∧ zlen (json_marshal conf) < 2 ^ 31 →
  good_key k → 20 + zlen k + zlen v < sz → 0 ≤ t < 2 ^ 63 →
  ∃ s c e errs e',
    Create (5 + fuel) ip port path files sz false n red (Cluster ∅ [] t) = Ret (s, Cluster ∅ [] t) ∧
    Connect (5 + fuel) addr (Env sg0 (Cluster {[addr := s]} [] t)) = Ret (inr c, e) ∧
    (w ← clientSet c k v; r ← clientGet c k; mret (w, r)) e = Ret ((true, errs, (Some v, t, true)), e').
Proof.
  intros addr conf Hsz Hn Hj Hk Hroom Ht.
  destruct (Create_sim (4 + fuel) ip port path files sz n red (Cluster ∅ [] t) Hsz ltac:(lia))
    as (s & E & Hr & Hcnt & _ & Hred & Hhb & _). fold addr in Hr. cbn [net_now clusterNet w_clock] in Hr.
  assert (addr ≠ []) as Haddr by (unfold addr, hostPort; destruct ip; discriminate).
  pose proof (fresh_gate sz n red addr t s Hr Hcnt Hhb Hred Haddr Hn Hj) as Hg.
  set (S := {[addr := _]} : netmap) in Hg.
  destruct (connect_sim (5 + fuel) addr (Env sg0 (Cluster {[addr := s]} [] t)) S n _ Hg) as (h & e & g' & Ec & He & Hn' & Hv & Hnow & _).
  { unfold S. rewrite map_size_singleton. lia. }
  assert (0 ≤ keyChunk n k < n) as Hi by (apply Z.mod_pos_bound; lia).
  assert (keyHolders g' n k = {[addr]}) as Hh.
  { apply leibniz_equiv. intros b. unfold keyHolders. rewrite (vw_holders _ _ _ Hv), elem_of_carriers, elem_of_singleton by lia.
    unfold S. split.
    - intros [_ (x & y & [<- _]%lookup_singleton_Some & _)]. done.
    - intros ->. split; [apply (vw_known _ _ _ Hv); rewrite lookup_singleton_eq; by eexists|].
      eexists _, (new_abs sz). split; [apply lookup_singleton_eq|]. cbn [fst]. apply lookup_replicate_2. lia. }
  cbn [net_now clusterNet e_net w_clock] in Hnow.
  destruct (set_get_sim g' e S n (newClient h) k v) as (errs & e' & Es); try done.
  - lia.
  - rewrite Hh, size_singleton. lia.
  - unfold maxChunkSize in *. lia.
  - cbn [net_now clusterNet]. by rewrite Hnow.
  - intros b old _. unfold valueAt, S. destruct (decide (b = addr)) as [->|Hne]; [|by rewrite lookup_singleton_ne].
    rewrite lookup_singleton_eq. cbn [mbind option_bind]. unfold nodeValue, spec_get. cbn [fst].
    destruct (lookup _ _) as [[a|]|] eqn:Ha; [|done..]. apply lookup_replicate in Ha as [[= ->] _]. done.
  - cbn [net_now clusterNet]. rewrite Hnow, Hh. exists addr. split; [set_solver|]. eexists. split; [apply lookup_singleton_eq|].
    cbn [fst]. pose proof (zlen_nonneg v). apply blank_accepts; [lia|..]; unfold stamp; rewrite zlen_app, zlen_le_enc; lia.
  - cbn [net_now clusterNet] in Es. rewrite Hnow in Es. by exists s, (newClient h), e, errs, e'.
Qed.

Lemma fresh_server_serves_witness :
  let _ := plainGommap in
  ∃ (J : Json) (c : DBClient) (e e' : env cluster) errs,
    (w ← clientSet c (str "k") (str "v"); r ← clientGet c (str "k"); mret (w, r)) e = Ret ((true, errs, (Some (str "v"), 7, true)), e').
Proof.
  intros G. destruct feud_sg as (sg & _). set (conf := Serializable 8 2 {[hostPort (str "10.0.0.1") 9876 := hostPort (str "10.0.0.1") 9876]}).
  set (J := {| json_marshal _ := []; json_unmarshal _ := inr conf |}).
  destruct (@fresh_server_serves J G plainGommap_laws 0 (str "10.0.0.1") 9876 "db" [] 300 8 2 sg 7 (str "k") (str "v"))
    as (s & c & e & errs & e' & _ & _ & E).
  - by vm_compute.
  - lia.
  - split; [reflexivity|by vm_compute].
  - by vm_compute.
  - by vm_compute.
  - lia.
  - by exists J, c, e, e', errs.
Defined.

(** ** Two clients of the network of two servers *)

Lemma carriers_dom S i : (size (carriers S i) ≤ size S)%nat.
Proof.
  rewrite <- (size_dom (D := gset addr_t)). apply subseteq_size. intros b. rewrite elem_of_carriers, elem_of_dom.
  intros (x & _ & Hx & _). eauto.
Qed.

Definition blank : node := ([Some (new_abs 300)], feud_group).

Lemma duo_gates :
  let _ := plainGommap in
  ∃ (J : Json) (w : cluster), w_clock w = 0 ∧ ∀ a, a = addr_a ∨ a = addr_b → gate w (duo_map blank blank) a 1 feud_group.
Proof.
  intros G. destruct (@empty_core G plainGommap_laws) as (c & k & Hc & Hcnt & _). destruct feud_sg as (sg & Hsg & Hn).
  exists (oneJson (seenFrom sg addr_a 1)), (duo (duo_server c sg addr_a) (duo_server c sg addr_b)).
  split; [done|]. intros a Ha.
  assert (∀ b s, nodes (duo (duo_server c sg addr_a) (duo_server c sg addr_b)) !! b = Some s →
    ∃ lh, s = duo_server c sg lh) as Hnode.
  { intros b s. cbn. intros [[_ <-]|[_ [_ <-]%lookup_singleton_Some]]%lookup_insert_Some; eauto. }
  assert (∀ b x, duo_map blank blank !! b = Some x → x = blank ∧ (b = addr_a ∨ b = addr_b)) as Hmap.
  { intros b x. unfold duo_map. intros [[<- <-]|[_ [<- <-]%lookup_singleton_Some]]%lookup_insert_Some; eauto. }
  split.
  - apply duo_rep; by apply duo_server_rep.
  - intros b s x [lh ->]%Hnode [-> _]%Hmap. split; [exact Hcnt|by vm_compute|by vm_compute|]. by intros y [? ?].
  - intros b x [-> _]%Hmap. reflexivity.
  - exists [Some (new_abs 300)]. destruct Ha as [->| ->]; [apply duo_at_a|apply duo_at_b].
  - by vm_compute.
  - intros s. destruct (nodes _ !! a) as [s0|] eqn:Hs; [|done]. destruct (Hnode a s0 Hs) as [lh ->]. cbn.
    intros [= <-]. split; [reflexivity|by vm_compute].
Qed.

Lemma connect_learns_holders_witness :
  let _ := plainGommap in
  ∃ (J : Json) (e e' : env cluster) (c : DBClient), Connect 6 addr_a e = Ret (inr c, e').
Proof.
  intros G. destruct duo_gates as (J & w & _ & Hg). destruct feud_sg as (sg & _).
  destruct (connect_learns_holders 6 addr_a (Env sg w) (duo_map blank blank) 1 feud_group) as (h & e' & g' & E & _).
  - apply Hg. by left.
  - by vm_compute.
  - by exists J, (Env sg w), e', (newClient h).
Defined.

Lemma clients_share_data_witness :
  let _ := plainGommap in
  ∃ (J : Json) (cB : DBClient) (e e' : env cluster), clientGet cB (str "k") e = Ret ((Some (str "x"), 0, true), e').
Proof.
  intros G. destruct duo_gates as (J & w & Ht & Hg). destruct feud_sg as (sg & _).
  destruct (clients_share_data 6 addr_a addr_b w (duo_map blank blank) 1 feud_group feud_group sg sg (str "k") (str "x") addr_a)
    as (cA & cB & eA & eB & eA' & eB' & errs & _ & _ & _ & E).
  - apply Hg. by left.
  - apply Hg. by right.
  - by vm_compute.
  - lia.
  - etrans; [apply carriers_dom|]. apply Nat.leb_le. vm_compute. reflexivity.
  - by vm_compute.
  - by vm_compute.
  - rewrite Ht. lia.
  - intros c old. unfold valueAt. destruct (duo_map blank blank !! c) as [x|] eqn:Hx; [|done]. change (Some x ≫= nodeValue (str "k")) with (nodeValue (str "k") x).
    assert (x = blank) as -> by (revert Hx; unfold duo_map; intros [[_ <-]|[_ [_ <-]%lookup_singleton_Some]]%lookup_insert_Some; done).
    assert (nodeValue (str "k") blank = None) as -> by (vm_compute; reflexivity). done.
  - unfold feud_group. rewrite lookup_insert_eq. by eexists.
  - unfold feud_group. rewrite lookup_insert_eq. by eexists.
  - apply elem_of_carriers. exists blank, (new_abs 300). split; [apply duo_at_a|]. unfold keyChunk. by rewrite Z.mod_1_r.
  - exists blank. split; [apply duo_at_a|]. rewrite Ht. vm_compute. reflexivity.
  - rewrite Ht in E. by exists J, cB, (Env (e_sg eB) (e_net eA')), eB'.
Defined.
