(* ===== verification/ClusterService.v ===== *)
(** * The service of a cluster

    The servers of [Cluster] keep the promises of [Service], and clients that
    connect to them ([src/client/client.go], [Connect]) are right about who holds
    what: so clients that connect to a cluster whose replicas agree see one
    map. *)
From S2P Require Import Prelude.
From S2P Require Import Hashing.
From S2P Require Import SyncChecksum.
From S2P Require Import Store.
From S2P Require Import PMap.
From S2P Require Import PMapSpec.
From S2P Require Import Chunk.
From S2P Require Import PMapProps.
From S2P Require Import UdpHeartbeat.
From S2P Require Import TcpMessage.
From S2P Require Import Broker.
From S2P Require Import Core.
From S2P Require Import CoreProps.
From S2P Require Import CoreFiles.
From S2P Require Import ServerGroup.
From S2P Require Import ServerGroupSpec.
From S2P Require Import Remote.
From S2P Require Import Heartbeat.
From S2P Require Import HeartbeatProps.
From S2P Require Import HeartbeatTurn.
From S2P Require Import Server.
From S2P Require Import ServerProps.
From S2P Require Import Client.
From S2P Require Import KVNet.
From S2P Require Import ClientProps.
From S2P Require Import Cluster.
From S2P Require Import Repair.
From S2P Require Import Rebalance.
From S2P Require Import RebalanceProps.
From S2P Require Import Duplication.
From S2P Require Import LoadRebalance.
From S2P Require Import Boot.
From S2P Require Import Duo.
From S2P Require Import Connect.
From S2P Require Import Service.

#[local] Opaque chunkIndex.

(** ** Faults of a cluster *)

Section faults.
Context {J : Json}.

Definition clusterWait (w : cluster) (t : time) : cluster := Cluster (nodes w) (jobs w) t.
Definition clusterCrash (w : cluster) (a : addr_t) : cluster := Cluster (delete a (nodes w)) (jobs w) (w_clock w).

#[export] Instance clusterFaulty : Faulty cluster.
Proof.
  refine {| net_wait := clusterWait; net_crash := clusterCrash |}; [done|done|].
  intros w S a Hw b. cbn. destruct (decide (b = a)) as [->|Hne].
  - by rewrite !lookup_delete_eq.
  - rewrite !lookup_delete_ne by done. apply Hw.
Defined.
End faults.

(** ** Clients that connect *)

Section connected.
Context `{Json}.

(** Clients connect one after the other, each to a server. *)
Fixpoint connectAll (fuel : nat) (sg : ServerGroup) (w : cluster) (doors : list addr_t) : outcome (error + list user * cluster) :=
  match doors with
  | [] => Ret (inr ([], w))
  | a :: doors =>
      r ← Connect fuel a (Env sg w);
      match r.1 with
      | inl err => Ret (inl err)
      | inr c =>
          rest ← connectAll fuel sg (e_net r.2) doors;
          Ret (match rest with
               | inl err => inl err
               | inr (us, w) => inr (User c (e_sg r.2) :: us, w)
               end)
      end
  end.

(** The servers with the chunk of a key. *)
Definition carriersOf (S : netmap) (n : Z) (k : list byte) : gset addr_t := carriers S (keyChunk n k).

(** A door: a server that knows all the others. *)
Definition door (w : cluster) (S : netmap) (n : Z) (a : addr_t) : Prop :=
  ∃ g, gate w S a n g ∧ ∀ b, is_Some (S !! b) → is_Some (g !! b).

Lemma view_carriers S g g' i :
  view S g g' → (∀ b, is_Some (S !! b) → is_Some (g !! b)) → 0 ≤ i → holdersOf g' i = carriers S i.
Proof.
  intros Hv Hall Hi. apply set_eq. intros b. rewrite (vw_holders _ _ _ Hv) by done. split; [by intros [_ ?]|].
  intros Hb. split; [|done]. apply (vw_known _ _ _ Hv), Hall. apply elem_of_carriers in Hb as (x & _ & -> & _). by eexists.
Qed.

Lemma keyChunk_nonneg n k : 0 < n → 0 ≤ keyChunk n k.
Proof. intros Hn. unfold keyChunk. by apply Z.mod_pos_bound. Qed.

Lemma connectAll_sim fuel sg S n doors : ∀ w,
  0 < n → Forall (door w S n) doors → (size S + 4 ≤ fuel)%nat → kv_rep w S →
  ∃ us gs w', connectAll fuel sg w doors = Ret (inr (us, w')) ∧ kv_rep w' S ∧ length us = length doors ∧
    Forall2 (λ u g, waits (u_client u) ∧ numChunks (u_group u) = n ∧ sg_rep (u_group u) g ∧
      ∀ k, keyHolders g n k = carriersOf S n k) us gs.
Proof.
  induction doors as [|a doors IH]; intros w Hn Hd Hf Hw; cbn [connectAll].
  { by exists [], [], w. }
  apply Forall_cons in Hd as [(g & Hg & Hall) Hd].
  destruct (connect_sim fuel a (Env sg w) S n g Hg Hf) as (h & e' & g' & -> & He & Hnum & Hv & _ & Hgates & _). bsimpl. cbn [fst snd].
  destruct (IH (e_net e') Hn) as (us & gs & w' & -> & Hw' & Hlen & Hus); [|done|apply He|].
  { eapply Forall_impl; [exact Hd|]. intros b (gb & Hgb & Hallb). exists gb. split; [by apply Hgates|done]. }
  bsimpl. eexists _, (g' :: gs), w'. split_and!; [done|done|cbn; congruence|]. constructor; [|done]. cbn. split_and!; [|done|apply He|].
  - by split.
  - intros k. by apply (view_carriers S g g'), keyChunk_nonneg.
Qed.

(** Only the views of the clients that there are matter. *)
Lemma serves_all_views views views' insync m s hs xs s' :
  (∀ i k, (i < m)%nat → views i k = views' i k) → Forall (sound m) hs →
  serves_all views insync s hs xs s' → serves_all views' insync s hs xs s'.
Proof.
  intros Hv Hok Hs. induction Hs as [s|s i t r x mm hs xs s' Hr _ IH|s a hs xs s' _ IH]; [constructor|..];
    apply Forall_cons in Hok as [Hh Hok]; econstructor; eauto.
  destruct Hh as (Hi & _). destruct Hr; econstructor; rewrite <- ?(Hv i) by done; done.
Qed.

(** C13. Clients that connect to a cluster see one map. Each connects to a server
    that knows all the others and, if the servers with the same chunk agree at the
    beginning, all connections succeed and a history of calls and crashes is
    served as in C2, where the holders of a key are the servers that have its
    chunk. As there, the calls do not overlap, no key has more than eight holders
    and one of them survives, the keys are not reserved, the records fit in the
    chunks, and each CAS is later than every value and call before it. The servers
    answer pings, and nothing crashes while the clients connect. *)
Theorem cluster_serves fuel sg (w : cluster) S n doors M b hi hs :
  0 < n < 2 ^ 63 → kv_rep w S → Forall (door w S n) doors → (size S + 4 ≤ fuel)%nat →
  (∀ k, (size (carriersOf S n k) ≤ 8)%nat) → agreed (carriersOf S n) S M b →
  Forall (sound (length doors)) hs → costs hs ≤ b → until M hi → cas_late hi hs →
  (∀ k, ∃ a, a ∈ carriersOf S n k ∧ Crash a ∉ hs) →
  ∃ us w' s' xs st, connectAll fuel sg w doors = Ret (inr (us, w')) ∧
    run_history (Service us w') hs = Ret (s', xs) ∧
    serves_all (λ _, carriersOf S n) (inSync S) (TheStore M (dom S)) hs xs st.
Proof.
  intros Hn Hw Hd Hf Hsz Hag Hok Hb Hu Hl Hlive.
  destruct (connectAll_sim fuel sg S n doors w ltac:(lia) Hd Hf Hw) as (us & gs & w' & Ec & Hw' & Hlen & Hus).
  set (G := λ i : nat, default ∅ (gs !! i)).
  assert (∀ i u, us !! i = Some u → user_ok (carriersOf S n) G n S i u ∧ ∀ k, keyHolders (G i) n k = carriersOf S n k) as Hus'.
  { intros i u Hi. destruct (Forall2_lookup_l _ _ _ _ _ Hus Hi) as (g & Hg & Hwt & Hnum & Hrep & Hh).
    assert (G i = g) as Eg by (unfold G; by rewrite Hg). split; [|by rewrite Eg].
    split; rewrite ?Eg; try done; intros k; rewrite Hh; [apply Hsz|done]. }
  destruct (history_sim (carriersOf S n) G n Hn hs (Service us w') S M b (inSync S) hi) as (s' & xs & st & S' & E & Hall & _); try done.
  - split; [done|by intros i u Hi; apply Hus'|done].
  - apply inSync_at.
  - cbn. by rewrite Hlen.
  - intros k. destruct (Hlive k) as (a & Ha & Hno). exists a. split_and!; [done| |done].
    apply elem_of_carriers in Ha as (x & _ & -> & _). by eexists.
  - exists us, w', s', xs, st. split_and!; [done|done|]. eapply (serves_all_views _ _ _ (length doors)); [|done|exact Hall].
    intros i k Hi. rewrite <- Hlen in Hi. destruct (lookup_lt_is_Some_2 us i Hi) as [u Hui]. by apply (Hus' i u Hui).
Qed.
End connected.

(** ** Two servers with the same pairs, and two clients *)

#[local] Existing Instance noJson.

Definition twin : node := ([Some sample_abs], ∅).
Definition both (k : list byte) : gset addr_t := {[addr_a; addr_b]}.

Lemma twin_chunk k : chunkAt twin k sample_abs.
Proof.
  pose proof (chunkIndex_lt [Some sample_abs] k ltac:(by vm_compute)) as Hi. unfold chunkAt. revert Hi. cbn [fst twin].
  generalize (chunkIndex (zlen [Some sample_abs]) k). intros [|i] Hi; [done|cbn in Hi; lia].
Qed.

Lemma twins_agree : agreed both (duo_map twin twin) (a_map sample_abs) 200.
Proof.
  intros k a x _ Hx. assert (x = twin) as ->.
  { revert Hx. unfold duo_map. intros [[_ <-]|[_ [_ <-]%lookup_singleton_Some]]%lookup_insert_Some; done. }
  exists sample_abs. split_and!; [apply twin_chunk|done|by vm_compute].
Qed.

Lemma twins_up k a : a ∈ both k → duo_map twin twin !! a = Some twin.
Proof. unfold both. rewrite elem_of_union, !elem_of_singleton. intros [->| ->]; [apply duo_at_a|apply duo_at_b]. Qed.

Lemma feud_view k : keyHolders feud_group 1 k = both k.
Proof. unfold keyHolders, keyChunk. rewrite Z.mod_1_r. apply feud_holders. Qed.

Lemma both_size k : size (both k) = 2%nat.
Proof. by vm_compute. Qed.

Lemma twins_network `{GommapLaws} t : ∃ (w : cluster), kv_rep w (duo_map twin twin) ∧ net_now w = t.
Proof.
  destruct sample_server as (s & Hs). exists (Cluster (<[addr_a := s]> {[addr_b := s]}) [] t). split; [|done].
  exact (duo_rep s s twin twin Hs Hs).
Qed.

Lemma twins_service `{GommapLaws} :
  ∃ s : service, service_ok both (λ _, feud_group) 1 s (duo_map twin twin) (a_map sample_abs) 200 ∧ length (users s) = 2%nat.
Proof.
  destruct (twins_network 0) as (w & Hw & _). destruct feud_sg as (sg & Hsg & Hnum).
  exists (Service [User sample_client sg; User sample_client sg] w). split; [|done].
  split; [done| |exact twins_agree]. intros i u Hu.
  assert (u = User sample_client sg) as -> by (destruct i as [|[|[|i]]]; cbn in Hu; congruence).
  split; cbn; [done|done|by split|intros k; rewrite feud_view, both_size; lia|]. intros k a _. by rewrite feud_view.
Qed.

Lemma sample_until : until (a_map sample_abs) 6.
Proof. intros k v. cbn [a_map sample_abs]. intros [_ <-]%lookup_singleton_Some. by vm_compute. Qed.

(** One client writes, a server crashes, the other client reads. *)
Lemma service_refines_witness :
  let _ := plainGommap in
  ∃ (s s' : service) errs,
    run_history s [Call 0 9 (CSet (str "c") (str "new")); Crash addr_b; Call 1 10 (CGet (str "c"))] =
      Ret (s', [Some (ASet true errs); None; Some (AGet (Some (str "new")) 9 true)]).
Proof.
  intros Gm. destruct (@twins_service Gm plainGommap_laws) as (s & Hs & Hlen).
  destruct (service_refines both (λ _, feud_group) 1 s (duo_map twin twin) (a_map sample_abs) 200 6
    [Call 0 9 (CSet (str "c") (str "new")); Crash addr_b; Call 1 10 (CGet (str "c"))])
    as (s' & xs & st & S' & E & Hall & _).
  - lia.
  - exact Hs.
  - rewrite Hlen. repeat constructor; by vm_compute.
  - by vm_compute.
  - exact sample_until.
  - done.
  - intros k. exists addr_a. split_and!; [unfold both; set_solver|rewrite (twins_up k) by (unfold both; set_solver); by eexists|].
    rewrite !not_elem_of_cons, elem_of_nil. split_and!; [discriminate|discriminate|discriminate|tauto].
  - exists s, s'. inversion Hall as [|? ? ? ? ? m ? xs1 ? Hset Hall1|]; subst. inversion Hset; subst.
    inversion Hall1 as [| |? ? ? xs2 ? Hall2]; subst. inversion Hall2 as [|? ? ? ? ? m2 ? xs3 ? Hget Hall3|]; subst.
    inversion Hget; subst. inversion Hall3; subst. eexists. exact E.
Defined.

(** Two clients connect, each through its own server, and use the empty chunk. *)
Lemma cluster_serves_witness :
  let _ := plainGommap in
  ∃ (J : Json) sg (w w' : cluster) us s' errs,
    connectAll 6 sg w [addr_a; addr_b] = Ret (inr (us, w')) ∧
    run_history (Service us w') [Call 0 9 (CSet (str "c") (str "new")); Crash addr_b; Call 1 10 (CGet (str "c"))] =
      Ret (s', [Some (ASet true errs); None; Some (AGet (Some (str "new")) 9 true)]).
Proof.
  intros Gm. destruct duo_gates as (J & w & Ht & Hg). destruct feud_sg as (sg & _).
  set (S := duo_map blank blank).
  assert (∀ b, is_Some (S !! b) → b = addr_a ∨ b = addr_b) as Hdom.
  { intros b [x Hx]. unfold S, duo_map in Hx. apply lookup_insert_Some in Hx as [[<- _]|[_ [<- _]%lookup_singleton_Some]]; tauto. }
  assert (∀ b, b = addr_a ∨ b = addr_b → S !! b = Some blank ∧ is_Some (feud_group !! b)) as Hin.
  { intros b [->| ->]; (split; [apply duo_at_a || apply duo_at_b|]); unfold feud_group;
      [rewrite lookup_insert_eq|rewrite lookup_insert_ne, lookup_singleton_eq by done]; by eexists. }
  assert (∀ k, carriersOf S 1 k = both k) as Hcar.
  { intros k. apply set_eq. intros b. unfold carriersOf, keyChunk. rewrite Z.mod_1_r, elem_of_carriers.
    unfold both. rewrite elem_of_union, !elem_of_singleton. split.
    - intros (x & _ & Hx & _). apply Hdom. rewrite Hx. by eexists.
    - intros Hb. destruct (Hin b Hb) as [-> _]. by exists blank, (new_abs 300). }
  destruct (@cluster_serves J 6 sg w S 1 [addr_a; addr_b] ∅ 200 0
    [Call 0 9 (CSet (str "c") (str "new")); Crash addr_b; Call 1 10 (CGet (str "c"))])
    as (us & w' & s' & xs & st & Ec & E & Hall).
  - lia.
  - apply (gt_rep _ _ _ _ _ (Hg addr_a ltac:(by left))).
  - repeat constructor; exists feud_group; (split; [apply Hg; tauto|]); intros b Hb; apply Hin, Hdom, Hb.
  - by vm_compute.
  - intros k. rewrite Hcar, both_size. lia.
  - intros k a x Ha Hx. rewrite Hcar in Ha. assert (x = blank) as ->.
    { assert (a = addr_a ∨ a = addr_b) as Hab by (apply Hdom; rewrite Hx; by eexists). destruct (Hin a Hab) as [Hb _]. congruence. }
    exists (new_abs 300). split_and!; [|done|by vm_compute].
    pose proof (chunkIndex_lt [Some (new_abs 300)] k ltac:(by vm_compute)) as Hi. unfold chunkAt. revert Hi. cbn [fst blank].
    generalize (chunkIndex (zlen [Some (new_abs 300)]) k). intros [|i] Hi; [done|cbn in Hi; lia].
  - repeat constructor; by vm_compute.
  - by vm_compute.
  - by intros k v.
  - done.
  - intros k. exists addr_a. rewrite Hcar. split; [unfold both; set_solver|].
    rewrite !not_elem_of_cons, elem_of_nil. split_and!; [discriminate|discriminate|discriminate|tauto].
  - inversion Hall as [|? ? ? ? ? m ? xs1 ? Hset Hall1|]; subst. inversion Hset; subst.
    inversion Hall1 as [| |? ? ? xs2 ? Hall2]; subst. inversion Hall2 as [|? ? ? ? ? m2 ? xs3 ? Hget Hall3|]; subst.
    inversion Hget; subst. inversion Hall3; subst. eexists J, sg, w, w', us, s', _. exact (conj Ec E).
Defined.

(** A clock that shows 3 while the value is from 6. *)
Lemma skewed_CAS_is_lost_witness :
  let _ := plainGommap in
  ∃ (c : DBClient) (e e' : env cluster) errs,
    (r ← clientCAS c (str "b") (str "new") 6 (str "z"); x ← clientGet c (str "b"); mret (r, x)) e =
    Ret ((true, errs, (Some (str "z"), 6, true)), e').
Proof.
  intros Gm. destruct (@twins_network Gm plainGommap_laws 3) as (w & Hw & Ht). destruct feud_sg as (sg & Hsg & Hnum).
  destruct (skewed_CAS_is_lost both feud_group 1 sample_client (Env sg w) (duo_map twin twin) (a_map sample_abs) 200
    (str "b") (str "new") 6 (str "z") (sample_value 6 "z")) as (errs & e' & E).
  - split; [exact Hsg|exact Hw].
  - exact Hnum.
  - lia.
  - by split.
  - apply feud_view.
  - rewrite both_size. lia.
  - intros a Ha. exists twin. split; [by apply (twins_up (str "b"))|]. unfold synced, synched. intros b Hb.
    apply elem_of_holdersOf in Hb as (v & Hv & _). cbn [snd twin] in Hv. by apply lookup_empty_Some in Hv.
  - exact twins_agree.
  - by vm_compute.
  - split; by vm_compute.
  - cbn [e_net]. rewrite Ht. lia.
  - reflexivity.
  - cbn [e_net]. rewrite Ht. by vm_compute.
  - split; by vm_compute.
  - exists sample_client, (Env sg w), e', errs. exact E.
Defined.
