(* ===== verification/Join.v ===== *)
(** * Joining a group of servers

    [Assoc] ([src/server/server.go]) starts a server without chunks in the group
    of a running one: it learns the group, announces itself to all its servers,
    and asks them for their chunks. *)
From S2P Require Import Prelude.
From S2P Require Import Hashing.
From S2P Require Import Store.
From S2P Require Import PMap.
From S2P Require Import PMapSpec.
From S2P Require Import Chunk.
From S2P Require Import UdpHeartbeat.
From S2P Require Import TcpMessage.
From S2P Require Import Broker.
From S2P Require Import Core.
From S2P Require Import CoreProps.
From S2P Require Import CoreFiles.
From S2P Require Import ServerGroup.
From S2P Require Import ServerGroupSpec.
From S2P Require Import Remote.
From S2P Require Import Heartbeat.
From S2P Require Import Server.
From S2P Require Import ServerProps.
From S2P Require Import Client.
From S2P Require Import KVNet.
From S2P Require Import ClientProps.
From S2P Require Import Cluster.
From S2P Require Import Repair.
From S2P Require Import Rebalance.
From S2P Require Import RebalanceProps.
From S2P Require Import Duplication.
From S2P Require Import Boot.
From S2P Require Import Duo.
From S2P Require Import Connect.

#[local] Opaque chunkIndex.

(** The servers of [S] that [g] knows have heard of [lh]. *)
Definition announced_to (lh : addr_t) (g : group) (S S' : netmap) : Prop :=
  ∀ b, S' !! b = if decide (is_Some (g !! b)) then welcomes lh <$> S !! b else S !! b.

Section announced.
Context (lh : addr_t) (g : group) (S S' : netmap) (Ha : announced_to lh g S S').

Lemma announced_at b x' : S' !! b = Some x' → ∃ x, S !! b = Some x ∧ x'.1 = x.1.
Proof using Ha.
  rewrite Ha. case_decide; [|eauto]. destruct (S !! b) as [x|]; [|done]. intros [= <-]. by exists x.
Qed.

Lemma announced_dom b : is_Some (S' !! b) ↔ is_Some (S !! b).
Proof using Ha. rewrite Ha. case_decide; [apply fmap_is_Some|done]. Qed.

Lemma announced_size : size S' = size S.
Proof using Ha.
  rewrite <- !(size_dom (D := gset addr_t)). f_equal. apply leibniz_equiv. intros b. by rewrite !elem_of_dom, announced_dom.
Qed.

Lemma announced_sized n : sized S n → sized S' n.
Proof using Ha. intros Hsz b x' (x & Hx & ->)%announced_at. by eapply Hsz. Qed.

Lemma announced_carriers i b : b ∈ carriers S' i ↔ b ∈ carriers S i.
Proof using Ha.
  rewrite !elem_of_carriers. split.
  - intros (x' & y & (x & Hx & E)%announced_at & Hy). exists x, y. by rewrite <- E.
  - intros (x & y & Hx & Hy). rewrite Ha, Hx. case_decide; cbn; [|by exists x, y]. by exists (welcomes lh x), y.
Qed.

Lemma announced_talking w w' : lh ≠ [] → news_of lh w w' → talking w S → talking w' S'.
Proof using Ha.
  intros Hlh Hnews Ht b s' x' Hs' (x & Hx & E)%announced_at. destruct (Hnews b s' Hs') as (s & Hs & Hc & Hn).
  destruct (Ht b s x Hs Hx) as [H1 H2 H3 H4]. rewrite E. split; [by rewrite Hc|done|done|].
  intros c [->|Hc']%Hn; [done|by apply H4].
Qed.
End announced.

Lemma Assoc_sim `{Json} `{GommapLaws} fuel ip port path files sz a (e : env cluster) S n g :
  let lh := hostPort ip port in
  gate (e_net e) S a n g → (size S + 4 ≤ fuel)%nat → 0 < sz ≤ maxChunkSize → 0 < n < 2 ^ 63 →
  zlen lh < 2 ^ 16 → (∃ b, is_Some (g !! b) ∧ is_Some (S !! b)) →
  ∃ s e' g' S', Assoc fuel ip port path files sz false a e = Ret (s, e') ∧
    server_rep s (replicate (Z.to_nat n) None) g' ∧ counted (s_core s) (replicate (Z.to_nat n) None) ∧
    LocalhostIPPort (s_sg s) = lh ∧ is_Some (g' !! lh) ∧
    cluster_rep (e_net e') S' ∧ announced_to lh g S S' ∧
    (∀ b, is_Some (g !! b) → is_Some (g' !! b)) ∧
    ∀ i b, 0 ≤ i → b ≠ lh → b ∈ holdersOf g' i ↔ is_Some (g' !! b) ∧ b ∈ carriers S i.
Proof.
  intros lh [Hw Htalk Hsz [As HSa] _ Hj] Hf Hsize Hn Hlh (b0 & Hb0 & Hs0). unfold Assoc. fold lh. msimpl.
  assert (lh ≠ []) as Hne by (unfold lh, hostPort; destruct ip; discriminate).
  destruct (cluster_rep_at _ _ _ _ Hw HSa) as (s & Hs & Hr). cbn in Hr.
  destruct (Hj (s_sg s)) as [Hjson Hlen]; [by rewrite Hs|].
  destruct (groupAssoc_cluster e a s As g lh Hs Hr Hjson Hlen) as (e1 & -> & En & Hr1 & Hl1 & Hn1 & _). msimpl.
  rewrite (Hsz _ _ HSa : zlen As = n) in Hn1. rewrite Hn1.
  destruct (core_new_rep path sz n Hsize Hn) as (c & Ec & _ & Hc). pose proof (core_new_counted path sz n c Ec) as Hcnt.
  rewrite Ec. msimpl. destruct (Servers_located _ _ Hr1) as (Hloc & Hnd & Hmem).
  destruct (announceTo_cluster lh _ (Servers (e_sg e1)) (map_to_list (servers (e_sg e1))).*1 e1 S false Hr1) as (added & e2 & -> & Hr2 & Hn2 & Hl2 & Hw2 & Hnews & Hadd);
    [by rewrite En|done|done|done|]. msimpl.
  set (S' := alters _ _ _) in *. rewrite En in Hnews.
  assert (∀ b, b ∈ (map_to_list (servers (e_sg e1))).*1 ↔ is_Some (g !! b)) as Hdom by (intros b; by rewrite Hmem, forgotten_known).
  assert (announced_to lh g S S') as Hann.
  { intros b. unfold S'. rewrite alters_lookup by done. repeat case_decide; naive_solver. }
  assert (added = true) as -> by (apply Hadd; right; exists b0; by rewrite Hdom). cbn [check].
  bsimpl. msimpl.
  set (sg3 := (AddServerToGroup (e_sg e2) lh).1). pose proof (AddServer_sim (e_sg e2) _ lh Hr2) as Hr3. fold sg3 in Hr3.
  destruct (HBStart_cluster fuel (Env sg3 (e_net e2)) S' n _ lh Hr3) as (h & e' & g' & -> & Hr' & Hn' & Hl' & [Hw' _ _ _] & [Hk _ Hh _]).
  - cbn. unfold sg3. rewrite (proj1 (AddServer_config _ _)). congruence.
  - cbn. rewrite <- Hl1, <- Hl2. exact (local_fixed (e_sg e2) (GAdd lh) _ _ eq_refl).
  - exact Hw2.
  - by eapply announced_talking.
  - by eapply announced_sized.
  - by rewrite (announced_size lh g S S' Hann).
  - msimpl. assert (is_Some (spec_AddServer (forgotten g) lh !! lh) ∧ ∀ b, is_Some (forgotten g !! b) →
      is_Some (spec_AddServer (forgotten g) lh !! b)) as [Hself Hothers].
    { unfold spec_AddServer. destruct (forgotten g !! lh) as [v|] eqn:E; [split; [by rewrite E|done]|].
      rewrite lookup_insert_eq. split; [by eexists|]. intros b Hb. rewrite lookup_insert_is_Some'. by right. }
    eexists _, e', g', S'. split; [reflexivity|]. cbn [s_core s_sg]. split_and!; [|done|done|by apply Hk|done|done| |].
    + split; cbn; [done|done| |done]. rewrite Hn', zlen_replicate; lia.
    + intros b Hb. by apply Hk, Hothers, forgotten_known.
    + intros i b Hi Hb. rewrite Hh by done. by rewrite (announced_carriers lh g S S' Hann).
Qed.

(** C21. A server that joins a group through a running server is ready: it has
    the configuration of the group and no chunk; it knows itself and every server
    that the other knows, each with the chunks that it holds; and every one of
    these that can be reached knows the newcomer, while no chunk in the network
    changes.  One of them has to be reachable. *)
Theorem newcomer_joins `{Json} `{GommapLaws} fuel ip port path files sz a (e : env cluster) S n g :
  let lh := hostPort ip port in
  gate (e_net e) S a n g → (size S + 4 ≤ fuel)%nat → 0 < sz ≤ maxChunkSize → 0 < n < 2 ^ 63 →
  zlen lh < 2 ^ 16 → (∃ b, is_Some (g !! b) ∧ is_Some (S !! b)) →
  ∃ s e' g' S', Assoc fuel ip port path files sz false a e = Ret (s, e') ∧
    server_rep s (replicate (Z.to_nat n) None) g' ∧ counted (s_core s) (replicate (Z.to_nat n) None) ∧
    LocalhostIPPort (s_sg s) = lh ∧ is_Some (g' !! lh) ∧
    cluster_rep (e_net e') S' ∧ announced_to lh g S S' ∧
    (∀ b, is_Some (g !! b) → is_Some (g' !! b)) ∧
    ∀ i b, 0 ≤ i → b ≠ lh → b ∈ holdersOf g' i ↔ is_Some (g' !! b) ∧ b ∈ carriers S i.
Proof. apply Assoc_sim. Qed.

Lemma newcomer_joins_witness :
  let _ := plainGommap in
  ∃ (J : Json) (s : DBServer) (e e' : env cluster), Assoc 6 (str "10.0.0.9") 9876 "db" [] 300 false addr_a e = Ret (s, e').
Proof.
  intros G. destruct duo_gates as (J & w & _ & Hg). destruct feud_sg as (sg & _).
  destruct (@newcomer_joins J G plainGommap_laws 6 (str "10.0.0.9") 9876 "db" [] 300 addr_a (Env sg w) (duo_map blank blank) 1 feud_group)
    as (s & e' & g' & S' & E & _).
  - apply Hg. by left.
  - by vm_compute.
  - by vm_compute.
  - lia.
  - by vm_compute.
  - exists addr_a. split; [unfold feud_group; rewrite lookup_insert_eq; by eexists|]. unfold duo_map. rewrite duo_at_a. by eexists.
  - by exists J, s, (Env sg w), e'.
Defined.
