(* ===== verification/Flags.v ===== *)
(** * The command line ([src/treeless.go], the flags of [main])

    [main] declares its flags and parses the command line with the package flag
    of the standard library: a set of named values, each of which an argument
    [-name=value] or [-name value] replaces, if it has the form that the kind of
    the flag asks for.  A flag that does not parse ends the process, and so does
    one that is not declared, as [-help] is.  Numbers are decimal, octal after [0]
    and hexadecimal after [0x], as in the versions of Go of the time of the
    program; later ones also read [0b], [0o] and underscores, and end with the
    code 0 after [-help]. *)
From Stdlib Require Import Ascii.
From stdpp Require Import pretty.
From S2P Require Import Prelude.
From S2P Require Import Decimal.

(** ** Values *)

Inductive value := VBool (b : bool) | VInt (z : Z) | VString (s : string).

(** [strconv.ParseBool]. *)
Definition ParseBool (s : string) : option bool :=
  if decide (s ∈ ["1"; "t"; "T"; "true"; "TRUE"; "True"]) then Some true
  else if decide (s ∈ ["0"; "f"; "F"; "false"; "FALSE"; "False"]) then Some false
  else None.

(** [strconv.ParseUint] with base 0, without the upper bound. *)
Definition ParseUint (s : string) : option Z :=
  match s with
  | EmptyString => None
  | String "0" (String c s') =>
      if decide (c = "x"%char ∨ c = "X"%char) then
        match s' with EmptyString => None | _ => digits 16 s' 0 end
      else digits 8 (String c s') 0
  | _ => digits 10 s 0
  end.

(** [strconv.ParseInt] with base 0 and 64 bits. *)
Definition ParseInt (s : string) : option Z :=
  match s with
  | String "-" s => un ← ParseUint s; if un <=? 2 ^ 63 then Some (- un) else None
  | String "+" s => un ← ParseUint s; if un <? 2 ^ 63 then Some un else None
  | _ => un ← ParseUint s; if un <? 2 ^ 63 then Some un else None
  end.

(** [Set] of a flag, by its kind. *)
Definition setValue (v : value) (s : string) : option value :=
  match v with
  | VBool _ => VBool <$> ParseBool s
  | VInt _ => VInt <$> ParseInt s
  | VString _ => Some (VString s)
  end.

(** ** Parsing *)

Abbreviation FlagSet := (gmap string value).

(** Cut at the first [=]. *)
Fixpoint cut (s : string) : string * option string :=
  match s with
  | EmptyString => (EmptyString, None)
  | String "=" s => (EmptyString, Some s)
  | String c s => let r := cut s in (String c r.1, r.2)
  end.

(** An argument: none of the flags, the end of the flags, a flag of bad form, or
    a name with a value, if it has one. *)
Inductive argument := Plain | Terminator | BadSyntax | Named (name : string) (value : option string).

Definition nameOf (s : string) : argument :=
  match s with
  | EmptyString => BadSyntax
  | String "-" _ | String "=" _ => BadSyntax
  | String c s => let r := cut s in Named (String c r.1) r.2
  end.

Definition argumentOf (s : string) : argument :=
  match s with
  | String "-" (String "-" EmptyString) => Terminator
  | String "-" (String "-" s) => nameOf s
  | String "-" (String c s) => nameOf (String c s)
  | _ => Plain
  end.

(** [flag.Parse]: the values and the arguments that are left, or the code the
    process exits with. *)
Fixpoint Parse (args : list string) (fs : FlagSet) : Z + (FlagSet * list string) :=
  match args with
  | [] => inr (fs, [])
  | s :: rest =>
      match argumentOf s with
      | Plain => inr (fs, args)
      | Terminator => inr (fs, rest)
      | BadSyntax => inl 2
      | Named name o =>
          match fs !! name with
          | None => inl 2
          | Some v =>
              match v, o, rest with
              | VBool _, _, _ =>
                  match setValue v (default "true" o) with Some v' => Parse rest (<[name := v']> fs) | None => inl 2 end
              | _, Some x, _ =>
                  match setValue v x with Some v' => Parse rest (<[name := v']> fs) | None => inl 2 end
              | _, None, x :: rest =>
                  match setValue v x with Some v' => Parse rest (<[name := v']> fs) | None => inl 2 end
              | _, None, [] => inl 2
              end
          end
      end
  end.

(** ** The flags of [main] *)

Record params := Params {
  p_create : bool;
  p_assoc : string;
  p_monitor : string;
  p_port : Z;
  p_open : bool;
  p_redundancy : Z;
  p_chunks : Z;
  p_procs : Z;
  p_size : Z;
  p_dbpath : string;
  p_cpuprofile : string;
  p_webprofile : bool;
  p_localip : string;
  p_logtofile : string
}.

Definition DefaultDBSize : Z := 1024 * 1024 * 128.
Definition DefaultPort : Z := 9876.
Definition DefaultRedundancy : Z := 2.
Definition DefaultNumChunk : Z := 8.

(** The defaults, given what [runtime.NumCPU] and [com.GetLocalIP] return. *)
Definition defaults (numCPU : Z) (localIP : string) : params :=
  Params false "" "" DefaultPort false DefaultRedundancy DefaultNumChunk numCPU DefaultDBSize "" "" false localIP "".

Definition named (p : params) : list (string * value) :=
  [("create", VBool (p_create p)); ("assoc", VString (p_assoc p)); ("monitor", VString (p_monitor p));
   ("port", VInt (p_port p)); ("open", VBool (p_open p)); ("redundancy", VInt (p_redundancy p));
   ("chunks", VInt (p_chunks p)); ("procs", VInt (p_procs p)); ("size", VInt (p_size p));
   ("dbpath", VString (p_dbpath p)); ("cpuprofile", VString (p_cpuprofile p)); ("webprofile", VBool (p_webprofile p));
   ("localip", VString (p_localip p)); ("logtofile", VString (p_logtofile p))].

(** The set that the declarations build. *)
Definition formal (p : params) : FlagSet := list_to_map (named p).

Definition getBool (fs : FlagSet) (name : string) : bool := match fs !! name with Some (VBool b) => b | _ => false end.
Definition getInt (fs : FlagSet) (name : string) : Z := match fs !! name with Some (VInt z) => z | _ => 0 end.
Definition getString (fs : FlagSet) (name : string) : string := match fs !! name with Some (VString s) => s | _ => "" end.

(** What [main] reads through the pointers. *)
Definition params_of (fs : FlagSet) : params :=
  Params (getBool fs "create") (getString fs "assoc") (getString fs "monitor") (getInt fs "port") (getBool fs "open")
    (getInt fs "redundancy") (getInt fs "chunks") (getInt fs "procs") (getInt fs "size") (getString fs "dbpath")
    (getString fs "cpuprofile") (getBool fs "webprofile") (getString fs "localip") (getString fs "logtofile").

Definition parseFlags (args : list string) (p : params) : Z + params :=
  match Parse args (formal p) with inl code => inl code | inr r => inr (params_of r.1) end.

(** ** Numbers that are printed can be parsed *)

Lemma ParseUint_pretty x :
  (0 < x)%N → ∃ c s, pretty_N_go x "" = String c s ∧ 0 < digit c < 10 ∧ ParseUint (String c s) = Some (Z.of_N x).
Proof.
  intros (c & s & E & Hc & Hd)%pretty_go_digits. exists c, s. split_and!; [done|lia..|].
  rewrite <- Hd. unfold ParseUint. assert (c ≠ "0"%char) by (intros ->; by destruct Hc).
  by repeat (case_match; simplify_eq).
Qed.

Lemma ParseInt_pretty z : - 2 ^ 63 ≤ z < 2 ^ 63 → ParseInt (pretty z) = Some z.
Proof.
  intros Hz. unfold pretty, pretty_Z. destruct z as [|p|p]; [done|..].
  all: unfold pretty, pretty_positive, pretty, pretty_N; rewrite decide_False by done;
    destruct (ParseUint_pretty (N.pos p)) as (c & s & -> & Hc & E); [done|].
  - unfold ParseInt. assert (c ≠ "-"%char ∧ c ≠ "+"%char) as [? ?] by (split; intros ->; by destruct Hc).
    transitivity (un ← ParseUint (String c s); if un <? 2 ^ 63 then Some un else None).
    { by repeat (case_match; simplify_eq). }
    rewrite E. cbn [mbind option_bind]. change (Z.of_N (N.pos p)) with (Z.pos p). destruct (Z.ltb_spec (Z.pos p) (2 ^ 63)); [done|lia].
  - change ("-" +:+ String c s) with (String "-" (String c s)). cbn [ParseInt]. rewrite E. cbn [mbind option_bind].
    change (Z.of_N (N.pos p)) with (Z.pos p). destruct (Z.leb_spec (Z.pos p) (2 ^ 63)); [done|lia].
Qed.

(** ** A command line for every setting *)

Definition text (v : value) : string :=
  match v with VBool b => if b then "true" else "false" | VInt z => pretty z | VString s => s end.

(** [-name=value]. *)
Definition render (nv : string * value) : string := String "-" (nv.1 +:+ String "=" (text nv.2)).

Definition well_named (n : string) : Prop := ∀ x, argumentOf (String "-" (n +:+ String "=" x)) = Named n (Some x).

Definition same_kind (v v' : value) : Prop :=
  match v, v' with VBool _, VBool _ | VInt _, VInt _ | VString _, VString _ => True | _, _ => False end.

(** A number has to be an [int64]. *)
Definition fits (v : value) : Prop := match v with VInt z => - 2 ^ 63 ≤ z < 2 ^ 63 | _ => True end.

Lemma setValue_text v0 v : same_kind v0 v → fits v → setValue v0 (text v) = Some v.
Proof.
  destruct v0, v; cbn [same_kind fits setValue text]; try done.
  - intros _ _. by destruct b0.
  - intros _ Hz. by rewrite ParseInt_pretty.
Qed.

Definition settable (fs : FlagSet) (nv : string * value) : Prop :=
  well_named nv.1 ∧ fits nv.2 ∧ ∃ v0, fs !! nv.1 = Some v0 ∧ same_kind v0 nv.2.

Lemma settable_insert fs nv nv' :
  settable fs nv → settable fs nv' → settable (<[nv.1 := nv.2]> fs) nv'.
Proof.
  intros (_ & _ & v0 & Hv0 & Hk0) (Hw & Hf & v1 & Hv1 & Hk1). split_and!; [done..|].
  destruct (decide (nv.1 = nv'.1)) as [E|Hne]; [|by exists v1; rewrite lookup_insert_ne].
  rewrite E, lookup_insert_eq in *. exists nv.2. split; [done|]. rewrite Hv0 in Hv1. injection Hv1 as ->.
  by destruct v1, (nv.2), (nv'.2).
Qed.

Lemma Parse_render l : ∀ fs,
  Forall (settable fs) l → Parse (map render l) fs = inr (foldl (λ fs nv, <[nv.1 := nv.2]> fs) fs l, []).
Proof.
  induction l as [|nv l IH]; intros fs Hl; [done|]. apply Forall_cons in Hl as [Hnv Hl].
  assert (Forall (settable (<[nv.1 := nv.2]> fs)) l) as Hl' by (eapply Forall_impl; [exact Hl|]; intros nv'; by apply settable_insert).
  destruct Hnv as (Hw & Hf & v0 & Hv0 & Hk). cbn [map Parse foldl]. unfold render at 1. rewrite Hw, Hv0.
  pose proof (setValue_text v0 nv.2 Hk Hf) as Hset. destruct v0; cbn [from_option id]; rewrite Hset; by apply IH.
Qed.

Lemma foldl_insert_lookup (l : list (string * value)) n : ∀ fs : FlagSet,
  NoDup l.*1 → foldl (λ fs nv, <[nv.1 := nv.2]> fs) fs l !! n = from_option Some (fs !! n) ((list_to_map l : FlagSet) !! n).
Proof.
  induction l as [|[m v] l IH]; intros fs Hnd; [done|].
  cbn [fmap list_fmap fst] in Hnd. apply NoDup_cons in Hnd as [Hm Hnd].
  cbn [foldl list_to_map foldr fst snd curry]. rewrite IH by done. destruct (decide (m = n)) as [->|Hne].
  - rewrite !lookup_insert_eq, (not_elem_of_list_to_map_1 l n) by done. done.
  - rewrite !lookup_insert_ne by done. done.
Qed.

Definition params_ok (p : params) : Prop :=
  fits (VInt (p_port p)) ∧ fits (VInt (p_redundancy p)) ∧ fits (VInt (p_chunks p)) ∧ fits (VInt (p_procs p)) ∧
  fits (VInt (p_size p)).

Lemma named_nodup p : NoDup (named p).*1.
Proof. cbn. repeat (apply NoDup_cons; split; [set_solver|]). apply NoDup_nil_2. Qed.

Lemma named_settable p0 p : params_ok p → Forall (settable (formal p0)) (named p).
Proof.
  intros (? & ? & ? & ? & ?). unfold named.
  repeat (apply Forall_cons; split; [split_and!; [done|done|eexists; split; [reflexivity|done]]|]). by apply Forall_nil.
Qed.

(** The order of the flags on the command line does not matter. *)
Lemma Parse_named p0 p l :
  params_ok p → l ≡ₚ named p → Parse (map render l) (formal p0) = inr (formal p, []).
Proof.
  intros Hok Hl. rewrite Parse_render; [|rewrite Hl; by apply named_settable]. do 2 f_equal. apply map_eq. intros n.
  rewrite foldl_insert_lookup by (rewrite Hl; apply named_nodup).
  rewrite (list_to_map_proper l (named p)); [|rewrite Hl; apply named_nodup|done]. fold (formal p).
  destruct (formal p !! n) as [v|] eqn:E; [done|]. cbn [from_option].
  apply not_elem_of_list_to_map_2 in E. by apply not_elem_of_list_to_map_1.
Qed.

Lemma params_of_formal p : params_of (formal p) = p.
Proof. by destruct p. Qed.

(** Every setting of the flags, with numbers that fit in 64 bits, can be given
    on the command line: whatever the defaults are, parsing the flags written
    as [-name=value], in any order, yields the setting. *)
Theorem flags_roundtrip p0 p l :
  params_ok p → l ≡ₚ named p → parseFlags (map render l) p0 = inr p.
Proof. intros Hok Hl. unfold parseFlags. rewrite (Parse_named p0 p l Hok Hl). cbn [fst]. by rewrite params_of_formal. Qed.

(** The command lines of the documentation. *)
Definition readme_create : list string :=
  ["-create"; "-port"; "10000"; "-dbpath"; "DB0"; "-localip"; "127.0.0.1"; "-redundancy"; "2"].

Example readme_create_parsed :
  parseFlags readme_create (defaults 4 "10.0.0.1") =
  inr (Params true "" "" 10000 false 2 8 4 DefaultDBSize "DB0" "" false "127.0.0.1" "").
Proof. by vm_compute. Qed.

Example bad_flags :
  parseFlags ["-create"; "-chunks=eight"] (defaults 4 "") = inl 2 ∧ parseFlags ["-chunk=8"] (defaults 4 "") = inl 2 ∧
  parseFlags ["-port"] (defaults 4 "") = inl 2 ∧ parseFlags ["-port=9223372036854775808"] (defaults 4 "") = inl 2 ∧
  parseFlags ["-create=yes"] (defaults 4 "") = inl 2.
Proof. by vm_compute. Qed.

Lemma flags_roundtrip_witness :
  let p := Params true "" "" (-5) false 3 0x7f 4 DefaultDBSize "a=b" "" true "::1" "" in
  parseFlags (map render (reverse (named p))) (defaults 1 "x") = inr p.
Proof.
  intros p. apply (flags_roundtrip (defaults 1 "x") p); [|apply reverse_Permutation].
  repeat split; by vm_compute.
Defined.
