(* ===== verification/NetUtils.v ===== *)
(** * The local address ([src/com/utils.go])

    [GetLocalIP] looks for an IPv4 address of a network interface that is not a
    loopback one.  The addresses of the interfaces are an argument; an IP is 4 or
    16 bytes. *)
From Stdlib Require Import Ascii.
From stdpp Require Import pretty.
From S2P Require Import Prelude.
From S2P Require Import Store.
From S2P Require Import Decimal.

Inductive address := IPNet (ip : list byte) | OtherAddr.

(** An IPv4 address is 4 bytes, or 16 with a fixed prefix. *)
Definition v4Prefix : list byte := replicate 10 x00 ++ [xff; xff].

Definition To4 (ip : list byte) : option (list byte) :=
  if (length ip =? 4)%nat then Some ip
  else if (length ip =? 16)%nat && bool_decide (take 12 ip = v4Prefix) then Some (drop 12 ip)
  else None.

Definition IPv6loopback : list byte := replicate 15 x00 ++ [x01].

Definition IsLoopback (ip : list byte) : bool :=
  match To4 ip with
  | Some ip4 => bool_decide (head ip4 = Some x7f)
  | None => bool_decide (ip = IPv6loopback)
  end.

(** The four numbers, with points between them. *)
Fixpoint dotted (l : list byte) : string :=
  match l with
  | [] => ""
  | [b] => pretty (byte_to_Z b)
  | b :: l => pretty (byte_to_Z b) +:+ String "." (dotted l)
  end.

Fixpoint localIPOf (addrs : list address) : string :=
  match addrs with
  | [] => ""
  | IPNet ip :: addrs =>
      if negb (IsLoopback ip) then
        match To4 ip with Some ip4 => dotted ip4 | None => localIPOf addrs end
      else localIPOf addrs
  | OtherAddr :: addrs => localIPOf addrs
  end.

(** [addrs] is what [net.InterfaceAddrs] returns. *)
Definition GetLocalIP (addrs : error + list address) : string :=
  match addrs with inl _ => "" | inr l => localIPOf l end.

(** ** What it returns *)

(** The IPv4 address to return, if this one is. *)
Definition usable (a : address) : option (list byte) :=
  match a with IPNet ip => if IsLoopback ip then None else To4 ip | OtherAddr => None end.

Lemma localIPOf_skip a l : usable a = None → localIPOf (a :: l) = localIPOf l.
Proof. destruct a as [ip|]; cbn; [|done]. destruct (IsLoopback ip); cbn; [done|]. by intros ->. Qed.

Lemma localIPOf_take a l ip4 : usable a = Some ip4 → localIPOf (a :: l) = dotted ip4.
Proof. destruct a as [ip|]; cbn; [|done]. destruct (IsLoopback ip); cbn; [done|]. by intros ->. Qed.

Lemma To4_length ip ip4 : To4 ip = Some ip4 → length ip4 = 4%nat.
Proof.
  unfold To4. destruct (Nat.eqb_spec (length ip) 4); [congruence|]. destruct (Nat.eqb_spec (length ip) 16); [|done].
  cbn. case_bool_decide; [|done]. intros [= <-]. rewrite length_drop. lia.
Qed.

Lemma dotted_nonempty b l : dotted (b :: l) ≠ "".
Proof.
  assert (∀ s t, s +:+ String "." t ≠ "") as Happ by (by intros []).
  destruct l as [|c l]; [|apply Happ]. cbn [dotted]. unfold pretty, pretty_Z. destruct (byte_to_Z b) as [|p|p]; [done| |done].
  unfold pretty, pretty_positive, pretty, pretty_N. case_decide; [done|].
  destruct (pretty_go_digits (N.pos p)) as (c & s & -> & _); done.
Qed.

(** The result is the text of the first usable address, and empty if there is
    none. *)
Lemma GetLocalIP_spec l :
  match list_find (λ a, is_Some (usable a)) l with
  | Some (_, a) => ∃ ip4, usable a = Some ip4 ∧ length ip4 = 4%nat ∧ GetLocalIP (inr l) = dotted ip4 ∧ GetLocalIP (inr l) ≠ ""
  | None => GetLocalIP (inr l) = ""
  end.
Proof.
  cbn [GetLocalIP]. induction l as [|a l IH]; [done|]. cbn [list_find]. case_decide as Ha.
  - destruct Ha as [ip4 Hip]. assert (length ip4 = 4%nat) as Hlen.
    { destruct a as [ip|]; [|done]. cbn in Hip. destruct (IsLoopback ip); [done|]. by eapply To4_length. }
    exists ip4. rewrite (localIPOf_take a l ip4 Hip). split_and!; try done.
    destruct ip4 as [|b ip4]; [done|]. apply dotted_nonempty.
  - rewrite localIPOf_skip by (by apply eq_None_not_Some). destruct (list_find _ l) as [[]|]; done.
Qed.

Example local_ip_found :
  GetLocalIP (inr [OtherAddr; IPNet IPv6loopback; IPNet [x7f; x00; x00; x01]; IPNet (v4Prefix ++ [x0a; x00; x00; xff]);
    IPNet [x0a; x00; x00; x02]]) = "10.0.0.255".
Proof. by vm_compute. Qed.
