(* ===== verification/Main.v ===== *)
(** * The program ([src/treeless.go])

    [main] reads the flags and does one of three things: monitor a group of
    servers, create a group, or join one; then it waits for an interrupt and
    stops.  A log file that does not open ends it, and so does a socket: the
    servers of [Server] are made first and [listen] then starts their listeners,
    as the last step of [Create] and [Assoc].  The goroutine of the CPU
    profile runs beside it and may end the process; the one of the web profile
    serves the tools of the Go runtime and touches no state of the program. *)
From Stdlib Require Import Ascii.
From stdpp Require Import pretty.
From S2P Require Import Prelude.
From S2P Require Import Hashing.
From S2P Require Import Store.
From S2P Require Import PMap.
From S2P Require Import PMapSpec.
From S2P Require Import Chunk.
From S2P Require Import UdpHeartbeat.
From S2P Require Import Broker.
From S2P Require Import Core.
From S2P Require Import ComServer.
From S2P Require Import CoreProps.
From S2P Require Import CoreFiles.
From S2P Require Import ServerGroup.
From S2P Require Import ServerGroupSpec.
From S2P Require Import Remote.
From S2P Require Import Heartbeat.
From S2P Require Import Server.
From S2P Require Import ServerProps.
From S2P Require Import Client.
From S2P Require Import KVNet.
From S2P Require Import ClientProps.
From S2P Require Import Cluster.
From S2P Require Import Repair.
From S2P Require Import Boot.
From S2P Require Import Duo.
From S2P Require Import Connect.
From S2P Require Import Join.
From S2P Require Import CoreHistory.
From S2P Require Import Restart.
From S2P Require Import GroupString.
From S2P Require Import Flags.
From S2P Require Import NetUtils.

(** How [main] goes on: the process exits, [main] returns, or it waits for an
    interrupt while it serves, with the listeners of [com.Start], or monitors. *)
Inductive process := Exit (code : Z) | Return | Serving (s : DBServer) (l : ComServer) | Monitoring (h : Heartbeater).

Section main.
Context {W : Type} `{Network W} `{Json} `{Gommap}.

(** What the machine gives: processors, interfaces, the files of the directory
    of the database, whether a log file can be opened, and which sockets can. *)
Record machine := Machine {
  numCPU : Z;
  interfaces : error + list address;
  chunkFiles : string → list (string * list byte);
  OpenFile : string → bool;
  sockets : system
}.

Definition logFails (m : machine) (p : params) : bool :=
  negb (bool_decide (p_logtofile p = "")) && negb (OpenFile m (p_logtofile p)).

(** The end of [Create] and of [Assoc]: the server listens. *)
Definition listen (m : machine) (p : params) (s : DBServer) : comp W process :=
  l ← lift (ComServer.Start (sockets m) (str (p_localip p)) (p_port p));
  mret (Serving s l).

(** After the flags are parsed. *)
Definition run (fuel : nat) (m : machine) (p : params) : comp W process :=
  if logFails m p then mret Return
  else if negb (bool_decide (p_monitor p = "")) then
    err ← groupAssoc (str (p_monitor p)) [];
    match err with
    | Some _ => mret Return
    | None => h ← HBStart fuel; mret (Monitoring h)
    end
  else if p_create p then
    λ e, r ← Create fuel (str (p_localip p)) (p_port p) (p_dbpath p) (chunkFiles m (p_dbpath p)) (u64 (p_size p))
               (p_open p) (p_chunks p) (p_redundancy p) (e_net e);
         listen m p r.1 (Env (e_sg e) r.2)
  else if negb (bool_decide (p_assoc p = "")) then
    s ← Assoc fuel (str (p_localip p)) (p_port p) (p_dbpath p) (chunkFiles m (p_dbpath p)) (u64 (p_size p))
          (p_open p) (str (p_assoc p));
    listen m p s
  else mret (Exit 1).

Definition main (fuel : nat) (m : machine) (args : list string) : comp W process :=
  match parseFlags args (defaults (numCPU m) (GetLocalIP (interfaces m))) with
  | inl code => mret (Exit code)
  | inr p => run fuel m p
  end.

(** An interrupt arrives: [main] stops what it runs, a server with its listeners,
    and returns. *)
Definition interrupt (x : process) : outcome process :=
  match x with
  | Serving s l => s ← ServerStop s; Ret (Serving s (foldl ComServer.act l StopActions))
  | Monitoring h => Ret (Monitoring (HBStop h))
  | _ => Ret x
  end.
End main.

(** ** The profile of the CPU

    [main] declares a file [f], and the goroutine assigns the file it creates to
    a variable of its own of the same name; so the one that [main] closes after
    the interrupt is nil. *)

(** The profile: none, a goroutine that has not run yet, running into a file, or
    written out to a file that is still open. *)
Inductive profile := NoProfile | ProfileAt (path : string) | Profiling (path : string) | ProfileWritten (path : string).

Record session := Session { s_process : process; s_profile : profile }.

Definition startProfile (p : params) (x : process) : session :=
  Session x (if decide (p_cpuprofile p = "") then NoProfile else ProfileAt (p_cpuprofile p)).

(** The goroutine: [log.Fatal] exits with the code 1 if the file cannot be
    created. *)
Definition profileRuns (create : string → bool) (s : session) : session :=
  match s_profile s with
  | ProfileAt path => if create path then Session (s_process s) (Profiling path) else Session (Exit 1) NoProfile
  | _ => s
  end.

(** After an interrupt a server stops the profile and then itself; [f.Close] on
    the nil file returns an error that nobody reads.  The monitor returns without
    looking at the profile. *)
Definition interruptSession `{Gommap} (s : session) : outcome session :=
  x ← interrupt (s_process s);
  Ret (Session x (match s_process s, s_profile s with
                  | Serving _ _, Profiling path => ProfileWritten path
                  | _, y => y
                  end)).

(** The prefix of the lines of the log. *)
Definition logPrefix (p : params) : string := p_localip p +:+ ":" +:+ pretty (p_port p) +:+ " ".

(** The text that the monitor shows, at time [t]. *)
Definition clearScreen : list byte := [x1b] ++ str "[H" ++ [x1b] ++ str "[2J".

Definition screen {W} (e : env W) (t : time) : outcome (list byte) :=
  s ← groupString (e_sg e) t; Ret (clearScreen ++ s ++ newline).

(** ** Stopping *)

Lemma ServerStop_ok `{GommapLaws} s As g :
  server_rep s As g → ∃ s', ServerStop s = Ret s' ∧ s_stopped s' = true ∧ stop (s_hb s') = true ∧
    Forall (λ k, ∀ p, pm k = Some p → zlen (st_file (st p)) = 0) (Core.chunks (s_core s')).
Proof.
  intros Hr. unfold ServerStop. destruct (CoreClose_ok (s_core s) As (sv_core _ _ _ Hr)) as (c & -> & Hc). bsimpl. by eexists.
Qed.

(** The log file opens, or there is none. *)
Definition logs (m : machine) (p : params) : Prop := p_logtofile p = "" ∨ OpenFile m (p_logtofile p) = true.

(** The sockets of the address of the flags can be opened. *)
Definition opens (m : machine) (p : params) : Prop :=
  let addr := hostPort (str (p_localip p)) (p_port p) in
  ListenUDP (sockets m) (p_port p) = true ∧ ResolveTCPAddr (sockets m) addr = true ∧ ListenTCP (sockets m) addr = true.

(** The listeners after [Stop]. *)
Definition stoppedListeners : ComServer := mkCom false false true.

Lemma listen_ok {W} m p s (e : env W) : opens m p → listen m p s e = Ret (Serving s started, e).
Proof. intros (H1 & H2 & H3). unfold listen. msimpl. unfold lift. rewrite Start_spec, H1, H2, H3. done. Qed.

(** A socket that cannot be opened ends the process. *)
Lemma listen_panics {W} m p s (e : env W) : ¬ opens m p → listen m p s e = Panic.
Proof.
  intros Hn. unfold listen. msimpl. unfold lift. rewrite Start_spec. unfold opens in Hn.
  destruct (ListenUDP _ _), (ResolveTCPAddr _ _), (ListenTCP _ _); try done. by destruct Hn.
Qed.

Lemma run_logs `{Network W} `{Json} `{Gommap} fuel m p (e : env W) :
  logs m p →
  run fuel m p e =
  (if negb (bool_decide (p_monitor p = "")) then
     err ← groupAssoc (str (p_monitor p)) [];
     match err with Some _ => mret Return | None => h ← HBStart fuel; mret (Monitoring h) end
   else if p_create p then
     λ e, r ← Create fuel (str (p_localip p)) (p_port p) (p_dbpath p) (chunkFiles m (p_dbpath p)) (u64 (p_size p))
                (p_open p) (p_chunks p) (p_redundancy p) (e_net e);
          listen m p r.1 (Env (e_sg e) r.2)
   else if negb (bool_decide (p_assoc p = "")) then
     s ← Assoc fuel (str (p_localip p)) (p_port p) (p_dbpath p) (chunkFiles m (p_dbpath p)) (u64 (p_size p))
           (p_open p) (str (p_assoc p));
     listen m p s
   else mret (Exit 1)) e.
Proof.
  intros Hl. unfold run, logFails. destruct Hl as [->| ->]; [done|]. by rewrite andb_false_r.
Qed.

(** [-create] with sockets that open starts a server that is ready: whatever the
    network is, and with any flags that ask for a number of chunks above 0 and a
    size of at most 512 MB, it listens, holds every chunk, empty, and is alone in
    its group at the address of the flags.  An interrupt then stops it and closes
    its listeners and files. *)
Lemma run_creates `{Network W} `{GommapLaws} `{Json} fuel m p (e : env W) :
  logs m p → opens m p →
  p_monitor p = "" → p_create p = true → p_open p = false → 0 < p_size p ≤ maxChunkSize → 0 < p_chunks p < 2 ^ 63 →
  let addr := hostPort (str (p_localip p)) (p_port p) in
  let As := replicate (Z.to_nat (p_chunks p)) (Some (new_abs (p_size p))) in
  let g := {[addr := VInfo (allChunks (p_chunks p)) false (net_now (e_net e))]} in
  ∃ s s', run (S fuel) m p e = Ret (Serving s started, e) ∧ server_rep s As g ∧ redundancy (s_sg s) = p_redundancy p ∧
    LocalhostIPPort (s_sg s) = addr ∧ dbpath (s_core s) = p_dbpath p ∧ (∀ i, 0 ≤ i < p_chunks p → holdersOf g i = {[addr]}) ∧
    interrupt (Serving s started) = Ret (Serving s' stoppedListeners) ∧ s_stopped s' = true ∧
    Forall (λ k, ∀ q, pm k = Some q → zlen (st_file (st q)) = 0) (Core.chunks (s_core s')).
Proof.
  intros Hl Hso Hm Hc Ho Hs Hn addr As g. rewrite run_logs, Hm, Hc, Ho by done. cbn [bool_decide negb].
  assert (maxChunkSize < 2 ^ 64) by (by vm_compute). rewrite u64_small by lia.
  destruct (Create_sim fuel (str (p_localip p)) (p_port p) (p_dbpath p) (chunkFiles m (p_dbpath p)) (p_size p) (p_chunks p)
    (p_redundancy p) (e_net e) Hs Hn) as (s & E & Hr & _ & Hlo & Hred & _ & Hh).
  destruct (ServerStop_ok s _ _ Hr) as (s' & E' & Hst & _ & Hcl).
  exists s, s'. split_and!; [|exact Hr|exact Hred|exact Hlo|by eapply Create_dbpath|exact Hh| |exact Hst|exact Hcl].
  - rewrite bool_decide_true by done. cbn [negb]. rewrite E. bsimpl. rewrite listen_ok by done. by destruct e.
  - unfold interrupt. by rewrite E'.
Qed.

(** The monitor connects as a client does. *)
Lemma monitor_connects `{Network W} `{Json} fuel a (e e' : env W) c :
  Connect fuel a e = Ret (inr c, e') →
  ∃ h, (err ← groupAssoc a [];
        match err with Some _ => mret Return | None => h ← HBStart fuel; mret (Monitoring h) end) e = Ret (Monitoring h, e').
Proof.
  unfold Connect. msimpl. destruct (groupAssoc a [] e) as [[err e1]| |]; bsimpl; try done. cbn [fst snd].
  destruct err; [done|]. msimpl. destruct (HBStart fuel e1) as [[h e2]| |]; bsimpl; try done. cbn. intros [= <- <-]. by exists h.
Qed.

(** C36. [-monitor] of a running server shows its group.  The text, cut into words
    at its tabs and ends of lines, is: the number of servers; every server that
    this one knows, in the order of the addresses, with its address, the chunks it
    announced and the age of its last heartbeat; the number of chunks; and for each
    chunk, in order, its number and exactly those of the servers shown that hold
    it, in the order of their addresses.  For the words the addresses have to be
    non-empty and without tabs and ends of lines. *)
Theorem main_monitors `{Json} `{GommapLaws} fuel m args p (e : env cluster) S n g :
  parseFlags args (defaults (numCPU m) (GetLocalIP (interfaces m))) = inr p → logs m p →
  p_monitor p ≠ "" → gate (e_net e) S (str (p_monitor p)) n g → (size S + 4 ≤ fuel)%nat →
  ∃ h e' g', main fuel m args e = Ret (Monitoring h, e') ∧ view S g g' ∧ cluster_rep (e_net e') S ∧
    ∀ t, ∃ text, screen e' t = Ret (clearScreen ++ text ++ newline) ∧
      ((∀ a, is_Some (g' !! a) → readable a) → words text = shown n g' t).
Proof.
  intros Hp Hl Hm Hg Hf. destruct (connect_sim fuel (str (p_monitor p)) e S n g Hg Hf)
    as (h & e' & g' & E & [Hr Hw] & Hn & Hv & _).
  destruct (monitor_connects _ _ _ _ _ E) as (h' & E'). exists h', e', g'. split_and!; [|done|done|].
  - unfold main. rewrite Hp, run_logs by done. rewrite bool_decide_false by done. exact E'.
  - intros t. exists (spec_String n g' t). split; [|apply words_String]. unfold screen. rewrite (groupString_sim _ g' t Hr), Hn. done.
Qed.

(** [-assoc] with sockets that open joins the group of a running server: what
    [server.Assoc] guarantees holds of the program. *)
Theorem main_joins `{Json} `{GommapLaws} fuel m args p (e : env cluster) S n g :
  parseFlags args (defaults (numCPU m) (GetLocalIP (interfaces m))) = inr p → logs m p → opens m p →
  p_monitor p = "" → p_create p = false → p_assoc p ≠ "" → p_open p = false → 0 < p_size p ≤ maxChunkSize →
  let lh := hostPort (str (p_localip p)) (p_port p) in
  gate (e_net e) S (str (p_assoc p)) n g → (size S + 4 ≤ fuel)%nat → 0 < n < 2 ^ 63 → zlen lh < 2 ^ 16 →
  (∃ b, is_Some (g !! b) ∧ is_Some (S !! b)) →
  ∃ s e' g' S', main fuel m args e = Ret (Serving s started, e') ∧ server_rep s (replicate (Z.to_nat n) None) g' ∧
    is_Some (g' !! lh) ∧ cluster_rep (e_net e') S' ∧ announced_to lh g S S' ∧
    ∀ b, is_Some (g !! b) → is_Some (g' !! b).
Proof.
  intros Hp Hl Hso Hm Hc Ha Ho Hs lh Hg Hf Hn Hlh Hb. unfold main. rewrite Hp, run_logs, Hm, Hc, Ho by done.
  rewrite bool_decide_true, bool_decide_false by done. cbn [negb].
  assert (maxChunkSize < 2 ^ 64) by (by vm_compute). rewrite u64_small by lia. msimpl.
  destruct (Assoc_sim fuel (str (p_localip p)) (p_port p) (p_dbpath p) (chunkFiles m (p_dbpath p)) (p_size p)
    (str (p_assoc p)) e S n g Hg Hf Hs Hn Hlh Hb) as (s & e' & g' & S' & -> & Hr & _ & _ & Hself & Hw & Hann & Hk & _).
  msimpl. exists s, e', g', S'. by rewrite listen_ok.
Qed.

(** C35. The program can be stopped and started again: a server that was created
    with a directory closes on an interrupt after a history of its chunks; and the
    program started with [-create] and [-open] on that directory, in whatever
    order it lists its files, serves again: its state is well formed and every key
    reads as before. The history is as in C9: from a new core, without a panic and
    a full chunk in the specification, with keys that are not empty, shorter than
    64 MB and not reserved, with writes at times after 1988, different ones for
    the same key, with 4 bytes left in each chunk, and no other files in the
    directory. The flags keep the size and the number of chunks, the log file
    opens, and so do the sockets. *)
Theorem main_restarts `{Network W} `{Json} `{GommapLaws} fuel m args p (e : env W) s c0 es As rs :
  parseFlags args (defaults (numCPU m) (GetLocalIP (interfaces m))) = inr p → logs m p → opens m p →
  p_monitor p = "" → p_create p = true → p_open p = true → p_dbpath p ≠ "" →
  0 < p_size p ≤ maxChunkSize → 0 < p_chunks p < 2 ^ 63 → zlen es < 2 ^ 63 →
  Forall event_dated es → NoDup (omap event_tag es) →
  CoreNew (p_dbpath p) (p_size p) (p_chunks p) = Ret c0 →
  spec_events (p_size p) (replicate (Z.to_nat (p_chunks p)) None) es = Ret (As, rs) → RError (Some errStoreFull) ∉ rs →
  run_mixed c0 es = Ret (s_core s, rs) →
  (∀ k q, k ∈ Core.chunks (s_core s) → pm k = Some q → st_length (st q) + 4 ≤ p_size p) →
  listed (s_core s) (chunkFiles m (p_dbpath p)) →
  ∃ s1 s2 As' g, interrupt (Serving s started) = Ret (Serving s1 stoppedListeners) ∧
    main (S fuel) m args e = Ret (Serving s2 started, e) ∧
    server_rep s2 As' g ∧ ∀ key, good_key key → CoreGet (s_core s2) key = Ret (spec_get As key).
Proof.
  intros Hp Hl Hso Hm Hc Ho Hpath Hs Hn Hlen Hd Hnd Hnew Es Hrs Hrun Hroom Hlist.
  destruct (restart_sim (p_dbpath p) (p_size p) (p_chunks p) es As c0 (s_core s) rs (chunkFiles m (p_dbpath p)))
    as (c1 & c2 & As' & E1 & E2 & Hc2 & Hz & Hget); try done.
  destruct (Create_group fuel (str (p_localip p)) (p_port p) (p_dbpath p) (chunkFiles m (p_dbpath p)) (p_size p) true
    (p_chunks p) (p_redundancy p) (e_net e) c0 c2 As' Hn Hnew E2 Hc2 Hz) as (s2 & E & Hr & Hcore & _).
  eexists _, s2, As', _. split_and!; [| |exact Hr|].
  - unfold interrupt, ServerStop. rewrite E1. bsimpl. done.
  - unfold main. rewrite Hp, run_logs, Hm, Hc, Ho by done. rewrite bool_decide_true by done. cbn [negb].
    assert (maxChunkSize < 2 ^ 64) by (by vm_compute). rewrite u64_small by lia. rewrite E. bsimpl.
    rewrite listen_ok by done. by destruct e.
  - intros key Hk. rewrite Hcore, (CoreGet_sim _ _ _ Hc2 Hk), Hget. done.
Qed.

(** A profile file that cannot be created ends a running server without closing
    its files; otherwise an interrupt writes the profile out and stops the server,
    and leaves the file of the profile open. *)
Theorem profile_decides `{GommapLaws} p s As g create :
  server_rep s As g → p_cpuprofile p ≠ "" →
  let x := profileRuns create (startProfile p (Serving s started)) in
  if create (p_cpuprofile p)
  then ∃ s', interruptSession x = Ret (Session (Serving s' stoppedListeners) (ProfileWritten (p_cpuprofile p))) ∧ s_stopped s' = true
  else x = Session (Exit 1) NoProfile.
Proof.
  intros Hr Hp x. unfold x, profileRuns, startProfile. rewrite decide_False by done. cbn [s_profile s_process].
  destruct (create (p_cpuprofile p)); [|done]. destruct (ServerStop_ok s As g Hr) as (s' & E & Hst & _).
  exists s'. unfold interruptSession, interrupt. cbn [s_process s_profile]. rewrite E. by bsimpl.
Qed.

(** ** What a user asks for

    The flags of the documentation, as a user writes them. *)
Inductive choice :=
  | CreateGroup | AssocTo (addr : string) | MonitorOf (addr : string) | OpenFolder
  | Port (z : Z) | Redundancy (z : Z) | Chunks (z : Z) | Procs (z : Z) | Size (z : Z)
  | DbPath (s : string) | CpuProfile (s : string) | WebProfile | LocalIP (s : string) | LogToFile (s : string).

Definition flag (c : choice) : string :=
  match c with
  | CreateGroup => "-create" | AssocTo a => "-assoc=" +:+ a | MonitorOf a => "-monitor=" +:+ a | OpenFolder => "-open"
  | Port z => "-port=" +:+ pretty z | Redundancy z => "-redundancy=" +:+ pretty z | Chunks z => "-chunks=" +:+ pretty z
  | Procs z => "-procs=" +:+ pretty z | Size z => "-size=" +:+ pretty z
  | DbPath s => "-dbpath=" +:+ s | CpuProfile s => "-cpuprofile=" +:+ s | WebProfile => "-webprofile"
  | LocalIP s => "-localip=" +:+ s | LogToFile s => "-logtofile=" +:+ s
  end.

(** A number has to be an [int64]. *)
Definition choice_ok (c : choice) : Prop :=
  match c with
  | Port z | Redundancy z | Chunks z | Procs z | Size z => - 2 ^ 63 ≤ z < 2 ^ 63
  | _ => True
  end.

(** The setting that a list of choices asks for: the last choice for a flag counts,
    and what is not chosen is as documented: port 9876, redundancy 2, 8 chunks of
    128 MB, in memory only, at an address of the machine. *)
Definition choose (p : params) (c : choice) : params :=
  let 'Params cr a mo po op re ch pr si db cp we ip lo := p in
  match c with
  | CreateGroup => Params true a mo po op re ch pr si db cp we ip lo
  | AssocTo x => Params cr x mo po op re ch pr si db cp we ip lo
  | MonitorOf x => Params cr a x po op re ch pr si db cp we ip lo
  | OpenFolder => Params cr a mo po true re ch pr si db cp we ip lo
  | Port z => Params cr a mo z op re ch pr si db cp we ip lo
  | Redundancy z => Params cr a mo po op z ch pr si db cp we ip lo
  | Chunks z => Params cr a mo po op re z pr si db cp we ip lo
  | Procs z => Params cr a mo po op re ch z si db cp we ip lo
  | Size z => Params cr a mo po op re ch pr z db cp we ip lo
  | DbPath x => Params cr a mo po op re ch pr si x cp we ip lo
  | CpuProfile x => Params cr a mo po op re ch pr si db x we ip lo
  | WebProfile => Params cr a mo po op re ch pr si db cp true ip lo
  | LocalIP x => Params cr a mo po op re ch pr si db cp we x lo
  | LogToFile x => Params cr a mo po op re ch pr si db cp we ip x
  end.

Definition chosen (m : machine) (l : list choice) : params :=
  foldl choose (Params false "" "" 9876 false 2 8 (numCPU m) 134217728 "" "" false (GetLocalIP (interfaces m)) "") l.

(** One flag changes one field. *)
Lemma Parse_number name p z v0 rest :
  well_named name → formal p !! name = Some (VInt v0) → - 2 ^ 63 ≤ z < 2 ^ 63 →
  Parse (String "-" (name +:+ String "=" (pretty z)) :: rest) (formal p) = Parse rest (<[name := VInt z]> (formal p)).
Proof. intros Hw Hv Hz. cbn [Parse]. rewrite Hw, Hv. cbn [setValue]. by rewrite ParseInt_pretty. Qed.

Lemma Parse_choice p c rest : choice_ok c → Parse (flag c :: rest) (formal p) = Parse rest (formal (choose p c)).
Proof.
  destruct p as [cr a mo po op re ch pr si db cp we ip lo]. intros Hc. destruct c; try done; cbn [choice_ok] in Hc.
  - by apply (Parse_number "port" (Params cr a mo po op re ch pr si db cp we ip lo) z po).
  - by apply (Parse_number "redundancy" (Params cr a mo po op re ch pr si db cp we ip lo) z re).
  - by apply (Parse_number "chunks" (Params cr a mo po op re ch pr si db cp we ip lo) z ch).
  - by apply (Parse_number "procs" (Params cr a mo po op re ch pr si db cp we ip lo) z pr).
  - by apply (Parse_number "size" (Params cr a mo po op re ch pr si db cp we ip lo) z si).
Qed.

Lemma parseFlags_choices l : ∀ p, Forall choice_ok l → parseFlags (map flag l) p = inr (foldl choose p l).
Proof.
  induction l as [|c l IH]; intros p Hl; [unfold parseFlags; cbn [map Parse foldl fst]; by rewrite params_of_formal|].
  apply Forall_cons in Hl as [Hc Hl]. unfold parseFlags in *. cbn [map foldl]. rewrite Parse_choice by done. by apply IH.
Qed.

(** C37. The program does what its flags ask for.  For any list of flags, written as
    the documentation has them, in any order and with repetitions (the last one
    counts), with numbers that fit in 64 bits, and with a log file that opens: if
    they ask for a new group and not for the monitor or the opening of a folder,
    with a size above 0 of at most 512 MB, a number of chunks above 0, and an
    address whose sockets open, then the program serves at the chosen address, with
    the chosen number of empty chunks of the chosen size, redundancy and folder,
    alone in its group; and if they name no operation it exits with the code 1.
    What is not chosen has its documented default: the port 9876, redundancy 2, 8
    chunks of 128 MB, no folder. *)
Theorem main_obeys_flags `{Network W} `{GommapLaws} `{Json} fuel m l (e : env W) :
  Forall choice_ok l → let p := chosen m l in logs m p → p_monitor p = "" →
  (p_create p = true → p_open p = false → opens m p → 0 < p_size p ≤ maxChunkSize → 0 < p_chunks p < 2 ^ 63 →
   let addr := hostPort (str (p_localip p)) (p_port p) in
   ∃ s, main (S fuel) m (map flag l) e = Ret (Serving s started, e) ∧
     server_rep s (replicate (Z.to_nat (p_chunks p)) (Some (new_abs (p_size p))))
       {[addr := VInfo (allChunks (p_chunks p)) false (net_now (e_net e))]} ∧
     LocalhostIPPort (s_sg s) = addr ∧ redundancy (s_sg s) = p_redundancy p ∧ dbpath (s_core s) = p_dbpath p) ∧
  (p_create p = false → p_assoc p = "" → main fuel m (map flag l) e = Ret (Exit 1, e)).
Proof.
  intros Hok p Hl Hm.
  assert (∀ f, main f m (map flag l) e = run f m p e) as Hmain by (intros f; unfold main; by rewrite parseFlags_choices).
  split; intros Hc.
  - intros Ho Hso Hs Hn addr. destruct (run_creates fuel m p e Hl Hso Hm Hc Ho Hs Hn) as (s & _ & E & Hr & Hred & Hlo & Hdb & _).
    exists s. by rewrite Hmain.
  - intros Ha. rewrite Hmain, run_logs, Hm, Hc, Ha by done. by rewrite bool_decide_true.
Qed.

(** ** Witnesses *)

Definition sample_machine : machine :=
  Machine 4 (inr [IPNet [x7f; x00; x00; x01]; IPNet [x0a; x00; x00; x07]]) (λ _, []) (λ _, true)
    (System (λ _, true) (λ _, true) (λ _, true)).

(** The group of the documentation, with the port given twice. *)
Lemma main_obeys_flags_witness :
  let _ := plainGommap in let _ := noJson in
  let l := [Port 1; CreateGroup; Chunks 4; LocalIP "127.0.0.1"; DbPath "DB0"; Port 10000] in
  ∃ (e : env cluster) (s : DBServer), main 1 sample_machine (map flag l) e = Ret (Serving s started, e) ∧
    LocalhostIPPort (s_sg s) = str "127.0.0.1:10000" ∧ redundancy (s_sg s) = 2 ∧ dbpath (s_core s) = "DB0".
Proof.
  intros G J l. destruct feud_sg as (sg & _). exists (Env sg (Cluster ∅ [] 0)).
  destruct (@main_obeys_flags cluster _ G plainGommap_laws J 0 sample_machine l (Env sg (Cluster ∅ [] 0))) as [H _].
  - repeat constructor; by vm_compute.
  - by left.
  - reflexivity.
  - destruct H as (s & E & _ & Hlo & Hred & Hdb); [reflexivity|reflexivity|by vm_compute..|].
    exists s. split; [exact E|]. split; [|exact (conj Hred Hdb)]. rewrite Hlo. vm_compute. reflexivity.
Defined.

Lemma main_monitors_witness :
  let _ := plainGommap in
  ∃ (J : Json) (e e' : env cluster) (h : Heartbeater) (g : group),
    main 6 sample_machine ["-monitor"; "a:1"] e = Ret (Monitoring h, e') ∧ 
    ∃ text, screen e' 5 = Ret (clearScreen ++ text ++ newline) ∧ words text = shown 1 g 5.
Proof.
  intros G. destruct duo_gates as (J & w & _ & Hg). destruct feud_sg as (sg & _).
  destruct (@main_monitors J G plainGommap_laws 6 sample_machine ["-monitor"; "a:1"]
    (Params false "" "a:1" 9876 false 2 8 4 DefaultDBSize "" "" false "10.0.0.7" "") (Env sg w) (duo_map blank blank) 1 feud_group)
    as (h & e' & g' & E & Hv & _ & Ht).
  - by vm_compute.
  - by left.
  - discriminate.
  - apply Hg. by left.
  - by vm_compute.
  - destruct (Ht 5) as (text & Es & Hw). exists J, (Env sg w), e', h, g'. split; [exact E|]. exists text. split; [exact Es|].
    apply Hw. intros a Ha. assert (a = addr_a ∨ a = addr_b) as [->| ->]; [|by split; vm_compute; repeat constructor..].
    apply (vw_real _ _ _ Hv) in Ha. unfold feud_group, duo_map in Ha. rewrite !lookup_insert_is_Some, !lookup_singleton_is_Some in Ha.
    destruct Ha as [[|[_ ]]|[|[_ ]]]; by subst; auto.
Defined.

(** The program is started again on the directory of a history with deletions and
    defragmentations. *)
Lemma main_restarts_witness :
  let _ := plainGommap in let _ := noJson in
  ∃ (m : machine) (e : env cluster) (s s1 s2 : DBServer), interrupt (Serving s started) = Ret (Serving s1 stoppedListeners) ∧
    main 1 m ["-create"; "-open"; "-dbpath=db"; "-chunks=1"; "-size=300"] e = Ret (Serving s2 started, e) ∧
    CoreGet (s_core s2) (str "b") = Ret (inr (Some (late 6 "z"))).
Proof.
  intros G J. assert (0 < 300 ≤ maxChunkSize ∧ zlen sample_events < 2 ^ 63 ∧ good_key (str "b")) as (Hsz & Hlen & Hk) by (by vm_compute).
  destruct sample_events_ok as (Hd & Hnd & _).
  destruct (@sample_history G plainGommap_laws) as (c0 & c & a & rs & files & Hnew & E & Hrs & Er & Hroom & Hfiles & Hb).
  destruct feud_sg as (sg & _). set (m := Machine 4 (inr [IPNet [x0a; x00; x00; x07]]) (λ _, files) (λ _, true)
    (System (λ _, true) (λ _, true) (λ _, true))).
  destruct (@main_restarts cluster _ J G plainGommap_laws 0 m ["-create"; "-open"; "-dbpath=db"; "-chunks=1"; "-size=300"]
    (Params true "" "" 9876 true 2 1 4 300 "db" "" false "10.0.0.7" "") (Env sg (Cluster ∅ [] 0)) (mkDB c sg newHeartbeater false)
    c0 sample_events [Some a] rs) as (s1 & s2 & As' & g & E1 & E2 & _ & Hget).
  - vm_compute. reflexivity.
  - left. reflexivity.
  - split; [|split]; reflexivity.
  - reflexivity.
  - reflexivity.
  - reflexivity.
  - discriminate.
  - exact Hsz.
  - cbn. lia.
  - exact Hlen.
  - exact Hd.
  - exact Hnd.
  - exact Hnew.
  - exact E.
  - exact Hrs.
  - exact Er.
  - exact Hroom.
  - exact Hfiles.
  - exists m, (Env sg (Cluster ∅ [] 0)), (mkDB c sg newHeartbeater false), s1, s2. split; [exact E1|]. split; [exact E2|].
    rewrite (Hget _ Hk). by rewrite Hb.
Defined.
